(* ===== verification/_CoqProject ===== *)
-Q . S2P
Prelude.v
GoText.v
Sha256.v
Velocity.v
Investigator.v
HttpServer.v
Money.v
Journal.v
TransferDomain.v
Bank.v
RiskPolicy.v
Database.v
PgInstance.v
LedgerRepo.v
LedgerSpec.v
LedgerCorrect.v
LedgerTheorems.v
WalletRepo.v
WalletTheorems.v
Json.v
GoTime.v
Event.v
TransferEvents.v
Outbox.v
OutboxRepo.v
OutboxTheorems.v
Inbox.v
Quarantine.v
TransferRepo.v
TransferSpec.v
TransferStore.v
StoreSpec.v
JsonDecode.v
Strconv.v
TimeParse.v
EventParse.v
EnvelopeJson.v
Documents.v
Publisher.v
AuditWriter.v
RiskWorker.v
TransactionWorker.v
Consumer.v
ReviewCase.v
WorkerSpec.v
System.v
Ready.v
Messages.v
Jsonb.v
Progress.v
Scenario.v
Liveness.v
SystemTheorems.v
ConsumerTheorems.v
ReviewHttp.v
WalletApi.v
Processes.v
Runtime.v
Delivery.v
Drain.v
Pipeline.v
BankRefinement.v
Recomputed.v
Statements.v
Refusals.v
Schema.v
SchemaTheorems.v
Guards.v
