(* ===== verification/Prelude.v ===== *)
(** * Verification of the intelligent wallet ledger

    The program keeps wallets and a double-entry ledger in PostgreSQL.  A transfer
    is created directly, or accepted as pending and then assessed by the risk
    worker, decided by an analyst when it needs review, and posted to the ledger
    by the transaction worker.  The parts talk through events: an event is stored
    in the outbox in the transaction that causes it, a publisher sends it to
    Kafka, and each consumer records it in its inbox in the transaction of its
    effect, or puts it in quarantine when it cannot be read.

    ** How the code is modelled

    A Go function is a Rocq function of the same name; an [error] is the list of
    the leaves of its wrap tree (below), and messages are dropped.  Integers are
    [Z] with the wrap-around of [int64] written out where the code computes;
    strings are bytes; times are nanoseconds with an offset.  Maps are [gmap]s and
    where the order of a range over a map matters it is an argument.

    The database is a record of tables ([Database.DB]).  A SQL statement is a
    function on the tables with the constraints of the migrations it can meet, a
    transaction a program in a state monad ([Tx]) that is run atomically
    ([run_tx]; the code asks for serializable isolation), and a statement outside
    of a transaction is run by [run_stmt].  Everything the server and the network
    decide is a [Service], universally quantified in the theorems: which
    statements fail and how, whether a commit is applied, refused, or applied with
    its acknowledgement lost, when the context is cancelled, the generated
    identifiers and the clock.  How pgx writes and reads UUIDs, timestamps and
    documents is the interface [Pg] with the laws [PgLaws] (and [JsonbLaws], that a
    document of visible text within the code's bounds is stored in no more bytes
    than the code measures, and [JsonbText], that an object is read back with its
    members in some order and white space between the tokens); PgInstance.v gives a concrete driver, on which every witness computes.

    ** Files, and the sources they model (under src/)

    - Prelude.v: errors, results, 64-bit integers, times, tactics and hints.
      GoText.v (strings, unicode/utf8, UUID text), Sha256.v (crypto/sha256),
      Json.v and JsonDecode.v (encoding/json), GoTime.v and TimeParse.v (RFC 3339),
      Strconv.v (strconv, time.ParseDuration): what the sources use of the
      standard library, to the byte.
    - Money.v, Journal.v: internal/ledger/domain.  TransferDomain.v:
      internal/transfer/domain.  RiskPolicy.v: internal/risk/domain.  Velocity.v:
      internal/risk/redis.
    - Database.v, PgInstance.v: the tables of migrations/, transactions and the
      driver.
    - LedgerRepo.v: internal/ledger/postgres; LedgerSpec.v what posting does,
      LedgerCorrect.v the ledger's invariant, LedgerTheorems.v its properties.
    - WalletRepo.v, WalletTheorems.v: internal/wallet and its repository.
    - Event.v, EnvelopeJson.v: internal/event (drafts and envelopes; their JSON).
      TransferEvents.v, EventParse.v: internal/transfer/events (building; reading).
    - Outbox.v, OutboxRepo.v, OutboxTheorems.v: internal/outbox/postgres (adding;
      leasing and completing).  Publisher.v: internal/outbox/publisher.go against
      the type classes [Store] and [Producer].  Delivery.v: any number of
      publishers interleaved with the application.  Drain.v: their progress.
    - Inbox.v: internal/inbox.  Quarantine.v: internal/quarantine.
    - TransferRepo.v, TransferStore.v: internal/transfer/postgres; TransferSpec.v
      and StoreSpec.v what they do to the tables.  AuditWriter.v: internal/audit.
    - RiskWorker.v, TransactionWorker.v: the handlers of internal/app/riskworker
      and internal/app/transactionworker; Consumer.v the consumer loop both have
      in run.go, ConsumerTheorems.v its properties, proved against the class
      [HandlerLaws] that both handlers meet.  ReviewCase.v: internal/app/reviewcase.
      WorkerSpec.v: what the handlers do to the tables.
    - ReviewHttp.v: internal/identity/oidc and internal/adapter/http/reviewdecision.
      Processes.v: the configuration and start of the four processes, and
      internal/outbox/kafka; Runtime.v their [Run] functions and the commands of
      cmd/, with what they open and release, and the goroutine of the API.
      Investigator.v: internal/app/investigator.
    - HttpServer.v: internal/platform/httpserver/metrics.go.  WalletApi.v:
      internal/platform/httpserver/server.go with the routing of http.ServeMux.
    - System.v: the operations as steps on the shared tables and the invariant of
      the reachable states; Scenario.v a run of all of them; SystemTheorems.v the
      properties of the whole.
    - Ready.v: a second invariant, on what a transfer may not have behind it yet;
      Jsonb.v: the law of the document columns; Progress.v: on a healthy service
      each operation of the workers gets through; Liveness.v: so does a transfer.
    - Documents.v: JSON documents with their members in another order, and what is
      read of a stored event; Messages.v: a third invariant, the event that each
      waiting transfer has in the outbox; Pipeline.v: the path of a transfer from
      its row through the outbox, the publisher and the broker to the worker.
    - Bank.v: the abstract specification, a bank of holdings, orders and verdicts
      with its events; BankRefinement.v: the tables as such a bank, and each step of
      the program as one of its events or none.  Recomputed.v: the balances as a
      function of the completed transfers and the direct postings.
    - Statements.v: a logic for predicates that transactions keep, against the class
      [StatementInvariant]; Schema.v: the constraints of migrations/ as a predicate
      on the tables, and its instance; SchemaTheorems.v: every run respects it, since
      the statements refuse what the schema refuses.  Refusals.v: a logic for the
      errors that transactions report; Guards.v: the checks of the Go code come
      before those of the schema.

    ** What the theorems show

    - Domain: amounts are added exactly or refused; entries balance and reverse;
      a transfer is normalized and its entry correct; lifecycles end; a policy
      decides as stated, case by case, and more money is never judged milder.
    - Ledger: [Post] refines "check that the entry is postable, then add it", is
      atomic and applied at most once under any faults and retries, keeps every
      snapshot equal to its postings and the sums zero, and reports overdrafts;
      [Get] and [Reconcile] are exact.
    - Text: events and envelopes survive marshalling, storage and parsing.
    - Outbox: leases are exclusive and completion is fenced by the token, column by
      column; nothing
      is marked as published before the broker has it, for any interleaving of
      publishers with the application and any crashes; and with a healthy
      database and broker everything due is published.
    - Consumers: offsets are committed in order and only for records that had
      their effect, belong to others or are in quarantine; a redelivered event
      changes nothing; the workers' outcomes on every branch.
    - Transfers: one key creates one transfer, a creation is all or nothing, the
      history of a stored transfer follows the lifecycle, a review is decided once
      by an analyst, money moves only when a transfer completes.
    - Progress: on a service without faults the event or decision a transfer waits
      for moves it on, in every reachable state: nothing the program has written
      before can stand in its way.  The event is there too: once the publisher has
      drained the outbox, the log holds for every waiting transfer a message that
      its worker reads, recognizes and acts on, under the conditions that
      [Pipeline.transfers_delivered] spells out.
    - The edge: an HTTP request changes the tables only as the decision of a
      verified analyst within the rate limit; the limiter is bounded and keeps
      principals apart; a request finds its route and is logged and counted under
      one of five labels, while the method label is the client's; a configuration
      that loads is fit to run.
    - The commands: what is opened is released, loops begin only when the services
      have answered, status 0 means a requested end; the API's server and its
      goroutine do not block each other and a clean end has answered every request.
    - The specification: [BankRefinement.system_refines_bank] says that all of the
      above is a refinement of the few lines of Bank.v, whose state has no events,
      leases, retries or journal; [Recomputed.balances_recomputed] that a balance
      does not depend on how its books came about.
    - The schema: [Guards.checks_guarded] says that the validation in Go suffices
      for the CHECK constraints of the migrations: no operation runs into one, but
      for the server's clock and a deciding subject with white space around it.
    - [SystemTheorems.system_sound] states the invariant of the whole: in every
      reachable state the books balance, completed transfers moved their money
      exactly once, and each state of a transfer was announced.

    ** Fuel and bounds

    Loops over strings recurse on the string, with a count of the bytes of a rune
    still to pass; the right trim, JSON and durations take the length of the text
    (twice for JSON: a value and a member or element), and each round consumes a
    byte.  Retries have the code's bound.  The endless loops take the number of
    their rounds ([publisher_Run]) or the polls so far ([consume]); [None] says
    that they still run.

    ** Not modelled

    The texts of errors and logs (except the diagnostic the outbox stores), trace
    spans, the exposition of the metrics and their latency histogram; what pools,
    clients and sockets do inside (whether they open, answer and fail is an
    argument) and the timeouts of the HTTP server; timers between polls; the
    Content-Type headers of the responses; the mux's redirects (an argument); nil
    receivers and arguments, but for the value of a Kafka record.  Sequence numbers are not lost on rollback (the code
    only relies on their order).  The Kafka client, go-oidc, the token bucket of
    x/time/rate, the random source and the Redis server are parameters (Redis's
    four commands as documented).  Of the schema: the down migrations, indexes
    that only serve speed, comments, [jsonb_typeof], and the column defaults and
    surrogate keys no code reads. *)

From stdpp Require Import base list gmap strings sorting numbers.
From Stdlib Require Import ZArith Lia.

Open Scope Z_scope.

(** ** Errors and results

    A Go [error] is modelled by the leaves of its wrap tree, in the depth-first
    order in which [errors.Is] and [errors.As] visit them: sentinels declared
    with [errors.New] (identified by their unique message), errors raised by
    PostgreSQL (SQLSTATE and constraint name) and other leaves.  The text added
    by [fmt.Errorf] around a wrapped error is not modelled; [%w: %w] is list
    concatenation. *)

Record PgError := mkPgError {
  Code : string;
  ConstraintName : string
}.

#[export] Instance PgError_eq_dec : EqDecision PgError.
Proof. solve_decision. Defined.

Inductive leaf : Type :=
| Sentinel (message : string)
| Postgres (e : PgError)
| Other (message : string).

#[export] Instance leaf_eq_dec : EqDecision leaf.
Proof. solve_decision. Defined.

Definition error : Type := list leaf.

(** [errors.New]: an error that is its own only leaf. *)
Definition errors_New (message : string) : leaf := Sentinel message.

(** [errors.Is err target]. *)
Definition errors_Is (err : error) (target : leaf) : bool :=
  bool_decide (target ∈ err).

(** [errors.AsType[*pgconn.PgError] err]: the first PostgreSQL leaf. *)
Fixpoint errors_AsPg (err : error) : option PgError :=
  match err with
  | [] => None
  | Postgres e :: _ => Some e
  | _ :: rest => errors_AsPg rest
  end.

Inductive Result (A : Type) : Type :=
| Ok (a : A)
| Err (e : error).
Arguments Ok {A} _.
Arguments Err {A} _.

#[export] Instance Result_ret : MRet Result := fun A a => Ok a.
#[export] Instance Result_bind : MBind Result := fun A B f m =>
  match m with Ok a => f a | Err e => Err e end.

(** [if err != nil { return fmt.Errorf("%w: ...: %w", leaves..., err) }]: the
    sentinel leaves put in front of the failure. *)
Definition wrap_err {A} (leaves : error) (m : Result A) : Result A :=
  match m with Ok a => Ok a | Err e => Err (leaves ++ e) end.

Definition is_ok {A} (m : Result A) : bool :=
  match m with Ok _ => true | Err _ => false end.

(** A guard of the form [if cond { return ..., err }]. *)
Definition fail_if (cond : bool) (e : error) : Result unit :=
  if cond then Err e else Ok tt.

(** ** Machine integers *)

Definition MaxInt64 : Z := 9223372036854775807.
Definition MinInt64 : Z := -9223372036854775808.

(** Two's complement reduction to [int64]. *)
Definition wrap64 (z : Z) : Z := (z + 2 ^ 63) mod 2 ^ 64 - 2 ^ 63.

Definition i64_add (a b : Z) : Z := wrap64 (a + b).
Definition i64_sub (a b : Z) : Z := wrap64 (a - b).
Definition i64_neg (a : Z) : Z := wrap64 (- a).
Definition i64_mul (a b : Z) : Z := wrap64 (a * b).

Definition in_int64 (z : Z) : Prop := MinInt64 <= z <= MaxInt64.

#[export] Instance in_int64_dec z : Decision (in_int64 z).
Proof. unfold in_int64. apply _. Defined.

(** ** Times

    A [time.Time] is an instant, in nanoseconds since Go's zero time
    (January 1, year 1, 00:00:00 UTC), with the offset of its location. *)

Record Time := mkTime {
  instant : Z;
  offset : Z
}.

#[export] Instance Time_eq_dec : EqDecision Time.
Proof. solve_decision. Defined.

Definition zeroTime : Time := mkTime 0 0.
(** [time.Second], in nanoseconds; a [time.Duration] is a number of them. *)
Definition Second : Z := 1000000000.
Definition add_seconds (t : Time) (secs : Z) : Time := mkTime (instant t + secs * Second) (offset t).
Definition UTC (t : Time) : Time := mkTime (instant t) 0.
Definition IsZero (t : Time) : bool := instant t =? 0.
Definition TimeEqual (t u : Time) : bool := instant t =? instant u.

(** ** Proof automation *)

Create HintDb wallet.

(** Break the boolean structure of guards into propositions. *)
Ltac bool_step :=
  match goal with
  | H : negb _ = true |- _ => apply negb_true_iff in H
  | H : negb _ = false |- _ => apply negb_false_iff in H
  | H : _ && _ = true |- _ => apply andb_true_iff in H as [? ?]
  | H : _ || _ = false |- _ => apply orb_false_iff in H as [? ?]
  | H : bool_decide _ = true |- _ => apply bool_decide_eq_true in H
  | H : bool_decide _ = false |- _ => apply bool_decide_eq_false in H
  | H : (_ =? _) = true |- _ => apply Z.eqb_eq in H
  | H : (_ =? _) = false |- _ => apply Z.eqb_neq in H
  | H : (_ <? _) = true |- _ => apply Z.ltb_lt in H
  | H : (_ <? _) = false |- _ => apply Z.ltb_ge in H
  | H : (_ <=? _) = true |- _ => apply Z.leb_le in H
  | H : (_ <=? _) = false |- _ => apply Z.leb_gt in H
  end.

Ltac bool_simpl := repeat bool_step.

(** Invert a successful run of result code: every bind, guard and match that
    could have failed is turned into the fact that it did not. *)
Ltac result_step :=
  match goal with
  | H : Ok _ = Ok _ |- _ => injection H as H
  | H : Err _ = Err _ |- _ => injection H as H
  | H : Ok _ = Err _ |- _ => discriminate H
  | H : Err _ = Ok _ |- _ => discriminate H
  | H : fail_if _ _ = Ok _ |- _ => unfold fail_if in H
  | H : mret _ = Ok _ |- _ => unfold mret, Result_ret in H
  | H : mbind _ ?m = Ok _ |- _ =>
      let E := fresh "E" in destruct m eqn:E; cbn [mbind Result_bind] in H; [|discriminate H]
  | H : wrap_err _ ?m = Ok _ |- _ =>
      let E := fresh "E" in destruct m eqn:E; cbn [wrap_err] in H; [|discriminate H]
  | H : (if ?b then Err _ else _) = Ok _ |- _ =>
      let E := fresh "E" in destruct b eqn:E; [discriminate H|]
  | H : (if ?b then _ else Err _) = Ok _ |- _ =>
      let E := fresh "E" in destruct b eqn:E; [|discriminate H]
  | H : match ?o with Some _ => _ | None => Err _ end = Ok _ |- _ =>
      let E := fresh "E" in destruct o eqn:E; [|discriminate H]
  | H : (let (_, _) := ?p in _) = Ok _ |- _ =>
      let E := fresh "E" in destruct p eqn:E
  end.

Ltac result_inv := repeat (result_step; subst).

(** Linear arithmetic over the 64-bit range. *)
Ltac int64_lia := unfold in_int64, MinInt64, MaxInt64 in *; lia.

(** Decide the guards of result code that stand in the goal. *)
Ltac guard_true := rewrite ?bool_decide_eq_true_2 by done.

(** ** Shared lemmas *)

Lemma wrap64_id z : in_int64 z -> wrap64 z = z.
Proof.
  unfold in_int64, MinInt64, MaxInt64, wrap64. intros H.
  rewrite Z.mod_small; lia.
Qed.

Lemma wrap64_range z : in_int64 (wrap64 z).
Proof.
  unfold in_int64, wrap64, MinInt64, MaxInt64.
  pose proof (Z.mod_pos_bound (z + 2 ^ 63) (2 ^ 64)). lia.
Qed.

#[export] Hint Resolve wrap64_range : wallet.

Lemma i64_add_id a b : in_int64 (a + b) -> i64_add a b = a + b.
Proof. apply wrap64_id. Qed.

Lemma i64_sub_id a b : in_int64 (a - b) -> i64_sub a b = a - b.
Proof. apply wrap64_id. Qed.

Lemma i64_neg_id a : in_int64 a -> a <> MinInt64 -> i64_neg a = - a.
Proof. unfold in_int64. intros. apply wrap64_id. unfold in_int64, MinInt64, MaxInt64 in *. lia. Qed.

Lemma errors_Is_app e1 e2 t :
  errors_Is (e1 ++ e2) t = errors_Is e1 t || errors_Is e2 t.
Proof.
  unfold errors_Is. rewrite <- bool_decide_or.
  apply bool_decide_ext, elem_of_app.
Qed.

Lemma UTC_idemp t : UTC (UTC t) = UTC t.
Proof. done. Qed.

Lemma IsZero_UTC t : IsZero (UTC t) = IsZero t.
Proof. done. Qed.
