(* ===== verification/GoText.v ===== *)
(** * Go text: bytes, runes, trimming and UUID text

    A Go [string] is a sequence of bytes, modelled by [string] (a list of 8-bit
    [ascii]).  This file models what the sources use of the language and of
    [strings], [unicode/utf8] and [encoding/hex]: [range] over a string (rune
    decoding), [strings.TrimSpace], [strings.ReplaceAll] of a one-byte pattern,
    [strings.ToLower] on ASCII, [hex.DecodeString]'s acceptance test; and the
    helpers built on them that the packages repeat: [normalizeUUID],
    [isCanonicalUUID] and the visible-ASCII checks. *)

From stdpp Require Import base list strings numbers sorting.
From Stdlib Require Import ZArith Lia Ascii String.
From S2P Require Import Prelude.

Open Scope string_scope.
Open Scope Z_scope.

(** ** Bytes *)

Definition byte_val (a : ascii) : Z := Z.of_N (N_of_ascii a).
Definition byte_of (z : Z) : ascii := ascii_of_N (Z.to_N z).

(** [len s] in bytes. *)
Fixpoint len (s : string) : Z :=
  match s with
  | EmptyString => 0
  | String _ s' => 1 + len s'
  end.

(** [s[i]]; the sources only index below a checked length. *)
Fixpoint byte_at (s : string) (i : nat) : option ascii :=
  match s, i with
  | EmptyString, _ => None
  | String a _, O => Some a
  | String _ s', S i' => byte_at s' i'
  end.

Fixpoint all_bytes (P : Z -> bool) (s : string) : bool :=
  match s with
  | EmptyString => true
  | String a s' => P (byte_val a) && all_bytes P s'
  end.

Fixpoint map_bytes (f : ascii -> ascii) (s : string) : string :=
  match s with
  | EmptyString => EmptyString
  | String a s' => String (f a) (map_bytes f s')
  end.

(** [s[k:]] for [k <= len s]. *)
Fixpoint drop_bytes (k : nat) (s : string) : string :=
  match k, s with
  | O, _ => s
  | S k', String _ s' => drop_bytes k' s'
  | S _, EmptyString => EmptyString
  end.

(** [s[:k]] for [k <= len s]. *)
Fixpoint take_bytes (k : nat) (s : string) : string :=
  match k, s with
  | O, _ => EmptyString
  | S k', String a s' => String a (take_bytes k' s')
  | S _, EmptyString => EmptyString
  end.

(** ** Runes: [unicode/utf8] *)

Definition RuneError : Z := 0xFFFD.
Definition RuneSelf : Z := 0x80.

Definition byte_in (lo hi : Z) (o : option ascii) : bool :=
  match o with Some a => (lo <=? byte_val a) && (byte_val a <=? hi) | None => false end.

Definition low6 (o : option ascii) : Z :=
  match o with Some a => Z.land (byte_val a) 0x3F | None => 0 end.

(** [utf8.DecodeRuneInString]: the first rune and its width in bytes. *)
Definition decode_rune (s : string) : Z * nat :=
  match s with
  | EmptyString => (RuneError, 0%nat)
  | String a rest =>
      let p0 := byte_val a in
      let b1 := byte_at rest 0 in
      let b2 := byte_at rest 1 in
      let b3 := byte_at rest 2 in
      let three lo hi :=
        if byte_in lo hi b1 && byte_in 0x80 0xBF b2
        then (Z.lor (Z.shiftl (Z.land p0 0x0F) 12) (Z.lor (Z.shiftl (low6 b1) 6) (low6 b2)), 3%nat)
        else (RuneError, 1%nat) in
      let four lo hi :=
        if byte_in lo hi b1 && byte_in 0x80 0xBF b2 && byte_in 0x80 0xBF b3
        then (Z.lor (Z.shiftl (Z.land p0 0x07) 18)
               (Z.lor (Z.shiftl (low6 b1) 12) (Z.lor (Z.shiftl (low6 b2) 6) (low6 b3))), 4%nat)
        else (RuneError, 1%nat) in
      if p0 <? RuneSelf then (p0, 1%nat)
      else if p0 <? 0xC2 then (RuneError, 1%nat)
      else if p0 <? 0xE0 then
        if byte_in 0x80 0xBF b1
        then (Z.lor (Z.shiftl (Z.land p0 0x1F) 6) (low6 b1), 2%nat)
        else (RuneError, 1%nat)
      else if p0 =? 0xE0 then three 0xA0 0xBF
      else if p0 =? 0xED then three 0x80 0x9F
      else if p0 <? 0xF0 then three 0x80 0xBF
      else if p0 =? 0xF0 then four 0x90 0xBF
      else if p0 <? 0xF4 then four 0x80 0xBF
      else if p0 =? 0xF4 then four 0x80 0x8F
      else (RuneError, 1%nat)
  end.

(** [for _, r := range s]: the runes in order; [skip] counts the bytes of the
    current rune that are still to be passed over. *)
Fixpoint runes_from (skip : nat) (s : string) : list Z :=
  match s with
  | EmptyString => []
  | String _ s' =>
      match skip with
      | S k => runes_from k s'
      | O => let '(r, size) := decode_rune s in r :: runes_from (pred size) s'
      end
  end.

Definition runes (s : string) : list Z := runes_from 0 s.

(** [utf8.ValidString]: no byte decodes to an error of width one. *)
Fixpoint valid_from (skip : nat) (s : string) : bool :=
  match s with
  | EmptyString => true
  | String _ s' =>
      match skip with
      | S k => valid_from k s'
      | O => let '(r, size) := decode_rune s in
             negb ((r =? RuneError) && (size =? 1)%nat) && valid_from (pred size) s'
      end
  end.

Definition utf8_ValidString (s : string) : bool := valid_from 0 s.

(** [utf8.RuneStart]. *)
Definition rune_start (a : ascii) : bool := negb (Z.land (byte_val a) 0xC0 =? 0x80).

(** The backwards search of [utf8.DecodeLastRuneInString]: from index [i - 1]
    down, at most [k] bytes, for a byte that can start a rune. *)
Fixpoint last_start (k i : nat) (s : string) : nat :=
  match k, i with
  | _, O => 0
  | O, S _ => pred i
  | S k', S i' =>
      match byte_at s i' with
      | Some a => if rune_start a then i' else last_start k' i' s
      | None => 0
      end
  end.

(** [utf8.DecodeLastRuneInString]. *)
Definition decode_last_rune (s : string) : Z * nat :=
  let n := String.length s in
  match byte_at s (pred n) with
  | None => (RuneError, 0%nat)
  | Some a =>
      if byte_val a <? RuneSelf then (byte_val a, 1%nat)
      else
        let start := last_start 3 (pred n) s in
        let '(r, size) := decode_rune (drop_bytes start s) in
        if (start + size =? n)%nat then (r, size) else (RuneError, 1%nat)
  end.

(** [unicode.IsSpace]. *)
Definition is_space (r : Z) : bool :=
  (r =? 0x20) || ((0x09 <=? r) && (r <=? 0x0D)) || (r =? 0x85) || (r =? 0xA0) ||
  (r =? 0x1680) || ((0x2000 <=? r) && (r <=? 0x200A)) || (r =? 0x2028) || (r =? 0x2029) ||
  (r =? 0x202F) || (r =? 0x205F) || (r =? 0x3000).

Fixpoint trim_left_from (skip : nat) (s : string) : string :=
  match s with
  | EmptyString => EmptyString
  | String _ s' =>
      match skip with
      | S k => trim_left_from k s'
      | O => let '(r, size) := decode_rune s in
             if is_space r then trim_left_from (pred size) s' else s
      end
  end.

(** Each round of the loop removes at least one byte, so [len s] rounds are enough. *)
Fixpoint trim_right_fuel (fuel : nat) (s : string) : string :=
  match fuel with
  | O => s
  | S fuel' =>
      match s with
      | EmptyString => EmptyString
      | _ =>
          let '(r, size) := decode_last_rune s in
          if is_space r then trim_right_fuel fuel' (take_bytes (String.length s - size) s) else s
      end
  end.

Definition trim_right (s : string) : string := trim_right_fuel (String.length s) s.

(** [strings.TrimSpace]. *)
Definition TrimSpace (s : string) : string := trim_right (trim_left_from 0 s).

(** ** Character classes *)

Definition is_lower (c : Z) : bool := (97 <=? c) && (c <=? 122).
Definition is_upper (c : Z) : bool := (65 <=? c) && (c <=? 90).
Definition is_digit (c : Z) : bool := (48 <=? c) && (c <=? 57).
Definition is_hex (c : Z) : bool :=
  is_digit c || ((97 <=? c) && (c <=? 102)) || ((65 <=? c) && (c <=? 70)).
(** [character < '!' || character > '~'], negated. *)
Definition is_visible (c : Z) : bool := (33 <=? c) && (c <=? 126).

Definition lower_ascii (a : ascii) : ascii :=
  if is_upper (byte_val a) then byte_of (byte_val a + 32) else a.

(** [strings.ToLower] on a string of ASCII bytes, the only kind the sources pass. *)
Definition ToLower (s : string) : string := map_bytes lower_ascii s.

(** [strings.ReplaceAll s "-" ""]. *)
Fixpoint remove_dashes (s : string) : string :=
  match s with
  | EmptyString => EmptyString
  | String a s' => if byte_val a =? 45 then remove_dashes s' else String a (remove_dashes s')
  end.

(** [hex.DecodeString] succeeds: an even number of hexadecimal digits. *)
Definition hex_decodes (s : string) : bool := Z.even (len s) && all_bytes is_hex s.

Definition is_dash (o : option ascii) : bool :=
  match o with Some a => byte_val a =? 45 | None => false end.

(** ** UUID text *)

Definition normalizeUUID (value : string) : string * bool :=
  let value := TrimSpace value in
  if negb (len value =? 36) || negb (is_dash (byte_at value 8)) || negb (is_dash (byte_at value 13))
     || negb (is_dash (byte_at value 18)) || negb (is_dash (byte_at value 23))
  then ("", false)
  else
    let hexValue := remove_dashes value in
    if negb (len hexValue =? 32) then ("", false)
    else if negb (hex_decodes hexValue) then ("", false)
    else (ToLower value, true).

Definition isCanonicalUUID (value : string) : bool :=
  let '(canonical, valid) := normalizeUUID value in
  valid && bool_decide (canonical = value).

(** The loop [for _, r := range value { if r < '!' || r > '~' { return false } }]. *)
Definition visible_runes (value : string) : bool := forallb is_visible (runes value).

(** ** Lemmas *)

#[global] Arguments decode_rune : simpl never.

Lemma byte_val_range a : 0 <= byte_val a < 256.
Proof.
  unfold byte_val. pose proof (N_ascii_bounded a). lia.
Qed.

Lemma byte_val_inj a b : byte_val a = byte_val b -> a = b.
Proof.
  unfold byte_val. intros H. apply N2Z.inj in H.
  rewrite <- (ascii_N_embedding a), <- (ascii_N_embedding b). by f_equal.
Qed.

Lemma byte_val_of z : 0 <= z < 256 -> byte_val (byte_of z) = z.
Proof.
  intros H. unfold byte_val, byte_of. rewrite N_ascii_embedding; lia.
Qed.

Lemma len_length s : len s = Z.of_nat (String.length s).
Proof. induction s; cbn [len String.length]; lia. Qed.

Lemma len_nonneg s : 0 <= len s.
Proof. rewrite len_length. lia. Qed.

Lemma len_0 s : len s = 0 <-> s = "".
Proof. destruct s; cbn; [done|]. pose proof (len_nonneg s). split; [lia|done]. Qed.

(** An ASCII byte is a rune of its own. *)
Lemma decode_rune_ascii a s : byte_val a < 0x80 -> decode_rune (String a s) = (byte_val a, 1%nat).
Proof.
  intros H. unfold decode_rune, RuneSelf. by destruct (Z.ltb_spec (byte_val a) 0x80); [|lia].
Qed.

Lemma lor_ge_l a b : 0 <= b -> a <= Z.lor a b.
Proof.
  intros Hb.
  assert (E : Z.lor a b = a + Z.ldiff b a).
  { rewrite Z.add_nocarry_lor; apply Z.bits_inj; intros n.
    - rewrite !Z.lor_spec, Z.ldiff_spec. by destruct (Z.testbit a n), (Z.testbit b n).
    - rewrite Z.land_spec, Z.ldiff_spec, Z.bits_0. by destruct (Z.testbit a n), (Z.testbit b n). }
  pose proof (proj2 (Z.ldiff_nonneg b a)). lia.
Qed.

Lemma lor_ge_r a b : 0 <= a -> b <= Z.lor a b.
Proof. rewrite Z.lor_comm. apply lor_ge_l. Qed.

Lemma low6_nonneg o : 0 <= low6 o.
Proof.
  destruct o as [a|]; cbn; [|lia]. apply Z.land_nonneg. right. lia.
Qed.

Lemma low6_mod o a : o = Some a -> low6 o = byte_val a mod 64.
Proof.
  intros ->. cbn. change 0x3F with (Z.ones 6). by rewrite Z.land_ones by lia.
Qed.

(** The leading byte's payload bits give the bound of the assembled rune. *)
Lemma shift_payload_ge p mask k t m :
  0 <= mask -> m <= Z.land p mask -> 0 <= k -> 0 <= t ->
  m * 2 ^ k <= Z.lor (Z.shiftl (Z.land p mask) k) t.
Proof.
  intros. etransitivity; [|apply lor_ge_l; lia].
  rewrite Z.shiftl_mul_pow2 by lia. apply Z.mul_le_mono_nonneg_r; lia.
Qed.

Lemma lor_shift_nonneg x k y : 0 <= x -> 0 <= y -> 0 <= Z.lor (Z.shiftl x k) y.
Proof. intros. apply Z.lor_nonneg. split; [by apply Z.shiftl_nonneg|done]. Qed.

#[export] Hint Resolve low6_nonneg lor_shift_nonneg : wallet.

Lemma land_mask_ge p k m : 0 <= k -> m <= p mod 2 ^ k -> m <= Z.land p (Z.ones k).
Proof. intros. by rewrite Z.land_ones. Qed.

Lemma byte_in_low6 lo hi o :
  byte_in lo hi o = true -> 0x80 <= lo -> hi <= 0xBF -> lo - 0x80 <= low6 o.
Proof.
  destruct o as [a|]; cbn; [|done]. intros H ? ?. bool_simpl.
  change 0x3F with (Z.ones 6). apply land_mask_ge; [lia|]. change (2 ^ 6) with 64.
  pose proof (Z.div_mod (byte_val a) 64). pose proof (Z.mod_pos_bound (byte_val a) 64). lia.
Qed.

(** The second byte's payload bits, shifted by [k], bound the rune from below. *)
Lemma second_byte_ge lo hi o x k y :
  byte_in lo hi o = true -> 0x80 <= lo -> hi <= 0xBF -> 0 <= x -> 0 <= k -> 0 <= y ->
  (lo - 0x80) * 2 ^ k <= Z.lor x (Z.lor (Z.shiftl (low6 o) k) y).
Proof.
  intros. etransitivity; [|apply lor_ge_r; lia].
  etransitivity; [|apply lor_ge_l; lia]. rewrite Z.shiftl_mul_pow2 by lia.
  apply Z.mul_le_mono_nonneg_r; [lia|]. by eapply byte_in_low6.
Qed.

Lemma lead_payload_ge a k m t n :
  0 <= n -> 0 <= k -> 0 <= t -> m <= byte_val a mod 2 ^ n ->
  m * 2 ^ k <= Z.lor (Z.shiftl (Z.land (byte_val a) (Z.ones n)) k) t.
Proof.
  intros. apply shift_payload_ge; [|by apply land_mask_ge|done..].
  rewrite Z.ones_equiv. pose proof (Z.pow_pos_nonneg 2 n). lia.
Qed.

Lemma mod_between x m q : 0 < m -> q * m <= x < (q + 1) * m -> x mod m = x - q * m.
Proof. intros. symmetry. apply (Z.mod_unique_pos _ _ q); lia. Qed.

(** A non-ASCII leading byte never decodes to an ASCII rune. *)
Lemma decode_rune_high a s : 0x80 <= byte_val a -> 0x80 <= (decode_rune (String a s)).1.
Proof.
  intros Ha. pose proof (byte_val_range a) as Hr. unfold decode_rune, RuneSelf, RuneError.
  destruct (Z.ltb_spec (byte_val a) 0x80); [lia|].
  destruct (Z.ltb_spec (byte_val a) 0xC2); [done|].
  assert (Lead3 : forall t, 0xE1 <= byte_val a < 0xF0 -> 0 <= t ->
    0x80 <= Z.lor (Z.shiftl (Z.land (byte_val a) 0x0F) 12) t).
  { intros t ? ?. transitivity (1 * 2 ^ 12); [done|].
    apply (lead_payload_ge _ _ _ _ 4); try lia. change (2 ^ 4) with 16.
    rewrite (mod_between _ _ 14); lia. }
  assert (Lead4 : forall t, 0xF1 <= byte_val a < 0xF5 -> 0 <= t ->
    0x80 <= Z.lor (Z.shiftl (Z.land (byte_val a) 0x07) 18) t).
  { intros t ? ?. transitivity (1 * 2 ^ 18); [done|].
    apply (lead_payload_ge _ _ _ _ 3); try lia. change (2 ^ 3) with 8.
    rewrite (mod_between _ _ 30); lia. }
  destruct (Z.ltb_spec (byte_val a) 0xE0).
  { destruct (byte_in _ _ _); cbn [fst]; [|done]. transitivity (2 * 2 ^ 6); [done|].
    apply (lead_payload_ge _ _ _ _ 5); try lia; [eauto with wallet|]. change (2 ^ 5) with 32.
    rewrite (mod_between _ _ 6); lia. }
  destruct (Z.eqb_spec (byte_val a) 0xE0).
  { destruct (byte_in 0xA0 _ _) eqn:E1, (byte_in 0x80 _ _); cbn [fst andb]; try done.
    transitivity ((0xA0 - 0x80) * 2 ^ 6); [done|].
    eapply second_byte_ge; try done; [apply Z.shiftl_nonneg, Z.land_nonneg; lia|eauto with wallet]. }
  destruct (Z.eqb_spec (byte_val a) 0xED).
  { destruct (_ && _); cbn [fst]; [|done]. apply Lead3; [lia|eauto with wallet]. }
  destruct (Z.ltb_spec (byte_val a) 0xF0).
  { destruct (_ && _); cbn [fst]; [|done]. apply Lead3; [lia|eauto with wallet]. }
  destruct (Z.eqb_spec (byte_val a) 0xF0).
  { destruct (byte_in 0x90 _ _) eqn:E1; [|done]. destruct (_ && _); cbn [fst]; [|done].
    transitivity ((0x90 - 0x80) * 2 ^ 12); [done|].
    eapply second_byte_ge; try done; [apply Z.shiftl_nonneg, Z.land_nonneg; lia|eauto with wallet]. }
  destruct (Z.ltb_spec (byte_val a) 0xF4).
  { destruct (_ && _); cbn [fst]; [|done]. apply Lead4; [lia|eauto with wallet]. }
  destruct (Z.eqb_spec (byte_val a) 0xF4); [|done].
  destruct (_ && _); cbn [fst]; [|done]. apply Lead4; [lia|eauto with wallet].
Qed.

(** A rune test that refuses every rune from 0x80 on is a byte test. *)
Lemma forallb_runes (P : Z -> bool) s :
  (forall r, 0x80 <= r -> P r = false) -> forallb P (runes s) = all_bytes P s.
Proof.
  intros HP. unfold runes. induction s as [|a s IH]; [done|].
  cbn [runes_from all_bytes]. destruct (Z.lt_ge_cases (byte_val a) 0x80) as [Ha|Ha].
  - rewrite decode_rune_ascii by done. cbn [forallb pred]. by rewrite IH.
  - pose proof (decode_rune_high a s Ha) as Hr. destruct (decode_rune _) as [r size].
    cbn [fst forallb] in *. by rewrite !HP.
Qed.

Lemma visible_high r : 0x80 <= r -> is_visible r = false.
Proof. intros. apply andb_false_iff. right. apply Z.leb_gt. lia. Qed.

Lemma visible_runes_bytes s : visible_runes s = all_bytes is_visible s.
Proof. apply forallb_runes, visible_high. Qed.

Lemma visible_valid_utf8 s : all_bytes is_visible s = true -> utf8_ValidString s = true.
Proof.
  unfold utf8_ValidString. induction s as [|a s IH]; [done|]. cbn. intros H. bool_simpl.
  unfold is_visible in *. bool_simpl. rewrite decode_rune_ascii by lia. cbn.
  unfold RuneError. rewrite (proj2 (Z.eqb_neq _ _)) by lia. by apply IH.
Qed.

Lemma all_bytes_impl (P Q : Z -> bool) s :
  (forall c, 0 <= c < 256 -> P c = true -> Q c = true) -> all_bytes P s = true -> all_bytes Q s = true.
Proof.
  intros HPQ. induction s as [|a s IH]; [done|]. cbn. intros H. bool_simpl.
  apply andb_true_iff. split; [|by apply IH]. apply HPQ; [apply byte_val_range|done].
Qed.

Lemma all_bytes_at P s i a : all_bytes P s = true -> byte_at s i = Some a -> P (byte_val a) = true.
Proof.
  revert i. induction s as [|b s IH]; [done|]. intros [|i]; cbn; intros H Hi; bool_simpl; [|eauto].
  by injection Hi as <-.
Qed.

Lemma byte_at_lt s i : (i < String.length s)%nat -> exists a, byte_at s i = Some a.
Proof.
  revert i. induction s as [|b s IH]; cbn; [lia|]. intros [|i] ?; cbn; [eauto|]. apply IH. lia.
Qed.

Lemma visible_not_space c : is_visible c = true -> is_space c = false.
Proof.
  unfold is_visible, is_space. intros H. bool_simpl.
  repeat (apply orb_false_iff; split); try apply andb_false_iff; try apply Z.eqb_neq;
    rewrite ?Z.leb_gt; lia.
Qed.

(** Trimming does nothing to text of visible ASCII bytes. *)
Lemma TrimSpace_visible s : all_bytes is_visible s = true -> TrimSpace s = s.
Proof.
  intros H. unfold TrimSpace.
  assert (Hl : trim_left_from 0 s = s).
  { destruct s as [|a s]; [done|]. cbn [trim_left_from all_bytes] in *. bool_simpl.
    assert (byte_val a < 0x80) by (unfold is_visible in *; bool_simpl; lia).
    rewrite decode_rune_ascii by done. by rewrite visible_not_space. }
  rewrite Hl. unfold trim_right. destruct s as [|a0 s0] eqn:Es; [done|].
  cbn [trim_right_fuel String.length]. rewrite <- Es in *. unfold decode_last_rune.
  destruct (byte_at_lt s (pred (String.length s))) as [a Ea]; [rewrite Es; cbn; lia|].
  rewrite Ea. pose proof (all_bytes_at _ _ _ _ H Ea) as Hv.
  assert (byte_val a < 0x80) by (unfold is_visible in *; bool_simpl; lia).
  unfold RuneSelf. rewrite (proj2 (Z.ltb_lt _ _)) by done. by rewrite visible_not_space.
Qed.

(** *** UUID text is a fixed point of normalization *)

Definition is_uuid_byte (c : Z) : bool := is_hex c || (c =? 45).
Definition is_lower_uuid_byte (c : Z) : bool := is_uuid_byte c && negb (is_upper c).

Lemma remove_dashes_hex s :
  all_bytes is_hex (remove_dashes s) = all_bytes is_uuid_byte s.
Proof.
  induction s as [|a s IH]; [done|]. cbn [remove_dashes all_bytes]. unfold is_uuid_byte at 1.
  destruct (byte_val a =? 45); cbn [all_bytes]; rewrite IH; [by rewrite orb_true_r|by rewrite orb_false_r].
Qed.

Lemma byte_val_lower a :
  byte_val (lower_ascii a) = if is_upper (byte_val a) then byte_val a + 32 else byte_val a.
Proof.
  unfold lower_ascii. destruct (is_upper _) eqn:E; [|done]. rewrite byte_val_of; [done|].
  unfold is_upper in E. bool_simpl. lia.
Qed.

Lemma lower_ascii_idemp a : lower_ascii (lower_ascii a) = lower_ascii a.
Proof.
  apply byte_val_inj. rewrite (byte_val_lower (lower_ascii a)). rewrite byte_val_lower.
  destruct (is_upper (byte_val a)) eqn:E; [|by rewrite E].
  unfold is_upper in *. bool_simpl. rewrite (proj2 (Z.leb_gt (byte_val a + 32) 90)) by lia.
  by rewrite andb_false_r.
Qed.

Lemma ToLower_idemp s : ToLower (ToLower s) = ToLower s.
Proof. unfold ToLower. induction s as [|a s IH]; [done|]. cbn. by rewrite lower_ascii_idemp, IH. Qed.

Lemma len_map_bytes f s : len (map_bytes f s) = len s.
Proof. induction s; cbn [map_bytes len]; lia. Qed.

Lemma byte_at_map f s i : byte_at (map_bytes f s) i = f <$> byte_at s i.
Proof. revert i. induction s as [|a s IH]; intros [|i]; cbn; auto. Qed.

Lemma is_dash_lower o : is_dash (lower_ascii <$> o) = is_dash o.
Proof.
  destruct o as [a|]; [|done]. cbn. rewrite byte_val_lower. destruct (is_upper _) eqn:E; [|done].
  unfold is_upper in E. bool_simpl. rewrite !(proj2 (Z.eqb_neq _ _)); lia.
Qed.

Lemma all_uuid_lower s : all_bytes is_uuid_byte s = true -> all_bytes is_lower_uuid_byte (ToLower s) = true.
Proof.
  unfold ToLower. induction s as [|a s IH]; [done|]. cbn. intros H. bool_simpl.
  rewrite IH by done. rewrite andb_true_r, byte_val_lower.
  unfold is_lower_uuid_byte, is_uuid_byte, is_hex, is_digit, is_upper in *.
  pose proof (byte_val_range a). destruct ((65 <=? byte_val a) && (byte_val a <=? 90)) eqn:E; lia.
Qed.

Lemma len_remove_dashes_lower s : len (remove_dashes (ToLower s)) = len (remove_dashes s).
Proof.
  unfold ToLower. induction s as [|a s IH]; [done|]. cbn [map_bytes remove_dashes].
  pose proof (is_dash_lower (Some a)) as D. cbn in D. rewrite D.
  destruct (byte_val a =? 45); cbn [len]; by rewrite IH.
Qed.

(** The test of [normalizeUUID] on the trimmed text. *)
Definition uuid_shape (s : string) : bool :=
  (len s =? 36) && is_dash (byte_at s 8) && is_dash (byte_at s 13) && is_dash (byte_at s 18) &&
  is_dash (byte_at s 23) && (len (remove_dashes s) =? 32) && hex_decodes (remove_dashes s).

Lemma normalizeUUID_eq v :
  normalizeUUID v = if uuid_shape (TrimSpace v) then (ToLower (TrimSpace v), true) else ("", false).
Proof.
  unfold normalizeUUID, uuid_shape. set (s := TrimSpace v).
  destruct (len s =? 36), (is_dash (byte_at s 8)), (is_dash (byte_at s 13)), (is_dash (byte_at s 18)),
    (is_dash (byte_at s 23)), (len (remove_dashes s) =? 32), (hex_decodes (remove_dashes s)); done.
Qed.

Lemma uuid_shape_bytes s : uuid_shape s = true -> all_bytes is_uuid_byte s = true.
Proof.
  unfold uuid_shape, hex_decodes. intros H. bool_simpl. by rewrite <- remove_dashes_hex.
Qed.

Lemma uuid_byte_visible c : is_uuid_byte c = true -> is_visible c = true.
Proof. unfold is_uuid_byte, is_hex, is_digit, is_visible. intros. lia. Qed.

Lemma uuid_shape_visible s : uuid_shape s = true -> all_bytes is_visible s = true.
Proof.
  intros H%uuid_shape_bytes. eapply all_bytes_impl; [|done]. intros. by apply uuid_byte_visible.
Qed.

Lemma uuid_shape_lower s : uuid_shape s = true -> uuid_shape (ToLower s) = true.
Proof.
  intros H. pose proof (uuid_shape_bytes _ H) as Hb. unfold uuid_shape, hex_decodes in *. bool_simpl.
  rewrite len_remove_dashes_lower, remove_dashes_hex.
  unfold ToLower at 1 2 3 4 5. rewrite len_map_bytes, !byte_at_map, !is_dash_lower.
  repeat (apply andb_true_iff; split); try done; try by apply Z.eqb_eq.
  eapply all_bytes_impl; [|apply all_uuid_lower, Hb].
  intros c _. unfold is_lower_uuid_byte. intros ?. by bool_simpl.
Qed.

Lemma isCanonicalUUID_spec s :
  isCanonicalUUID s = true <-> uuid_shape s = true /\ ToLower s = s.
Proof.
  unfold isCanonicalUUID. rewrite normalizeUUID_eq. split.
  - destruct (uuid_shape (TrimSpace s)) eqn:E; cbn; [|done]. intros H. bool_simpl.
    assert (uuid_shape s = true) by (rewrite <- H; by apply uuid_shape_lower).
    split; [done|]. by rewrite TrimSpace_visible in H by by apply uuid_shape_visible.
  - intros [H1 H2]. rewrite TrimSpace_visible by by apply uuid_shape_visible.
    rewrite H1. by apply bool_decide_eq_true.
Qed.

Lemma normalizeUUID_canonical v c : normalizeUUID v = (c, true) -> isCanonicalUUID c = true.
Proof.
  rewrite normalizeUUID_eq. destruct (uuid_shape _) eqn:E; [|done]. intros [= <-].
  apply isCanonicalUUID_spec. split; [by apply uuid_shape_lower|apply ToLower_idemp].
Qed.

Lemma canonical_visible s : isCanonicalUUID s = true -> all_bytes is_visible s = true.
Proof. intros [? _]%isCanonicalUUID_spec. by apply uuid_shape_visible. Qed.

Lemma canonical_normalize s : isCanonicalUUID s = true -> normalizeUUID s = (s, true).
Proof.
  intros [H1 H2]%isCanonicalUUID_spec. rewrite normalizeUUID_eq.
  rewrite TrimSpace_visible by by apply uuid_shape_visible. by rewrite H1, H2.
Qed.

Lemma canonical_trim s : isCanonicalUUID s = true -> TrimSpace s = s.
Proof. intros. by apply TrimSpace_visible, canonical_visible. Qed.

Lemma canonical_nonempty s : isCanonicalUUID s = true -> s <> "".
Proof. intros H ->. discriminate H. Qed.

Lemma canonical_len s : isCanonicalUUID s = true -> len s = 36.
Proof. intros [H _]%isCanonicalUUID_spec. unfold uuid_shape in H. by bool_simpl. Qed.

#[export] Hint Resolve canonical_visible canonical_normalize canonical_trim canonical_nonempty : wallet.

(** *** Trimming is idempotent *)

Lemma byte_at_take k s i :
  byte_at (take_bytes k s) i = byte_at s i \/ byte_at (take_bytes k s) i = None.
Proof.
  revert k i. induction s as [|a s IH]; intros [|k] [|i]; cbn; auto.
Qed.

(** Cutting a string can only turn its first rune into an encoding error. *)
Lemma decode_rune_take k s :
  decode_rune (take_bytes (S k) s) = decode_rune s \/
  (decode_rune (take_bytes (S k) s)).1 = RuneError.
Proof.
  destruct s as [|a s]; [by left|]. cbn [take_bytes]. unfold decode_rune.
  destruct (byte_at_take k s 0) as [-> | ->], (byte_at_take k s 1) as [-> | ->],
    (byte_at_take k s 2) as [-> | ->]; cbn [byte_in]; rewrite ?andb_false_r;
    repeat (case_match; [by auto|]); repeat case_match; auto.
Qed.

Lemma trim_left_fixed skip s :
  trim_left_from skip s = "" \/ is_space (decode_rune (trim_left_from skip s)).1 = false.
Proof.
  revert skip. induction s as [|a s IH]; intros [|k]; cbn [trim_left_from]; auto.
  destruct (decode_rune (String a s)) as [r size] eqn:E. destruct (is_space r) eqn:Hs; auto.
  right. by rewrite E.
Qed.

Lemma trim_left_id s : is_space (decode_rune s).1 = false -> trim_left_from 0 s = s.
Proof.
  destruct s as [|a s]; [done|]. cbn [trim_left_from]. destruct (decode_rune _) as [r size].
  cbn. by intros ->.
Qed.

Lemma length_take_bytes k s : (k <= String.length s)%nat -> String.length (take_bytes k s) = k.
Proof. revert k. induction s; intros [|k]; cbn; intros; try lia. rewrite IHs; lia. Qed.

Lemma take_bytes_take j k s : (j <= k)%nat -> take_bytes j (take_bytes k s) = take_bytes j s.
Proof.
  revert j k. induction s as [|a s IH]; intros [|j] [|k]; cbn; intros; try done; [lia|].
  rewrite IH; [done|lia].
Qed.

Lemma take_bytes_all s : take_bytes (String.length s) s = s.
Proof. induction s as [|a s IH]; cbn; congruence. Qed.

Lemma decode_rune_width s r : decode_rune s = (r, 0%nat) -> r = RuneError.
Proof. unfold decode_rune. repeat case_match; congruence. Qed.

(** A trailing space is at least one byte wide, so the loop makes progress. *)
Lemma decode_last_progress s r size :
  decode_last_rune s = (r, size) -> is_space r = true -> (1 <= size)%nat.
Proof.
  intros H Hs. destruct size; [|lia]. exfalso. enough (r = RuneError) by (subst; discriminate Hs).
  unfold decode_last_rune in H. case_match; [|congruence]. case_match; [congruence|].
  case_match eqn:E. case_match; [|congruence]. injection H as -> ->. by apply decode_rune_width in E.
Qed.

(** The result of [trim_right] is a prefix, and is empty or ends with a non-space. *)
Lemma trim_right_fuel_spec fuel s :
  (String.length s <= fuel)%nat ->
  exists k, (k <= String.length s)%nat /\ trim_right_fuel fuel s = take_bytes k s /\
    (k = 0%nat \/ is_space (decode_last_rune (take_bytes k s)).1 = false).
Proof.
  revert s. induction fuel as [|fuel IH]; intros s Hl.
  - exists 0%nat. destruct s; cbn in *; [auto|lia].
  - destruct s as [|a s0] eqn:Es; [exists 0%nat; auto|]. rewrite <- Es in *.
    assert (Hu : trim_right_fuel (S fuel) s = let '(r, size) := decode_last_rune s in
      if is_space r then trim_right_fuel fuel (take_bytes (String.length s - size) s) else s)
      by by rewrite Es.
    rewrite Hu. destruct (decode_last_rune s) as [r size] eqn:E. destruct (is_space r) eqn:Hs.
    + pose proof (decode_last_progress _ _ _ E Hs).
      assert (1 <= String.length s)%nat by (rewrite Es; cbn; lia).
      destruct (IH (take_bytes (String.length s - size) s)) as (k & Hk & -> & Hend);
        rewrite length_take_bytes in * by lia; [lia|].
      exists k. rewrite take_bytes_take in * by lia. split_and!; [lia|done|done].
    + exists (String.length s). rewrite take_bytes_all, E. auto.
Qed.

Lemma trim_right_fuel_id fuel s :
  is_space (decode_last_rune s).1 = false -> trim_right_fuel fuel s = s.
Proof.
  intros H. destruct fuel; [done|]. cbn [trim_right_fuel]. destruct s; [done|].
  destruct (decode_last_rune _) as [r size]. cbn in H. by rewrite H.
Qed.

Lemma TrimSpace_idemp s : TrimSpace (TrimSpace s) = TrimSpace s.
Proof.
  unfold TrimSpace. set (x := trim_left_from 0 s). unfold trim_right at 2 3.
  destruct (trim_right_fuel_spec (String.length x) x) as (k & Hk & -> & Hend); [done|].
  destruct k as [|k]; [done|]. destruct Hend as [|Hend]; [done|].
  rewrite trim_left_id; [by apply trim_right_fuel_id|].
  destruct (trim_left_fixed 0 s) as [Hx|Hx]; fold x in Hx.
  - rewrite Hx in Hk. cbn in Hk. lia.
  - destruct (decode_rune_take k x) as [-> | ->]; done.
Qed.

#[export] Hint Resolve TrimSpace_idemp : wallet.

(** ** Order of strings

    Go's comparison of strings and the server's order of UUIDs are bytewise. *)

Definition string_le (a b : string) : Prop := String.leb a b = true.

#[export] Instance string_le_dec a b : Decision (string_le a b).
Proof. unfold string_le. apply _. Defined.

(** [slices.Sort] on strings. *)
Definition sort_strings (keys : list string) : list string := merge_sort string_le keys.

Lemma string_compare_lt_trans a b c :
  String.compare a b = Lt -> String.compare b c = Lt -> String.compare a c = Lt.
Proof.
  revert b c. induction a as [|x a IH]; intros [|y b] [|z c]; cbn; try done.
  destruct (Ascii.compare x y) eqn:Hxy; destruct (Ascii.compare y z) eqn:Hyz; try done; intros H1 H2.
  - apply Ascii.compare_eq_iff in Hxy as ->. rewrite Hyz. eauto.
  - apply Ascii.compare_eq_iff in Hxy as ->. by rewrite Hyz.
  - apply Ascii.compare_eq_iff in Hyz as ->. by rewrite Hxy.
  - unfold Ascii.compare in *. apply N.compare_lt_iff in Hxy, Hyz.
    by rewrite (proj2 (N.compare_lt_iff _ _)) by (etrans; eassumption).
Qed.

#[export] Instance string_le_trans : Transitive string_le.
Proof.
  intros a b c. unfold string_le, String.leb.
  destruct (String.compare a b) eqn:H1; [|..|done].
  - by apply String.compare_eq_iff in H1 as ->.
  - destruct (String.compare b c) eqn:H2; [|..|done].
    + apply String.compare_eq_iff in H2 as <-. by rewrite H1.
    + by rewrite (string_compare_lt_trans _ _ _ H1 H2).
Qed.

#[export] Instance string_le_total : Total string_le.
Proof. intros a b. apply String.leb_total. Qed.

#[export] Instance string_le_antisymm : AntiSymm eq string_le.
Proof. intros a b. apply String.leb_antisym. Qed.

(** Sorting forgets the order of its input: the order in which a Go map is
    ranged over does not show. *)
Lemma sort_strings_perm k1 k2 : k1 ≡ₚ k2 -> sort_strings k1 = sort_strings k2.
Proof.
  intros H. apply (StronglySorted_unique string_le).
  - apply (StronglySorted_merge_sort string_le).
  - apply (StronglySorted_merge_sort string_le).
  - unfold sort_strings. by rewrite !merge_sort_Permutation.
Qed.
