(* ===== verification/Sha256.v ===== *)
(** * SHA-256

    The digest of [crypto/sha256], as FIPS 180-4 defines it, on the bytes of a
    string.  Words are 32-bit integers in [Z]. *)

From stdpp Require Import base list strings numbers.
From Stdlib Require Import ZArith Lia.
From S2P Require Import Prelude GoText.

Open Scope string_scope.
Open Scope Z_scope.

Definition w32 (x : Z) : Z := x mod 4294967296.
Definition rotr (n x : Z) : Z := Z.lor (Z.shiftr x n) (w32 (Z.shiftl x (32 - n))).

Definition round_constants : list Z :=
  [1116352408; 1899447441; 3049323471; 3921009573; 961987163; 1508970993; 2453635748; 2870763221; 3624381080; 310598401;
   607225278; 1426881987; 1925078388; 2162078206; 2614888103; 3248222580; 3835390401; 4022224774; 264347078; 604807628;
   770255983; 1249150122; 1555081692; 1996064986; 2554220882; 2821834349; 2952996808; 3210313671; 3336571891; 3584528711;
   113926993; 338241895; 666307205; 773529912; 1294757372; 1396182291; 1695183700; 1986661051; 2177026350; 2456956037;
   2730485921; 2820302411; 3259730800; 3345764771; 3516065817; 3600352804; 4094571909; 275423344; 430227734; 506948616;
   659060556; 883997877; 958139571; 1322822218; 1537002063; 1747873779; 1955562222; 2024104815; 2227730452; 2361852424;
   2428436474; 2756734187; 3204031479; 3329325298].

Definition initial_hash : list Z :=
  [1779033703; 3144134277; 1013904242; 2773480762; 1359893119; 2600822924; 528734635; 1541459225].

Fixpoint message_bytes (s : string) : list Z :=
  match s with EmptyString => [] | String c s' => byte_val c :: message_bytes s' end.

(** Big-endian bytes of a number. *)
Fixpoint be_bytes (n : nat) (x : Z) : list Z :=
  match n with O => [] | S n' => (x / 256 ^ Z.of_nat n') mod 256 :: be_bytes n' x end.

Definition padded (bytes : list Z) : list Z :=
  let n := Z.of_nat (length bytes) in
  (bytes ++ [128] ++ replicate (Z.to_nat ((55 - n) mod 64)) 0 ++ be_bytes 8 (8 * n))%list.

Fixpoint words (bytes : list Z) : list Z :=
  match bytes with
  | a :: b :: c :: d :: rest => (((a * 256 + b) * 256 + c) * 256 + d) :: words rest
  | _ => []
  end.

Definition small_sigma0 (x : Z) : Z := Z.lxor (Z.lxor (rotr 7 x) (rotr 18 x)) (Z.shiftr x 3).
Definition small_sigma1 (x : Z) : Z := Z.lxor (Z.lxor (rotr 17 x) (rotr 19 x)) (Z.shiftr x 10).
Definition big_sigma0 (x : Z) : Z := Z.lxor (Z.lxor (rotr 2 x) (rotr 13 x)) (rotr 22 x).
Definition big_sigma1 (x : Z) : Z := Z.lxor (Z.lxor (rotr 6 x) (rotr 11 x)) (rotr 25 x).

(** The message schedule, latest word first. *)
Fixpoint extend (n : nat) (ws : list Z) : list Z :=
  match n with
  | O => ws
  | S n' =>
      let at_ i := nth i ws 0 in
      extend n' (w32 (small_sigma1 (at_ 1%nat) + at_ 6%nat + small_sigma0 (at_ 14%nat) + at_ 15%nat) :: ws)
  end.

Definition round (v : list Z) (kw : Z * Z) : list Z :=
  match v with
  | [a; b; c; d; e; f; g; h] =>
      let choose := Z.lxor (Z.land e f) (Z.land (Z.lxor e 4294967295) g) in
      let majority := Z.lxor (Z.lxor (Z.land a b) (Z.land a c)) (Z.land b c) in
      let t1 := h + big_sigma1 e + choose + kw.1 + kw.2 in
      let t2 := big_sigma0 a + majority in
      [w32 (t1 + t2); a; b; c; w32 (d + t1); e; f; g]
  | _ => v
  end.

Definition compress (hash block : list Z) : list Z :=
  let schedule := rev (extend 48 (rev block)) in
  zip_with (fun x y => w32 (x + y)) hash (foldl round hash (zip round_constants schedule)).

Fixpoint blocks (n : nat) (ws hash : list Z) : list Z :=
  match n with
  | O => hash
  | S n' => blocks n' (drop 16 ws) (compress hash (take 16 ws))
  end.

Definition Sum256 (s : string) : list Z :=
  let ws := words (padded (message_bytes s)) in
  mjoin (be_bytes 4 <$> blocks (Nat.div (length ws) 16) ws initial_hash).

(** The test vectors of the standard. *)
Example Sum256_abc : take 4 (Sum256 "abc") = [186; 120; 22; 191] /\ drop 28 (Sum256 "abc") = [242; 0; 21; 173].
Proof. vm_compute. done. Qed.

Example Sum256_two_blocks :
  take 4 (Sum256 "abcdbcdecdefdefgefghfghighijhijkijkljklmklmnlmnomnopnopq") = [36; 141; 106; 97].
Proof. vm_compute. done. Qed.

Lemma length_be_bytes n x : length (be_bytes n x) = n.
Proof. induction n as [|n IH]; cbn; [done|by rewrite IH]. Qed.

Lemma length_round v kw : length v = 8%nat -> length (round v kw) = 8%nat.
Proof. intros Hl. do 8 (destruct v as [|? v]; [done|]). by destruct v. Qed.

Lemma length_blocks n ws hash : length hash = 8%nat -> length (blocks n ws hash) = 8%nat.
Proof.
  revert ws hash. induction n as [|n IH]; intros ws hash Hl; cbn [blocks]; [done|]. apply IH. unfold compress.
  rewrite length_zip_with. assert (Hf : forall l v, length v = 8%nat -> length (foldl round v l) = 8%nat).
  { intros l. induction l as [|kw l IHl]; intros v Hv; [done|]. cbn [foldl]. by apply IHl, length_round. }
  rewrite Hf, Hl by done. done.
Qed.

(** A digest has 32 bytes. *)
Lemma length_Sum256 s : length (Sum256 s) = 32%nat.
Proof.
  unfold Sum256. set (ws := words _). pose proof (length_blocks (Nat.div (length ws) 16) ws initial_hash eq_refl) as Hl.
  revert Hl. generalize (blocks (Nat.div (length ws) 16) ws initial_hash). intros l Hl.
  do 8 (destruct l as [|? l]; [done|]). destruct l; [|done]. cbn [fmap list_fmap mjoin list_join].
  rewrite !length_app, !length_be_bytes. done.
Qed.
