(* ===== verification/Velocity.v ===== *)
(** * Velocity observations

    [internal/risk/redis/velocity.go]: a Redis sorted set per source account holds
    the transfers of the sliding window.  The script is the source's; what its
    four commands do is documented by Redis.  The state is the keys with their
    members and expiry, the clock of Redis an argument. *)

From stdpp Require Import base list gmap strings numbers.
From Stdlib Require Import ZArith Lia.
From S2P Require Import Prelude GoText.

Open Scope string_scope.
Open Scope Z_scope.

Definition velocityKeyPrefix : string := "risk:velocity:source-account:".

Definition ErrInvalidObservation : leaf := errors_New "risk redis: invalid argument".

Definition Millisecond : Z := 1000000.

(** [time.Time.UnixMilli] (rounded down; small enough to be exact as a score) and [time.Duration.Milliseconds] (towards zero). *)
Definition unixToInternalMillis : Z := 62135596800000.
Definition UnixMilli (t : Time) : Z := instant t / Millisecond - unixToInternalMillis.
Definition Milliseconds (d : Z) : Z := Z.quot d Millisecond.
Definition add_duration (t : Time) (d : Z) : Time := mkTime (instant t + d) (offset t).

(** The scores of a key's members and the instant, in milliseconds, it expires. *)
Record SortedSet := mkSortedSet {
  members : gmap string Z;
  expires : Z
}.

Abbreviation Redis := (gmap string SortedSet).

(** The members of a key that has not expired. *)
Definition live (now : Z) (key : string) (r : Redis) : gmap string Z :=
  match r !! key with
  | Some set => if now <=? expires set then members set else ∅
  | None => ∅
  end.

(** ZREMRANGEBYSCORE key -inf max. *)
Definition remove_up_to (maximum : Z) (m : gmap string Z) : gmap string Z := filter (fun x => maximum < x.2) m.

(** ZADD key NX score member. *)
Definition add_new (score : Z) (member : string) (m : gmap string Z) : gmap string Z :=
  match m !! member with Some _ => m | None => <[member := score]> m end.

(** [velocityScript]: the count and the new state. *)
Definition velocityScript (now : Z) (key : string) (before_ at_ : Z) (transferID : string) (window : Z) (r : Redis) : Z * Redis :=
  let m := add_new at_ transferID (remove_up_to before_ (live now key r)) in
  (Z.of_nat (size m), <[key := mkSortedSet m (now + window)]> r).

(** [NewObserver]: the window of an observer, with the address and the client's options aside. *)
Definition NewObserver (address : string) (window : Z) : Result Z :=
  if bool_decide (TrimSpace address = "") || (window <? Millisecond) then Err [ErrInvalidObservation] else Ok window.

(** How a command can end: answered, refused, or answered to nobody. *)
Inductive RedisFate := RedisAnswers | RedisFails | RedisLost.

Definition Observe (window : Z) (fate : RedisFate) (now : Z) (sourceAccountID transferID : string) (observedAt : Time) (r : Redis)
    : Result Z * Redis :=
  if bool_decide (TrimSpace sourceAccountID = "") || bool_decide (TrimSpace transferID = "") || IsZero observedAt
  then (Err [ErrInvalidObservation], r)
  else
    let observedAt := UTC observedAt in
    let '(count, r') := velocityScript now (velocityKeyPrefix ++ sourceAccountID) (UnixMilli (add_duration observedAt (- window)))
                          (UnixMilli observedAt) transferID (Milliseconds window) r in
    match fate with
    | RedisFails => (Err [Other "redis"], r)
    | RedisLost => (Err [Other "redis"], r')
    | RedisAnswers => if count <? 1 then (Err [ErrInvalidObservation], r') else (Ok count, r')
    end.

(** ** Specification *)

(** The transfers of an account that count at [at_]: those of the live set that
    were first seen inside the window, and the observed one. *)
Definition in_window (window now : Z) (sourceAccountID transferID : string) (observedAt : Time) (r : Redis) (id : string) : Prop :=
  id = transferID \/
  exists at_, live now (velocityKeyPrefix ++ sourceAccountID) r !! id = Some at_ /\
    UnixMilli (add_duration observedAt (- window)) < at_.

Definition observed_set (window now : Z) (sourceAccountID transferID : string) (observedAt : Time) (r : Redis) : gmap string Z :=
  add_new (UnixMilli observedAt) transferID
    (remove_up_to (UnixMilli (add_duration observedAt (- window))) (live now (velocityKeyPrefix ++ sourceAccountID) r)).

Lemma observed_set_spec window now source transfer at_ r id :
  is_Some (observed_set window now source transfer at_ r !! id) <-> in_window window now source transfer at_ r id.
Proof.
  unfold observed_set, in_window, add_new. set (m := remove_up_to _ _).
  assert (Hm : forall id, is_Some (m !! id) <-> exists t, live now (velocityKeyPrefix ++ source) r !! id = Some t /\
    UnixMilli (add_duration at_ (- window)) < t).
  { intros id'. unfold m, remove_up_to. split.
    - intros [t [? ?]%map_lookup_filter_Some]. by exists t.
    - intros (t & ? & ?). exists t. by apply map_lookup_filter_Some. }
  destruct (m !! transfer) as [t|] eqn:Et.
  - rewrite Hm. split; [by right|]. intros [->|?]; [|done]. apply Hm. by rewrite Et.
  - rewrite lookup_insert_is_Some, Hm. destruct (decide (transfer = id)) as [->|Hne]; [split; [by left|by left]|].
    split; [intros [?|[_ ?]]; [congruence|by right]|]. intros [->|?]; [done|by right].
Qed.

Lemma size_observed window now source transfer at_ r : 1 <= Z.of_nat (size (observed_set window now source transfer at_ r)).
Proof.
  assert (Hs : is_Some (observed_set window now source transfer at_ r !! transfer)) by (apply observed_set_spec; by left).
  destruct (size _) eqn:E; [|lia]. apply map_size_empty_inv in E. rewrite E in Hs. destruct Hs as [x Hx]. by rewrite lookup_empty in Hx.
Qed.

Lemma milli_window at_ window : Millisecond <= window -> UnixMilli (add_duration at_ (- window)) < UnixMilli at_.
Proof.
  intros Hw. unfold UnixMilli, add_duration. cbn.
  pose proof (Z.div_le_mono (instant at_ + - window) (instant at_ + (-1) * Millisecond) Millisecond ltac:(done) ltac:(lia)) as Hle.
  rewrite Z.div_add in Hle by done. lia.
Qed.

(** The arguments [Observe] accepts. *)
Definition observable (source transfer : string) (at_ : Time) : bool :=
  negb (bool_decide (TrimSpace source = "") || bool_decide (TrimSpace transfer = "") || IsZero at_).

Lemma Observe_answers window now source transfer at_ r :
  Observe window RedisAnswers now source transfer at_ r =
    if observable source transfer at_ then
      (Ok (Z.of_nat (size (observed_set window now source transfer at_ r))),
       <[velocityKeyPrefix ++ source := mkSortedSet (observed_set window now source transfer at_ r) (now + Milliseconds window)]> r)
    else (Err [ErrInvalidObservation], r).
Proof.
  unfold Observe, observable. destruct (_ || _); [done|]. cbn zeta. cbn [negb]. unfold velocityScript.
  change (UnixMilli (UTC at_)) with (UnixMilli at_).
  change (UnixMilli (add_duration (UTC at_) (- window))) with (UnixMilli (add_duration at_ (- window))).
  fold (observed_set window now source transfer at_ r). pose proof (size_observed window now source transfer at_ r).
  by rewrite (proj2 (Z.ltb_ge _ _)) by lia.
Qed.

(** The stored set after an observation. *)
Lemma Observe_live window now source transfer at_ r count r' t :
  Observe window RedisAnswers now source transfer at_ r = (Ok count, r') ->
  t <= now + Milliseconds window ->
  live t (velocityKeyPrefix ++ source) r' = observed_set window now source transfer at_ r.
Proof.
  rewrite Observe_answers. destruct (observable _ _ _); [|done]. intros [= <- <-] Ht.
  unfold live. rewrite lookup_insert_eq. cbn. by rewrite (proj2 (Z.leb_le _ _)).
Qed.

(** Observing again leaves the set as it is. *)
Lemma observed_again window now now' source transfer at_ r r' :
  Millisecond <= window ->
  live now' (velocityKeyPrefix ++ source) r' = observed_set window now source transfer at_ r ->
  observed_set window now' source transfer at_ r' = observed_set window now source transfer at_ r.
Proof.
  intros Hw Hlive. unfold observed_set at 1. rewrite Hlive. set (m := observed_set window now source transfer at_ r).
  assert (Hkeep : remove_up_to (UnixMilli (add_duration at_ (- window))) m = m).
  { apply map_eq. intros i. unfold remove_up_to. destruct (m !! i) as [x|] eqn:Ei; [|apply map_lookup_filter_None; by left].
    apply map_lookup_filter_Some. split; [done|]. cbn. revert Ei. unfold m, observed_set, add_new.
    set (f := remove_up_to _ _). assert (Hf : forall y, f !! i = Some y -> UnixMilli (add_duration at_ (- window)) < y).
    { intros y Hy. unfold f, remove_up_to in Hy. by apply map_lookup_filter_Some in Hy as [_ ?]. }
    destruct (f !! transfer); [apply Hf|]. intros [[_ <-]|[_ ?]]%lookup_insert_Some; [by apply milli_window|by apply Hf]. }
  rewrite Hkeep. unfold add_new. assert (Hs : is_Some (m !! transfer)) by (apply observed_set_spec; by left).
  by destruct Hs as [x ->].
Qed.

Lemma append_inj_prefix p a b : (p ++ a = p ++ b)%string -> a = b.
Proof. induction p as [|c p IH]; [done|]. cbn. intros [= ?]. auto. Qed.

(** ** Properties *)

(** C38: an observation that Redis answers counts exactly the distinct transfers of
    the source account seen inside the window, itself included, so at least one;
    it touches no other account; and repeating it, while the key lives, changes
    neither the set nor the count, so a redelivered event is not counted twice. *)
Theorem Observe_counts (window now now' : Z) (source transfer : string) (observedAt : Time) (r r' : Redis) (count : Z) :
  Millisecond <= window -> Observe window RedisAnswers now source transfer observedAt r = (Ok count, r') ->
  (exists ids : gset string, count = Z.of_nat (size ids) /\
     forall id, id ∈ ids <-> in_window window now source transfer observedAt r id) /\
  1 <= count /\
  (forall other t, other <> source -> live t (velocityKeyPrefix ++ other) r' = live t (velocityKeyPrefix ++ other) r) /\
  (now' <= now + Milliseconds window ->
     exists r'', Observe window RedisAnswers now' source transfer observedAt r' = (Ok count, r'') /\
       forall t, t <= now' + Milliseconds window ->
         live t (velocityKeyPrefix ++ source) r'' = observed_set window now source transfer observedAt r).
Proof.
  intros Hw HO. assert (HL := fun t => Observe_live _ _ _ _ _ _ _ _ t HO). pose proof HO as HE. rewrite Observe_answers in HE.
  destruct (observable source transfer observedAt) eqn:Hob; [|done]. injection HE as <- <-. split_and!.
  - eexists (dom _). split; [symmetry; f_equal; apply size_dom|]. intros id. rewrite elem_of_dom. apply observed_set_spec.
  - apply size_observed.
  - intros other t Hne. unfold live. rewrite lookup_insert_ne; [done|]. intros E%append_inj_prefix. congruence.
  - intros Hnow. pose proof (observed_again window now now' source transfer observedAt r _ Hw (HL now' Hnow)) as Hsame.
    rewrite Observe_answers, Hob, Hsame. eexists. split; [reflexivity|]. intros t Ht. unfold live. rewrite lookup_insert_eq. cbn.
    by rewrite (proj2 (Z.leb_le _ _)).
Qed.

Definition minute_window : Z := 60000 * Millisecond.
Definition busy : Redis :=
  (Observe minute_window RedisAnswers 0 "account" "transfer-1" (mkTime (1000 * Millisecond) 0) ∅).2.

Lemma Observe_counts_witness :
  exists r', Observe minute_window RedisAnswers 10 "account" "transfer-2" (mkTime (2000 * Millisecond) 0) busy = (Ok 2, r') /\
    forall t, live t (velocityKeyPrefix ++ "other") r' = live t (velocityKeyPrefix ++ "other") busy.
Proof.
  set (p := Observe minute_window RedisAnswers 10 "account" "transfer-2" (mkTime (2000 * Millisecond) 0) busy).
  assert (Hp : p = (Ok 2, p.2)) by (vm_compute; reflexivity). exists p.2. split; [exact Hp|].
  intros t. apply (proj1 (proj2 (proj2 (Observe_counts minute_window 10 0 "account" "transfer-2" (mkTime (2000 * Millisecond) 0) busy p.2 2
    ltac:(vm_compute; discriminate) Hp)))). discriminate.
Defined.
