(* ===== verification/Investigator.v ===== *)
(** * Advisory investigations

    [internal/app/investigator/investigator.go]: the facts of a review case that
    may be shown to an advisory provider, and the guard around its answer.  The
    provider is a parameter. *)

From stdpp Require Import base list strings numbers.
From Stdlib Require Import ZArith Lia.
From S2P Require Import Prelude GoText.

Open Scope string_scope.
Open Scope Z_scope.

Definition ErrInvalidInvestigation : leaf := errors_New "investigator: invalid argument".

Record Signal := mkSignal {
  Code : string;
  Contribution : Z
}.

Record Investigation := mkInvestigation {
  caseID : string;
  assessmentVersion : Z;
  investigated_currency : string;
  amountMinor : Z;
  investigated_score : Z;
  investigated_signals : list Signal
}.

Definition bad_signal (signal : Signal) : bool := bool_decide (TrimSpace (Code signal) = "") || (Contribution signal <? 0).

(** [NewInvestigation]; the value holds a copy of the signals. *)
Definition NewInvestigation (caseID : string) (assessmentVersion : Z) (currency : string) (amountMinor score : Z)
    (signals : list Signal) : Result Investigation :=
  if bool_decide (TrimSpace caseID = "") || (assessmentVersion <? 2) || negb (len currency =? 3) || (amountMinor <=? 0) ||
     (score <? 0) || (1000 <? score)
  then Err [ErrInvalidInvestigation]
  else if existsb bad_signal signals then Err [ErrInvalidInvestigation]
  else Ok (mkInvestigation caseID assessmentVersion currency amountMinor score signals).

(** [Service.Explain]. *)
Definition Explain (provider : Investigation -> Result string) (investigation : Investigation) : Result string :=
  if bool_decide (caseID investigation = "") then Err [ErrInvalidInvestigation]
  else match provider investigation with
  | Err err => Err err
  | Ok explanation => if bool_decide (TrimSpace explanation = "") then Err [ErrInvalidInvestigation] else Ok explanation
  end.

(** [MockProvider.Explain]. *)
Definition mock_Explain (Explanation : string) (failure : option error) (_ : Investigation) : Result string :=
  match failure with Some err => Err err | None => Ok Explanation end.

(** A created investigation is within the bounds of a review case, and is never
    the empty value that [Explain] refuses. *)
Lemma NewInvestigation_bounds id version currency amount score signals i :
  NewInvestigation id version currency amount score signals = Ok i ->
  2 <= assessmentVersion i /\ len (investigated_currency i) = 3 /\ 0 < amountMinor i /\
  0 <= investigated_score i <= 1000 /\ caseID i <> "" /\
  forall signal, signal ∈ investigated_signals i -> TrimSpace (Code signal) <> "" /\ 0 <= Contribution signal.
Proof.
  unfold NewInvestigation. destruct (_ || _) eqn:Eg; [done|]. destruct (existsb _ _) eqn:Es; [done|]. intros [= <-]. cbn.
  bool_simpl. split_and!; try lia; [intros ->; done|]. intros signal Hin%list_elem_of_In.
  destruct (bad_signal signal) eqn:Eb.
  - assert (Hex : existsb bad_signal signals = true) by (apply existsb_exists; eauto). congruence.
  - unfold bad_signal in Eb. bool_simpl. split; [done|lia].
Qed.

(** What reaches the caller is what the provider said about this very case. *)
Lemma Explain_provided provider i explanation : Explain provider i = Ok explanation ->
  provider i = Ok explanation /\ TrimSpace explanation <> "".
Proof.
  unfold Explain. case_bool_decide; [done|]. destruct (provider i) as [text|]; [|done]. case_bool_decide; [done|]. by intros [= <-].
Qed.
