(* ===== verification/HttpServer.v ===== *)
(** * The HTTP server's bookkeeping

    [internal/platform/httpserver/metrics.go]: the response writer that remembers
    the status it sent, and the request counter's labels.  The underlying
    [http.ResponseWriter] is the list of what it was told; the registry's counter
    is a map from labels to counts. *)

From stdpp Require Import base list gmap strings numbers pretty.
From Stdlib Require Import ZArith Lia.
From S2P Require Import Prelude.

Open Scope string_scope.
Open Scope Z_scope.

Definition StatusOK : Z := 200.

(** What a handler does to the response. *)
Inductive Sent :=
| SentHeader (status : Z)
| SentBody (body : string).

Record statusResponseWriter := mkStatusResponseWriter {
  ResponseWriter : list Sent;
  statusCode : Z;
  wroteHeader : bool
}.

Definition fresh_writer : statusResponseWriter := mkStatusResponseWriter [] 0 false.

Definition WriteHeader (status : Z) (w : statusResponseWriter) : statusResponseWriter :=
  if wroteHeader w then w else mkStatusResponseWriter (ResponseWriter w ++ [SentHeader status])%list status true.

Definition Write (body : string) (w : statusResponseWriter) : statusResponseWriter :=
  let w := if negb (wroteHeader w) then WriteHeader StatusOK w else w in
  mkStatusResponseWriter (ResponseWriter w ++ [SentBody body])%list (statusCode w) (wroteHeader w).

Definition status (w : statusResponseWriter) : Z := if negb (wroteHeader w) then StatusOK else statusCode w.

(** A handler's calls, in order. *)
Definition respond (w : statusResponseWriter) (call : Sent) : statusResponseWriter :=
  match call with SentHeader code => WriteHeader code w | SentBody body => Write body w end.

Definition responded (calls : list Sent) : statusResponseWriter := foldl respond fresh_writer calls.

(** [instrument]: the labels of a request and the counter behind it. *)
Definition route_label (pattern : string) : string := if bool_decide (pattern = "") then "unmatched" else pattern.

Abbreviation Counter := (gmap (string * string * string) Z).

Definition instrument (method pattern : string) (calls : list Sent) (requests : Counter) : Counter :=
  let labels := (method, route_label pattern, pretty (status (responded calls))) in
  <[labels := default 0 (requests !! labels) + 1]> requests.

(** The headers that reached the client. *)
Definition headers (sent : list Sent) : list Z :=
  omap (fun x => match x with SentHeader code => Some code | SentBody _ => None end) sent.

Definition writer_ok (w : statusResponseWriter) : Prop :=
  headers (ResponseWriter w) = (if wroteHeader w then [statusCode w] else []) /\
  (wroteHeader w = false -> ResponseWriter w = []).

Lemma WriteHeader_ok code w : writer_ok w -> writer_ok (WriteHeader code w).
Proof.
  intros [Hh He]. unfold WriteHeader. destruct (wroteHeader w) eqn:E; [by split; rewrite E|].
  by rewrite (He eq_refl).
Qed.

Lemma respond_ok call w : writer_ok w -> writer_ok (respond w call).
Proof.
  intros Hw. destruct call as [code|body]; [by apply WriteHeader_ok|]. cbn. unfold Write.
  assert (Hh : exists v, (if negb (wroteHeader w) then WriteHeader StatusOK w else w) = v /\ writer_ok v /\ wroteHeader v = true).
  { eexists. split; [reflexivity|]. destruct (wroteHeader w) eqn:E; cbn [negb]; [done|]. split; [by apply WriteHeader_ok|].
    unfold WriteHeader. by rewrite E. }
  destruct Hh as (v & -> & [Hv _] & Ht). split; cbn; [|by rewrite Ht]. unfold headers in *. rewrite omap_app, Hv, Ht. done.
Qed.

(** The status that is counted is the one that was sent: at most one header
    reaches the client, it is the first one the handler wrote, and a handler that
    writes none is counted as 200, which is what the server then sends. *)
Lemma counted_status_sent calls :
  let w := responded calls in
  headers (ResponseWriter w) = (if wroteHeader w then [status w] else []) /\ (wroteHeader w = false -> status w = StatusOK).
Proof.
  assert (Hw : writer_ok (responded calls)).
  { unfold responded. assert (H0 : writer_ok fresh_writer) by by split. revert H0. generalize fresh_writer.
    induction calls as [|call calls IH]; intros w Hw; [done|]. cbn. by apply IH, respond_ok. }
  cbn zeta. destruct Hw as [Hh _]. unfold status. destruct (wroteHeader _) eqn:E; cbn [negb]; by rewrite Hh.
Qed.
