(* ===== verification/Money.v ===== *)
(** * Ledger domain: currencies and money

    [internal/ledger/domain/currency.go] and [money.go]: the three-letter
    currency code and the signed [int64] amount of minor units, with checked
    addition, subtraction and negation. *)

From stdpp Require Import base list gmap strings numbers.
From Stdlib Require Import ZArith Lia Ascii.
From S2P Require Import Prelude GoText.

Open Scope string_scope.
Open Scope Z_scope.

(** ** currency.go *)

Definition ErrInvalidCurrency : leaf := errors_New "ledger domain: invalid currency".

(** [type Currency struct { code [3]byte }]. *)
Record Currency := mkCurrency {
  code0 : ascii;
  code1 : ascii;
  code2 : ascii
}.

#[export] Instance Currency_eq_dec : EqDecision Currency.
Proof. solve_decision. Defined.

#[export] Program Instance Currency_countable : Countable Currency :=
  inj_countable' (fun c => (code0 c, code1 c, code2 c)) (fun '(a, b, c) => mkCurrency a b c) _.
Next Obligation. by intros []. Qed.

(** The zero value [Currency{}]. *)
Definition zeroCurrency : Currency := mkCurrency "000" "000" "000".

(** [character < 'A' || character > 'Z'], negated. *)
Definition letter (a : ascii) : bool := is_upper (byte_val a).

Definition ParseCurrency (code : string) : Result Currency :=
  match code with
  | String a (String b (String c EmptyString)) =>
      if negb (letter a) then Err [ErrInvalidCurrency]
      else if negb (letter b) then Err [ErrInvalidCurrency]
      else if negb (letter c) then Err [ErrInvalidCurrency]
      else Ok (mkCurrency a b c)
  | _ => Err [ErrInvalidCurrency]
  end.

Definition currency_valid (c : Currency) : bool :=
  letter (code0 c) && letter (code1 c) && letter (code2 c).

(** [Currency.String]. *)
Definition currency_String (c : Currency) : string :=
  if negb (currency_valid c) then ""
  else String (code0 c) (String (code1 c) (String (code2 c) EmptyString)).

(** ** money.go *)

Definition ErrCurrencyMismatch : leaf := errors_New "ledger domain: currency mismatch".
Definition ErrAmountOverflow : leaf := errors_New "ledger domain: amount overflow".

(** [type Money struct { minorUnits int64; currency Currency }]. *)
Record Money := mkMoney {
  minorUnits : Z;
  currency : Currency
}.

#[export] Instance Money_eq_dec : EqDecision Money.
Proof. solve_decision. Defined.

Definition zeroMoney : Money := mkMoney 0 zeroCurrency.

Definition NewMoney (minorUnits : Z) (currency : Currency) : Result Money :=
  if negb (currency_valid currency) then Err [ErrInvalidCurrency]
  else Ok (mkMoney minorUnits currency).

Definition validateOperation (m other : Money) : Result unit :=
  if negb (currency_valid (currency m)) || negb (currency_valid (currency other))
  then Err [ErrInvalidCurrency]
  else if negb (bool_decide (currency m = currency other)) then Err [ErrCurrencyMismatch]
  else Ok tt.

Definition additionOverflows (left right : Z) : bool :=
  (0 <? right) && (i64_sub MaxInt64 right <? left) ||
  (right <? 0) && (left <? i64_sub MinInt64 right).

Definition subtractionOverflows (left right : Z) : bool :=
  (0 <? right) && (left <? i64_add MinInt64 right) ||
  (right <? 0) && (i64_add MaxInt64 right <? left).

Definition Add (m other : Money) : Result Money :=
  match validateOperation m other with
  | Err e => Err e
  | Ok _ =>
      if additionOverflows (minorUnits m) (minorUnits other) then Err [ErrAmountOverflow]
      else NewMoney (i64_add (minorUnits m) (minorUnits other)) (currency m)
  end.

Definition Subtract (m other : Money) : Result Money :=
  match validateOperation m other with
  | Err e => Err e
  | Ok _ =>
      if subtractionOverflows (minorUnits m) (minorUnits other) then Err [ErrAmountOverflow]
      else NewMoney (i64_sub (minorUnits m) (minorUnits other)) (currency m)
  end.

Definition Negate (m : Money) : Result Money :=
  if negb (currency_valid (currency m)) then Err [ErrInvalidCurrency]
  else if minorUnits m =? MinInt64 then Err [ErrAmountOverflow]
  else NewMoney (i64_neg (minorUnits m)) (currency m).

(** ** Specification *)

(** The values the package's constructors produce. *)
Definition money_wf (m : Money) : Prop :=
  in_int64 (minorUnits m) /\ currency_valid (currency m) = true.

#[export] Instance money_wf_dec m : Decision (money_wf m).
Proof. unfold money_wf. apply _. Defined.

(** ** Lemmas *)

Lemma currency_String_empty c : currency_String c = "" <-> currency_valid c = false.
Proof. unfold currency_String. by destruct (currency_valid c). Qed.

Lemma currency_String_inj c d :
  currency_valid c = true -> currency_String c = currency_String d -> c = d.
Proof.
  unfold currency_String. intros ->. destruct (currency_valid d); cbn; [|done].
  destruct c, d; cbn. congruence.
Qed.

Lemma ParseCurrency_valid s c :
  ParseCurrency s = Ok c -> currency_valid c = true /\ currency_String c = s.
Proof.
  unfold ParseCurrency. repeat case_match; try done. intros [= <-].
  unfold currency_String, currency_valid. cbn. bool_simpl.
  repeat match goal with H : letter _ = true |- _ => rewrite H end. done.
Qed.

Lemma ParseCurrency_String c :
  currency_valid c = true -> ParseCurrency (currency_String c) = Ok c.
Proof.
  intros H. unfold currency_String. rewrite H. unfold currency_valid in H. bool_simpl. cbn.
  repeat match goal with H : letter _ = true |- _ => rewrite H end. by destruct c.
Qed.

Lemma NewMoney_Ok n c m :
  NewMoney n c = Ok m <-> currency_valid c = true /\ m = mkMoney n c.
Proof. unfold NewMoney. destruct (currency_valid c); cbn; naive_solver. Qed.

Lemma additionOverflows_spec a b :
  in_int64 a -> in_int64 b -> additionOverflows a b = negb (bool_decide (in_int64 (a + b))).
Proof.
  intros Ha Hb. unfold additionOverflows. symmetry.
  destruct (Z.lt_total 0 b) as [?|[<-|?]];
    rewrite ?(proj2 (Z.ltb_lt 0 b)), ?(proj2 (Z.ltb_ge 0 b)), ?(proj2 (Z.ltb_lt b 0)), ?(proj2 (Z.ltb_ge b 0)) by lia;
    cbn [andb orb]; rewrite ?orb_false_r, ?i64_sub_id by int64_lia;
    case_bool_decide; cbn [negb]; symmetry; rewrite ?Z.ltb_lt, ?Z.ltb_ge; try done; int64_lia.
Qed.

Lemma subtractionOverflows_spec a b :
  in_int64 a -> in_int64 b -> subtractionOverflows a b = negb (bool_decide (in_int64 (a - b))).
Proof.
  intros Ha Hb. unfold subtractionOverflows. symmetry.
  destruct (Z.lt_total 0 b) as [?|[<-|?]];
    rewrite ?(proj2 (Z.ltb_lt 0 b)), ?(proj2 (Z.ltb_ge 0 b)), ?(proj2 (Z.ltb_lt b 0)), ?(proj2 (Z.ltb_ge b 0)) by lia;
    cbn [andb orb]; rewrite ?orb_false_r, ?i64_add_id by int64_lia;
    case_bool_decide; cbn [negb]; symmetry; rewrite ?Z.ltb_lt, ?Z.ltb_ge; try done; int64_lia.
Qed.

Lemma validateOperation_wf m n :
  money_wf m -> money_wf n ->
  validateOperation m n =
    if bool_decide (currency m = currency n) then Ok tt else Err [ErrCurrencyMismatch].
Proof.
  intros [_ Hm] [_ Hn]. unfold validateOperation. rewrite Hm, Hn. cbn. by case_bool_decide.
Qed.

Lemma NewMoney_wf_ok n c : currency_valid c = true -> NewMoney n c = Ok (mkMoney n c).
Proof. intros H. unfold NewMoney. by rewrite H. Qed.

Lemma Negate_wf m :
  money_wf m -> minorUnits m <> MinInt64 -> Negate m = Ok (mkMoney (- minorUnits m) (currency m)).
Proof.
  intros [Hi Hc] Hm. unfold Negate. rewrite Hc. cbn. rewrite (proj2 (Z.eqb_neq _ _)) by done.
  by rewrite i64_neg_id, NewMoney_wf_ok.
Qed.

Lemma Negate_Ok_inv m n :
  money_wf m -> Negate m = Ok n ->
  minorUnits m <> MinInt64 /\ n = mkMoney (- minorUnits m) (currency m) /\ money_wf n.
Proof.
  intros [Hi Hc] H. destruct (decide (minorUnits m = MinInt64)) as [E|E].
  - unfold Negate in H. by rewrite Hc, E in H.
  - rewrite Negate_wf in H by done. injection H as <-. split_and!; try done. split; [|done].
    cbn. int64_lia.
Qed.

(** ** Properties *)

(** Adding two amounts of the package returns their exact sum in the common
    currency when it fits [int64], reports a currency mismatch for different
    currencies and an overflow otherwise; it never wraps around. *)
Theorem Add_correct (m n : Money) :
  money_wf m -> money_wf n ->
  Add m n =
    if negb (bool_decide (currency m = currency n)) then Err [ErrCurrencyMismatch]
    else if bool_decide (in_int64 (minorUnits m + minorUnits n))
    then Ok (mkMoney (minorUnits m + minorUnits n) (currency m))
    else Err [ErrAmountOverflow].
Proof.
  intros Hm Hn. unfold Add. rewrite validateOperation_wf by done.
  case_bool_decide as Hc; cbn [negb]; [|done]. destruct Hm as [Hi Hv], Hn as [Hj _].
  rewrite additionOverflows_spec by done. case_bool_decide; cbn [negb]; [|done].
  by rewrite i64_add_id, NewMoney_wf_ok.
Qed.

Lemma Add_correct_witness :
  Add (mkMoney 40 (mkCurrency "U" "S" "D")) (mkMoney 2 (mkCurrency "U" "S" "D")) =
    Ok (mkMoney 42 (mkCurrency "U" "S" "D")).
Proof.
  rewrite (Add_correct (mkMoney 40 (mkCurrency "U" "S" "D")) (mkMoney 2 (mkCurrency "U" "S" "D")));
    [reflexivity | split; [unfold in_int64, MinInt64, MaxInt64; cbn; lia | reflexivity] ..].
Defined.
