(* ===== verification/Journal.v ===== *)
(** * Ledger domain: postings and journal entries

    [internal/ledger/domain/posting.go] and [journal_entry.go]: validated
    postings, balanced journal entries and their reversals. *)

From stdpp Require Import base list gmap strings numbers.
From Stdlib Require Import ZArith Lia Ascii.
From S2P Require Import Prelude GoText Money.

Open Scope string_scope.
Open Scope Z_scope.

(** ** posting.go *)

Definition ErrInvalidPosting : leaf := errors_New "ledger domain: invalid posting".

Record Posting := mkPosting {
  accountID : string;
  amount : Money
}.

#[export] Instance Posting_eq_dec : EqDecision Posting.
Proof. solve_decision. Defined.

(** [Posting.validate]. *)
Definition posting_validate (p : Posting) : Result unit :=
  if bool_decide (accountID p = "") then Err [ErrInvalidPosting]
  else if negb (currency_valid (currency (amount p))) then Err [ErrInvalidPosting; ErrInvalidCurrency]
  else if minorUnits (amount p) =? 0 then Err [ErrInvalidPosting]
  else if minorUnits (amount p) =? MinInt64 then Err [ErrInvalidPosting; ErrAmountOverflow]
  else Ok tt.

Definition NewPosting (accountID : string) (amount : Money) : Result Posting :=
  let posting := mkPosting (TrimSpace accountID) amount in
  match posting_validate posting with
  | Err e => Err e
  | Ok _ => Ok posting
  end.

(** ** journal_entry.go *)

Definition minPostingsPerEntry : Z := 2.
Definition maxPostingsPerEntry : Z := 1024.

Definition ErrInvalidJournalEntry : leaf := errors_New "ledger domain: invalid journal entry".
Definition ErrUnbalancedJournalEntry : leaf := errors_New "ledger domain: unbalanced journal entry".

Inductive JournalEntryType :=
| JournalEntryTypeUnknown
| JournalEntryTypeStandard
| JournalEntryTypeReversal.

#[export] Instance JournalEntryType_eq_dec : EqDecision JournalEntryType.
Proof. solve_decision. Defined.

Record NewJournalEntryParams := mkEntryParams {
  param_ID : string;
  param_Postings : list Posting;
  param_RecordedAt : Time
}.

Record JournalEntry := mkEntry {
  entry_id : string;
  entryType : JournalEntryType;
  reversesEntryID : string;
  postings : list Posting;
  recordedAt : Time
}.

#[export] Instance JournalEntry_eq_dec : EqDecision JournalEntry.
Proof. solve_decision. Defined.

(** The loop that adds each posting to the running total of its currency. *)
Definition add_total (totals : gmap Currency Z) (p : Posting) : gmap Currency Z :=
  let c := currency (amount p) in
  let total := default 0 (totals !! c) in
  <[c := total + minorUnits (amount p)]> totals.

(** The [big.Int] totals do not overflow, hence plain [Z]; which unbalanced
    currency the error names depends on the map order and is not modelled. *)
Definition validateBalancedPostings (postings : list Posting) : Result unit :=
  let totals := foldl add_total ∅ postings in
  if forallb (fun '(_, total) => total =? 0) (map_to_list totals) then Ok tt
  else Err [ErrUnbalancedJournalEntry].

(** The loop over the postings: the first invalid one is reported. *)
Fixpoint validate_postings (postings : list Posting) : Result unit :=
  match postings with
  | [] => Ok tt
  | p :: rest =>
      match posting_validate p with
      | Err e => Err (ErrInvalidJournalEntry :: e)
      | Ok _ => validate_postings rest
      end
  end.

(** [JournalEntry.validate]. *)
Definition entry_validate (e : JournalEntry) : Result unit :=
  if bool_decide (entry_id e = "") then Err [ErrInvalidJournalEntry]
  else if IsZero (recordedAt e) then Err [ErrInvalidJournalEntry]
  else if negb (bool_decide (entryType e = JournalEntryTypeStandard)) &&
          negb (bool_decide (entryType e = JournalEntryTypeReversal))
  then Err [ErrInvalidJournalEntry]
  else if bool_decide (entryType e = JournalEntryTypeStandard) && negb (bool_decide (reversesEntryID e = ""))
  then Err [ErrInvalidJournalEntry]
  else if bool_decide (entryType e = JournalEntryTypeReversal) && bool_decide (reversesEntryID e = "")
  then Err [ErrInvalidJournalEntry]
  else if (Z.of_nat (length (postings e)) <? minPostingsPerEntry) ||
          (maxPostingsPerEntry <? Z.of_nat (length (postings e)))
  then Err [ErrInvalidJournalEntry]
  else match validate_postings (postings e) with
  | Err err => Err err
  | Ok _ => validateBalancedPostings (postings e)
  end.

(** [JournalEntry.valid]. *)
Definition entry_valid (e : JournalEntry) : bool := is_ok (entry_validate e).

Definition newJournalEntry
    (params : NewJournalEntryParams) (entryType : JournalEntryType) (reversesEntryID : string)
    : Result JournalEntry :=
  let entry := mkEntry (TrimSpace (param_ID params)) entryType reversesEntryID
                 (param_Postings params) (UTC (param_RecordedAt params)) in
  match entry_validate entry with
  | Err e => Err e
  | Ok _ => Ok entry
  end.

Definition NewJournalEntry (params : NewJournalEntryParams) : Result JournalEntry :=
  newJournalEntry params JournalEntryTypeStandard "".

(** The loop of [Reverse] that negates each posting. *)
Fixpoint reverse_postings (postings : list Posting) : Result (list Posting) :=
  match postings with
  | [] => Ok []
  | p :: rest =>
      match Negate (amount p) with
      | Err e => Err e
      | Ok negated =>
          match NewPosting (accountID p) negated with
          | Err e => Err e
          | Ok reversed =>
              match reverse_postings rest with
              | Err e => Err e
              | Ok reversedRest => Ok (reversed :: reversedRest)
              end
          end
      end
  end.

(** [JournalEntry.Reverse]. *)
Definition Reverse (e : JournalEntry) (newID : string) (recordedAt : Time) : Result JournalEntry :=
  if negb (entry_valid e) then Err [ErrInvalidJournalEntry]
  else if bool_decide (TrimSpace newID = entry_id e) then Err [ErrInvalidJournalEntry]
  else match reverse_postings (postings e) with
  | Err err => Err err
  | Ok reversedPostings =>
      newJournalEntry (mkEntryParams newID reversedPostings recordedAt)
        JournalEntryTypeReversal (entry_id e)
  end.

(** ** Specification *)

(** The sum of the postings in one currency. *)
Fixpoint currency_total (c : Currency) (ps : list Posting) : Z :=
  match ps with
  | [] => 0
  | p :: rest => (if decide (currency (amount p) = c) then minorUnits (amount p) else 0) + currency_total c rest
  end.

(** Every currency nets to zero. *)
Definition balanced (ps : list Posting) : Prop := forall c, currency_total c ps = 0.

(** The postings [NewPosting] can produce from amounts of the package. *)
Definition posting_wf (p : Posting) : Prop :=
  accountID p <> "" /\ TrimSpace (accountID p) = accountID p /\ money_wf (amount p) /\
  minorUnits (amount p) <> 0 /\ minorUnits (amount p) <> MinInt64.

(** The entries [NewJournalEntry] and [Reverse] can produce. *)
Record entry_wf (e : JournalEntry) : Prop := {
  wf_id : entry_id e <> "" /\ TrimSpace (entry_id e) = entry_id e;
  wf_time : IsZero (recordedAt e) = false /\ UTC (recordedAt e) = recordedAt e;
  wf_type : (entryType e = JournalEntryTypeStandard /\ reversesEntryID e = "") \/
            (entryType e = JournalEntryTypeReversal /\ reversesEntryID e <> "");
  wf_count : minPostingsPerEntry <= Z.of_nat (length (postings e)) <= maxPostingsPerEntry;
  wf_postings : Forall posting_wf (postings e);
  wf_balanced : balanced (postings e)
}.

Definition negated (p : Posting) : Posting :=
  mkPosting (accountID p) (mkMoney (- minorUnits (amount p)) (currency (amount p))).

(** ** Lemmas *)

Lemma currency_total_app c ps qs :
  currency_total c (ps ++ qs) = currency_total c ps + currency_total c qs.
Proof. induction ps as [|p ps IH]; cbn; [done|]. rewrite IH. lia. Qed.

Lemma currency_total_negated c ps : currency_total c (negated <$> ps) = - currency_total c ps.
Proof. induction ps as [|p ps IH]; cbn; [done|]. rewrite IH. case_decide; lia. Qed.

Lemma foldl_add_total_lookup ps totals c :
  default 0 (foldl add_total totals ps !! c) = default 0 (totals !! c) + currency_total c ps.
Proof.
  revert totals. induction ps as [|p ps IH]; intros totals; cbn [foldl currency_total]; [lia|].
  rewrite IH. unfold add_total at 1.
  destruct (decide (currency (amount p) = c)) as [<-|Hne].
  - rewrite lookup_insert_eq. cbn. lia.
  - rewrite lookup_insert_ne by done. lia.
Qed.

(** The accumulated totals are zero exactly when every currency nets to zero. *)
Lemma validateBalancedPostings_spec ps :
  validateBalancedPostings ps = Ok tt <-> balanced ps.
Proof.
  unfold validateBalancedPostings, balanced.
  assert (Hl : forall c, currency_total c ps = default 0 (foldl add_total ∅ ps !! c)).
  { intros c. rewrite foldl_add_total_lookup, lookup_empty. done. }
  destruct (forallb _ _) eqn:E; split; try done.
  - intros _ c. rewrite Hl. destruct (_ !! c) as [t|] eqn:Ht; [|done]. cbn.
    rewrite forallb_forall in E. specialize (E (c, t)). apply Z.eqb_eq, E.
    by apply list_elem_of_In, elem_of_map_to_list.
  - intros H. exfalso. apply not_true_iff_false in E. apply E. apply forallb_forall.
    intros [c t] Hin%list_elem_of_In%elem_of_map_to_list. apply Z.eqb_eq.
    specialize (H c). rewrite Hl, Hin in H. done.
Qed.

Lemma validateBalancedPostings_Err ps e :
  validateBalancedPostings ps = Err e -> e = [ErrUnbalancedJournalEntry] /\ ~ balanced ps.
Proof.
  intros H. split; [unfold validateBalancedPostings in H; case_match; congruence|].
  intros Hb%validateBalancedPostings_spec. congruence.
Qed.

Lemma posting_validate_Ok p :
  posting_validate p = Ok tt <->
  accountID p <> "" /\ currency_valid (currency (amount p)) = true /\
  minorUnits (amount p) <> 0 /\ minorUnits (amount p) <> MinInt64.
Proof.
  unfold posting_validate. case_bool_decide; [naive_solver|].
  destruct (currency_valid _); cbn; [|naive_solver].
  destruct (Z.eqb_spec (minorUnits (amount p)) 0); [naive_solver|].
  destruct (Z.eqb_spec (minorUnits (amount p)) MinInt64); naive_solver.
Qed.

Lemma posting_wf_validate p : posting_wf p -> posting_validate p = Ok tt.
Proof. intros (? & ? & [? ?] & ? & ?). by apply posting_validate_Ok. Qed.

Lemma validate_postings_Ok ps :
  validate_postings ps = Ok tt <-> Forall (fun p => posting_validate p = Ok tt) ps.
Proof.
  induction ps as [|p ps IH]; cbn; [by split|]. destruct (posting_validate p) as [[]|e] eqn:E.
  - rewrite IH, Forall_cons_iff. naive_solver.
  - split; [done|]. intros [? _]%Forall_cons_iff. congruence.
Qed.

Lemma NewPosting_Ok a m p :
  in_int64 (minorUnits m) -> NewPosting a m = Ok p ->
  p = mkPosting (TrimSpace a) m /\ posting_wf p.
Proof.
  unfold NewPosting. intros Hi H. result_inv. destruct (posting_validate _) as [[]|e] eqn:E; [|done].
  injection H as <-. apply posting_validate_Ok in E as (? & ? & ? & ?). split; [done|].
  split_and!; try done. apply TrimSpace_idemp.
Qed.

Lemma NewPosting_wf a m :
  a <> "" -> TrimSpace a = a -> currency_valid (currency m) = true ->
  minorUnits m <> 0 -> minorUnits m <> MinInt64 -> NewPosting a m = Ok (mkPosting a m).
Proof.
  intros H1 H2 H3 H4 H5. unfold NewPosting. rewrite H2.
  by rewrite (proj2 (posting_validate_Ok (mkPosting a m))).
Qed.

(** The shape of the type and source fields that [entry_validate] accepts. *)
Definition type_shape (e : JournalEntry) : bool :=
  match entryType e with
  | JournalEntryTypeUnknown => false
  | JournalEntryTypeStandard => bool_decide (reversesEntryID e = "")
  | JournalEntryTypeReversal => negb (bool_decide (reversesEntryID e = ""))
  end.

Lemma entry_validate_eq e :
  entry_validate e =
    if bool_decide (entry_id e = "") || IsZero (recordedAt e) || negb (type_shape e) ||
       negb (bool_decide (minPostingsPerEntry <= Z.of_nat (length (postings e)) <= maxPostingsPerEntry))
    then Err [ErrInvalidJournalEntry]
    else match validate_postings (postings e) with
    | Err err => Err err
    | Ok _ => validateBalancedPostings (postings e)
    end.
Proof.
  unfold entry_validate, type_shape. case_bool_decide; [done|]. destruct (IsZero _); [done|].
  assert (Hc : (Z.of_nat (length (postings e)) <? minPostingsPerEntry) ||
               (maxPostingsPerEntry <? Z.of_nat (length (postings e))) =
    negb (bool_decide (minPostingsPerEntry <= Z.of_nat (length (postings e)) <= maxPostingsPerEntry))).
  { case_bool_decide; lia. }
  rewrite Hc. destruct (entryType e); cbn; repeat case_bool_decide; done.
Qed.

Lemma type_shape_spec e :
  type_shape e = true <->
  (entryType e = JournalEntryTypeStandard /\ reversesEntryID e = "") \/
  (entryType e = JournalEntryTypeReversal /\ reversesEntryID e <> "").
Proof. unfold type_shape. destruct (entryType e); repeat case_bool_decide; cbn; naive_solver. Qed.

Lemma entry_validate_Ok e :
  entry_validate e = Ok tt <->
  entry_id e <> "" /\ IsZero (recordedAt e) = false /\ type_shape e = true /\
  minPostingsPerEntry <= Z.of_nat (length (postings e)) <= maxPostingsPerEntry /\
  validate_postings (postings e) = Ok tt /\ balanced (postings e).
Proof.
  rewrite entry_validate_eq, <- validateBalancedPostings_spec.
  case_bool_decide; [naive_solver|]. destruct (IsZero _); [naive_solver|].
  destruct (type_shape e); [|naive_solver]. case_bool_decide; cbn; [|naive_solver].
  destruct (validate_postings _) as [[]|]; naive_solver.
Qed.

Lemma wf_posting_list ps : Forall posting_wf ps -> validate_postings ps = Ok tt.
Proof. intros H. apply validate_postings_Ok. eapply Forall_impl; [apply posting_wf_validate|done]. Qed.

Lemma entry_wf_valid e : entry_wf e -> entry_validate e = Ok tt.
Proof.
  intros [[? ?] [? ?] ? ? ? ?]. apply entry_validate_Ok. split_and!; try done; try lia.
  - by apply type_shape_spec.
  - by apply wf_posting_list.
Qed.

Lemma newJournalEntry_Ok params ty rev e :
  Forall posting_wf (param_Postings params) ->
  newJournalEntry params ty rev = Ok e ->
  e = mkEntry (TrimSpace (param_ID params)) ty rev (param_Postings params) (UTC (param_RecordedAt params)) /\
  entry_wf e.
Proof.
  intros Hw H. unfold newJournalEntry in H. destruct (entry_validate _) as [[]|err] eqn:E; [|done].
  injection H as <-. split; [done|]. apply entry_validate_Ok in E as (? & ? & ?%type_shape_spec & ? & ? & ?).
  split; try done; split; try done. apply TrimSpace_idemp.
Qed.

Lemma newJournalEntry_complete params ty rev :
  entry_wf (mkEntry (TrimSpace (param_ID params)) ty rev (param_Postings params) (UTC (param_RecordedAt params))) ->
  newJournalEntry params ty rev =
    Ok (mkEntry (TrimSpace (param_ID params)) ty rev (param_Postings params) (UTC (param_RecordedAt params))).
Proof. intros H. unfold newJournalEntry. by rewrite entry_wf_valid. Qed.

Lemma negated_wf p : posting_wf p -> posting_wf (negated p).
Proof.
  intros (? & ? & [? ?] & ? & ?). split_and!; cbn; try done; try int64_lia.
  split; [cbn; int64_lia|done].
Qed.

Lemma reverse_postings_wf ps :
  Forall posting_wf ps -> reverse_postings ps = Ok (negated <$> ps).
Proof.
  induction 1 as [|p ps Hp _ IH]; [done|]. cbn [reverse_postings fmap list_fmap].
  destruct (negated_wf p Hp) as (? & ? & [? ?] & ? & ?). destruct Hp as (? & ? & ? & ? & ?).
  rewrite Negate_wf, NewPosting_wf by done. by rewrite IH.
Qed.

Lemma balanced_negated ps : balanced ps -> balanced (negated <$> ps).
Proof. intros H c. rewrite currency_total_negated, H. done. Qed.

(** Reversing a well-formed entry under a new identity. *)
Lemma Reverse_wf e newID at_ :
  entry_wf e -> TrimSpace newID <> "" -> TrimSpace newID <> entry_id e -> IsZero at_ = false ->
  let r := mkEntry (TrimSpace newID) JournalEntryTypeReversal (entry_id e) (negated <$> postings e) (UTC at_) in
  Reverse e newID at_ = Ok r /\ entry_wf r.
Proof.
  intros He Hid Hne Ht r.
  assert (Hr : entry_wf r).
  { destruct He as [[? ?] ? ? ? Hp ?]. split; cbn; try done.
    - split; [done|apply TrimSpace_idemp].
    - by right.
    - by rewrite length_fmap.
    - apply Forall_fmap. eapply Forall_impl; [apply negated_wf|exact Hp].
    - by apply balanced_negated. }
  split; [|done]. unfold Reverse, entry_valid. rewrite entry_wf_valid by done. cbn [is_ok negb].
  rewrite bool_decide_eq_false_2 by done. rewrite reverse_postings_wf by apply He.
  rewrite newJournalEntry_complete; done.
Qed.

(** A concrete balanced pair of postings, for the witnesses below. *)
Definition sample_currency : Currency := mkCurrency "U"%char "S"%char "D"%char.
Definition sample_postings : list Posting :=
  [mkPosting "source" (mkMoney (-25) sample_currency); mkPosting "target" (mkMoney 25 sample_currency)].
Definition sample_entry : JournalEntry :=
  mkEntry "entry-1" JournalEntryTypeStandard "" sample_postings (mkTime 1000 0).

Lemma sample_postings_wf : Forall posting_wf sample_postings.
Proof. repeat constructor; cbn; (done || int64_lia). Qed.

Lemma sample_balanced : balanced sample_postings.
Proof. intros c. cbn. case_decide; lia. Qed.

Lemma sample_entry_wf : entry_wf sample_entry.
Proof.
  split; cbn; try done; [by left|apply sample_postings_wf|apply sample_balanced].
Qed.

(** ** Properties *)

(** C25: a standard entry is created exactly when its identity, time and posting
    count are acceptable, every posting is valid, and every currency of its
    postings sums to zero; a created entry carries the given postings and
    satisfies the entry invariant. *)
Theorem NewJournalEntry_iff_balanced (params : NewJournalEntryParams) :
  Forall posting_wf (param_Postings params) ->
  (forall e, NewJournalEntry params = Ok e ->
     entry_wf e /\ postings e = param_Postings params /\ entryType e = JournalEntryTypeStandard) /\
  (is_ok (NewJournalEntry params) = true <->
     TrimSpace (param_ID params) <> "" /\ IsZero (param_RecordedAt params) = false /\
     2 <= Z.of_nat (length (param_Postings params)) <= 1024 /\
     forall c, currency_total c (param_Postings params) = 0).
Proof.
  intros Hw. split.
  - intros e H. unfold NewJournalEntry in H. apply newJournalEntry_Ok in H as [-> ?]; done.
  - unfold NewJournalEntry, newJournalEntry. destruct (entry_validate _) as [[]|err] eqn:E; cbn [is_ok].
    + apply entry_validate_Ok in E as (? & ? & _ & ? & ? & ?). by split.
    + split; [done|]. intros (? & ? & ? & ?). exfalso.
      rewrite (proj2 (entry_validate_Ok _)) in E; [done|]. unfold minPostingsPerEntry, maxPostingsPerEntry.
      split_and!; cbn [postings]; try done; try lia. by apply wf_posting_list.
Qed.

Lemma NewJournalEntry_iff_balanced_witness :
  is_ok (NewJournalEntry (mkEntryParams "entry-1" sample_postings (mkTime 1000 0))) = true.
Proof.
  apply (NewJournalEntry_iff_balanced (mkEntryParams "entry-1" sample_postings (mkTime 1000 0))).
  - apply sample_postings_wf.
  - split_and!; try (vm_compute; congruence). apply sample_balanced.
Defined.

(** C26: reversing a valid entry under a new identity and a real time always
    succeeds, and yields a valid reversal linked to its source, whose postings
    are the source's with every amount negated on the same account; reversing
    that reversal in turn gives back the source's postings. *)
Theorem Reverse_correct (e : JournalEntry) (newID : string) (at_ : Time) :
  entry_wf e -> TrimSpace newID <> "" -> TrimSpace newID <> entry_id e -> IsZero at_ = false ->
  exists r, Reverse e newID at_ = Ok r /\ entry_wf r /\
    entry_id r = TrimSpace newID /\ entryType r = JournalEntryTypeReversal /\
    reversesEntryID r = entry_id e /\ recordedAt r = UTC at_ /\
    postings r = negated <$> postings e /\
    (forall otherID at', TrimSpace otherID <> "" -> TrimSpace otherID <> entry_id r -> IsZero at' = false ->
       exists r', Reverse r otherID at' = Ok r' /\ postings r' = postings e).
Proof.
  intros He Hid Hne Ht. destruct (Reverse_wf e newID at_) as [-> Hr]; try done.
  eexists. split; [done|]. split_and!; try done. intros otherID at' H1 H2 H3.
  destruct (Reverse_wf _ otherID at' Hr) as [-> _]; try done. eexists. split; [done|]. cbn.
  rewrite <- list_fmap_compose. rewrite <- (list_fmap_id (postings e)) at 2.
  apply list_fmap_ext. intros _ [a [u c]] _. unfold negated. cbn. by rewrite Z.opp_involutive.
Qed.

Lemma Reverse_correct_witness :
  exists r, Reverse sample_entry "entry-2" (mkTime 2000 0) = Ok r /\ reversesEntryID r = "entry-1".
Proof.
  destruct (Reverse_correct sample_entry "entry-2" (mkTime 2000 0)) as (r & H & _ & _ & _ & Hr & _).
  - apply sample_entry_wf.
  - vm_compute. congruence.
  - vm_compute. congruence.
  - reflexivity.
  - exists r. split; [exact H | exact Hr].
Defined.
