(* ===== verification/TransferDomain.v ===== *)
(** * Transfer domain: transfers and their lifecycle

    [internal/transfer/domain/transfer.go] and [lifecycle.go]: the immutable
    transfer intent, its journal entry, and the lifecycle state machine. *)

From stdpp Require Import base list gmap strings numbers.
From Stdlib Require Import ZArith Lia.
From S2P Require Import Prelude GoText Money Journal.

Open Scope string_scope.
Open Scope Z_scope.

(** ** transfer.go *)

Definition maxIdempotencyKeyBytes : Z := 128.
Definition ErrInvalidTransfer : leaf := errors_New "transfer domain: invalid transfer".

Record NewTransferParams := mkTransferParams {
  tp_ID : string;
  tp_IdempotencyKey : string;
  tp_RequesterID : string;
  tp_SourceAccountID : string;
  tp_DestinationAccountID : string;
  tp_Amount : Money;
  tp_RequestedAt : Time
}.

Record Transfer := mkTransfer {
  transfer_id : string;
  idempotencyKey : string;
  requesterID : string;
  sourceAccountID : string;
  destinationAccountID : string;
  transfer_amount : Money;
  requestedAt : Time
}.

#[export] Instance Transfer_eq_dec : EqDecision Transfer.
Proof. solve_decision. Defined.

Definition validIdempotencyKey (value : string) : bool :=
  if bool_decide (value = "") || (maxIdempotencyKeyBytes <? len value) || negb (utf8_ValidString value)
  then false
  else visible_runes value.

(** [Transfer.validate]: the cases of the [switch], in order. *)
Definition transfer_validate (t : Transfer) : Result unit :=
  if negb (isCanonicalUUID (transfer_id t)) then Err [ErrInvalidTransfer]
  else if negb (validIdempotencyKey (idempotencyKey t)) then Err [ErrInvalidTransfer]
  else if negb (isCanonicalUUID (requesterID t)) then Err [ErrInvalidTransfer]
  else if negb (isCanonicalUUID (sourceAccountID t)) then Err [ErrInvalidTransfer]
  else if negb (isCanonicalUUID (destinationAccountID t)) then Err [ErrInvalidTransfer]
  else if bool_decide (sourceAccountID t = destinationAccountID t) then Err [ErrInvalidTransfer]
  else if bool_decide (currency_String (currency (transfer_amount t)) = "") then Err [ErrInvalidTransfer]
  else if minorUnits (transfer_amount t) <=? 0 then Err [ErrInvalidTransfer]
  else if IsZero (requestedAt t) then Err [ErrInvalidTransfer]
  else Ok tt.

Definition NewTransfer (params : NewTransferParams) : Result Transfer :=
  let transfer := mkTransfer
    (normalizeUUID (tp_ID params)).1
    (TrimSpace (tp_IdempotencyKey params))
    (normalizeUUID (tp_RequesterID params)).1
    (normalizeUUID (tp_SourceAccountID params)).1
    (normalizeUUID (tp_DestinationAccountID params)).1
    (tp_Amount params)
    (UTC (tp_RequestedAt params)) in
  match transfer_validate transfer with
  | Err e => Err e
  | Ok _ => Ok transfer
  end.

(** [Transfer.JournalEntry]. *)
Definition transfer_JournalEntry (t : Transfer) : Result JournalEntry :=
  _ ← transfer_validate t;
  debit ← Negate (transfer_amount t);
  sourcePosting ← NewPosting (sourceAccountID t) debit;
  destinationPosting ← NewPosting (destinationAccountID t) (transfer_amount t);
  NewJournalEntry (mkEntryParams (transfer_id t) [sourcePosting; destinationPosting] (requestedAt t)).

(** ** lifecycle.go *)

Definition maxLifecycleCodeBytes : Z := 64.
Definition pendingRiskVersion : Z := 1.

Definition ErrInvalidLifecycle : leaf := errors_New "transfer domain: invalid lifecycle".
Definition ErrInvalidTransition : leaf := errors_New "transfer domain: invalid lifecycle transition".

Inductive Status :=
| StatusUnknown
| StatusPendingRisk
| StatusApproved
| StatusReviewRequired
| StatusDeclined
| StatusCompleted
| StatusFailed.

#[export] Instance Status_eq_dec : EqDecision Status.
Proof. solve_decision. Defined.

Definition status_String (s : Status) : string :=
  match s with
  | StatusPendingRisk => "pending_risk"
  | StatusApproved => "approved"
  | StatusReviewRequired => "review_required"
  | StatusDeclined => "declined"
  | StatusCompleted => "completed"
  | StatusFailed => "failed"
  | StatusUnknown => ""
  end.

Record LifecycleParams := mkLifecycleParams {
  lp_Transfer : Transfer;
  lp_Status : Status;
  lp_Version : Z;
  lp_RiskPolicyVersion : string;
  lp_JournalEntryID : string;
  lp_FailureReason : string
}.

Record Lifecycle := mkLifecycle {
  lc_transfer : Transfer;
  lc_status : Status;
  lc_version : Z;
  riskPolicyVersion : string;
  journalEntryID : string;
  failureReason : string
}.

#[export] Instance Lifecycle_eq_dec : EqDecision Lifecycle.
Proof. solve_decision. Defined.

Definition lifecycle_code_rune (c : Z) : bool :=
  is_lower c || is_digit c || (c =? 95) || (c =? 45).

Definition validLifecycleCode (value : string) : bool :=
  if (len value =? 0) || (maxLifecycleCodeBytes <? len value) then false
  else forallb lifecycle_code_rune (runes value).

Definition validPolicyVersion (value : string) : bool :=
  if (len value =? 0) || (maxLifecycleCodeBytes <? len value) then false
  else visible_runes value.

(** [Lifecycle.validate]. *)
Definition lifecycle_validate (l : Lifecycle) : Result unit :=
  match transfer_validate (lc_transfer l) with
  | Err e => Err (ErrInvalidLifecycle :: e)
  | Ok _ =>
      if lc_version l <=? 0 then Err [ErrInvalidLifecycle]
      else if
        match lc_status l with
        | StatusPendingRisk =>
            negb (lc_version l =? pendingRiskVersion) || negb (bool_decide (journalEntryID l = "")) ||
            negb (bool_decide (failureReason l = ""))
        | StatusApproved | StatusReviewRequired | StatusDeclined =>
            (lc_version l <? 2) || negb (bool_decide (journalEntryID l = "")) ||
            negb (bool_decide (failureReason l = ""))
        | StatusCompleted =>
            negb (bool_decide (journalEntryID l = transfer_id (lc_transfer l))) ||
            negb (bool_decide (failureReason l = "")) ||
            (negb (bool_decide (riskPolicyVersion l = "")) && negb (validPolicyVersion (riskPolicyVersion l))) ||
            (negb (lc_version l =? pendingRiskVersion) && negb (validPolicyVersion (riskPolicyVersion l)))
        | StatusFailed =>
            negb (validPolicyVersion (riskPolicyVersion l)) || (lc_version l <? 2) ||
            negb (bool_decide (journalEntryID l = "")) || negb (validLifecycleCode (failureReason l))
        | StatusUnknown => true
        end
      then Err [ErrInvalidLifecycle]
      else if negb (bool_decide (lc_status l = StatusCompleted)) && negb (validPolicyVersion (riskPolicyVersion l))
      then Err [ErrInvalidLifecycle]
      else Ok tt
  end.

Definition NewLifecycle (params : LifecycleParams) : Result Lifecycle :=
  let lifecycle := mkLifecycle (lp_Transfer params) (lp_Status params) (lp_Version params)
    (TrimSpace (lp_RiskPolicyVersion params)) (TrimSpace (lp_JournalEntryID params))
    (TrimSpace (lp_FailureReason params)) in
  match lifecycle_validate lifecycle with
  | Err e => Err e
  | Ok _ => Ok lifecycle
  end.

Definition NewPendingLifecycle (transfer : Transfer) (riskPolicyVersion : string) : Result Lifecycle :=
  NewLifecycle (mkLifecycleParams transfer StatusPendingRisk pendingRiskVersion riskPolicyVersion "" "").

(** [Lifecycle.transition]: the version is an [int64] increment. *)
Definition transition (l : Lifecycle) (status : Status) (journalEntryID failureReason : string) : Result Lifecycle :=
  NewLifecycle (mkLifecycleParams (lc_transfer l) status (i64_add (lc_version l) 1)
    (riskPolicyVersion l) journalEntryID failureReason).

Definition Approve (l : Lifecycle) : Result Lifecycle :=
  if negb (bool_decide (lc_status l = StatusPendingRisk)) && negb (bool_decide (lc_status l = StatusReviewRequired))
  then Err [ErrInvalidTransition]
  else transition l StatusApproved "" "".

Definition RequireReview (l : Lifecycle) : Result Lifecycle :=
  if negb (bool_decide (lc_status l = StatusPendingRisk)) then Err [ErrInvalidTransition]
  else transition l StatusReviewRequired "" "".

Definition Decline (l : Lifecycle) : Result Lifecycle :=
  if negb (bool_decide (lc_status l = StatusPendingRisk)) && negb (bool_decide (lc_status l = StatusReviewRequired))
  then Err [ErrInvalidTransition]
  else transition l StatusDeclined "" "".

Definition Complete (l : Lifecycle) : Result Lifecycle :=
  if negb (bool_decide (lc_status l = StatusApproved)) then Err [ErrInvalidTransition]
  else transition l StatusCompleted (transfer_id (lc_transfer l)) "".

Definition lifecycle_Fail (l : Lifecycle) (reason : string) : Result Lifecycle :=
  if negb (bool_decide (lc_status l = StatusApproved)) then Err [ErrInvalidTransition]
  else if negb (validLifecycleCode (TrimSpace reason)) then Err [ErrInvalidLifecycle]
  else transition l StatusFailed "" (TrimSpace reason).

(** ** Specification *)

(** The transfers [NewTransfer] produces from amounts of the ledger package. *)
Definition transfer_wf (t : Transfer) : Prop :=
  transfer_validate t = Ok tt /\ in_int64 (minorUnits (transfer_amount t)) /\
  UTC (requestedAt t) = requestedAt t.

(** The lifecycles [NewLifecycle] produces from such transfers. *)
Definition lifecycle_wf (l : Lifecycle) : Prop :=
  lifecycle_validate l = Ok tt /\ transfer_wf (lc_transfer l) /\ in_int64 (lc_version l).

(** The permitted transitions, as a graph on states. *)
Definition allowed (from to : Status) : bool :=
  match from, to with
  | StatusPendingRisk, (StatusApproved | StatusReviewRequired | StatusDeclined) => true
  | StatusReviewRequired, (StatusApproved | StatusDeclined) => true
  | StatusApproved, (StatusCompleted | StatusFailed) => true
  | _, _ => false
  end.

(** The operations of the package that change a lifecycle. *)
Inductive lifecycle_op :=
| OpApprove
| OpRequireReview
| OpDecline
| OpComplete
| OpFail (reason : string).

Definition apply_op (op : lifecycle_op) (l : Lifecycle) : Result Lifecycle :=
  match op with
  | OpApprove => Approve l
  | OpRequireReview => RequireReview l
  | OpDecline => Decline l
  | OpComplete => Complete l
  | OpFail reason => lifecycle_Fail l reason
  end.

Definition op_target (op : lifecycle_op) : Status :=
  match op with
  | OpApprove => StatusApproved
  | OpRequireReview => StatusReviewRequired
  | OpDecline => StatusDeclined
  | OpComplete => StatusCompleted
  | OpFail _ => StatusFailed
  end.

(** One operation applied to a lifecycle. *)
Inductive lifecycle_step : Lifecycle -> Lifecycle -> Prop :=
| step_op op l l' : apply_op op l = Ok l' -> lifecycle_step l l'.

(** How many transitions a state is away from acceptance, and how many can follow. *)
Definition remaining (s : Status) : nat :=
  match s with
  | StatusPendingRisk => 3
  | StatusReviewRequired => 2
  | StatusApproved => 1
  | _ => 0
  end.

(** ** Lemmas *)

Lemma transfer_validate_Ok t :
  transfer_validate t = Ok tt <->
  isCanonicalUUID (transfer_id t) = true /\ validIdempotencyKey (idempotencyKey t) = true /\
  isCanonicalUUID (requesterID t) = true /\ isCanonicalUUID (sourceAccountID t) = true /\
  isCanonicalUUID (destinationAccountID t) = true /\ sourceAccountID t <> destinationAccountID t /\
  currency_valid (currency (transfer_amount t)) = true /\ 0 < minorUnits (transfer_amount t) /\
  IsZero (requestedAt t) = false.
Proof.
  unfold transfer_validate.
  destruct (isCanonicalUUID (transfer_id t)); cbn [negb]; [|naive_solver].
  destruct (validIdempotencyKey _); cbn [negb]; [|naive_solver].
  destruct (isCanonicalUUID (requesterID t)); cbn [negb]; [|naive_solver].
  destruct (isCanonicalUUID (sourceAccountID t)); cbn [negb]; [|naive_solver].
  destruct (isCanonicalUUID (destinationAccountID t)); cbn [negb]; [|naive_solver].
  case_bool_decide; [naive_solver|].
  case_bool_decide as Hc; rewrite currency_String_empty in Hc.
  { rewrite Hc. naive_solver. }
  apply not_false_iff_true in Hc. rewrite Hc.
  destruct (Z.leb_spec (minorUnits (transfer_amount t)) 0); [split; [done|naive_solver lia]|].
  destruct (IsZero _); naive_solver.
Qed.

Lemma validIdempotencyKey_visible k : validIdempotencyKey k = true -> all_bytes is_visible k = true.
Proof. unfold validIdempotencyKey. case_match; [done|]. by rewrite visible_runes_bytes. Qed.

Lemma validPolicyVersion_visible v : validPolicyVersion v = true -> all_bytes is_visible v = true.
Proof. unfold validPolicyVersion. case_match; [done|]. by rewrite visible_runes_bytes. Qed.

Lemma code_rune_high r : 0x80 <= r -> lifecycle_code_rune r = false.
Proof. unfold lifecycle_code_rune, is_lower, is_digit. intros. lia. Qed.

Lemma validLifecycleCode_visible v : validLifecycleCode v = true -> all_bytes is_visible v = true.
Proof.
  unfold validLifecycleCode. case_match; [done|]. rewrite forallb_runes by apply code_rune_high.
  apply all_bytes_impl. intros c _. unfold lifecycle_code_rune, is_lower, is_digit, is_visible. intros. lia.
Qed.

Lemma policy_trim v : validPolicyVersion v = true -> TrimSpace v = v.
Proof. intros. by apply TrimSpace_visible, validPolicyVersion_visible. Qed.

Lemma code_trim v : validLifecycleCode v = true -> TrimSpace v = v.
Proof. intros. by apply TrimSpace_visible, validLifecycleCode_visible. Qed.

Lemma NewTransfer_Ok p t :
  NewTransfer p = Ok t ->
  t = mkTransfer (normalizeUUID (tp_ID p)).1 (TrimSpace (tp_IdempotencyKey p))
        (normalizeUUID (tp_RequesterID p)).1 (normalizeUUID (tp_SourceAccountID p)).1
        (normalizeUUID (tp_DestinationAccountID p)).1 (tp_Amount p) (UTC (tp_RequestedAt p)) /\
  transfer_validate t = Ok tt.
Proof.
  unfold NewTransfer. destruct (transfer_validate _) as [[]|] eqn:E; [|done]. by intros [= <-].
Qed.

(** The accessors' view of a transfer, as the repositories rebuild it. *)
Definition params_of (t : Transfer) : NewTransferParams :=
  mkTransferParams (transfer_id t) (idempotencyKey t) (requesterID t) (sourceAccountID t)
    (destinationAccountID t) (transfer_amount t) (requestedAt t).

Lemma NewTransfer_params_of t :
  transfer_validate t = Ok tt -> UTC (requestedAt t) = requestedAt t -> NewTransfer (params_of t) = Ok t.
Proof.
  intros H Hu. pose proof H as (? & Hk & ? & ? & ? & _)%transfer_validate_Ok.
  unfold NewTransfer, params_of. cbn [tp_ID tp_IdempotencyKey tp_RequesterID tp_SourceAccountID
    tp_DestinationAccountID tp_Amount tp_RequestedAt].
  rewrite !canonical_normalize by done. rewrite TrimSpace_visible by by apply validIdempotencyKey_visible.
  rewrite Hu. cbn [fst]. destruct t. cbn in *. by rewrite H.
Qed.

Lemma transfer_entry_postings t :
  transfer_wf t ->
  Forall posting_wf [mkPosting (sourceAccountID t) (mkMoney (- minorUnits (transfer_amount t)) (currency (transfer_amount t)));
                     mkPosting (destinationAccountID t) (transfer_amount t)].
Proof.
  intros ((? & ? & ? & ? & ? & ? & ? & ? & ?)%transfer_validate_Ok & Hi & _).
  repeat constructor; cbn; eauto with wallet; int64_lia.
Qed.

(** The entry that moves a transfer's amount, recorded at a given time. *)
Definition transfer_entry (t : Transfer) (at_ : Time) : JournalEntry :=
  mkEntry (transfer_id t) JournalEntryTypeStandard ""
    [mkPosting (sourceAccountID t) (mkMoney (- minorUnits (transfer_amount t)) (currency (transfer_amount t)));
     mkPosting (destinationAccountID t) (transfer_amount t)] (UTC at_).

Lemma transfer_entry_wf t at_ : transfer_wf t -> IsZero at_ = false -> entry_wf (transfer_entry t at_).
Proof.
  intros Hw Ht. pose proof Hw as ((? & ? & ? & ? & ? & ? & ? & ? & ?)%transfer_validate_Ok & Hi & _).
  split; cbn; eauto with wallet.
  - done.
  - by apply transfer_entry_postings.
  - intros c. cbn. case_decide; lia.
Qed.

(** The three constructor calls that build it from the amount and the accounts. *)
Lemma build_transfer_entry t at_ :
  transfer_wf t -> IsZero at_ = false ->
  (debit ← Negate (transfer_amount t);
   sourcePosting ← NewPosting (sourceAccountID t) debit;
   destinationPosting ← NewPosting (destinationAccountID t) (transfer_amount t);
   NewJournalEntry (mkEntryParams (transfer_id t) [sourcePosting; destinationPosting] at_))
  = Ok (transfer_entry t at_).
Proof.
  intros Hw Ht. pose proof Hw as ((? & ? & ? & ? & ? & ? & Hc & Hp & ?)%transfer_validate_Ok & Hi & _).
  rewrite Negate_wf; [|by split|int64_lia]. cbn [mbind Result_bind].
  rewrite NewPosting_wf; cbn; eauto with wallet; try int64_lia. 
  rewrite NewPosting_wf; cbn; eauto with wallet; try int64_lia.
  unfold NewJournalEntry. pose proof (transfer_entry_wf t at_ Hw Ht) as He.
  rewrite newJournalEntry_complete; cbn [param_ID param_Postings param_RecordedAt];
    by rewrite canonical_trim.
Qed.

Lemma transfer_amount_wf t : transfer_wf t -> money_wf (transfer_amount t).
Proof. intros ((? & ? & ? & ? & ? & ? & ? & ? & ?)%transfer_validate_Ok & ? & _). by split. Qed.

(** *** Lifecycles *)

(** What the state-dependent part of [lifecycle_validate] accepts. *)
Definition status_shape (l : Lifecycle) : Prop :=
  match lc_status l with
  | StatusPendingRisk =>
      lc_version l = 1 /\ journalEntryID l = "" /\ failureReason l = "" /\ validPolicyVersion (riskPolicyVersion l) = true
  | StatusApproved | StatusReviewRequired | StatusDeclined =>
      2 <= lc_version l /\ journalEntryID l = "" /\ failureReason l = "" /\ validPolicyVersion (riskPolicyVersion l) = true
  | StatusCompleted =>
      journalEntryID l = transfer_id (lc_transfer l) /\ failureReason l = "" /\
      (validPolicyVersion (riskPolicyVersion l) = true \/ (riskPolicyVersion l = "" /\ lc_version l = 1))
  | StatusFailed =>
      2 <= lc_version l /\ journalEntryID l = "" /\ validLifecycleCode (failureReason l) = true /\
      validPolicyVersion (riskPolicyVersion l) = true
  | StatusUnknown => False
  end.

Lemma lifecycle_validate_Ok l :
  lifecycle_validate l = Ok tt <->
  transfer_validate (lc_transfer l) = Ok tt /\ 0 < lc_version l /\ status_shape l.
Proof.
  unfold lifecycle_validate, status_shape, pendingRiskVersion.
  destruct (transfer_validate _) as [[]|]; [|naive_solver].
  destruct (Z.leb_spec (lc_version l) 0); [split; [done|lia]|].
  destruct (lc_status l); cbn -[Z.le]; [naive_solver|..];
    repeat case_bool_decide; cbn -[Z.le]; rewrite ?orb_true_r, ?orb_false_r;
    try (split; [done|naive_solver]);
    destruct (validPolicyVersion _); cbn -[Z.le];
    try destruct (validLifecycleCode _); cbn -[Z.le]; rewrite ?orb_true_r, ?orb_false_r;
    try (split; [done|naive_solver]).
  all: try (destruct (Z.eqb_spec (lc_version l) 1); cbn -[Z.le]; naive_solver).
  all: try (destruct (Z.ltb_spec (lc_version l) 2); cbn -[Z.le]; naive_solver lia).
Qed.

(** The lifecycle an operation leads to when it succeeds. *)
Definition successor (op : lifecycle_op) (l : Lifecycle) : Lifecycle :=
  mkLifecycle (lc_transfer l) (op_target op) (lc_version l + 1) (riskPolicyVersion l)
    (match op with OpComplete => transfer_id (lc_transfer l) | _ => "" end)
    (match op with OpFail reason => TrimSpace reason | _ => "" end).

Definition op_argument_ok (op : lifecycle_op) : bool :=
  match op with OpFail reason => validLifecycleCode (TrimSpace reason) | _ => true end.

(** The sentinel of a refused operation. *)
Definition op_refusal (op : lifecycle_op) (l : Lifecycle) : error :=
  if allowed (lc_status l) (op_target op) then [ErrInvalidLifecycle] else [ErrInvalidTransition].

Lemma lifecycle_policy l :
  lifecycle_wf l -> lc_status l <> StatusCompleted -> validPolicyVersion (riskPolicyVersion l) = true.
Proof.
  intros [(_ & _ & Hs)%lifecycle_validate_Ok _] Hc. unfold status_shape in Hs.
  destruct (lc_status l); naive_solver.
Qed.

Lemma transition_Ok l op :
  lifecycle_wf l -> allowed (lc_status l) (op_target op) = true -> op_argument_ok op = true ->
  lc_version l < MaxInt64 -> lifecycle_wf (successor op l).
Proof.
  intros Hw Ha Harg Hv. pose proof Hw as [(Ht & Hpos & Hs)%lifecycle_validate_Ok [Htw _]].
  assert (Hp : validPolicyVersion (riskPolicyVersion l) = true).
  { apply lifecycle_policy; [done|]. intros E. by rewrite E in Ha. }
  split_and!; [|done|cbn; int64_lia]. apply lifecycle_validate_Ok. split_and!; [done|cbn; lia|].
  destruct op; cbn; split_and!; try done; try lia. by left.
Qed.

Lemma transition_raw l op :
  lifecycle_wf l -> allowed (lc_status l) (op_target op) = true -> op_argument_ok op = true ->
  transition l (op_target op) (journalEntryID (successor op l)) (failureReason (successor op l)) =
    if lc_version l <? MaxInt64 then Ok (successor op l) else Err [ErrInvalidLifecycle].
Proof.
  intros Hw Ha Harg. pose proof Hw as [(Ht & Hpos & Hs)%lifecycle_validate_Ok [Htw Hi]].
  assert (Hp : TrimSpace (riskPolicyVersion l) = riskPolicyVersion l).
  { apply policy_trim, lifecycle_policy; [done|]. intros E. by rewrite E in Ha. }
  assert (Hid : TrimSpace (transfer_id (lc_transfer l)) = transfer_id (lc_transfer l)).
  { apply canonical_trim. by apply transfer_validate_Ok in Ht as [? _]. }
  unfold transition, NewLifecycle. cbn [lp_Transfer lp_Status lp_Version lp_RiskPolicyVersion
    lp_JournalEntryID lp_FailureReason]. rewrite Hp.
  assert (Hj : TrimSpace (journalEntryID (successor op l)) = journalEntryID (successor op l))
    by (destruct op; cbn; done).
  assert (Hf : TrimSpace (failureReason (successor op l)) = failureReason (successor op l))
    by (destruct op; cbn; try done; apply TrimSpace_idemp).
  rewrite Hj, Hf. destruct (Z.ltb_spec (lc_version l) MaxInt64).
  - rewrite i64_add_id by int64_lia. destruct (transition_Ok l op) as [Hok _]; try done.
    change (mkLifecycle _ _ _ _ _ _) with (successor op l). by rewrite Hok.
  - assert (lc_version l = MaxInt64) as -> by int64_lia.
    unfold lifecycle_validate. cbn [lc_transfer]. by rewrite Ht.
Qed.

(** Every operation, on every state: it succeeds exactly along an allowed edge
    with an acceptable argument and a version that can still be incremented. *)
Lemma apply_op_spec op l :
  lifecycle_wf l ->
  apply_op op l =
    if allowed (lc_status l) (op_target op) && op_argument_ok op && (lc_version l <? MaxInt64)
    then Ok (successor op l) else Err (op_refusal op l).
Proof.
  intros Hw. pose proof (transition_raw l op Hw) as Hr. unfold op_refusal.
  destruct op; cbn [apply_op op_target op_argument_ok successor journalEntryID failureReason] in *;
    unfold Approve, RequireReview, Decline, Complete, lifecycle_Fail;
    destruct (lc_status l) eqn:Es; cbn [allowed andb] in *;
    rewrite ?bool_decide_eq_true_2, ?bool_decide_eq_false_2 by done; cbn [negb andb]; try done.
  all: try (rewrite Hr by done; by destruct (_ <? _)).
  destruct (validLifecycleCode _); cbn [negb andb]; [|done]. rewrite Hr by done. by destruct (_ <? _).
Qed.

Lemma lifecycle_step_inv l l' :
  lifecycle_wf l -> lifecycle_step l l' ->
  exists op, l' = successor op l /\ allowed (lc_status l) (lc_status l') = true /\ lifecycle_wf l'.
Proof.
  intros Hw H. inversion H as [op ? ? Ho]; subst. rewrite apply_op_spec in Ho by done.
  destruct (_ && _) eqn:E; [|done]. injection Ho as <-. bool_simpl. exists op.
  split_and!; try done. by apply transition_Ok.
Qed.

Lemma allowed_remaining s s' : allowed s s' = true -> (remaining s' < remaining s)%nat.
Proof. destruct s, s'; cbn; (done || lia). Qed.

(** A concrete accepted transfer, for the witnesses below. *)
Definition sample_params : NewTransferParams :=
  mkTransferParams " 11111111-2222-3333-4444-AAAAAAAAAAAA " "key-1"
    "99999999-2222-3333-4444-555555555555" "aaaaaaaa-0000-0000-0000-000000000001"
    "bbbbbbbb-0000-0000-0000-000000000002" (mkMoney 25 sample_currency) (mkTime 5000 3600).

Definition sample_transfer : Transfer :=
  mkTransfer "11111111-2222-3333-4444-aaaaaaaaaaaa" "key-1"
    "99999999-2222-3333-4444-555555555555" "aaaaaaaa-0000-0000-0000-000000000001"
    "bbbbbbbb-0000-0000-0000-000000000002" (mkMoney 25 sample_currency) (mkTime 5000 0).

Definition sample_pending : Lifecycle :=
  mkLifecycle sample_transfer StatusPendingRisk 1 "risk-v1" "" "".

Lemma sample_transfer_wf : transfer_wf sample_transfer.
Proof. split_and!; [vm_compute; reflexivity|cbn; int64_lia|reflexivity]. Qed.

Lemma sample_pending_wf : lifecycle_wf sample_pending.
Proof. split_and!; [vm_compute; reflexivity|apply sample_transfer_wf|cbn; int64_lia]. Qed.

(** ** Properties *)

(** C27: a transfer the constructor accepts satisfies every transfer invariant
    (canonical identities, distinct accounts, positive amount, UTC time), and
    rebuilding it from its accessors, as the repositories do, returns it
    unchanged: normalization is idempotent. *)
Theorem NewTransfer_normalized (p : NewTransferParams) (t : Transfer) :
  in_int64 (minorUnits (tp_Amount p)) -> NewTransfer p = Ok t ->
  transfer_wf t /\ sourceAccountID t <> destinationAccountID t /\ 0 < minorUnits (transfer_amount t) /\
  isCanonicalUUID (transfer_id t) = true /\ transfer_amount t = tp_Amount p /\
  NewTransfer (params_of t) = Ok t.
Proof.
  intros Hi [Ht Hv]%NewTransfer_Ok.
  pose proof Hv as (? & ? & ? & ? & ? & ? & ? & ? & ?)%transfer_validate_Ok.
  assert (UTC (requestedAt t) = requestedAt t) by by subst.
  assert (transfer_amount t = tp_Amount p) as Ha by by subst.
  split_and!; try done; [split_and!; [done|by rewrite Ha|done]|by apply NewTransfer_params_of].
Qed.

Lemma NewTransfer_normalized_witness :
  NewTransfer sample_params = Ok sample_transfer /\ NewTransfer (params_of sample_transfer) = Ok sample_transfer.
Proof.
  split; [vm_compute; reflexivity|].
  apply (NewTransfer_normalized sample_params sample_transfer).
  - cbn. unfold in_int64, MinInt64, MaxInt64. lia.
  - vm_compute. reflexivity.
Defined.

(** The journal entry of an accepted transfer always exists; it is a valid,
    balanced standard entry with the transfer's identity and request time that
    debits the source and credits the destination by the transfer's amount. *)
Theorem transfer_JournalEntry_correct (t : Transfer) :
  transfer_wf t ->
  exists e, transfer_JournalEntry t = Ok e /\ entry_wf e /\ entry_id e = transfer_id t /\
    entryType e = JournalEntryTypeStandard /\ recordedAt e = requestedAt t /\
    postings e =
      [mkPosting (sourceAccountID t) (mkMoney (- minorUnits (transfer_amount t)) (currency (transfer_amount t)));
       mkPosting (destinationAccountID t) (transfer_amount t)].
Proof.
  intros Hw. pose proof Hw as (Hv & _ & Hu).
  pose proof Hv as (? & ? & ? & ? & ? & ? & ? & ? & Hz)%transfer_validate_Ok.
  exists (transfer_entry t (requestedAt t)). unfold transfer_JournalEntry.
  rewrite Hv. cbn [mbind Result_bind]. split; [by apply build_transfer_entry|].
  split_and!; try done. by apply transfer_entry_wf.
Qed.

Lemma transfer_JournalEntry_correct_witness :
  exists e, transfer_JournalEntry sample_transfer = Ok e /\ entry_id e = "11111111-2222-3333-4444-aaaaaaaaaaaa".
Proof.
  destruct (transfer_JournalEntry_correct sample_transfer sample_transfer_wf) as (e & H & _ & Hid & _).
  exists e. split; [exact H|]. rewrite Hid. reflexivity.
Defined.

(** Each lifecycle operation succeeds exactly along an edge of the state
    graph, with an acceptable failure reason and a version below the [int64]
    maximum; it then increments the version, keeps the transfer and the policy
    version, and records the journal entry only on completion and the reason
    only on failure. Otherwise it reports an invalid transition (wrong state)
    or an invalid lifecycle (reason or version), and never wraps around. *)
Theorem lifecycle_operations_correct (op : lifecycle_op) (l : Lifecycle) :
  lifecycle_wf l ->
  apply_op op l =
    if allowed (lc_status l) (op_target op)
    then if op_argument_ok op && (lc_version l <? MaxInt64)
         then Ok (mkLifecycle (lc_transfer l) (op_target op) (lc_version l + 1) (riskPolicyVersion l)
                   (match op with OpComplete => transfer_id (lc_transfer l) | _ => "" end)
                   (match op with OpFail reason => TrimSpace reason | _ => "" end))
         else Err [ErrInvalidLifecycle]
    else Err [ErrInvalidTransition].
Proof.
  intros Hw. rewrite apply_op_spec by done. unfold op_refusal.
  destruct (allowed _ _); cbn [andb]; [|done]. by destruct (_ && _).
Qed.

Lemma lifecycle_operations_correct_witness :
  apply_op OpApprove sample_pending = Ok (mkLifecycle sample_transfer StatusApproved 2 "risk-v1" "" "") /\
  apply_op OpComplete sample_pending = Err [ErrInvalidTransition].
Proof.
  split; rewrite (lifecycle_operations_correct _ sample_pending sample_pending_wf); reflexivity.
Defined.

(** C28: from acceptance every sequence of operations ends after at most three of
    them; after [n] operations the lifecycle is valid, its version is [1 + n],
    its transfer and policy version are those accepted, and a declined,
    completed or failed lifecycle admits no further operation. *)
Theorem lifecycle_runs_bounded (t : Transfer) (policy : string) (l0 l : Lifecycle) (n : nat) :
  transfer_wf t -> NewPendingLifecycle t policy = Ok l0 -> nsteps lifecycle_step n l0 l ->
  (n <= 3)%nat /\ lifecycle_wf l /\ lc_version l = 1 + Z.of_nat n /\ lc_transfer l = t /\
  riskPolicyVersion l = TrimSpace policy /\ (n + remaining (lc_status l) <= 3)%nat /\
  (remaining (lc_status l) = 0%nat -> forall l', ~ lifecycle_step l l').
Proof.
  intros Ht H0 Hn.
  assert (Hw0 : lifecycle_wf l0 /\ lc_version l0 = 1 /\ lc_transfer l0 = t /\
    riskPolicyVersion l0 = TrimSpace policy /\ lc_status l0 = StatusPendingRisk).
  { unfold NewPendingLifecycle, NewLifecycle in H0. destruct (lifecycle_validate _) as [[]|] eqn:E; [|done].
    injection H0 as <-. split_and!; done. }
  clear H0. destruct Hw0 as (Hw0 & Hv0 & Ht0 & Hp0 & Hs0).
  assert (Inv : lifecycle_wf l /\ lc_version l = lc_version l0 + Z.of_nat n /\ lc_transfer l = lc_transfer l0 /\
    riskPolicyVersion l = riskPolicyVersion l0 /\ (n + remaining (lc_status l) <= remaining (lc_status l0))%nat).
  { clear Hv0 Ht0 Hp0 Hs0. revert Hw0. induction Hn as [x|n x y z Hxy _ IH]; intros Hw.
    - split_and!; try done; lia.
    - destruct (lifecycle_step_inv x y Hw Hxy) as (op & -> & Ha & Hw').
      destruct (IH Hw') as (? & ? & ? & ? & ?). apply allowed_remaining in Ha. cbn in *.
      split_and!; try done; lia. }
  destruct Inv as (Hw & ? & ? & ? & Hr). rewrite Hs0 in Hr. cbn in Hr.
  split_and!; try done; try lia; try congruence.
  intros Hz l' Hstep. destruct (lifecycle_step_inv l l' Hw Hstep) as (_ & _ & Ha & _).
  apply allowed_remaining in Ha. lia.
Qed.

Lemma lifecycle_runs_bounded_witness :
  lc_version (mkLifecycle sample_transfer StatusApproved 2 "risk-v1" "" "") = 1 + Z.of_nat 1.
Proof.
  apply (lifecycle_runs_bounded sample_transfer "risk-v1" sample_pending _ 1 sample_transfer_wf).
  - vm_compute. reflexivity.
  - apply nsteps_once. apply (step_op OpApprove). vm_compute. reflexivity.
Defined.
