(* ===== verification/Bank.v ===== *)
(** * The bank the program keeps

    An abstract, executable specification of the whole: accounts hold an amount,
    orders move along the lifecycle, money moves only between accounts and only
    when a customer can pay.  Nothing here knows of tables, events, faults or
    retries; BankRefinement.v proves that the program implements it. *)

From stdpp Require Import base list gmap strings numbers.
From Stdlib Require Import ZArith Lia.
From S2P Require Import Prelude TransferDomain.

Open Scope string_scope.
Open Scope Z_scope.

Section Bank.
Context {K : Type} `{Countable K}.

(** ** The state *)

Record Holding := mkHolding {
  h_currency : string;
  h_customer : bool;
  h_amount : Z
}.

(** An amount moved on an account. *)
Record Leg := mkLeg {
  leg_account : K;
  leg_currency : string;
  leg_amount : Z
}.

Record Order := mkOrder {
  or_requester : K;
  or_key : string;
  or_source : K;
  or_destination : K;
  or_currency : string;
  or_amount : Z;
  or_status : Status
}.

Record Bank := mkBank {
  holdings : gmap K Holding;
  orders : gmap K Order;
  (** Who decided the review of an order, and how. *)
  verdicts : gmap K (string * string)
}.

#[export] Instance Holding_eq_dec : EqDecision Holding.
Proof. solve_decision. Defined.

#[export] Instance Order_eq_dec : EqDecision Order.
Proof. solve_decision. Defined.

Definition set_status (st : Status) (o : Order) : Order :=
  mkOrder (or_requester o) (or_key o) (or_source o) (or_destination o) (or_currency o) (or_amount o) st.

(** ** Moving money *)

Definition leg_sum (a : K) (legs : list Leg) : Z :=
  foldr (fun l acc => (if decide (leg_account l = a) then leg_amount l else 0) + acc) 0 legs.

Definition leg_total (cur : string) (legs : list Leg) : Z :=
  foldr (fun l acc => (if decide (leg_currency l = cur) then leg_amount l else 0) + acc) 0 legs.

Definition add_amount (z : Z) (h : Holding) : Holding := mkHolding (h_currency h) (h_customer h) (h_amount h + z).

(** The account of a leg can take its share: it has the currency, the new amount
    is an [int64], and a customer does not owe. *)
Definition takes_leg (hs : gmap K Holding) (legs : list Leg) (l : Leg) : bool :=
  match hs !! leg_account l with
  | Some h =>
      let amount := h_amount h + leg_sum (leg_account l) legs in
      bool_decide (h_currency h = leg_currency l) && bool_decide (in_int64 amount) && (negb (h_customer h) || (0 <=? amount))
  | None => false
  end.

(** All legs at once, or nothing; every currency sums to zero. *)
Definition book (legs : list Leg) (hs : gmap K Holding) : option (gmap K Holding) :=
  if forallb (takes_leg hs legs) legs && forallb (fun l => leg_total (leg_currency l) legs =? 0) legs
  then Some (map_imap (fun a h => Some (add_amount (leg_sum a legs) h)) hs)
  else None.

Definition order_legs (o : Order) : list Leg :=
  [mkLeg (or_source o) (or_currency o) (- or_amount o); mkLeg (or_destination o) (or_currency o) (or_amount o)].

(** ** Orders *)

Definition key_used (requester : K) (key : string) (os : gmap K Order) : bool :=
  existsb (fun x => bool_decide (or_requester x.2 = requester) && bool_decide (or_key x.2 = key)) (map_to_list os).

(** A new order: its identifier and its requester's key are unused. *)
Definition place (id : K) (o : Order) (os : gmap K Order) : option (gmap K Order) :=
  if bool_decide (os !! id = None) && negb (key_used (or_requester o) (or_key o) os) && (0 <? or_amount o) &&
     negb (bool_decide (or_source o = or_destination o))
  then Some (<[id := o]> os)
  else None.

(** One edge of the lifecycle. *)
Definition advance_order (id : K) (from to : Status) (os : gmap K Order) : option (gmap K Order) :=
  match os !! id with
  | Some o => if bool_decide (or_status o = from) && allowed from to then Some (<[id := set_status to o]> os) else None
  | None => None
  end.

Definition short_of_funds (hs : gmap K Holding) (o : Order) : bool :=
  match hs !! or_source o with
  | Some h => h_customer h && (h_amount h <? or_amount o)
  | None => false
  end.

(** Accounts that do not exist yet. *)
Definition all_new (accounts : gmap K string) (hs : gmap K Holding) : bool :=
  forallb (fun x => bool_decide (hs !! x.1 = None)) (map_to_list accounts).

(** ** What can happen *)

Inductive BankEvent :=
| Opened (accounts : gmap K string)
| Booked (legs : list Leg)
| Ordered (id : K) (o : Order)
| Transferred (id : K) (o : Order)
| Assessed (id : K) (to : Status)
| Reviewed (id : K) (subject : string) (to : Status)
| Settled (id : K)
| Refused (id : K).

Definition bank_apply (b : Bank) (ev : BankEvent) : option Bank :=
  match ev with
  | Opened accounts =>
      if all_new accounts (holdings b)
      then Some (mkBank (((fun cur => mkHolding cur true 0) <$> accounts) ∪ holdings b) (orders b) (verdicts b))
      else None
  | Booked legs => hs ← book legs (holdings b); Some (mkBank hs (orders b) (verdicts b))
  | Ordered id o =>
      if bool_decide (or_status o = StatusPendingRisk)
      then os ← place id o (orders b); Some (mkBank (holdings b) os (verdicts b))
      else None
  | Transferred id o =>
      if bool_decide (or_status o = StatusCompleted)
      then os ← place id o (orders b); hs ← book (order_legs o) (holdings b); Some (mkBank hs os (verdicts b))
      else None
  | Assessed id to =>
      os ← advance_order id StatusPendingRisk to (orders b); Some (mkBank (holdings b) os (verdicts b))
  | Reviewed id subject to =>
      if bool_decide (verdicts b !! id = None) && negb (bool_decide (subject = ""))
      then os ← advance_order id StatusReviewRequired to (orders b);
           Some (mkBank (holdings b) os (<[id := (subject, status_String to)]> (verdicts b)))
      else None
  | Settled id =>
      o ← orders b !! id; os ← advance_order id StatusApproved StatusCompleted (orders b);
      hs ← book (order_legs o) (holdings b); Some (mkBank hs os (verdicts b))
  | Refused id =>
      o ← orders b !! id;
      if short_of_funds (holdings b) o
      then os ← advance_order id StatusApproved StatusFailed (orders b); Some (mkBank (holdings b) os (verdicts b))
      else None
  end.

(** [bank_run b evs]: the events in order; [None] when one is not possible. *)
Fixpoint bank_run (b : Bank) (evs : list BankEvent) : option Bank :=
  match evs with
  | [] => Some b
  | ev :: rest => b' ← bank_apply b ev; bank_run b' rest
  end.

Lemma bank_run_app b evs1 evs2 b' : bank_run b evs1 = Some b' -> bank_run b (evs1 ++ evs2) = bank_run b' evs2.
Proof.
  revert b. induction evs1 as [|ev evs1 IH]; intros b; cbn; [by intros [= ->]|].
  destruct (bank_apply b ev) as [b1|]; [|done]. cbn. apply IH.
Qed.

(** ** When the operations succeed *)

Lemma leg_sum_0 a legs : a ∉ leg_account <$> legs -> leg_sum a legs = 0.
Proof.
  induction legs as [|l legs IH]; cbn; [done|]. intros [Hne Hn]%not_elem_of_cons. unfold leg_sum in IH |- *.
  rewrite IH by done. by rewrite decide_False.
Qed.

Lemma book_Some legs hs :
  Forall (fun l => takes_leg hs legs l = true) legs -> (forall cur, leg_total cur legs = 0) ->
  book legs hs = Some (map_imap (fun a h => Some (add_amount (leg_sum a legs) h)) hs).
Proof.
  intros Ht Hz. unfold book. assert (forallb (takes_leg hs legs) legs = true) as ->.
  { apply forallb_forall. intros l Hl%list_elem_of_In. rewrite list.Forall_forall in Ht. by apply Ht. }
  assert (forallb (fun l => leg_total (leg_currency l) legs =? 0) legs = true) as ->; [|done].
  apply forallb_forall. intros l _. by rewrite Hz.
Qed.

Lemma key_used_false requester key os :
  (forall id o, os !! id = Some o -> or_requester o = requester -> or_key o <> key) -> key_used requester key os = false.
Proof.
  intros Hk. unfold key_used. destruct (existsb _ _) eqn:E; [|done]. exfalso.
  apply existsb_exists in E as ([id o] & Hin%list_elem_of_In%elem_of_map_to_list & Hb). cbn in Hb. bool_simpl. by eapply Hk.
Qed.

Lemma place_Some id o os :
  os !! id = None -> (forall id1 o1, os !! id1 = Some o1 -> or_requester o1 = or_requester o -> or_key o1 <> or_key o) ->
  0 < or_amount o -> or_source o <> or_destination o -> place id o os = Some (<[id := o]> os).
Proof.
  intros Hn Hk Ha Hs. unfold place. rewrite key_used_false by done. rewrite bool_decide_eq_true_2, bool_decide_eq_false_2 by done.
  by rewrite (proj2 (Z.ltb_lt _ _) Ha).
Qed.

Lemma advance_Some id from to os o :
  os !! id = Some o -> or_status o = from -> allowed from to = true ->
  advance_order id from to os = Some (<[id := set_status to o]> os).
Proof. intros Ho Hs Ha. unfold advance_order. by rewrite Ho, Ha, bool_decide_eq_true_2. Qed.

End Bank.

Arguments Leg : clear implicits.
Arguments Order : clear implicits.
Arguments Bank K {_ _}.
Arguments BankEvent K {_ _}.
