(* ===== verification/RiskPolicy.v ===== *)
(** * Risk domain: deterministic policies

    [internal/risk/domain/policy.go]: versioned per-currency thresholds and the
    deterministic evaluation of one transfer. *)

From stdpp Require Import base list gmap strings numbers.
From Stdlib Require Import ZArith Lia Ascii.
From S2P Require Import Prelude GoText Money.

Open Scope string_scope.
Open Scope Z_scope.

Definition maxPolicyVersionBytes : Z := 64.
Definition maxScore : Z := 1000.
Definition reviewScore : Z := 600.
Definition missingPolicyScore : Z := 500.
Definition velocityReviewScore : Z := 700.

Definition ErrInvalidPolicy : leaf := errors_New "risk domain: invalid policy".
Definition ErrInvalidInput : leaf := errors_New "risk domain: invalid input".

Inductive RiskDecision :=
| DecisionUnknown
| DecisionApprove
| DecisionReview
| DecisionDecline.

#[export] Instance RiskDecision_eq_dec : EqDecision RiskDecision.
Proof. solve_decision. Defined.

Definition decision_String (d : RiskDecision) : string :=
  match d with
  | DecisionApprove => "approve"
  | DecisionReview => "review"
  | DecisionDecline => "decline"
  | DecisionUnknown => ""
  end.

(** [type SignalCode string] and its constants. *)
Definition SignalAmountReviewThreshold : string := "amount_review_threshold".
Definition SignalAmountDeclineThreshold : string := "amount_decline_threshold".
Definition SignalCurrencyPolicyMissing : string := "currency_policy_missing".
Definition SignalVelocityUnavailable : string := "velocity_unavailable".
Definition SignalVelocityReviewThreshold : string := "velocity_review_threshold".

Record Threshold := mkThreshold {
  th_Currency : Currency;
  ReviewAmountMinor : Z;
  DeclineAmountMinor : Z;
  VelocityReviewTransferCount : Z
}.

#[export] Instance Threshold_eq_dec : EqDecision Threshold.
Proof. solve_decision. Defined.

Record PolicyParams := mkPolicyParams {
  pp_Version : string;
  pp_Thresholds : list Threshold
}.

Record Policy := mkPolicy {
  policy_version : string;
  thresholds : gmap Currency Threshold
}.

Record Input := mkInput {
  in_Amount : Money;
  VelocityTransferCount : Z;
  VelocityDegraded : bool
}.

#[export] Instance Input_eq_dec : EqDecision Input.
Proof. solve_decision. Defined.

Record Signal := mkSignal {
  signal_code : string;
  contribution : Z
}.

#[export] Instance Signal_eq_dec : EqDecision Signal.
Proof. solve_decision. Defined.

Record Evaluation := mkEvaluation {
  eval_policyVersion : string;
  score : Z;
  decision : RiskDecision;
  signals : list Signal
}.

#[export] Instance Evaluation_eq_dec : EqDecision Evaluation.
Proof. solve_decision. Defined.

Definition risk_validPolicyVersion (value : string) : bool :=
  if (len value =? 0) || (maxPolicyVersionBytes <? len value) then false
  else visible_runes value.

Definition newEvaluation (version : string) (score : Z) (decision : RiskDecision) (signals : list Signal) : Evaluation :=
  mkEvaluation version score decision signals.

(** [threshold.ReviewAmountMinor <= 0 || threshold.DeclineAmountMinor < threshold.ReviewAmountMinor || ...]. *)
Definition bad_amounts (t : Threshold) : bool :=
  (ReviewAmountMinor t <=? 0) || (DeclineAmountMinor t <? ReviewAmountMinor t) || (VelocityReviewTransferCount t <? 0).

(** The loop of [NewPolicy] over the thresholds. *)
Fixpoint collect_thresholds (acc : gmap Currency Threshold) (ts : list Threshold) : Result (gmap Currency Threshold) :=
  match ts with
  | [] => Ok acc
  | t :: rest =>
      if bool_decide (currency_String (th_Currency t) = "") then Err [ErrInvalidPolicy]
      else if bad_amounts t then Err [ErrInvalidPolicy]
      else match acc !! th_Currency t with
      | Some _ => Err [ErrInvalidPolicy]
      | None => collect_thresholds (<[th_Currency t := t]> acc) rest
      end
  end.

Definition NewPolicy (params : PolicyParams) : Result Policy :=
  let version := TrimSpace (pp_Version params) in
  if negb (risk_validPolicyVersion version) then Err [ErrInvalidPolicy]
  else if (length (pp_Thresholds params) =? 0)%nat then Err [ErrInvalidPolicy]
  else
    ts ← collect_thresholds ∅ (pp_Thresholds params);
    Ok (mkPolicy version ts).

(** [Policy.RequiresVelocity]. *)
Definition RequiresVelocity (p : Policy) : bool :=
  existsb (fun '(_, t) => 0 <? VelocityReviewTransferCount t) (map_to_list (thresholds p)).

(** [Policy.validate]. *)
Definition policy_validate (p : Policy) : Result unit :=
  if negb (risk_validPolicyVersion (policy_version p)) || (size (thresholds p) =? 0)%nat then Err [ErrInvalidPolicy]
  else if existsb (fun '(c, t) => bool_decide (currency_String c = "") ||
                     negb (bool_decide (th_Currency t = c)) || bad_amounts t)
            (map_to_list (thresholds p))
  then Err [ErrInvalidPolicy]
  else Ok tt.

(** [Policy.Evaluate]. *)
Definition Evaluate (p : Policy) (input : Input) : Result Evaluation :=
  match policy_validate p with
  | Err e => Err e
  | Ok _ =>
      if bool_decide (currency_String (currency (in_Amount input)) = "") ||
         (minorUnits (in_Amount input) <=? 0) || (VelocityTransferCount input <? 0)
      then Err [ErrInvalidInput]
      else match thresholds p !! currency (in_Amount input) with
      | None =>
          if VelocityDegraded input
          then Ok (newEvaluation (policy_version p) velocityReviewScore DecisionReview
                     [mkSignal SignalVelocityUnavailable velocityReviewScore])
          else Ok (newEvaluation (policy_version p) missingPolicyScore DecisionReview
                     [mkSignal SignalCurrencyPolicyMissing missingPolicyScore])
      | Some threshold =>
          if DeclineAmountMinor threshold <=? minorUnits (in_Amount input)
          then Ok (newEvaluation (policy_version p) maxScore DecisionDecline
                     [mkSignal SignalAmountDeclineThreshold maxScore])
          else if VelocityDegraded input
          then Ok (newEvaluation (policy_version p) velocityReviewScore DecisionReview
                     [mkSignal SignalVelocityUnavailable velocityReviewScore])
          else if (0 <? VelocityReviewTransferCount threshold) &&
                  (VelocityReviewTransferCount threshold <=? VelocityTransferCount input)
          then Ok (newEvaluation (policy_version p) velocityReviewScore DecisionReview
                     [mkSignal SignalVelocityReviewThreshold velocityReviewScore])
          else if ReviewAmountMinor threshold <=? minorUnits (in_Amount input)
          then Ok (newEvaluation (policy_version p) reviewScore DecisionReview
                     [mkSignal SignalAmountReviewThreshold reviewScore])
          else Ok (newEvaluation (policy_version p) 0 DecisionApprove [])
      end
  end.

(** ** Specification *)

(** The inputs a transfer can give rise to. *)
Definition input_ok (i : Input) : Prop :=
  currency_valid (currency (in_Amount i)) = true /\ 0 < minorUnits (in_Amount i) /\ 0 <= VelocityTransferCount i.

#[export] Instance input_ok_dec i : Decision (input_ok i).
Proof. unfold input_ok. apply _. Defined.

(** Decisions ordered by how much they restrict the transfer. *)
Definition severity (d : RiskDecision) : Z :=
  match d with
  | DecisionUnknown => -1
  | DecisionApprove => 0
  | DecisionReview => 1
  | DecisionDecline => 2
  end.

Definition threshold_ok (c : Currency) (t : Threshold) : Prop :=
  th_Currency t = c /\ currency_valid c = true /\ 0 < ReviewAmountMinor t <= DeclineAmountMinor t /\
  0 <= VelocityReviewTransferCount t.

Definition policy_wf (p : Policy) : Prop :=
  risk_validPolicyVersion (policy_version p) = true /\ thresholds p <> ∅ /\ map_Forall threshold_ok (thresholds p).

(** ** Lemmas *)

Lemma bad_amounts_false t :
  bad_amounts t = false <-> 0 < ReviewAmountMinor t <= DeclineAmountMinor t /\ 0 <= VelocityReviewTransferCount t.
Proof. unfold bad_amounts. lia. Qed.

Lemma collect_thresholds_Ok acc ts m :
  map_Forall threshold_ok acc -> collect_thresholds acc ts = Ok m ->
  map_Forall threshold_ok m /\ acc ⊆ m /\ (forall t, t ∈ ts -> m !! th_Currency t = Some t) /\
  (size m = size acc + length ts)%nat /\
  NoDup (th_Currency <$> ts) /\ (forall t, t ∈ ts -> acc !! th_Currency t = None).
Proof.
  revert acc. induction ts as [|t ts IH]; intros acc Ha; cbn [collect_thresholds].
  - intros [= <-]. split_and!; try done; [intros t Ht; by inversion Ht|constructor|intros t Ht; by inversion Ht].
  - case_bool_decide as Hc; [done|]. destruct (bad_amounts t) eqn:Hb; [done|].
    destruct (acc !! th_Currency t) eqn:E; [done|]. intros H. apply bad_amounts_false in Hb.
    rewrite currency_String_empty in Hc. apply not_false_iff_true in Hc.
    apply IH in H as (H1 & H2 & H3 & H4 & H5 & H6); [|apply map_Forall_insert_2; [split_and!; naive_solver|done]].
    rewrite map_size_insert_None in H4 by done. split_and!; [done| | |cbn; lia| |].
    + etransitivity; [|done]. by apply insert_subseteq.
    + intros t' [->|Ht']%elem_of_cons; [|by apply H3].
      eapply lookup_weaken; [|done]. apply lookup_insert_eq.
    + cbn. constructor; [|done]. intros (t' & Et & Ht')%list_elem_of_fmap.
      apply H6 in Ht'. by rewrite Et, lookup_insert_eq in Ht'.
    + intros t' [->|Ht']%elem_of_cons; [done|]. apply H6 in Ht'.
      by apply lookup_insert_None in Ht' as [? _].
Qed.

Lemma policy_validate_Ok p : policy_validate p = Ok tt <-> policy_wf p.
Proof.
  unfold policy_validate, policy_wf. destruct (risk_validPolicyVersion _); cbn [negb orb]; [|naive_solver].
  destruct (Nat.eqb_spec (size (thresholds p)) 0) as [Hz|Hz].
  { apply map_size_empty_inv in Hz. naive_solver. }
  assert (thresholds p <> ∅) by (intros E; apply Hz; by rewrite E).
  destruct (existsb _ _) eqn:E; split; try done.
  - intros (_ & _ & Hf). exfalso. apply existsb_exists in E as ([c t] & Hin & Hx).
    apply list_elem_of_In, elem_of_map_to_list in Hin. destruct (Hf c t Hin) as (H1 & H2 & H3).
    rewrite (bool_decide_eq_false_2 (currency_String c = "")) in Hx
      by (rewrite currency_String_empty, H2; done).
    rewrite bool_decide_eq_true_2 in Hx by done. cbn in Hx.
    by rewrite (proj2 (bad_amounts_false t)) in Hx.
  - intros _. split_and!; try done. intros c t Hin. apply elem_of_map_to_list, list_elem_of_In in Hin.
    assert (Hx : bool_decide (currency_String c = "") || negb (bool_decide (th_Currency t = c)) || bad_amounts t = false).
    { apply not_true_iff_false. intros Hx. apply not_true_iff_false in E. apply E, existsb_exists. by exists (c, t). }
    bool_simpl. rewrite currency_String_empty in H0. apply not_false_iff_true in H0.
    apply bad_amounts_false in H1. split_and!; naive_solver.
Qed.

Lemma Evaluate_guard p i :
  policy_wf p -> input_ok i ->
  policy_validate p = Ok tt /\
  bool_decide (currency_String (currency (in_Amount i)) = "") || (minorUnits (in_Amount i) <=? 0) ||
    (VelocityTransferCount i <? 0) = false.
Proof.
  intros Hp (Hc & ? & ?). split; [by apply policy_validate_Ok|].
  rewrite bool_decide_eq_false_2 by (rewrite currency_String_empty, Hc; done). cbn. lia.
Qed.

Definition sample_policy_params : PolicyParams :=
  mkPolicyParams "risk-v1" [mkThreshold (mkCurrency "U"%char "S"%char "D"%char) 50 100 3].

Definition sample_policy : Policy :=
  mkPolicy "risk-v1" {[mkCurrency "U"%char "S"%char "D"%char := mkThreshold (mkCurrency "U"%char "S"%char "D"%char) 50 100 3]}.

Lemma sample_policy_wf : policy_wf sample_policy.
Proof. apply policy_validate_Ok. vm_compute. reflexivity. Qed.

(** The sum of the contributions of the reported signals. *)
Definition total_contribution (ss : list Signal) : Z := foldr (fun s acc => contribution s + acc) 0 ss.

Lemma policy_validate_Err p e : policy_validate p = Err e -> e = [ErrInvalidPolicy].
Proof. unfold policy_validate. repeat case_match; by intros [= <-]. Qed.

Lemma input_refused i : ~ input_ok i ->
  bool_decide (currency_String (currency (in_Amount i)) = "") || (minorUnits (in_Amount i) <=? 0) ||
    (VelocityTransferCount i <? 0) = true.
Proof.
  intros Hi. apply not_false_iff_true. intros E. apply Hi. rewrite !orb_false_iff in E. destruct E as [[Ec Ea] Ev]. bool_simpl.
  rewrite currency_String_empty in Ec. split_and!; [by apply not_false_iff_true in Ec|done|done].
Qed.

Lemma some_ex {A} (t : A) (P : A -> Prop) : (exists t', Some t = Some t' /\ P t') <-> P t.
Proof. split; [by intros (? & [= <-] & ?)|eauto]. Qed.

(** What an equivalence says where its right side is decided. *)
Ltac known H :=
  match type of H with
  | ?P <-> _ => try first [assert P by (apply H; first [lia|done]) | assert (~ P) by (intros ?%H; first [lia|done])]; clear H
  end.

(** The clauses of a verdict that has been computed. *)
Ltac verdict_tac Hd Hq Hl Ho :=
  known Hd; known Hq; known Hl; known Ho; do 3 eexists; split; [reflexivity|];
  unfold maxScore, reviewScore, velocityReviewScore, missingPolicyScore; cbn;
  split_and!; try lia; first [naive_solver | (split; [done|naive_solver])].

(** ** Properties *)

(** A policy is created only from a well-formed version and thresholds that
    are positive, ordered and unique per currency; it then holds exactly the
    given thresholds, and the evaluation's own validation of it cannot fail. *)
Theorem NewPolicy_correct (params : PolicyParams) (p : Policy) :
  NewPolicy params = Ok p ->
  policy_validate p = Ok tt /\ policy_version p = TrimSpace (pp_Version params) /\
  (forall t, t ∈ pp_Thresholds params -> thresholds p !! th_Currency t = Some t) /\
  size (thresholds p) = length (pp_Thresholds params) /\ NoDup (th_Currency <$> pp_Thresholds params).
Proof.
  unfold NewPolicy. intros H. result_inv. bool_simpl. apply Nat.eqb_neq in E0.
  apply collect_thresholds_Ok in E1 as (Hf & _ & Hl & Hs & Hnd & _); [|apply map_Forall_empty].
  rewrite map_size_empty in Hs. cbn [Nat.add] in Hs. rewrite policy_validate_Ok.
  split_and!; try done. split_and!; try done; cbn. intros E'. rewrite E', map_size_empty in Hs. by rewrite <- Hs in E0.
Qed.

Lemma NewPolicy_correct_witness :
  policy_validate sample_policy = Ok tt.
Proof.
  apply (NewPolicy_correct sample_policy_params sample_policy). vm_compute. reflexivity.
Defined.

(** C31: the evaluation, case by case, with the numbers and codes of the contract
    written out.  A policy that is not well formed is refused, and so is an input
    without a currency, a positive amount and a count.  Otherwise the verdict is
    that of the policy's version and exactly one of:
    declined with score 1000 when the amount reaches the decline threshold of its
    currency, whatever was observed;
    else sent to review with score 700 when the observation is unavailable, and
    with score 700 when a limit is set and the count reaches it;
    else sent to review with score 600 when the amount reaches the review
    threshold, and with score 500 when its currency has no thresholds;
    else approved with score 0 and no signal.
    Each case holds exactly when its condition does, under its own signal, whose
    contribution is the score. *)
Theorem Evaluate_correct (p : Policy) (i : Input) :
  (~ policy_wf p -> Evaluate p i = Err [ErrInvalidPolicy]) /\
  (policy_wf p -> ~ input_ok i -> Evaluate p i = Err [ErrInvalidInput]) /\
  (policy_wf p -> input_ok i ->
   let threshold := thresholds p !! currency (in_Amount i) in
   let amount := minorUnits (in_Amount i) in
   let declines := exists t, threshold = Some t /\ DeclineAmountMinor t <= amount in
   let frequent := exists t, threshold = Some t /\ 0 < VelocityReviewTransferCount t <= VelocityTransferCount i in
   let large := exists t, threshold = Some t /\ ReviewAmountMinor t <= amount in
   let observed := VelocityDegraded i = false in
   exists verdict points ss, Evaluate p i = Ok (mkEvaluation (policy_version p) points verdict ss) /\
     0 <= points <= 1000 /\ points = total_contribution ss /\
     (verdict = DecisionDecline <-> declines) /\
     (verdict = DecisionApprove <-> observed /\ is_Some threshold /\ ~ large /\ ~ frequent) /\
     (verdict = DecisionReview <-> ~ declines /\ (~ observed \/ threshold = None \/ frequent \/ large)) /\
     (ss = [mkSignal "amount_decline_threshold" 1000] <-> declines) /\
     (ss = [mkSignal "velocity_unavailable" 700] <-> ~ declines /\ ~ observed) /\
     (ss = [mkSignal "velocity_review_threshold" 700] <-> ~ declines /\ observed /\ frequent) /\
     (ss = [mkSignal "amount_review_threshold" 600] <-> ~ declines /\ observed /\ ~ frequent /\ large) /\
     (ss = [mkSignal "currency_policy_missing" 500] <-> observed /\ threshold = None) /\
     (ss = [] <-> verdict = DecisionApprove)).
Proof.
  split_and!.
  - intros Hp. unfold Evaluate. destruct (policy_validate p) as [[]|e] eqn:E; [by apply policy_validate_Ok in E|].
    by rewrite (policy_validate_Err _ _ E).
  - intros Hp%policy_validate_Ok Hi. unfold Evaluate. rewrite Hp, input_refused; done.
  - intros Hp Hi threshold amount declines frequent large observed.
    pose proof (Evaluate_guard p i Hp Hi) as [Hv Hg]. destruct Hp as (_ & _ & Hf).
    unfold Evaluate. rewrite Hv, Hg. fold threshold amount.
    assert (Ho : observed <-> VelocityDegraded i = false) by done. clearbody observed.
    assert (Hwf : forall t, threshold = Some t -> ReviewAmountMinor t <= DeclineAmountMinor t).
    { intros t Ht. by destruct (Hf _ _ Ht) as (_ & _ & [_ ?] & _). }
    destruct threshold as [t|] eqn:Et.
    + specialize (Hwf t eq_refl).
      assert (Hd : declines <-> DeclineAmountMinor t <= amount) by exact (some_ex t (fun t => DeclineAmountMinor t <= amount)).
      assert (Hq : frequent <-> 0 < VelocityReviewTransferCount t <= VelocityTransferCount i) by exact (some_ex t (fun t => 0 < VelocityReviewTransferCount t <= VelocityTransferCount i)).
      assert (Hl : large <-> ReviewAmountMinor t <= amount) by exact (some_ex t (fun t => ReviewAmountMinor t <= amount)). clearbody declines frequent large.
      destruct (Z.leb_spec (DeclineAmountMinor t) amount); [verdict_tac Hd Hq Hl Ho|].
      destruct (VelocityDegraded i); [verdict_tac Hd Hq Hl Ho|].
      destruct ((0 <? _) && _) eqn:Eq; [|apply andb_false_iff in Eq as [Eq|Eq]]; bool_simpl; [verdict_tac Hd Hq Hl Ho|..];
        destruct (Z.leb_spec (ReviewAmountMinor t) amount); verdict_tac Hd Hq Hl Ho.
    + assert (Hd : declines <-> False) by (split; [by intros (? & [=] & _)|done]).
      assert (Hq : frequent <-> False) by (split; [by intros (? & [=] & _)|done]).
      assert (Hl : large <-> False) by (split; [by intros (? & [=] & _)|done]). clearbody declines frequent large.
      destruct (VelocityDegraded i); verdict_tac Hd Hq Hl Ho.
Qed.

Lemma Evaluate_correct_witness :
  exists ev, Evaluate sample_policy (mkInput (mkMoney 100 (mkCurrency "U"%char "S"%char "D"%char)) 1 false) = Ok ev /\
    decision ev = DecisionDecline /\ signals ev = [mkSignal "amount_decline_threshold" 1000].
Proof.
  destruct (Evaluate_correct sample_policy (mkInput (mkMoney 100 (mkCurrency "U"%char "S"%char "D"%char)) 1 false)) as (_ & _ & HE).
  destruct HE as (verdict & points & ss & E & _ & _ & Hd & _ & _ & Hs & _).
  - apply sample_policy_wf.
  - vm_compute. repeat split; congruence.
  - assert (Ht : exists t, thresholds sample_policy !! mkCurrency "U"%char "S"%char "D"%char = Some t /\ DeclineAmountMinor t <= 100).
    { eexists. split; [vm_compute; reflexivity|]. vm_compute. discriminate. }
    eexists. split; [exact E|]. split; [exact (proj2 Hd Ht)|exact (proj2 Hs Ht)].
Defined.

(** A larger amount, a higher observed velocity or the loss of the velocity
    observation never leads to a less restrictive decision; in particular an
    unavailable observation never approves. *)
Theorem Evaluate_monotone (p : Policy) (i j : Input) (ei ej : Evaluation) :
  Evaluate p i = Ok ei -> Evaluate p j = Ok ej ->
  currency (in_Amount i) = currency (in_Amount j) ->
  minorUnits (in_Amount i) <= minorUnits (in_Amount j) ->
  VelocityTransferCount i <= VelocityTransferCount j ->
  (VelocityDegraded i = true -> VelocityDegraded j = true) ->
  severity (decision ei) <= severity (decision ej) /\
  (VelocityDegraded j = true -> severity (decision ej) >= severity DecisionReview).
Proof.
  unfold Evaluate. intros Hi Hj Hc Ha Hv Hd. rewrite Hc in Hi. result_inv.
  destruct (policy_validate p) as [[]|]; [|done]. result_inv.
  destruct (thresholds p !! _) as [t|].
  - destruct (VelocityDegraded i), (VelocityDegraded j); try (by specialize (Hd eq_refl));
      repeat case_match; bool_simpl; result_inv; cbn; split; try done; try lia.
  - repeat case_match; result_inv; cbn; split; try done; lia.
Qed.

Lemma Evaluate_monotone_witness :
  severity DecisionApprove <= severity DecisionDecline.
Proof.
  apply (Evaluate_monotone sample_policy
    (mkInput (mkMoney 10 (mkCurrency "U"%char "S"%char "D"%char)) 1 false)
    (mkInput (mkMoney 100 (mkCurrency "U"%char "S"%char "D"%char)) 1 false)
    (mkEvaluation "risk-v1" 0 DecisionApprove [])
    (mkEvaluation "risk-v1" 1000 DecisionDecline [mkSignal "amount_decline_threshold" 1000]));
    try (vm_compute; congruence).
Defined.
