(* ===== verification/Database.v ===== *)
(** * The database: tables, SQL statements and transactions

    PostgreSQL and the pgx driver are outside the repository.  What the code
    relies on of their value codecs is the interface [Pg] with the laws
    [PgLaws]; what the server and the network decide on their own (statement
    failures, the fate of a commit, generated identifiers, the clock) is a
    [Service], an argument of every run.  The tables and their constraints are
    those of [migrations/], and each SQL statement of the Go sources is a
    function on the tables, defined beside the Go function that executes it.

    A transaction of the serializable isolation level is modelled as running
    alone on the committed tables; its writes become the committed tables only
    when its commit is applied. *)

From stdpp Require Import base list gmap strings numbers sorting.
From Stdlib Require Import ZArith Lia.
From S2P Require Import Prelude GoText.

Open Scope string_scope.
Open Scope Z_scope.

(** ** Driver and column types *)

Class Pg := {
  (** [pgtype.UUID], with its comparison. *)
  UUID : Type;
  UUID_eq_dec :: EqDecision UUID;
  UUID_countable :: Countable UUID;
  (** The [Scan] method of [pgtype.UUID] on a string, and the server's input of a UUID text. *)
  uuid_scan : string -> option UUID;
  (** [pgtype.UUID.String] and the SQL cast [::text]. *)
  uuid_text : UUID -> string;
  (** What reading back a TIMESTAMPTZ column gives for a written [time.Time]. *)
  stored_time : Time -> Time;
  (** The text of a JSONB column for a written document; [None] when refused. *)
  stored_json : string -> option string
}.

(** Documented behaviour: UUIDs print in the canonical lowercase form and parse
    back; every canonical text parses; TIMESTAMPTZ has a resolution of one
    microsecond and keeps times of that resolution. *)
Class PgLaws `{Pg} : Prop := {
  uuid_scan_text u : uuid_scan (uuid_text u) = Some u;
  uuid_text_canonical u : isCanonicalUUID (uuid_text u) = true;
  uuid_scan_canonical s : isCanonicalUUID s = true -> exists u, uuid_scan s = Some u /\ uuid_text u = s;
  stored_time_resolution t : instant (stored_time t) mod 1000 = 0;
  stored_time_close t : 0 <= instant t - instant (stored_time t) < 1000;
  stored_time_exact t : instant t mod 1000 = 0 -> instant (stored_time t) = instant t
}.

(** The helper [parseUUID] that every repository package repeats. *)
Definition parseUUID `{Pg} (value : string) : Result UUID :=
  match uuid_scan value with
  | Some parsed => Ok parsed
  | None => Err [Other "parsing UUID"]
  end.

(** ** Tables *)

Section Tables.
Context `{Pg}.

Record WalletRow := mkWalletRow {
  wal_owner : UUID;
  wal_status : string;
  wal_created_at : Time;
  wal_updated_at : Time
}.

Record AccountRow := mkAccountRow {
  acc_wallet : UUID;
  acc_currency : string;
  acc_status : string;
  acc_type : string;
  acc_created_at : Time
}.

Record BalanceRow := mkBalanceRow {
  bal_currency : string;
  bal_type : string;
  balance_minor : Z;
  bal_version : Z;
  bal_updated_at : Time
}.

Record EntryRow := mkEntryRow {
  ent_type : string;
  ent_reverses : option UUID;
  ent_recorded_at : Time
}.

Record PostingRow := mkPostingRow {
  po_entry : UUID;
  po_position : Z;
  po_account : UUID;
  po_currency : string;
  po_amount : Z
}.

Record TransferRow := mkTransferRow {
  tr_requester : UUID;
  tr_key : string;
  tr_source : UUID;
  tr_destination : UUID;
  tr_currency : string;
  tr_amount : Z;
  tr_requested_at : Time;
  tr_status : string;
  tr_version : Z;
  tr_policy : option string;
  tr_journal : option UUID;
  tr_failure : option string
}.

Record OutboxRow := mkOutboxRow {
  ob_sequence : Z;
  ob_type : string;
  ob_version : Z;
  ob_aggregate_type : string;
  ob_aggregate_id : UUID;
  ob_aggregate_version : Z;
  ob_correlation : UUID;
  ob_causation : option UUID;
  ob_occurred_at : Time;
  ob_payload : string;
  ob_created_at : Time;
  ob_available_at : Time;
  ob_attempts : Z;
  ob_claimed_by : option UUID;
  ob_claimed_until : option Time;
  ob_last_error : option string;
  ob_published_at : option Time
}.

Record InboxRow := mkInboxRow {
  ib_type : string;
  ib_version : Z
}.

Record AssessmentRow := mkAssessmentRow {
  as_transfer : UUID;
  as_version : Z;
  as_causation : UUID;
  as_policy : string;
  as_input : string;
  as_score : Z;
  as_decision : string;
  as_signals : string;
  as_at : Time
}.

Record ReviewRow := mkReviewRow {
  rv_version : Z;
  rv_status : string;
  rv_opened_at : Time;
  rv_decision : option string;
  rv_decided_by : option string;
  rv_decided_at : option Time
}.

Record AuditRow := mkAuditRow {
  au_transfer : UUID;
  au_version : Z;
  au_decision : string;
  au_subject : string;
  au_at : Time
}.

Record QuarantineRow := mkQuarantineRow {
  qu_reason : string;
  qu_excerpt : string;
  qu_sha256 : list Z;
  qu_size : Z;
  qu_truncated : bool;
  qu_at : Time
}.

Record DB := mkDB {
  t_wallets : gmap UUID WalletRow;
  t_accounts : gmap UUID AccountRow;
  t_balances : gmap UUID BalanceRow;
  t_entries : gmap UUID EntryRow;
  t_postings : list PostingRow;
  t_transfers : gmap UUID TransferRow;
  t_outbox : gmap UUID OutboxRow;
  t_outbox_sequence : Z;
  t_inbox : gmap (string * UUID) InboxRow;
  t_assessments : list AssessmentRow;
  t_reviews : gmap UUID ReviewRow;
  t_audit : list AuditRow;
  (** By consumer, topic, partition and offset. *)
  t_quarantine : gmap (string * string * Z * Z) QuarantineRow
}.

Definition emptyDB : DB := mkDB ∅ ∅ ∅ ∅ [] ∅ ∅ 0 ∅ [] ∅ [] ∅.

Definition set_wallets f (d : DB) : DB :=
  mkDB (f (t_wallets d)) (t_accounts d) (t_balances d) (t_entries d) (t_postings d) (t_transfers d)
    (t_outbox d) (t_outbox_sequence d) (t_inbox d) (t_assessments d) (t_reviews d) (t_audit d) (t_quarantine d).
Definition set_accounts f (d : DB) : DB :=
  mkDB (t_wallets d) (f (t_accounts d)) (t_balances d) (t_entries d) (t_postings d) (t_transfers d)
    (t_outbox d) (t_outbox_sequence d) (t_inbox d) (t_assessments d) (t_reviews d) (t_audit d) (t_quarantine d).
Definition set_balances f (d : DB) : DB :=
  mkDB (t_wallets d) (t_accounts d) (f (t_balances d)) (t_entries d) (t_postings d) (t_transfers d)
    (t_outbox d) (t_outbox_sequence d) (t_inbox d) (t_assessments d) (t_reviews d) (t_audit d) (t_quarantine d).
Definition set_entries f (d : DB) : DB :=
  mkDB (t_wallets d) (t_accounts d) (t_balances d) (f (t_entries d)) (t_postings d) (t_transfers d)
    (t_outbox d) (t_outbox_sequence d) (t_inbox d) (t_assessments d) (t_reviews d) (t_audit d) (t_quarantine d).
Definition set_postings f (d : DB) : DB :=
  mkDB (t_wallets d) (t_accounts d) (t_balances d) (t_entries d) (f (t_postings d)) (t_transfers d)
    (t_outbox d) (t_outbox_sequence d) (t_inbox d) (t_assessments d) (t_reviews d) (t_audit d) (t_quarantine d).
Definition set_transfers f (d : DB) : DB :=
  mkDB (t_wallets d) (t_accounts d) (t_balances d) (t_entries d) (t_postings d) (f (t_transfers d))
    (t_outbox d) (t_outbox_sequence d) (t_inbox d) (t_assessments d) (t_reviews d) (t_audit d) (t_quarantine d).
Definition set_outbox f (d : DB) : DB :=
  mkDB (t_wallets d) (t_accounts d) (t_balances d) (t_entries d) (t_postings d) (t_transfers d)
    (f (t_outbox d)) (t_outbox_sequence d) (t_inbox d) (t_assessments d) (t_reviews d) (t_audit d) (t_quarantine d).
Definition set_outbox_sequence f (d : DB) : DB :=
  mkDB (t_wallets d) (t_accounts d) (t_balances d) (t_entries d) (t_postings d) (t_transfers d)
    (t_outbox d) (f (t_outbox_sequence d)) (t_inbox d) (t_assessments d) (t_reviews d) (t_audit d) (t_quarantine d).
Definition set_inbox f (d : DB) : DB :=
  mkDB (t_wallets d) (t_accounts d) (t_balances d) (t_entries d) (t_postings d) (t_transfers d)
    (t_outbox d) (t_outbox_sequence d) (f (t_inbox d)) (t_assessments d) (t_reviews d) (t_audit d) (t_quarantine d).
Definition set_assessments f (d : DB) : DB :=
  mkDB (t_wallets d) (t_accounts d) (t_balances d) (t_entries d) (t_postings d) (t_transfers d)
    (t_outbox d) (t_outbox_sequence d) (t_inbox d) (f (t_assessments d)) (t_reviews d) (t_audit d) (t_quarantine d).
Definition set_reviews f (d : DB) : DB :=
  mkDB (t_wallets d) (t_accounts d) (t_balances d) (t_entries d) (t_postings d) (t_transfers d)
    (t_outbox d) (t_outbox_sequence d) (t_inbox d) (t_assessments d) (f (t_reviews d)) (t_audit d) (t_quarantine d).
Definition set_audit f (d : DB) : DB :=
  mkDB (t_wallets d) (t_accounts d) (t_balances d) (t_entries d) (t_postings d) (t_transfers d)
    (t_outbox d) (t_outbox_sequence d) (t_inbox d) (t_assessments d) (t_reviews d) (f (t_audit d)) (t_quarantine d).
Definition set_quarantine f (d : DB) : DB :=
  mkDB (t_wallets d) (t_accounts d) (t_balances d) (t_entries d) (t_postings d) (t_transfers d)
    (t_outbox d) (t_outbox_sequence d) (t_inbox d) (t_assessments d) (t_reviews d) (t_audit d) (f (t_quarantine d)).

(** SQLSTATE classes raised by the constraints of the schema. *)
Definition unique_violation (c : string) : error := [Postgres (mkPgError "23505" c)].
Definition check_violation (c : string) : error := [Postgres (mkPgError "23514" c)].
Definition foreign_key_violation (c : string) : error := [Postgres (mkPgError "23503" c)].
Definition invalid_text : error := [Postgres (mkPgError "22P02" "")].
Definition in_failed_transaction : error := [Postgres (mkPgError "25P02" "")].

(** ** The service *)

(** Failures the server or the connection can raise on any statement. *)
Inductive Fault :=
| SerializationFault
| DeadlockFault
| ConnectionFault.

Definition fault_error (f : Fault) : error :=
  match f with
  | SerializationFault => [Postgres (mkPgError "40001" "")]
  | DeadlockFault => [Postgres (mkPgError "40P01" "")]
  | ConnectionFault => [Other "connection"]
  end.

(** The fate of a COMMIT: applied and acknowledged, refused, or its
    acknowledgement lost, in which case it may or may not have been applied. *)
Inductive CommitFate :=
| CommitApplied
| CommitRefused (f : Fault)
| CommitLost (applied : bool).

(** The server's and the environment's choices, indexed by a tick that advances
    with every interaction. *)
Record Service := mkService {
  faults : nat -> option Fault;
  fates : nat -> CommitFate;
  generated : nat -> UUID;
  now_at : nat -> Time;
  cancelled : nat -> bool
}.

(** ** Transactions *)

Definition ErrTxClosed : leaf := errors_New "tx is closed".
Definition ErrTxCommitRollback : leaf := errors_New "commit unexpectedly resulted in rollback".

Record TxState := mkTx {
  (** The tables as the transaction sees them. *)
  tx_db : DB;
  tx_aborted : bool;
  tx_closed : bool;
  (** The tables its commit made permanent, when it did. *)
  tx_applied : option DB;
  tx_tick : nat;
  (** CURRENT_TIMESTAMP: the time at which the transaction began. *)
  tx_now : Time
}.

(** Code that runs inside a [pgx.Tx]; a failed call still leaves a transaction. *)
Definition Tx (A : Type) : Type := Service -> TxState -> Result A * TxState.

#[export] Instance Tx_ret : MRet Tx := fun A a _ st => (Ok a, st).
#[export] Instance Tx_bind : MBind Tx := fun A B f m s st =>
  match m s st with
  | (Ok a, st') => f a s st'
  | (Err e, st') => (Err e, st')
  end.

(** Pure result code inside a transaction. *)
Definition lift {A} (r : Result A) : Tx A := fun _ st => (r, st).

(** [fmt.Errorf] with sentinels around a failed call. *)
Definition wrap_tx {A} (leaves : error) (m : Tx A) : Tx A := fun s st =>
  let '(r, st') := m s st in (wrap_err leaves r, st').

(** Post-processing of a failed call's error. *)
Definition map_err {A} (f : error -> error) (m : Tx A) : Tx A := fun s st =>
  match m s st with
  | (Ok a, st') => (Ok a, st')
  | (Err e, st') => (Err (f e), st')
  end.

(** One SQL statement.  A failing statement aborts the transaction: every later
    statement is refused until it is rolled back. *)
Definition stmt {A} (f : Service -> nat -> Time -> DB -> Result (A * DB)) : Tx A := fun s st =>
  if tx_closed st then (Err [ErrTxClosed], st)
  else if tx_aborted st then (Err in_failed_transaction, st)
  else
    let abort := mkTx (tx_db st) true false (tx_applied st) (S (tx_tick st)) (tx_now st) in
    match faults s (tx_tick st) with
    | Some flt => (Err (fault_error flt), abort)
    | None =>
        match f s (tx_tick st) (tx_now st) (tx_db st) with
        | Err e => (Err e, abort)
        | Ok (a, db') => (Ok a, mkTx db' false false (tx_applied st) (S (tx_tick st)) (tx_now st))
        end
    end.

(** A statement that only reads. *)
Definition query {A} (f : DB -> Result A) : Tx A :=
  stmt (fun _ _ _ d => match f d with Ok a => Ok (a, d) | Err e => Err e end).

(** A statement that writes without generated values. *)
Definition exec {A} (f : Time -> DB -> Result (A * DB)) : Tx A := stmt (fun _ _ now d => f now d).

(** Constraints checked at commit (DEFERRABLE INITIALLY DEFERRED): a transfer's
    journal entry exists and its accounts exist in its currency. *)
Definition deferred_ok (d : DB) : bool :=
  forallb (fun '(_, r) =>
    match tr_journal r with
    | Some e => bool_decide (is_Some (t_entries d !! e))
    | None => true
    end &&
    match t_accounts d !! tr_source r with
    | Some a => bool_decide (acc_currency a = tr_currency r) | None => false
    end &&
    match t_accounts d !! tr_destination r with
    | Some a => bool_decide (acc_currency a = tr_currency r) | None => false
    end) (map_to_list (t_transfers d)).

(** [tx.Commit]. *)
Definition commit : Tx unit := fun s st =>
  let close applied := mkTx (tx_db st) (tx_aborted st) true applied (S (tx_tick st)) (tx_now st) in
  if tx_closed st then (Err [ErrTxClosed], st)
  else if tx_aborted st then (Err [ErrTxCommitRollback], close None)
  else if negb (deferred_ok (tx_db st)) then (Err (foreign_key_violation ""), close None)
  else match fates s (tx_tick st) with
  | CommitApplied => (Ok tt, close (Some (tx_db st)))
  | CommitRefused flt => (Err (fault_error flt), close None)
  | CommitLost applied => (Err [Other "connection"], close (if applied then Some (tx_db st) else None))
  end.

(** ** Runs *)

(** The committed tables and the next tick of the service. *)
Record World := mkWorld {
  committed : DB;
  tick : nat
}.

(** The transaction [pool.BeginTx] opens. *)
Definition begun (s : Service) (w : World) : TxState :=
  mkTx (committed w) false false None (S (tick w)) (now_at s (tick w)).

(** [pool.BeginTx], the body, and the deferred rollback.  [join] says whether
    the deferred function adds a rollback failure to the result
    ([finishTransaction]) or drops it ([_ = tx.Rollback(ctx)]). *)
Definition run_tx {A} (join : bool) (body : Tx A) (s : Service) (w : World) : Result A * World :=
  match faults s (tick w) with
  | Some flt => (Err (fault_error flt), mkWorld (committed w) (S (tick w)))
  | None =>
      let '(r, st) := body s (begun s w) in
      let r' :=
        if tx_closed st then r
        else match faults s (tx_tick st) with
        | Some flt =>
            if join then match r with Ok _ => Err (fault_error flt) | Err e => Err (e ++ fault_error flt)%list end
            else r
        | None => r
        end in
      (r', mkWorld (default (committed w) (tx_applied st)) (S (tx_tick st)))
  end.

(** [pool.Exec]: one statement in a transaction of its own, on tables without
    deferred constraints. *)
Definition run_stmt {A} (f : Time -> DB -> Result (A * DB)) (s : Service) (w : World) : Result A * World :=
  let keep := mkWorld (committed w) (S (tick w)) in
  match faults s (tick w) with
  | Some flt => (Err (fault_error flt), keep)
  | None =>
      match f (now_at s (tick w)) (committed w) with
      | Err e => (Err e, keep)
      | Ok (a, d) =>
          match fates s (tick w) with
          | CommitApplied => (Ok a, mkWorld d (S (tick w)))
          | CommitRefused flt => (Err (fault_error flt), keep)
          | CommitLost applied => (Err [Other "connection"], if applied then mkWorld d (S (tick w)) else keep)
          end
      end
  end.

(** ** Reasoning about transactions *)

(** The transaction accepts statements. *)
Definition tx_open (st : TxState) : Prop := tx_closed st = false /\ tx_aborted st = false.

(** Code that neither commits nor closes its transaction. *)
Definition quiet {A} (m : Tx A) : Prop := forall s st r st',
  m s st = (r, st') -> tx_applied st' = tx_applied st /\ tx_closed st' = tx_closed st /\ tx_now st' = tx_now st.

(** A service that neither fails nor is cancelled. *)
Record healthy (s : Service) : Prop := {
  no_faults n : faults s n = None;
  commits_apply n : fates s n = CommitApplied;
  not_cancelled n : cancelled s n = false
}.

Lemma mbind_Ok {A B} (m : Tx A) (f : A -> Tx B) s st b st' :
  (m ≫= f) s st = (Ok b, st') <->
  exists a st1, m s st = (Ok a, st1) /\ f a s st1 = (Ok b, st').
Proof.
  unfold mbind, Tx_bind. destruct (m s st) as [[a|e] st1]; split.
  - eauto.
  - intros (? & ? & [= -> ->] & ?). done.
  - done.
  - intros (? & ? & ? & ?). done.
Qed.

Lemma lift_Ok {A} (r : Result A) s st a st' : lift r s st = (Ok a, st') <-> r = Ok a /\ st' = st.
Proof. unfold lift. split; [intros [= -> ->]; done|intros [-> ->]; done]. Qed.

Lemma wrap_tx_Ok {A} leaves (m : Tx A) s st a st' :
  wrap_tx leaves m s st = (Ok a, st') <-> m s st = (Ok a, st').
Proof. unfold wrap_tx. destruct (m s st) as [[?|?] ?]; cbn; naive_solver. Qed.

Lemma map_err_Ok {A} f (m : Tx A) s st a st' :
  map_err f m s st = (Ok a, st') <-> m s st = (Ok a, st').
Proof. unfold map_err. destruct (m s st) as [[?|?] ?]; cbn; naive_solver. Qed.

Lemma stmt_Ok {A} (f : Service -> nat -> Time -> DB -> Result (A * DB)) s st a st' :
  stmt f s st = (Ok a, st') <->
  tx_open st /\ faults s (tx_tick st) = None /\
  f s (tx_tick st) (tx_now st) (tx_db st) = Ok (a, tx_db st') /\
  st' = mkTx (tx_db st') false false (tx_applied st) (S (tx_tick st)) (tx_now st).
Proof.
  unfold stmt, tx_open. destruct st as [d [] [] ap n now]; cbn; try naive_solver.
  destruct (faults s n); [naive_solver|]. destruct (f _ _ _ _) as [[a0 d0]|e]; [|naive_solver].
  split; [intros [= -> <-]; cbn; done|]. intros (_ & _ & [= -> ->] & ->). done.
Qed.

(** The open transaction after one more statement. *)
Definition advance (st : TxState) (d : DB) : TxState :=
  mkTx d false false (tx_applied st) (S (tx_tick st)) (tx_now st).

Lemma advance_open st d : tx_open (advance st d).
Proof. done. Qed.

Lemma query_Ok {A} (f : DB -> Result A) s st a st' :
  query f s st = (Ok a, st') -> tx_open st /\ f (tx_db st) = Ok a /\ st' = advance st (tx_db st).
Proof.
  unfold query. rewrite stmt_Ok. intros (Ho & _ & E & Hst).
  destruct (f (tx_db st)); [|done]. injection E as -> Ed. rewrite Hst, <- Ed. done.
Qed.

Lemma exec_Ok {A} (f : Time -> DB -> Result (A * DB)) s st a st' :
  exec f s st = (Ok a, st') ->
  exists d, tx_open st /\ f (tx_now st) (tx_db st) = Ok (a, d) /\ st' = advance st d.
Proof.
  unfold exec. rewrite stmt_Ok. intros (Ho & _ & E & Hst). exists (tx_db st'). by split_and!.
Qed.

(** On a healthy service an open transaction runs the statement itself. *)
Lemma stmt_healthy {A} (f : Service -> nat -> Time -> DB -> Result (A * DB)) s st :
  healthy s -> tx_open st ->
  stmt f s st =
    match f s (tx_tick st) (tx_now st) (tx_db st) with
    | Ok (a, d) => (Ok a, mkTx d false false (tx_applied st) (S (tx_tick st)) (tx_now st))
    | Err e => (Err e, mkTx (tx_db st) true false (tx_applied st) (S (tx_tick st)) (tx_now st))
    end.
Proof. intros Hs [Hc Ha]. unfold stmt. rewrite Hc, Ha, (no_faults s Hs). done. Qed.

Lemma query_healthy {A} (f : DB -> Result A) s st a :
  healthy s -> tx_open st -> f (tx_db st) = Ok a -> query f s st = (Ok a, advance st (tx_db st)).
Proof. intros Hs Ho E. unfold query. rewrite stmt_healthy by done. by rewrite E. Qed.

Lemma exec_healthy {A} (f : Time -> DB -> Result (A * DB)) s st a d :
  healthy s -> tx_open st -> f (tx_now st) (tx_db st) = Ok (a, d) -> exec f s st = (Ok a, advance st d).
Proof. intros Hs Ho E. unfold exec. rewrite stmt_healthy by done. by rewrite E. Qed.

Lemma bind_run {A B} (m : Tx A) (f : A -> Tx B) s st a st' :
  m s st = (Ok a, st') -> (m ≫= f) s st = f a s st'.
Proof. intros E. unfold mbind, Tx_bind. by rewrite E. Qed.

Lemma quiet_ret {A} (a : A) : quiet (mret a).
Proof. by intros s st r st' [= <- <-]. Qed.

Lemma quiet_lift {A} (r : Result A) : quiet (lift r).
Proof. by intros s st r' st' [= <- <-]. Qed.

Lemma quiet_bind {A B} (m : Tx A) (f : A -> Tx B) :
  quiet m -> (forall a, quiet (f a)) -> quiet (m ≫= f).
Proof.
  intros Hm Hf s st r st'. unfold mbind, Tx_bind. destruct (m s st) as [[a|e] st1] eqn:E.
  - intros (-> & -> & ->)%Hf. by apply Hm in E.
  - intros [= <- <-]. by apply Hm in E.
Qed.

Lemma quiet_stmt {A} (f : Service -> nat -> Time -> DB -> Result (A * DB)) : quiet (stmt f).
Proof.
  intros s st r st'. unfold stmt. destruct (tx_closed st) eqn:Hc; [by intros [= <- <-]|].
  destruct (tx_aborted st); [by intros [= <- <-]|]. destruct (faults _ _); [by intros [= <- <-]|].
  destruct (f _ _ _ _) as [[]|]; by intros [= <- <-].
Qed.

Lemma quiet_query {A} (f : DB -> Result A) : quiet (query f).
Proof. apply quiet_stmt. Qed.

Lemma quiet_exec {A} (f : Time -> DB -> Result (A * DB)) : quiet (exec f).
Proof. apply quiet_stmt. Qed.

Lemma quiet_wrap {A} leaves (m : Tx A) : quiet m -> quiet (wrap_tx leaves m).
Proof.
  intros Hm s st r st'. unfold wrap_tx. destruct (m s st) eqn:E. intros [= <- <-]. by apply Hm in E.
Qed.

Lemma quiet_map_err {A} f (m : Tx A) : quiet m -> quiet (map_err f m).
Proof.
  intros Hm s st r st'. unfold map_err.
  destruct (m s st) as [[]] eqn:E; intros [= <- <-]; by apply Hm in E.
Qed.

(** What a transaction that ends in its only commit leaves behind: the tables
    are unchanged or all of the body's writes are there; they are there whenever
    it reports success, and behind a failure only when the acknowledgement of the
    commit was lost. *)
Lemma run_tx_commit {A B} join (m : Tx A) (f : A -> B) s w r w' :
  quiet m ->
  run_tx join (a ← m; _ ← commit; mret (f a)) s w = (r, w') ->
  match r with
  | Ok b => exists a st, m s (begun s w) = (Ok a, st) /\ b = f a /\ committed w' = tx_db st
  | Err e => committed w' = committed w \/
             e = [Other "connection"] /\ exists a st, m s (begun s w) = (Ok a, st) /\ committed w' = tx_db st
  end.
Proof.
  intros Hq. unfold run_tx. destruct (faults s (tick w)); [intros [= <- <-]; by left|].
  unfold mbind, Tx_bind. destruct (m s (begun s w)) as [[a|e] st] eqn:Em.
  - destruct (Hq _ _ _ _ Em) as (Ha & Hc & _). cbn in Ha, Hc.
    unfold commit. rewrite Hc. destruct (tx_aborted st); [|destruct (negb (deferred_ok _));
      [|destruct (fates s (tx_tick st)) as [|flt|[]]]]; cbn; intros [= <- <-]; cbn; naive_solver.
  - destruct (Hq _ _ _ _ Em) as (Ha & Hc & _). cbn in Ha, Hc. rewrite Hc, Ha. cbn.
    destruct (faults s (tx_tick st)), join; intros [= <- <-]; cbn; by left.
Qed.

(** A body that does the work and then commits, on every path that succeeds. *)
Definition ends {A} (work body : Tx A) : Prop := forall s st,
  body s st = (a ← work; _ ← commit; mret a) s st.

Lemma ends_ret {A} (a : A) : ends (mret a) (_ ← commit; mret a).
Proof. done. Qed.

Lemma ends_commit : ends (mret tt) commit.
Proof.
  intros s st. unfold mbind, Tx_bind, mret, Tx_ret. destruct (commit s st) as [[[]|e] st'] eqn:E; done.
Qed.

Lemma ends_bind {A B} (m : Tx A) (f g : A -> Tx B) : (forall a, ends (f a) (g a)) -> ends (m ≫= f) (m ≫= g).
Proof.
  intros Hfg s st. unfold mbind, Tx_bind in *. destruct (m s st) as [[a|e] st1]; [|done]. apply Hfg.
Qed.

Lemma ends_fail {A} (e : error) : ends (lift (Err e) : Tx A) (lift (Err e)).
Proof. done. Qed.

Lemma run_tx_ends {A} join (work body : Tx A) s w r w' :
  ends work body -> quiet work -> run_tx join body s w = (r, w') ->
  match r with
  | Ok a => exists st, work s (begun s w) = (Ok a, st) /\ committed w' = tx_db st
  | Err e => committed w' = committed w \/
             e = [Other "connection"] /\ exists a st, work s (begun s w) = (Ok a, st) /\ committed w' = tx_db st
  end.
Proof.
  intros He Hq HR. unfold run_tx in HR. rewrite He in HR.
  apply (run_tx_commit join work (fun a => a)) in HR; [|done].
  destruct r as [b|e]; [|done]. destruct HR as (a & st & ? & -> & ?). eauto.
Qed.

Lemma run_tx_ends_healthy {A} join (work body : Tx A) s w a st :
  healthy s -> ends work body -> quiet work -> work s (begun s w) = (Ok a, st) ->
  tx_aborted st = false -> deferred_ok (tx_db st) = true ->
  exists w', run_tx join body s w = (Ok a, w') /\ committed w' = tx_db st.
Proof.
  intros Hs He Hq E Ha Hd. unfold run_tx. rewrite (no_faults s Hs), He.
  destruct (Hq _ _ _ _ E) as (Hap & Hc & _). cbn in Hap, Hc.
  erewrite bind_run by exact E. unfold mbind, Tx_bind, commit. rewrite Hc, Ha, Hd, (commits_apply s Hs). cbn.
  eexists. split; [reflexivity|done].
Qed.

(** A healthy service reports a failing body's error and keeps the tables. *)
Lemma run_tx_fails_healthy {A} join (work body : Tx A) s w e st :
  healthy s -> ends work body -> quiet work -> work s (begun s w) = (Err e, st) ->
  exists w', run_tx join body s w = (Err e, w') /\ committed w' = committed w.
Proof.
  intros Hs He Hq E. unfold run_tx. rewrite (no_faults s Hs), He.
  destruct (Hq _ _ _ _ E) as (Hap & Hc & _). cbn in Hap, Hc.
  unfold mbind, Tx_bind. rewrite E, Hc, Hap, (no_faults s Hs). cbn. eexists. split; [reflexivity|done].
Qed.

Lemma run_stmt_outcome {A} (f : Time -> DB -> Result (A * DB)) s w r w' :
  run_stmt f s w = (r, w') ->
  match r with
  | Ok a => exists d, f (now_at s (tick w)) (committed w) = Ok (a, d) /\ committed w' = d
  | Err e => committed w' = committed w \/
             e = [Other "connection"] /\ exists a d, f (now_at s (tick w)) (committed w) = Ok (a, d) /\ committed w' = d
  end.
Proof.
  unfold run_stmt. destruct (faults s (tick w)); [intros [= <- <-]; by left|].
  destruct (f _ _) as [[a d]|e] eqn:E; [|intros [= <- <-]; by left].
  destruct (fates s (tick w)) as [|flt|[]]; intros [= <- <-]; cbn; eauto 6.
Qed.

(** A healthy service runs the statement and commits it. *)
Lemma run_stmt_healthy {A} (f : Time -> DB -> Result (A * DB)) s w a d :
  healthy s -> f (now_at s (tick w)) (committed w) = Ok (a, d) -> run_stmt f s w = (Ok a, mkWorld d (S (tick w))).
Proof. intros Hs E. unfold run_stmt. by rewrite (no_faults s Hs), E, (commits_apply s Hs). Qed.

End Tables.

#[export] Hint Resolve quiet_ret quiet_lift quiet_stmt quiet_query quiet_exec quiet_wrap quiet_map_err : wallet.

(** Discharge [quiet] goals structurally. *)
Ltac quiet :=
  repeat match goal with
  | |- quiet (mbind _ _) => apply quiet_bind; [|intros ?]
  | |- quiet (let '(_, _) := ?p in _) => destruct p
  | |- quiet (if ?b then _ else _) => destruct b
  | |- quiet (match ?x with _ => _ end) => destruct x
  | |- quiet (wrap_tx _ _) => apply quiet_wrap
  | |- quiet (map_err _ _) => apply quiet_map_err
  | |- quiet _ => solve [eauto with wallet]
  end.

(** Discharge [ends] goals structurally. *)
Ltac ends :=
  repeat match goal with
  | |- ends (mbind _ _) (mbind _ _) => apply ends_bind; intros ?
  | |- ends (if ?b then _ else _) _ => destruct b
  | |- ends (match ?x with _ => _ end) _ => destruct x
  | |- ends (mret _) _ => apply ends_ret || apply ends_commit
  | |- ends (lift (Err _)) _ => apply ends_fail
  | |- ends _ _ => solve [eauto with wallet]
  end.

(** Invert a successful run of transaction code. *)
Ltac tx_step :=
  match goal with
  | H : mbind _ _ _ _ = (Ok _, _) |- _ => apply mbind_Ok in H as (? & ? & ? & H)
  | H : lift _ _ _ = (Ok _, _) |- _ => apply lift_Ok in H as [H ->]
  | H : wrap_tx _ _ _ _ = (Ok _, _) |- _ => apply wrap_tx_Ok in H
  | H : map_err _ _ _ _ = (Ok _, _) |- _ => apply map_err_Ok in H
  | H : mret _ _ _ = (Ok _, _) |- _ => injection H as H; subst
  | H : query _ _ _ = (Ok _, _) |- _ => apply query_Ok in H as (? & H & ->)
  | H : exec _ _ _ = (Ok _, _) |- _ => apply exec_Ok in H as (? & ? & H & ->)
  end.

Ltac tx_inv := repeat (tx_step; subst).
