(* ===== verification/PgInstance.v ===== *)
(** * A concrete driver

    An instance of [Pg] and [PgLaws]: UUIDs are their canonical texts and times
    are cut to microseconds.  It shows that the laws can hold together and lets
    the witnesses of the other files compute. *)

From stdpp Require Import base list gmap strings numbers countable.
From Stdlib Require Import ZArith Lia.
From S2P Require Import Prelude GoText Database.

Open Scope string_scope.
Open Scope Z_scope.

Definition canonical_text (s : string) : Prop := isCanonicalUUID s = true.

#[export] Instance canonical_text_dec s : Decision (canonical_text s).
Proof. unfold canonical_text. apply _. Defined.

Definition scan_uuid (s : string) : option (dsig canonical_text) :=
  match decide (canonical_text (ToLower s)) with
  | left H => Some (dexist (ToLower s) H)
  | right _ => None
  end.

#[export] Instance concretePg : Pg := {
  UUID := dsig canonical_text;
  uuid_scan := scan_uuid;
  uuid_text := proj1_sig;
  stored_time := fun t => mkTime (1000 * (instant t / 1000)) 0;
  stored_json := fun s => Some s
}.

Lemma canonical_lower s : canonical_text s -> ToLower s = s.
Proof. intros Hs%isCanonicalUUID_spec. apply Hs. Qed.

Lemma scan_uuid_canonical s (Hs : canonical_text s) : scan_uuid s = Some (dexist s Hs).
Proof.
  unfold scan_uuid. pose proof (canonical_lower s Hs) as E. destruct (decide _) as [Hl|Hl].
  - f_equal. apply (sig_eq_pi _). cbn. done.
  - rewrite E in Hl. done.
Qed.

#[export] Instance concretePgLaws : PgLaws.
Proof.
  split; cbn.
  - intros u. pose proof (proj2_dsig u) as Hu. rewrite (scan_uuid_canonical _ Hu). f_equal.
    by apply dsig_eq.
  - intros u. apply (proj2_dsig u).
  - intros s Hs. exists (dexist s Hs). split; [apply scan_uuid_canonical|done].
  - intros t. rewrite Z.mul_comm. apply Z.mod_mul. lia.
  - intros t. pose proof (Z.div_mod (instant t) 1000). pose proof (Z.mod_pos_bound (instant t) 1000). lia.
  - intros t Ht. pose proof (Z.div_mod (instant t) 1000). lia.
Qed.

(** A small world for the witnesses: a customer, a merchant and a system
    account, all at zero. *)
Definition sample_uuid (s : string) (H : bool_decide (canonical_text s) = true) : UUID :=
  dexist s (proj1 (bool_decide_eq_true _) H).

Definition id_system : UUID := sample_uuid "00000000-0000-4000-8000-000000000001" eq_refl.
Definition id_alice : UUID := sample_uuid "00000000-0000-4000-8000-000000000002" eq_refl.
Definition id_bob : UUID := sample_uuid "00000000-0000-4000-8000-000000000003" eq_refl.
Definition id_wallet : UUID := sample_uuid "00000000-0000-4000-8000-000000000004" eq_refl.
Definition id_entry : UUID := sample_uuid "00000000-0000-4000-8000-000000000005" eq_refl.
Definition id_other : UUID := sample_uuid "00000000-0000-4000-8000-000000000006" eq_refl.

Definition sample_now : Time := mkTime 5000000 0.

Definition id_merchant : UUID := sample_uuid "00000000-0000-4000-8000-000000000008" eq_refl.
Definition id_treasury : UUID := sample_uuid "00000000-0000-4000-8000-000000000009" eq_refl.

(** Each account is in a wallet of its own. *)
Definition sample_account (wallet : UUID) (kind : string) : AccountRow := mkAccountRow wallet "USD" "active" kind sample_now.
Definition sample_balance (kind : string) : BalanceRow := mkBalanceRow "USD" kind 0 0 sample_now.

Definition sampleDB : DB :=
  set_balances (fun _ => <[id_system := sample_balance "system"]>
                           (<[id_alice := sample_balance "customer"]> {[ id_bob := sample_balance "customer" ]}))
    (set_accounts (fun _ => <[id_system := sample_account id_treasury "system"]>
                           (<[id_alice := sample_account id_wallet "customer"]> {[ id_bob := sample_account id_merchant "customer" ]}))
      emptyDB).

(** A service that never fails. *)
Definition calm : Service := mkService (fun _ => None) (fun _ => CommitApplied) (fun _ => id_other)
  (fun _ => sample_now) (fun _ => false).

Lemma calm_healthy : healthy calm.
Proof. done. Qed.

Definition sampleWorld : World := mkWorld sampleDB 0.

Ltac distinct_ids := let E := fresh in intros E; apply (f_equal uuid_text) in E; discriminate E.

Lemma sample_balance_system : t_balances sampleDB !! id_system = Some (sample_balance "system").
Proof. apply lookup_insert_eq. Qed.

Lemma sample_balance_alice : t_balances sampleDB !! id_alice = Some (sample_balance "customer").
Proof. unfold sampleDB. cbn [t_balances set_balances]. rewrite lookup_insert_ne by distinct_ids. apply lookup_insert_eq. Qed.

Lemma sample_balance_bob : t_balances sampleDB !! id_bob = Some (sample_balance "customer").
Proof. unfold sampleDB. cbn [t_balances set_balances]. rewrite !lookup_insert_ne by distinct_ids. apply lookup_singleton_eq. Qed.

(** From a computed test to the value it was made on. *)
Lemma ok_with {A} (r : Result A) (f : A -> bool) :
  match r with Ok a => f a | Err _ => false end = true -> exists a, r = Ok a /\ f a = true.
Proof. destruct r; [eauto|discriminate]. Qed.

Lemma some_with {A} (o : option A) (f : A -> bool) :
  match o with Some a => f a | None => false end = true -> exists a, o = Some a /\ f a = true.
Proof. destruct o; [eauto|discriminate]. Qed.
