(* ===== verification/LedgerRepo.v ===== *)
(** * The ledger repository

    [internal/ledger/postgres/repository.go]: posting a journal entry with its
    balance snapshots in one serializable transaction ([Post], [PostTx]),
    reading it back ([Get]) and comparing snapshots with postings
    ([Reconcile]).  Each SQL statement of the file is a function on the tables
    of [Database], with the constraints of
    [migrations/000002_create_ledger.up.sql]. *)

From stdpp Require Import base list gmap strings numbers sorting pretty.
From Stdlib Require Import ZArith Lia.
From S2P Require Import Prelude GoText Money Journal Database.

Open Scope string_scope.
Open Scope Z_scope.

Definition maxTransactionAttempts : nat := 3.

Definition ErrInvalidArgument : leaf := errors_New "ledger repository: invalid argument".
Definition ErrNotFound : leaf := errors_New "ledger repository: not found".
Definition ErrAlreadyExists : leaf := errors_New "ledger repository: journal entry already exists".
Definition ErrAlreadyReversed : leaf := errors_New "ledger repository: journal entry already reversed".
Definition ErrCurrencyMismatch : leaf := errors_New "ledger repository: account currency mismatch".
Definition ErrInsufficientFunds : leaf := errors_New "ledger repository: insufficient funds".
Definition ErrAmountOverflow : leaf := errors_New "ledger repository: amount overflow".
Definition ErrInvalidReversal : leaf := errors_New "ledger repository: invalid reversal".
Definition ErrCorruptData : leaf := errors_New "ledger repository: corrupt data".
Definition ErrSerializationFailure : leaf := errors_New "ledger repository: serialization retries exhausted".

(** [context.Canceled], which [ctx.Err()] reports. *)
Definition ContextCanceled : leaf := errors_New "context canceled".

Definition checkedAdd (left right : Z) : Result Z :=
  if (0 <? right) && (i64_sub MaxInt64 right <? left) || (right <? 0) && (left <? i64_sub MinInt64 right)
  then Err [ErrAmountOverflow]
  else Ok (i64_add left right).

Definition classifyPostError (err : error) : error :=
  match errors_AsPg err with
  | None => err
  | Some e =>
      if bool_decide (Code e = "23505") && bool_decide (ConstraintName e = "journal_entries_pkey")
      then ErrAlreadyExists :: err
      else if bool_decide (Code e = "23505") && bool_decide (ConstraintName e = "journal_entries_one_reversal_idx")
      then ErrAlreadyReversed :: err
      else if bool_decide (Code e = "23514") &&
              bool_decide (ConstraintName e = "account_balances_nonnegative_customer_check")
      then ErrInsufficientFunds :: err
      else if bool_decide (Code e = "22003") then ErrAmountOverflow :: err
      else err
  end.

Definition isRetryableTransaction (err : error) : bool :=
  match errors_AsPg err with
  | None => false
  | Some e => bool_decide (Code e = "40001") || bool_decide (Code e = "40P01")
  end.

(** The comparison of the postings at each index. *)
Fixpoint equalPostings (left right : list Posting) : bool :=
  match left, right with
  | [], [] => true
  | l :: left', r :: right' =>
      bool_decide (accountID l = accountID r) && bool_decide (amount l = amount r) && equalPostings left' right'
  | _, _ => false
  end.

Section Repository.
Context `{Pg}.

(** ** Prepared entries *)

Record preparedPosting := mkPrepared {
  pp_accountID : UUID;
  pp_currency : Currency;
  pp_amount : Z
}.

Record accountChange := mkChange {
  ch_accountID : UUID;
  ch_currency : Currency;
  delta : Z;
  newBalance : Z;
  newVersion : Z
}.

Record accountAccumulator := mkAccumulator {
  ac_accountID : UUID;
  ac_currency : Currency;
  total : Z
}.

Record preparedEntry := mkPreparedEntry {
  pe_entry : JournalEntry;
  pe_id : UUID;
  reversesID : option UUID;
  pe_postings : list preparedPosting;
  changes : list accountChange
}.

Record storedEntry := mkStored {
  se_id : string;
  se_entryType : string;
  se_reversesID : string;
  se_recordedAt : Time
}.

(** The loop over the postings: each is prepared and added to the total of its
    account ([total] is a [big.Int]). *)
Fixpoint accumulate (postings : list Posting) (accumulators : gmap string accountAccumulator)
    : Result (list preparedPosting * gmap string accountAccumulator) :=
  match postings with
  | [] => Ok ([], accumulators)
  | posting :: rest =>
      match parseUUID (accountID posting) with
      | Err e => Err (ErrInvalidArgument :: e)
      | Ok accountID =>
          let c := currency (amount posting) in
          let units := minorUnits (amount posting) in
          let key := uuid_text accountID in
          let accumulator := default (mkAccumulator accountID c 0) (accumulators !! key) in
          if negb (bool_decide (ac_currency accumulator = c)) then Err [ErrCurrencyMismatch]
          else
            let accumulator' := mkAccumulator (ac_accountID accumulator) (ac_currency accumulator)
                                  (total accumulator + units) in
            match accumulate rest (<[key := accumulator']> accumulators) with
            | Err e => Err e
            | Ok (prepared, final) => Ok (mkPrepared accountID c units :: prepared, final)
            end
      end
  end.

(** The loop over the sorted keys; [IsInt64] rejects an aggregate out of range. *)
Fixpoint collect_changes (accumulators : gmap string accountAccumulator) (keys : list string)
    : Result (list accountChange) :=
  match keys with
  | [] => Ok []
  | key :: rest =>
      match accumulators !! key with
      | None => Err [Other "nil accumulator"]
      | Some accumulator =>
          if negb (bool_decide (in_int64 (total accumulator))) then Err [ErrAmountOverflow]
          else
            match collect_changes accumulators rest with
            | Err e => Err e
            | Ok changes =>
                Ok (mkChange (ac_accountID accumulator) (ac_currency accumulator) (total accumulator) 0 0 :: changes)
            end
      end
  end.

Definition preparePostings (postings : list Posting) : Result (list preparedPosting * list accountChange) :=
  match accumulate postings ∅ with
  | Err e => Err e
  | Ok (prepared, accumulators) =>
      let keys := sort_strings (map_to_list accumulators).*1 in
      match collect_changes accumulators keys with
      | Err e => Err e
      | Ok changes => Ok (prepared, changes)
      end
  end.

Definition prepareEntry (entry : JournalEntry) : Result preparedEntry :=
  match parseUUID (entry_id entry) with
  | Err e => Err (ErrInvalidArgument :: e)
  | Ok id =>
      match NewJournalEntry (mkEntryParams (entry_id entry) (postings entry) (recordedAt entry)) with
      | Err e => Err (ErrInvalidArgument :: e)
      | Ok _ =>
          let source : Result (option UUID) :=
            match entryType entry with
            | JournalEntryTypeStandard =>
                if negb (bool_decide (reversesEntryID entry = "")) then Err [ErrInvalidArgument] else Ok None
            | JournalEntryTypeReversal =>
                match parseUUID (reversesEntryID entry) with
                | Err e => Err (ErrInvalidArgument :: e)
                | Ok parsedSourceID =>
                    if bool_decide (parsedSourceID = id) then Err [ErrInvalidArgument] else Ok (Some parsedSourceID)
                end
            | JournalEntryTypeUnknown => Err [ErrInvalidArgument]
            end in
          match source with
          | Err e => Err e
          | Ok reversesID =>
              match preparePostings (postings entry) with
              | Err e => Err e
              | Ok (preparedPostings, changes) =>
                  Ok (mkPreparedEntry entry id reversesID preparedPostings changes)
              end
          end
      end
  end.

(** ** SQL statements *)

Definition uuid_row_le {A} (x y : UUID * A) : Prop := string_le (uuid_text x.1) (uuid_text y.1).

#[export] Instance uuid_row_le_dec {A} (x y : UUID * A) : Decision (uuid_row_le x y).
Proof. unfold uuid_row_le. apply _. Defined.

(** [lockBalancesQuery]: the rows in the order of their account. *)
Definition lockBalancesQuery (accountIDs : list UUID) (d : DB) : list (string * BalanceRow) :=
  (fun '(a, row) => (uuid_text a, row)) <$>
    merge_sort uuid_row_le (filter (fun '(a, _) => a ∈ accountIDs) (map_to_list (t_balances d))).

(** The server's [~ '^[A-Z]{3}$']. *)
Definition currency_check (c : string) : bool := is_ok (ParseCurrency c).

(** [insertJournalEntryQuery] with the constraints of [journal_entries]. *)
Definition insertJournalEntryQuery (id : UUID) (entryType : string) (reverses : option UUID) (at_ : Time)
    (_ : Time) (d : DB) : Result (unit * DB) :=
  let shape :=
    bool_decide (entryType = "standard") && bool_decide (reverses = None) ||
    bool_decide (entryType = "reversal") &&
      match reverses with Some source => negb (bool_decide (source = id)) | None => false end in
  if negb shape then Err (check_violation "journal_entries_reversal_shape_check")
  else if negb (bool_decide (t_entries d !! id = None)) then Err (unique_violation "journal_entries_pkey")
  else if match reverses with
          | Some source => existsb (fun '(_, e) => bool_decide (ent_reverses e = Some source)) (map_to_list (t_entries d))
          | None => false
          end
  then Err (unique_violation "journal_entries_one_reversal_idx")
  else if match reverses with Some source => bool_decide (t_entries d !! source = None) | None => false end
  then Err (foreign_key_violation "journal_entries_reverses_entry_fkey")
  else Ok (tt, set_entries (insert id (mkEntryRow entryType reverses (stored_time at_))) d).

(** [insertPostingQuery] with the constraints of [postings]. *)
Definition insertPostingQuery (entry : UUID) (position : Z) (account : UUID) (currency : string) (units : Z)
    (_ : Time) (d : DB) : Result (unit * DB) :=
  if units =? 0 then Err (check_violation "postings_amount_nonzero_check")
  else if units =? MinInt64 then Err (check_violation "postings_amount_reversible_check")
  else if negb (currency_check currency) then Err (check_violation "postings_currency_check")
  else if negb ((0 <=? position) && (position <=? 1023)) then Err (check_violation "postings_position_check")
  else if existsb (fun p => bool_decide (po_entry p = entry) && (po_position p =? position)) (t_postings d)
  then Err (unique_violation "postings_pkey")
  else if bool_decide (t_entries d !! entry = None) then Err (foreign_key_violation "postings_entry_fkey")
  else if negb (match t_accounts d !! account with
                | Some a => bool_decide (acc_currency a = currency) | None => false end)
  then Err (foreign_key_violation "postings_account_currency_fkey")
  else Ok (tt, set_postings (fun l => l ++ [mkPostingRow entry position account currency units])%list d).

(** [updateBalanceQuery]: the number of affected rows. *)
Definition updateBalanceQuery (account : UUID) (newBalance newVersion : Z) (now : Time) (d : DB)
    : Result (Z * DB) :=
  match t_balances d !! account with
  | None => Ok (0, d)
  | Some row =>
      if negb (bool_decide (bal_type row = "system") || (0 <=? newBalance))
      then Err (check_violation "account_balances_nonnegative_customer_check")
      else if newVersion <? 0 then Err (check_violation "account_balances_version_check")
      else Ok (1, set_balances
                    (insert account (mkBalanceRow (bal_currency row) (bal_type row) newBalance newVersion now)) d)
  end.

(** [selectEntryQuery] and [selectEntryForKeyShareQuery]. *)
Definition selectEntryQuery (id : UUID) (d : DB) : option storedEntry :=
  (fun e => mkStored (uuid_text id) (ent_type e)
              (match ent_reverses e with Some source => uuid_text source | None => "" end)
              (ent_recorded_at e)) <$> t_entries d !! id.

Definition position_le (p q : PostingRow) : Prop := po_position p <= po_position q.

#[export] Instance position_le_dec p q : Decision (position_le p q).
Proof. unfold position_le. apply _. Defined.

(** [selectPostingsQuery]. *)
Definition selectPostingsQuery (entry : UUID) (d : DB) : list PostingRow :=
  merge_sort position_le (filter (fun p => po_entry p = entry) (t_postings d)).

(** [selectReversalExistsQuery]. *)
Definition selectReversalExistsQuery (source : UUID) (d : DB) : bool :=
  existsb (fun '(_, e) => bool_decide (ent_reverses e = Some source)) (map_to_list (t_entries d)).

(** ** Transaction bodies *)

Definition selectEntry (entryID : UUID) : Tx storedEntry :=
  record ← query (fun d => Ok (selectEntryQuery entryID d));
  lift (match record with Some record => Ok record | None => Err [ErrNotFound] end).

(** The conversion of the rows. *)
Fixpoint restore_postings (rows : list PostingRow) : Result (list Posting) :=
  match rows with
  | [] => Ok []
  | row :: rest =>
      match ParseCurrency (po_currency row) with
      | Err e => Err (ErrCorruptData :: e)
      | Ok currency =>
          match NewMoney (po_amount row) currency with
          | Err e => Err (ErrCorruptData :: e)
          | Ok amount =>
              match NewPosting (uuid_text (po_account row)) amount with
              | Err e => Err (ErrCorruptData :: e)
              | Ok posting =>
                  match restore_postings rest with
                  | Err e => Err e
                  | Ok postings => Ok (posting :: postings)
                  end
              end
          end
      end
  end.

Definition selectPostings (entryID : UUID) : Tx (list Posting) :=
  rows ← query (fun d => Ok (selectPostingsQuery entryID d));
  lift (restore_postings rows).

(** The pointers [changesByID], as positions in the slice [changes]. *)
Fixpoint index_changes (i : nat) (changes : list accountChange) (m : gmap string nat) : gmap string nat :=
  match changes with
  | [] => m
  | change :: rest => index_changes (S i) rest (<[uuid_text (ch_accountID change) := i]> m)
  end.

(** The body of the loop over the locked rows. *)
Definition calculate_row (change : accountChange) (row : BalanceRow) : Result accountChange :=
  if negb (bool_decide (bal_currency row = currency_String (ch_currency change))) then Err [ErrCurrencyMismatch]
  else match checkedAdd (balance_minor row) (delta change) with
  | Err _ => Err [ErrAmountOverflow]
  | Ok newBalance =>
      if bool_decide (bal_type row = "customer") && (newBalance <? 0) then Err [ErrInsufficientFunds]
      else if negb (bool_decide (bal_type row = "customer")) && negb (bool_decide (bal_type row = "system"))
      then Err [ErrCorruptData]
      else if bal_version row =? MaxInt64 then Err [ErrAmountOverflow]
      else Ok (mkChange (ch_accountID change) (ch_currency change) (delta change) newBalance
                 (i64_add (bal_version row) 1))
  end.

Fixpoint calculate_rows (changesByID : gmap string nat) (rows : list (string * BalanceRow))
    (changes : list accountChange) (locked : nat) : Result (list accountChange * nat) :=
  match rows with
  | [] => Ok (changes, locked)
  | (accountID, row) :: rest =>
      match changesByID !! accountID with
      | None => Err [ErrCorruptData]
      | Some i =>
          match changes !! i with
          | None => Err [Other "index out of range"]
          | Some change =>
              match calculate_row change row with
              | Err e => Err e
              | Ok change' => calculate_rows changesByID rest (<[i := change']> changes) (S locked)
              end
          end
      end
  end.

(** The changes with their new balances and versions, in the same slots. *)
Definition lockAndCalculateBalances (changes : list accountChange) : Tx (list accountChange) :=
  let accountIDs := ch_accountID <$> changes in
  let changesByID := index_changes 0 changes ∅ in
  rows ← query (fun d => Ok (lockBalancesQuery accountIDs d));
  calculated ← lift (calculate_rows changesByID rows changes 0);
  let '(changes', locked) := calculated in
  lift (if negb (Nat.eqb locked (length changes)) then Err [ErrNotFound] else Ok changes').

(** The comparison of a reversal with its stored source, posting by posting. *)
Fixpoint inverts (sourcePostings : list Posting) (reversalPostings : list preparedPosting) : bool :=
  match sourcePostings, reversalPostings with
  | s :: source', r :: reversal' =>
      bool_decide (accountID s = uuid_text (pp_accountID r)) &&
      bool_decide (currency (amount s) = pp_currency r) &&
      (minorUnits (amount s) =? i64_neg (pp_amount r)) && inverts source' reversal'
  | _, _ => true
  end.

Definition validatePersistedReversal (prepared : preparedEntry) (source : UUID) : Tx unit :=
  _ ← selectEntry source;
  sourcePostings ← selectPostings source;
  reversalExists ← query (fun d => Ok (selectReversalExistsQuery source d));
  lift (
    if reversalExists : bool then Err [ErrAlreadyReversed]
    else if negb (Nat.eqb (length sourcePostings) (length (pe_postings prepared))) then Err [ErrInvalidReversal]
    else if negb (inverts sourcePostings (pe_postings prepared)) then Err [ErrInvalidReversal]
    else Ok tt).

Definition insertEntry (prepared : preparedEntry) : Tx unit :=
  let '(entryType, reverses) :=
    if bool_decide (entryType (pe_entry prepared) = JournalEntryTypeReversal)
    then ("reversal", reversesID prepared) else ("standard", None) in
  exec (insertJournalEntryQuery (pe_id prepared) entryType reverses (recordedAt (pe_entry prepared))).

(** The statements of the batch, in order; closing a failed batch reports the
    same failure again ([closeBatch]). *)
Fixpoint insert_batch (id : UUID) (index : Z) (postings : list preparedPosting) : Tx unit :=
  match postings with
  | [] => mret tt
  | posting :: rest =>
      _ ← map_err (fun e => e ++ e)%list
            (exec (insertPostingQuery id index (pp_accountID posting) (currency_String (pp_currency posting))
                     (pp_amount posting)));
      insert_batch id (index + 1) rest
  end.

Definition insertPostings (prepared : preparedEntry) : Tx unit :=
  insert_batch (pe_id prepared) 0 (pe_postings prepared).

Fixpoint updateBalances (changes : list accountChange) : Tx unit :=
  match changes with
  | [] => mret tt
  | change :: rest =>
      affected ← exec (updateBalanceQuery (ch_accountID change) (newBalance change) (newVersion change));
      _ ← lift (fail_if (negb (affected =? 1)) [ErrCorruptData]);
      updateBalances rest
  end.

Definition postPrepared (prepared : preparedEntry) : Tx unit :=
  _ ← match reversesID prepared with
      | Some source => validatePersistedReversal prepared source
      | None => mret tt
      end;
  changes' ← lockAndCalculateBalances (changes prepared);
  _ ← insertEntry prepared;
  _ ← insertPostings prepared;
  updateBalances changes'.

(** A retry reuses the slice [prepared.changes]; [lockAndCalculateBalances]
    overwrites both fields of every slot before any is read again. *)
Definition postOnce (prepared : preparedEntry) : Service -> World -> Result unit * World :=
  run_tx true (r ← postPrepared prepared; _ ← commit; mret r).

(** The retry loop, on the attempts that are left and the last failure. *)
Fixpoint post_attempts (left : nat) (prepared : preparedEntry) (lastErr : error) (s : Service) (w : World)
    : Result unit * World :=
  match left with
  | O => (Err (ErrSerializationFailure :: lastErr), w)
  | S left' =>
      if cancelled s (tick w) then (Err [ContextCanceled], w)
      else
        let '(r, w') := postOnce prepared s w in
        match r with
        | Ok _ => (Ok tt, w')
        | Err e =>
            if isRetryableTransaction e then post_attempts left' prepared e s w'
            else (Err (classifyPostError e), w')
        end
  end.

Definition Post (entry : JournalEntry) (s : Service) (w : World) : Result unit * World :=
  match prepareEntry entry with
  | Err e => (Err e, w)
  | Ok prepared => post_attempts maxTransactionAttempts prepared [] s w
  end.

Definition PostTx (entry : JournalEntry) : Tx unit :=
  prepared ← lift (prepareEntry entry);
  map_err classifyPostError (postPrepared prepared).

Definition restoreEntry (record : storedEntry) (postings : list Posting) : Tx JournalEntry :=
  if bool_decide (se_entryType record = "standard") then
    lift (wrap_err [ErrCorruptData]
      (NewJournalEntry (mkEntryParams (se_id record) postings (se_recordedAt record))))
  else if negb (bool_decide (se_entryType record = "reversal")) then lift (Err [ErrCorruptData])
  else
    sourceID ← lift (wrap_err [ErrCorruptData] (parseUUID (se_reversesID record)));
    sourceRecord ← wrap_tx [ErrCorruptData] (selectEntry sourceID);
    sourcePostings ← wrap_tx [ErrCorruptData] (selectPostings sourceID);
    source ← lift (wrap_err [ErrCorruptData]
      (NewJournalEntry (mkEntryParams (se_id sourceRecord) sourcePostings (se_recordedAt sourceRecord))));
    reversal ← lift (wrap_err [ErrCorruptData] (Reverse source (se_id record) (se_recordedAt record)));
    lift (if negb (equalPostings (Journal.postings reversal) postings) then Err [ErrCorruptData] else Ok reversal).

Definition Get (entryID : string) (s : Service) (w : World) : Result JournalEntry * World :=
  match parseUUID entryID with
  | Err e => (Err (ErrInvalidArgument :: e), w)
  | Ok parsedID =>
      run_tx true
        (result ←
           (record ← selectEntry parsedID;
            postings ← selectPostings parsedID;
            restoreEntry record postings);
         _ ← commit;
         mret result) s w
  end.

Record BalanceDiscrepancy := mkDiscrepancy {
  AccountID : string;
  bd_Currency : string;
  LedgerMinor : string;
  SnapshotMinor : string
}.

(** [SUM(amount_minor) ... GROUP BY account_id, currency] of one group. *)
Definition ledger_sum (account : UUID) (currency : string) (postings : list PostingRow) : Z :=
  foldr (fun p acc => (if bool_decide (po_account p = account) && bool_decide (po_currency p = currency)
                       then po_amount p else 0) + acc) 0 postings.

(** [selectBalanceDiscrepanciesQuery]: the sums are compared as decimal text. *)
Definition selectBalanceDiscrepanciesQuery (d : DB) : list BalanceDiscrepancy :=
  (fun '(a, b) => mkDiscrepancy (uuid_text a) (bal_currency b)
                    (pretty (ledger_sum a (bal_currency b) (t_postings d))) (pretty (balance_minor b))) <$>
    merge_sort uuid_row_le
      (filter (fun '(a, b) => pretty (ledger_sum a (bal_currency b) (t_postings d)) <> pretty (balance_minor b))
         (map_to_list (t_balances d))).

Definition Reconcile : Service -> World -> Result (list BalanceDiscrepancy) * World :=
  run_tx true
    (result ← query (fun d => Ok (selectBalanceDiscrepanciesQuery d)); _ ← commit; mret result).

End Repository.
