(* ===== verification/LedgerSpec.v ===== *)
(** * Correctness of posting

    What a prepared entry does to the tables ([posted]), when it may be posted
    ([postable]), and that [prepareEntry], [lockAndCalculateBalances] and
    [postPrepared] implement exactly that. *)

From stdpp Require Import base list gmap strings numbers sorting pretty.
From Stdlib Require Import ZArith Lia.
From S2P Require Import Prelude GoText Money Journal Database LedgerRepo.

Open Scope string_scope.
Open Scope Z_scope.

Section Spec.
Context `{Pg}.

(** The net amount a list of postings moves on one account. *)
Definition account_sum (a : UUID) (ps : list preparedPosting) : Z :=
  foldr (fun p acc => (if decide (pp_accountID p = a) then pp_amount p else 0) + acc) 0 ps.

Definition accounts_of (ps : list preparedPosting) : list UUID := pp_accountID <$> ps.

(** The balance row of an account after the postings. *)
Definition settled (now : Time) (ps : list preparedPosting) (a : UUID) (b : BalanceRow) : BalanceRow :=
  if decide (a ∈ accounts_of ps)
  then mkBalanceRow (bal_currency b) (bal_type b) (balance_minor b + account_sum a ps) (bal_version b + 1) now
  else b.

Fixpoint posting_rows (entry : UUID) (index : Z) (ps : list preparedPosting) : list PostingRow :=
  match ps with
  | [] => []
  | p :: rest => mkPostingRow entry index (pp_accountID p) (currency_String (pp_currency p)) (pp_amount p)
                   :: posting_rows entry (index + 1) rest
  end.

Definition entry_row (prepared : preparedEntry) : EntryRow :=
  mkEntryRow (match reversesID prepared with Some _ => "reversal" | None => "standard" end) (reversesID prepared)
    (stored_time (recordedAt (pe_entry prepared))).

(** The tables after posting. *)
Definition posted (now : Time) (prepared : preparedEntry) (d : DB) : DB :=
  set_balances (map_imap (fun a b => Some (settled now (pe_postings prepared) a b)))
    (set_postings (fun l => l ++ posting_rows (pe_id prepared) 0 (pe_postings prepared))%list
      (set_entries (insert (pe_id prepared) (entry_row prepared)) d)).

(** An account that can take its share of the postings. *)
Definition account_accepts (d : DB) (ps : list preparedPosting) (p : preparedPosting) : Prop :=
  exists b, t_balances d !! pp_accountID p = Some b /\
    bal_currency b = currency_String (pp_currency p) /\
    in_int64 (balance_minor b + account_sum (pp_accountID p) ps) /\
    (bal_type b = "customer" /\ 0 <= balance_minor b + account_sum (pp_accountID p) ps \/ bal_type b = "system") /\
    bal_version b <> MaxInt64.

(** The stored postings a reversal must invert. *)
Definition inverted (p : preparedPosting) (row : PostingRow) : Prop :=
  po_account row = pp_accountID p /\ po_currency row = currency_String (pp_currency p) /\
  po_amount row = - pp_amount p.

Definition source_accepts (d : DB) (ps : list preparedPosting) (source : UUID) : Prop :=
  is_Some (t_entries d !! source) /\
  (forall id e, t_entries d !! id = Some e -> ent_reverses e <> Some source) /\
  Forall2 inverted ps (selectPostingsQuery source d).

Record postable (d : DB) (prepared : preparedEntry) : Prop := {
  fresh_id : t_entries d !! pe_id prepared = None;
  accounts_accept : Forall (account_accepts d (pe_postings prepared)) (pe_postings prepared);
  reversal_accepts : match reversesID prepared with
                     | Some source => source_accepts d (pe_postings prepared) source
                     | None => True
                     end
}.

(** What [prepareEntry] guarantees of the postings and the changes it aggregates. *)
Record aggregates (ps : list preparedPosting) (cs : list accountChange) : Prop := {
  ag_nodup : NoDup (ch_accountID <$> cs);
  ag_accounts a : a ∈ ch_accountID <$> cs <-> a ∈ accounts_of ps;
  ag_delta c : c ∈ cs -> delta c = account_sum (ch_accountID c) ps /\ in_int64 (delta c);
  ag_currency c p : c ∈ cs -> p ∈ ps -> pp_accountID p = ch_accountID c -> pp_currency p = ch_currency c;
  ag_sorted : StronglySorted string_le (uuid_text <$> (ch_accountID <$> cs))
}.

Definition prepares (p : Posting) (pp : preparedPosting) : Prop :=
  parseUUID (accountID p) = Ok (pp_accountID pp) /\
  currency (amount p) = pp_currency pp /\ minorUnits (amount p) = pp_amount pp.

Context `{!PgLaws}.

#[export] Instance uuid_text_inj : Inj (=) (=) uuid_text.
Proof. intros x y E. apply (f_equal uuid_scan) in E. rewrite !uuid_scan_text in E. congruence. Qed.

Lemma parseUUID_text u : parseUUID (uuid_text u) = Ok u.
Proof. unfold parseUUID. by rewrite uuid_scan_text. Qed.

(** ** Preparation *)

(** Every accumulator is filed under its own account. *)
Definition keyed (m : gmap string accountAccumulator) : Prop :=
  map_Forall (fun k v => k = uuid_text (ac_accountID v)) m.

(** The accumulator of an account after some more postings. *)
Record accumulated (m : gmap string accountAccumulator) (ps : list preparedPosting)
    (m' : gmap string accountAccumulator) : Prop := {
  am_keyed : keyed m';
  am_dom a : is_Some (m' !! uuid_text a) <-> is_Some (m !! uuid_text a) \/ a ∈ accounts_of ps;
  am_total a v : m' !! uuid_text a = Some v ->
    total v = default 0 (total <$> m !! uuid_text a) + account_sum a ps;
  am_currency a v : m' !! uuid_text a = Some v ->
    (forall v0, m !! uuid_text a = Some v0 -> ac_currency v0 = ac_currency v) /\
    (forall p, p ∈ ps -> pp_accountID p = a -> pp_currency p = ac_currency v)
}.

Lemma accumulated_nil m : keyed m -> accumulated m [] m.
Proof.
  intros Hk. split; [done|..].
  - intros a. cbn. set_solver.
  - intros a v Hv. rewrite Hv. cbn. lia.
  - intros a v Hv. split; [congruence|]. intros p Hp. set_solver.
Qed.

Lemma accumulated_cons m p ps v m' :
  default (mkAccumulator (pp_accountID p) (pp_currency p) 0) (m !! uuid_text (pp_accountID p)) = v ->
  ac_currency v = pp_currency p -> keyed m ->
  accumulated (<[uuid_text (pp_accountID p) :=
      mkAccumulator (ac_accountID v) (ac_currency v) (total v + pp_amount p)]> m) ps m' ->
  accumulated m (p :: ps) m'.
Proof.
  intros Hv Hc Hk [K D T C]. split; [done|..].
  - intros a. rewrite D. unfold accounts_of. cbn. rewrite elem_of_cons.
    destruct (decide (a = pp_accountID p)) as [->|Hne].
    + rewrite lookup_insert_eq. naive_solver.
    + rewrite lookup_insert_ne by (intros E%uuid_text_inj; done). naive_solver.
  - intros a w Hw. rewrite (T a w Hw). cbn [account_sum foldr].
    destruct (decide (pp_accountID p = a)) as [<-|Hne].
    + rewrite lookup_insert_eq. cbn. subst v. destruct (m !! _) as [v0|]; cbn; unfold account_sum; lia.
    + rewrite lookup_insert_ne by (intros E%uuid_text_inj; done). unfold account_sum. lia.
  - intros a w Hw. destruct (C a w Hw) as [C1 C2].
    destruct (decide (pp_accountID p = a)) as [<-|Hne].
    + rewrite lookup_insert_eq in C1. specialize (C1 _ eq_refl). cbn in C1.
      split.
      * intros v0 Hv0. rewrite Hv0 in Hv. cbn in Hv. congruence.
      * intros q [->|Hq]%elem_of_cons E; [congruence|eauto].
    + rewrite lookup_insert_ne in C1 by (intros E%uuid_text_inj; done).
      split; [done|]. intros q [->|Hq]%elem_of_cons E; [done|eauto].
Qed.

Lemma accumulate_Ok ps m prep m' :
  keyed m -> accumulate ps m = Ok (prep, m') -> Forall2 prepares ps prep /\ accumulated m prep m'.
Proof.
  revert m prep m'. induction ps as [|p ps IH]; intros m prep m' Hk; cbn.
  - intros [= <- <-]. split; [done|by apply accumulated_nil].
  - destruct (parseUUID (accountID p)) as [a|e] eqn:Ea; [|done].
    set (v := default _ _). case_bool_decide as Hc; [|done]. cbn.
    destruct (accumulate ps _) as [[prep0 m0]|e] eqn:E; [|done]. intros [= <- <-].
    apply IH in E as [HF HA].
    + split; [constructor; [done|exact HF]|]. eapply accumulated_cons; [reflexivity|exact Hc|done|exact HA].
    + apply map_Forall_insert_2; [|done]. cbn. subst v. destruct (m !! _) as [v0|] eqn:E0; [|done].
      cbn. by apply Hk in E0.
Qed.

Lemma collect_changes_Ok m keys cs :
  collect_changes m keys = Ok cs ->
  Forall2 (fun k c => exists v, m !! k = Some v /\ in_int64 (total v) /\
             c = mkChange (ac_accountID v) (ac_currency v) (total v) 0 0) keys cs.
Proof.
  revert cs. induction keys as [|k keys IH]; intros cs; cbn; [by intros [= <-]|].
  destruct (m !! k) as [v|] eqn:Ek; [|done]. case_bool_decide; [|done]. cbn.
  destruct (collect_changes m keys); [|done]. intros [= <-]. constructor; eauto.
Qed.

Lemma preparePostings_Ok ps prep cs :
  preparePostings ps = Ok (prep, cs) -> Forall2 prepares ps prep /\ aggregates prep cs.
Proof.
  unfold preparePostings. destruct (accumulate ps ∅) as [[prep0 m]|] eqn:E; [|done].
  apply accumulate_Ok in E as [HF [K D T C]]; [|apply map_Forall_empty].
  set (keys := sort_strings _). destruct (collect_changes m keys) as [cs0|] eqn:Ec; [|done].
  intros [= <- <-]. split; [done|]. apply collect_changes_Ok in Ec.
  assert (Hkeys : keys = uuid_text <$> (ch_accountID <$> cs0)).
  { clear -Ec K. induction Ec as [|k c ks cs (v & Hv & _ & ->) _ IH]; cbn; [done|].
    apply K in Hv as ->. by rewrite IH at 1. }
  assert (Hperm : keys ≡ₚ (map_to_list m).*1) by apply merge_sort_Permutation.
  assert (Hc : forall c, c ∈ cs0 -> exists v, m !! uuid_text (ch_accountID c) = Some v /\ in_int64 (total v) /\
             c = mkChange (ac_accountID v) (ac_currency v) (total v) 0 0).
  { intros c Hc. apply list_elem_of_lookup in Hc as [i Hi].
    eapply Forall2_lookup_r in Ec as (k & Hk & v & Hv & ? & ->); [|done].
    exists v. cbn. rewrite <- (K _ _ Hv). done. }
  split.
  - apply (NoDup_fmap_1 uuid_text). rewrite <- Hkeys, Hperm. apply NoDup_fst_map_to_list.
  - intros a. rewrite <- (list_elem_of_fmap_inj uuid_text), <- Hkeys, Hperm.
    rewrite list_elem_of_fmap. specialize (D a). rewrite lookup_empty in D.
    split.
    + intros ([k v] & Hk & Hin%elem_of_map_to_list). cbn in Hk. subst k.
      destruct (proj1 D) as [[? ?]|?]; [eauto|done..].
    + intros Ha. assert (is_Some (m !! uuid_text a)) as [v Hv] by naive_solver.
      exists (uuid_text a, v). split; [done|]. by apply elem_of_map_to_list.
  - intros c Hin. destruct (Hc c Hin) as (v & Hv & Hi & E). pose proof (T _ _ Hv) as Ht.
    rewrite lookup_empty in Ht. cbn in Ht. assert (delta c = total v) as -> by (by rewrite E).
    split; [lia|done].
  - intros c p Hin Hp Ha. destruct (Hc c Hin) as (v & Hv & _ & E). destruct (C _ _ Hv) as [_ C2].
    rewrite (C2 p Hp Ha). by rewrite E.
  - rewrite <- Hkeys. apply (StronglySorted_merge_sort string_le).
Qed.

(** ** Locking and calculating balances *)

Lemma checkedAdd_spec l r :
  in_int64 l -> in_int64 r ->
  checkedAdd l r = if decide (in_int64 (l + r)) then Ok (l + r) else Err [ErrAmountOverflow].
Proof.
  intros Hl Hr. unfold checkedAdd. fold (additionOverflows l r).
  rewrite additionOverflows_spec by done. case_bool_decide; case_decide; cbn; try done.
  by rewrite i64_add_id.
Qed.

(** The guards of one locked row. *)
Definition row_accepts (c : accountChange) (b : BalanceRow) : Prop :=
  bal_currency b = currency_String (ch_currency c) /\ in_int64 (balance_minor b + delta c) /\
  (bal_type b = "customer" /\ 0 <= balance_minor b + delta c \/ bal_type b = "system") /\
  bal_version b <> MaxInt64.

Definition calculated (c : accountChange) (b : BalanceRow) : accountChange :=
  mkChange (ch_accountID c) (ch_currency c) (delta c) (balance_minor b + delta c) (bal_version b + 1).

Lemma calculate_row_Ok c b c' :
  in_int64 (balance_minor b) -> 0 <= bal_version b <= MaxInt64 -> in_int64 (delta c) ->
  calculate_row c b = Ok c' <-> row_accepts c b /\ c' = calculated c b.
Proof.
  intros Hb Hv Hd. unfold calculate_row, row_accepts, calculated. rewrite checkedAdd_spec by done.
  case_bool_decide as Hc; cbn; [|naive_solver]. destruct (decide _) as [Hi|Hi]; [|naive_solver].
  case_bool_decide as Ht; cbn.
  - destruct (Z.ltb_spec (balance_minor b + delta c) 0).
    { split; [done|]. intros [(_ & _ & [[_ ?]|?] & _) _]; [lia|congruence]. }
    destruct (Z.eqb_spec (bal_version b) MaxInt64); [naive_solver|].
    rewrite i64_add_id by int64_lia. naive_solver.
  - case_bool_decide as Hs; cbn; [|naive_solver].
    destruct (Z.eqb_spec (bal_version b) MaxInt64); [naive_solver|].
    rewrite i64_add_id by int64_lia. naive_solver.
Qed.

Lemma calculate_row_account c b c' : calculate_row c b = Ok c' -> ch_accountID c' = ch_accountID c.
Proof. unfold calculate_row. repeat case_match; naive_solver. Qed.

Lemma index_changes_lookup k cs m a i :
  NoDup (ch_accountID <$> cs) ->
  index_changes k cs m !! uuid_text a = Some i <->
  (exists j, i = (k + j)%nat /\ (ch_accountID <$> cs) !! j = Some a) \/
  ((a ∉ (ch_accountID <$> cs)) /\ m !! uuid_text a = Some i).
Proof.
  revert k m. induction cs as [|c cs IH]; intros k m; cbn [index_changes fmap list_fmap].
  - intros _. split; [intros ?; right; split; [set_solver|done]|]. intros [(j & _ & Hj)|[_ ?]]; done.
  - intros [Hn Hd]%NoDup_cons. rewrite IH by done. rewrite not_elem_of_cons.
    destruct (decide (a = ch_accountID c)) as [->|Hne].
    + rewrite lookup_insert_eq. split.
      * intros [(j & _ & Hj)|[_ [= <-]]]; [by apply list_elem_of_lookup_2 in Hj|].
        left. exists 0%nat. split; [lia|done].
      * intros [([|j] & -> & Hj)|[[? _] _]]; [|by apply (list_elem_of_lookup_2 _ j) in Hj|done].
        right. split; [done|]. f_equal. lia.
    + rewrite lookup_insert_ne by (intros E%uuid_text_inj; done). split.
      * intros [(j & -> & Hj)|[? ?]]; [left|right; done]. exists (S j). split; [lia|done].
      * intros [([|j] & -> & Hj)|[[? ?] ?]]; [cbn in Hj; congruence| |right; done].
        left. exists j. split; [lia|done].
Qed.

(** A pointer of [changesByID] points to the change of its account. *)
Definition indexes (m : gmap string nat) (cs : list accountChange) : Prop :=
  forall a i, m !! uuid_text a = Some i <-> (ch_accountID <$> cs) !! i = Some a.

Lemma index_changes_indexes cs : NoDup (ch_accountID <$> cs) -> indexes (index_changes 0 cs ∅) cs.
Proof.
  intros Hd a i. rewrite index_changes_lookup by done. rewrite lookup_empty. naive_solver.
Qed.

Lemma indexes_insert m cs i c c' :
  indexes m cs -> cs !! i = Some c -> ch_accountID c' = ch_accountID c -> indexes m (<[i := c']> cs).
Proof.
  intros Hm Hi Hc a j. rewrite (Hm a j), list_fmap_insert, Hc, list_insert_id; [done|].
  by rewrite list_lookup_fmap, Hi.
Qed.

Definition row_texts (l : list (UUID * BalanceRow)) : list (string * BalanceRow) :=
  (fun '(a, row) => (uuid_text a, row)) <$> l.

(** What the loop over the locked rows leaves in the slots. *)
Lemma calculate_rows_Ok m l cs n cs' n' :
  indexes m cs -> NoDup l.*1 -> calculate_rows m (row_texts l) cs n = Ok (cs', n') ->
  n' = (n + length l)%nat /\ length cs' = length cs /\
  forall i c, cs !! i = Some c ->
    (forall b, (ch_accountID c, b) ∈ l -> exists c', calculate_row c b = Ok c' /\ cs' !! i = Some c') /\
    (ch_accountID c ∉ l.*1 -> cs' !! i = Some c).
Proof.
  revert cs n. induction l as [|[a b] l IH]; intros cs n Hm Hd; cbn [row_texts fmap list_fmap calculate_rows].
  - intros [= <- <-]. split_and!; [cbn; lia|done|]. intros i c Hi. split; [set_solver|done].
  - cbn in Hd. apply NoDup_cons in Hd as [Hn Hd]. destruct (m !! uuid_text a) as [i|] eqn:Ea; [|done].
    destruct (cs !! i) as [c|] eqn:Ei; [|done].
    assert (Hca : ch_accountID c = a).
    { apply Hm in Ea. rewrite list_lookup_fmap, Ei in Ea. by injection Ea. }
    destruct (calculate_row c b) as [c1|] eqn:E1; [|done]. intros HR.
    apply IH in HR as (-> & Hlen & HR); [|eapply indexes_insert; [done|done|by eapply calculate_row_account]|done].
    rewrite length_insert in Hlen. split_and!; [cbn; lia|done|]. intros j c' Hj.
    destruct (decide (j = i)) as [->|Hne].
    + assert (c' = c) as -> by congruence. assert (i < length cs)%nat by by eapply lookup_lt_Some.
      destruct (HR i c1) as [_ HR2]; [by rewrite list_lookup_insert_eq|].
      rewrite (calculate_row_account _ _ _ E1), Hca in HR2. split.
      * intros b' [[= _ ->]|Hin]%elem_of_cons; [eauto|].
        exfalso. apply Hn. rewrite <- Hca. by apply (list_elem_of_fmap_2 fst) in Hin.
      * rewrite Hca. cbn. set_solver.
    + destruct (HR j c') as [HR1 HR2]; [by rewrite list_lookup_insert_ne|].
      assert (ch_accountID c' <> a).
      { intros E. apply Hne. assert (Hj' : m !! uuid_text a = Some j) by (apply Hm; rewrite list_lookup_fmap, Hj; cbn; congruence).
        congruence. }
      split.
      * intros b' [[= ? ->]|Hin]%elem_of_cons; [done|eauto].
      * cbn. intros Hnot. apply HR2. set_solver.
Qed.

Lemma calculate_rows_total m l cs n :
  indexes m cs -> NoDup l.*1 ->
  (forall a b, (a, b) ∈ l -> exists i c c', cs !! i = Some c /\ ch_accountID c = a /\ calculate_row c b = Ok c') ->
  exists cs', calculate_rows m (row_texts l) cs n = Ok (cs', (n + length l)%nat).
Proof.
  revert cs n. induction l as [|[a b] l IH]; intros cs n Hm Hd Hall; cbn [row_texts fmap list_fmap calculate_rows].
  - exists cs. by rewrite Nat.add_0_r.
  - cbn in Hd. apply NoDup_cons in Hd as [Hn Hd].
    destruct (Hall a b) as (i & c & c1 & Hi & Hca & E1); [by left|].
    assert (m !! uuid_text a = Some i) as -> by (apply Hm; rewrite list_lookup_fmap, Hi; cbn; congruence).
    rewrite Hi, E1. destruct (IH (<[i := c1]> cs) (S n)) as [cs' HR].
    + eapply indexes_insert; [done|done|by eapply calculate_row_account].
    + done.
    + intros a' b' Hin. destruct (Hall a' b') as (j & c' & c2 & Hj & Hca' & E2); [by right|].
      exists j, c', c2. split_and!; [|done|done]. rewrite list_lookup_insert_ne; [done|].
      intros <-. apply Hn. assert (c' = c) as -> by congruence. rewrite <- Hca, Hca'.
      by apply (list_elem_of_fmap_2 fst) in Hin.
    + exists cs'. unfold row_texts in HR. rewrite HR. cbn. do 2 f_equal. lia.
Qed.

(** The ranges of the columns of [account_balances]. *)
Definition balances_typed (d : DB) : Prop :=
  map_Forall (fun _ b => in_int64 (balance_minor b) /\ 0 <= bal_version b <= MaxInt64) (t_balances d).

(** The rows that [lockBalancesQuery] returns, before their keys are printed. *)
Definition locked_rows (ids : list UUID) (d : DB) : list (UUID * BalanceRow) :=
  merge_sort uuid_row_le (filter (fun '(a, _) => a ∈ ids) (map_to_list (t_balances d))).

Lemma elem_of_locked_rows ids d a b :
  (a, b) ∈ locked_rows ids d <-> a ∈ ids /\ t_balances d !! a = Some b.
Proof.
  unfold locked_rows. rewrite merge_sort_Permutation, list_elem_of_filter, elem_of_map_to_list. done.
Qed.

Lemma NoDup_locked_rows ids d : NoDup (locked_rows ids d).*1.
Proof.
  apply NoDup_fmap_fst.
  - intros a b1 b2 [_ H1]%elem_of_locked_rows [_ H2]%elem_of_locked_rows. congruence.
  - unfold locked_rows. rewrite merge_sort_Permutation. apply NoDup_filter, NoDup_map_to_list.
Qed.

(** A change together with its calculated counterpart. *)
Definition settles (d : DB) (c c' : accountChange) : Prop :=
  exists b, t_balances d !! ch_accountID c = Some b /\ row_accepts c b /\ c' = calculated c b.

Lemma lock_Ok cs s st cs' st' :
  NoDup (ch_accountID <$> cs) -> Forall (fun c => in_int64 (delta c)) cs -> balances_typed (tx_db st) ->
  lockAndCalculateBalances cs s st = (Ok cs', st') ->
  st' = advance st (tx_db st) /\ Forall2 (settles (tx_db st)) cs cs'.
Proof.
  intros Hd Hi Ht HR. unfold lockAndCalculateBalances in HR. tx_inv.
  match goal with H : Ok _ = Ok ?rows |- _ => injection H as <- end.
  match goal with H : calculate_rows _ _ _ _ = Ok ?x |- _ => destruct x as [cs1 locked]; rename H into HC end.
  apply lift_Ok in HR as [HR ->]. split; [done|].
  destruct (Nat.eqb_spec locked (length cs)) as [->|]; [|done]. injection HR as ->.
  set (l := locked_rows (ch_accountID <$> cs) (tx_db st)).
  change (lockBalancesQuery _ _) with (row_texts l) in HC.
  apply calculate_rows_Ok in HC as (Hn & Hlen & HC); [|by apply index_changes_indexes|apply NoDup_locked_rows].
  assert (Hcover : forall a, a ∈ ch_accountID <$> cs -> a ∈ l.*1).
  { assert (Hp : l.*1 ≡ₚ ch_accountID <$> cs) by
      (apply submseteq_length_Permutation;
       [apply NoDup_submseteq; [apply NoDup_locked_rows|]|rewrite !length_fmap; lia];
       intros a ([a' b] & -> & [? _]%elem_of_locked_rows)%list_elem_of_fmap; done).
    intros a. by rewrite Hp. }
  apply Forall2_same_length_lookup_2; [done|]. intros i c c' Hc Hc'.
  destruct (HC i c Hc) as [HC1 _].
  assert (Hin : c ∈ cs) by by eapply list_elem_of_lookup_2.
  pose proof (Hcover _ (list_elem_of_fmap_2 ch_accountID _ _ Hin)) as Hl.
  apply list_elem_of_fmap_1 in Hl as ([a b] & Ha & Hb).
  cbn in Ha. subst a. destruct (HC1 b Hb) as (c1 & Hrow & Hc1). assert (c1 = c') as -> by congruence.
  apply elem_of_locked_rows in Hb as [_ Hb]. destruct (Ht _ _ Hb) as [? ?].
  apply calculate_row_Ok in Hrow as [? ->]; [by exists b|done..|].
  by rewrite Forall_forall in Hi; apply Hi.
Qed.

Lemma lock_total cs s st cs' :
  healthy s -> tx_open st -> NoDup (ch_accountID <$> cs) ->
  Forall (fun c => in_int64 (delta c)) cs -> balances_typed (tx_db st) ->
  Forall2 (settles (tx_db st)) cs cs' ->
  lockAndCalculateBalances cs s st = (Ok cs', advance st (tx_db st)).
Proof.
  intros Hs Ho Hd Hi Ht HF.
  assert (exists r, lockAndCalculateBalances cs s st = (Ok r, advance st (tx_db st))) as [r Hr].
  { unfold lockAndCalculateBalances. erewrite bind_run by (apply query_healthy; done).
    set (l := locked_rows (ch_accountID <$> cs) (tx_db st)).
    change (lockBalancesQuery _ _) with (row_texts l).
    destruct (calculate_rows_total (index_changes 0 cs ∅) l cs 0) as [r Hr].
    - by apply index_changes_indexes.
    - apply NoDup_locked_rows.
    - intros a b [(c & -> & Hc)%list_elem_of_fmap Hb]%elem_of_locked_rows.
      apply list_elem_of_lookup in Hc as [i Hc]. eapply Forall2_lookup_l in HF as (c' & _ & b' & Hb' & ? & ->); [|done].
      assert (b' = b) as -> by congruence. destruct (Ht _ _ Hb) as [? ?].
      exists i, c, (calculated c b). split_and!; [done..|]. apply calculate_row_Ok; try done.
      rewrite Forall_lookup in Hi. eauto.
    - erewrite bind_run by (by apply lift_Ok; split; [apply Hr|]). cbn.
      assert (length l = length cs) as ->.
      { rewrite <- (length_fmap ch_accountID cs), <- (length_fmap fst l).
        apply Permutation_length, NoDup_Permutation; [apply NoDup_locked_rows|done|]. intros a. split.
        - intros ([a' b] & -> & [? _]%elem_of_locked_rows)%list_elem_of_fmap. done.
        - intros (c & -> & Hc)%list_elem_of_fmap. apply list_elem_of_lookup in Hc as [i Hc].
          eapply Forall2_lookup_l in HF as (c' & _ & b' & Hb' & _); [|done].
          apply (list_elem_of_fmap_2' fst _ (ch_accountID c, b')); [|done]. apply elem_of_locked_rows.
          split; [|done]. apply list_elem_of_fmap_2. by eapply list_elem_of_lookup_2. }
      rewrite Nat.eqb_refl. cbn. eauto. }
  rewrite Hr. do 2 f_equal. apply lock_Ok in Hr as [_ HF']; [|done..].
  clear -HF HF'. revert r HF'. induction HF as [|c c' cs cs' (b & Hb & _ & ->) _ IH]; intros r HF'.
  - by apply Forall2_nil_inv_l in HF' as ->.
  - apply Forall2_cons_inv_l in HF' as (x & xs & (b' & Hb' & _ & ->) & ? & ->). f_equal; [congruence|eauto].
Qed.

(** ** Prepared entries *)

Definition pp_wf (p : preparedPosting) : Prop :=
  currency_valid (pp_currency p) = true /\ in_int64 (pp_amount p) /\ pp_amount p <> 0 /\ pp_amount p <> MinInt64.

(** The sum of the prepared postings in one currency. *)
Definition prepared_total (c : Currency) (ps : list preparedPosting) : Z :=
  foldr (fun p acc => (if decide (pp_currency p = c) then pp_amount p else 0) + acc) 0 ps.

Record prepared_wf (prepared : preparedEntry) : Prop := {
  pw_aggregates : aggregates (pe_postings prepared) (changes prepared);
  pw_postings : Forall pp_wf (pe_postings prepared);
  pw_count : 2 <= Z.of_nat (length (pe_postings prepared)) <= 1024;
  pw_balanced c : prepared_total c (pe_postings prepared) = 0;
  pw_shape : match reversesID prepared with
             | Some source => entryType (pe_entry prepared) = JournalEntryTypeReversal /\ source <> pe_id prepared
             | None => entryType (pe_entry prepared) = JournalEntryTypeStandard
             end
}.

(** The amounts of an entry are [int64] values. *)
Definition entry_typed (e : JournalEntry) : Prop :=
  Forall (fun p => in_int64 (minorUnits (amount p))) (postings e).

Lemma prepares_total c ps prep : Forall2 prepares ps prep -> prepared_total c prep = currency_total c ps.
Proof.
  induction 1 as [|p pp ps prep (_ & Hc & Ha) _ IH]; [done|]. cbn. unfold prepared_total in IH.
  rewrite IH, Hc, Ha. done.
Qed.

Lemma NewJournalEntry_inv params e :
  NewJournalEntry params = Ok e ->
  Forall (fun p => posting_validate p = Ok tt) (param_Postings params) /\
  2 <= Z.of_nat (length (param_Postings params)) <= 1024 /\ balanced (param_Postings params) /\
  TrimSpace (param_ID params) <> "" /\ IsZero (param_RecordedAt params) = false.
Proof.
  unfold NewJournalEntry, newJournalEntry. destruct (entry_validate _) as [[]|] eqn:E; [|done]. intros _.
  apply entry_validate_Ok in E as (? & ? & _ & Hc & Hv & Hb). by rewrite validate_postings_Ok in Hv.
Qed.

Lemma prepareEntry_Ok entry prepared :
  entry_typed entry -> prepareEntry entry = Ok prepared ->
  prepared_wf prepared /\ pe_entry prepared = entry /\
  parseUUID (entry_id entry) = Ok (pe_id prepared) /\
  Forall2 prepares (postings entry) (pe_postings prepared).
Proof.
  intros Ht. unfold prepareEntry. destruct (parseUUID (entry_id entry)) as [id|] eqn:Eid; [|done].
  destruct (NewJournalEntry _) as [e0|] eqn:Ej; [|done].
  apply NewJournalEntry_inv in Ej as (Hv & Hn & Hb & _). cbn in Hv, Hn, Hb.
  destruct (match entryType entry with JournalEntryTypeUnknown => _ | _ => _ end) as [src|] eqn:Es; [|done].
  destruct (preparePostings _) as [[prep cs]|] eqn:Ep; [|done]. intros [= <-].
  apply preparePostings_Ok in Ep as [HF HA]. split; [|done].
  split; cbn; [done|..].
  - clear -HF Hv Ht. unfold entry_typed in Ht. induction HF as [|p pp ps prep (_ & Hc & Ha) _ IH]; [done|].
    apply Forall_cons in Hv as [(_ & ? & ? & ?)%posting_validate_Ok Hv], Ht as [? Ht].
    constructor; [|auto]. unfold pp_wf. rewrite <- Hc, <- Ha. done.
  - by rewrite <- (Forall2_length _ _ _ HF).
  - intros c. etrans; [by apply prepares_total|apply Hb].
  - destruct (entryType entry) eqn:Et; [done|by case_bool_decide; result_inv|].
    destruct (parseUUID (reversesEntryID entry)); [|done]. case_bool_decide; [done|]. by result_inv.
Qed.

(** ** Statements of a posting *)

Lemma restore_postings_Ok rows ps :
  restore_postings rows = Ok ps ->
  Forall2 (fun row p => accountID p = uuid_text (po_account row) /\
             ParseCurrency (po_currency row) = Ok (currency (amount p)) /\ minorUnits (amount p) = po_amount row)
    rows ps.
Proof.
  revert ps. induction rows as [|row rows IH]; intros ps; cbn; [by intros [= <-]|].
  destruct (ParseCurrency _) as [c|] eqn:Ec; [|done]. unfold NewMoney, NewPosting.
  destruct (negb _); [done|]. destruct (posting_validate _); [|done].
  destruct (restore_postings rows); [|done]. intros [= <-]. constructor; [|by apply IH]. cbn.
  rewrite (canonical_trim _ (uuid_text_canonical _)). done.
Qed.

(** Rows that hold well-formed postings are restored. *)
Definition row_restored (row : PostingRow) (p : Posting) : Prop :=
  accountID p = uuid_text (po_account row) /\ po_currency row = currency_String (currency (amount p)) /\
  minorUnits (amount p) = po_amount row /\ posting_wf p.

Lemma restore_postings_total rows ps :
  Forall2 row_restored rows ps -> restore_postings rows = Ok ps.
Proof.
  induction 1 as [|row [a [u c]] rows ps (Ha & Hc & Hu & Hw) _ IH]; cbn; [done|].
  cbn in *. destruct Hw as (? & ? & [? Hv] & ? & ?). cbn in *. subst u.
  rewrite Hc, ParseCurrency_String by done. unfold NewMoney. rewrite Hv. cbn. rewrite <- Ha.
  rewrite NewPosting_wf by done. by rewrite IH.
Qed.

Lemma uuid_text_posting u : uuid_text u <> "" /\ TrimSpace (uuid_text u) = uuid_text u.
Proof. split; [apply canonical_nonempty|apply canonical_trim]; apply uuid_text_canonical. Qed.

Lemma inverted_restored ps rows :
  Forall pp_wf ps -> Forall2 inverted ps rows ->
  exists qs, Forall2 row_restored rows qs /\ length qs = length ps /\ inverts qs ps = true.
Proof.
  intros Hw HF. induction HF as [|p row ps rows (Ha & Hc & Hu) _ IH]; [by exists []|].
  apply Forall_cons in Hw as [(Hv & Hi & Hz & Hm) Hw]. destruct (IH Hw) as (qs & HR & Hl & HI).
  exists (mkPosting (uuid_text (pp_accountID p)) (mkMoney (- pp_amount p) (pp_currency p)) :: qs).
  split_and!; [constructor; [|done]|cbn; congruence|].
  - unfold row_restored. cbn. rewrite Ha, Hc, Hu. split_and!; [done..|].
    destruct (uuid_text_posting (pp_accountID p)).
    split_and!; cbn; [done..|split; [cbn; int64_lia|done]|lia|int64_lia].
  - cbn. rewrite !bool_decide_eq_true_2 by done. rewrite i64_neg_id by done. by rewrite Z.eqb_refl, HI.
Qed.

Lemma inverts_inverted rows qs ps :
  Forall pp_wf ps ->
  Forall2 (fun row p => accountID p = uuid_text (po_account row) /\
             ParseCurrency (po_currency row) = Ok (currency (amount p)) /\ minorUnits (amount p) = po_amount row)
    rows qs ->
  length qs = length ps -> inverts qs ps = true -> Forall2 inverted ps rows.
Proof.
  intros Hw HF. revert ps Hw. induction HF as [|row q rows qs (Ha & Hc & Hu) _ IH]; intros [|p ps] Hw Hl HI; try done.
  apply Forall_cons in Hw as [(Hv & Hi & Hz & Hm) Hw]. cbn in HI. bool_simpl.
  constructor; [|apply IH; cbn in Hl; [done|lia|done]]. unfold inverted. split_and!.
  - apply uuid_text_inj. congruence.
  - apply ParseCurrency_valid in Hc as [_ <-]. congruence.
  - rewrite i64_neg_id in * by done. lia.
Qed.

Lemma existsb_reverses_false d source :
  existsb (fun '(_, e) => bool_decide (ent_reverses e = Some source)) (map_to_list (t_entries d)) = false <->
  forall id e, t_entries d !! id = Some e -> ent_reverses e <> Some source.
Proof.
  split.
  - intros HE id e He Hr. apply not_true_iff_false in HE. apply HE. apply existsb_exists.
    exists (id, e). split; [by apply list_elem_of_In, elem_of_map_to_list|by apply bool_decide_eq_true].
  - intros Hall. apply not_true_iff_false. intros ([id e] & Hin & Hr)%existsb_exists. bool_simpl.
    apply list_elem_of_In, elem_of_map_to_list in Hin. by eapply Hall.
Qed.

Lemma validate_reversal_Ok prepared source s st st' :
  Forall pp_wf (pe_postings prepared) ->
  validatePersistedReversal prepared source s st = (Ok tt, st') ->
  tx_open st' /\ tx_db st' = tx_db st /\ tx_now st' = tx_now st /\
  source_accepts (tx_db st) (pe_postings prepared) source.
Proof.
  intros Hw HR. unfold validatePersistedReversal, selectEntry, selectPostings in HR. tx_inv.
  repeat match goal with H : Ok _ = Ok _ |- _ => injection H as <- end.
  split_and!; [done..|]. cbn in *. fold (selectReversalExistsQuery source (tx_db st)) in *.
  destruct (selectReversalExistsQuery _ _) eqn:Er; [done|].
  match goal with H : restore_postings _ = Ok ?qs |- _ => rename qs into qs; apply restore_postings_Ok in H as HF end.
  result_inv. bool_simpl. apply Nat.eqb_eq in E.
  split; [|split].
  - unfold selectEntryQuery in *. destruct (t_entries (tx_db st) !! source); [eauto|done].
  - by apply existsb_reverses_false.
  - by eapply inverts_inverted.
Qed.

(** Foreign keys and uniqueness that the schema maintains for the ledger. *)
Record ledger_keys (d : DB) : Prop := {
  lk_account a b : t_balances d !! a = Some b ->
    exists acc, t_accounts d !! a = Some acc /\ acc_currency acc = bal_currency b;
  lk_entry p : p ∈ t_postings d -> is_Some (t_entries d !! po_entry p)
}.

Lemma insert_entry_query prepared now d :
  prepared_wf prepared ->
  let reverses := reversesID prepared in
  let kind := match reverses with Some _ => "reversal" | None => "standard" end in
  (forall r, insertJournalEntryQuery (pe_id prepared) kind reverses (recordedAt (pe_entry prepared)) now d = Ok r ->
     t_entries d !! pe_id prepared = None /\ r = (tt, set_entries (insert (pe_id prepared) (entry_row prepared)) d)) /\
  (postable d prepared ->
     insertJournalEntryQuery (pe_id prepared) kind reverses (recordedAt (pe_entry prepared)) now d =
     Ok (tt, set_entries (insert (pe_id prepared) (entry_row prepared)) d)).
Proof.
  intros Hw reverses kind. unfold insertJournalEntryQuery, kind, entry_row. fold reverses.
  pose proof (pw_shape _ Hw) as Hs. fold reverses in Hs. split.
  - intros r. destruct (negb _); [done|]. case_bool_decide; [|done]. cbn. repeat case_match; naive_solver.
  - intros [Hf _ Hr]. fold reverses in Hr. destruct reverses as [source|]; cbn.
    + destruct Hs as [_ Hs]. rewrite (bool_decide_eq_false_2 (source = _)) by done. cbn.
      rewrite (bool_decide_eq_true_2 (t_entries d !! pe_id prepared = None)) by done. cbn. destruct Hr as ([e He] & Hr & _).
      rewrite (proj2 (existsb_reverses_false d source) Hr). rewrite He. by rewrite bool_decide_eq_false_2.
    + by rewrite (bool_decide_eq_true_2 (t_entries d !! pe_id prepared = None)).
Qed.

Lemma insertEntry_eq prepared :
  prepared_wf prepared ->
  insertEntry prepared =
    exec (insertJournalEntryQuery (pe_id prepared)
      (match reversesID prepared with Some _ => "reversal" | None => "standard" end)
      (reversesID prepared) (recordedAt (pe_entry prepared))).
Proof.
  intros Hw. unfold insertEntry. pose proof (pw_shape _ Hw) as Hs.
  destruct (reversesID prepared); [destruct Hs as [-> _]|rewrite Hs]; done.
Qed.

Lemma set_postings_app l1 l2 d :
  set_postings (fun l => l ++ l2)%list (set_postings (fun l => l ++ l1)%list d) =
  set_postings (fun l => l ++ (l1 ++ l2))%list d.
Proof. unfold set_postings. cbn. by rewrite (assoc_L (++)%list). Qed.

Lemma set_postings_nil d : set_postings (fun l => l ++ [])%list d = d.
Proof. unfold set_postings. rewrite (right_id_L [] (++)%list). by destruct d. Qed.

Lemma insert_batch_Ok id index ps s st st' :
  tx_open st -> insert_batch id index ps s st = (Ok tt, st') ->
  tx_open st' /\ tx_now st' = tx_now st /\
  tx_db st' = set_postings (fun l => l ++ posting_rows id index ps)%list (tx_db st).
Proof.
  revert index st. induction ps as [|p ps IH]; intros index st Ho HR; cbn in *; tx_inv.
  - by rewrite set_postings_nil.
  - match goal with H : insertPostingQuery _ _ _ _ _ _ _ = Ok (?u, _) |- _ => unfold insertPostingQuery in H end.
    result_inv.
    apply IH in HR as (Ho' & Hn & ->); [|done]. cbn in Hn |- *. by rewrite set_postings_app.
Qed.

(** Postings of one entry are absent from the table from some position on. *)
Definition free_from (id : UUID) (index : Z) (d : DB) : Prop :=
  Forall (fun p => po_entry p = id -> po_position p < index) (t_postings d).

Definition posting_insertable (d : DB) (p : preparedPosting) : Prop :=
  pp_wf p /\ exists acc, t_accounts d !! pp_accountID p = Some acc /\ acc_currency acc = currency_String (pp_currency p).

Lemma insert_batch_total id index ps s st :
  healthy s -> tx_open st -> is_Some (t_entries (tx_db st) !! id) -> free_from id index (tx_db st) ->
  0 <= index -> index + Z.of_nat (length ps) <= 1024 -> Forall (posting_insertable (tx_db st)) ps ->
  exists st', insert_batch id index ps s st = (Ok tt, st').
Proof.
  intros Hs. revert index st. induction ps as [|p ps IH]; intros index st Ho He Hf H1 H2 Hp; [by eexists|].
  apply Forall_cons in Hp as [[(Hv & Hi & Hz & Hm) (acc & Hacc & Hcur)] Hp].
  cbn [insert_batch length] in *.
  set (d' := set_postings (fun l => l ++ [mkPostingRow id index (pp_accountID p)
                (currency_String (pp_currency p)) (pp_amount p)])%list (tx_db st)).
  assert (Hins : insertPostingQuery id index (pp_accountID p) (currency_String (pp_currency p)) (pp_amount p)
            (tx_now st) (tx_db st) = Ok (tt, d')).
  { unfold insertPostingQuery. rewrite (proj2 (Z.eqb_neq _ _) Hz), (proj2 (Z.eqb_neq _ _) Hm).
    unfold currency_check. rewrite ParseCurrency_String by done. cbn [is_ok negb].
    rewrite (proj2 (Z.leb_le 0 index)), (proj2 (Z.leb_le index 1023)) by lia. cbn [andb negb].
    assert (existsb (fun q => bool_decide (po_entry q = id) && (po_position q =? index)) (t_postings (tx_db st)) = false) as ->.
    { apply not_true_iff_false. intros (q & Hq & E)%existsb_exists. bool_simpl.
      apply list_elem_of_In in Hq. unfold free_from in Hf. rewrite Forall_forall in Hf.
      assert (po_position q < index) by (apply Hf; done). lia. }
    destruct He as [e He]. rewrite He, Hacc. rewrite bool_decide_eq_false_2 by done.
    by rewrite bool_decide_eq_true_2. }
  erewrite bind_run by (apply map_err_Ok, exec_healthy; [done|done|exact Hins]).
  apply IH; cbn; [done|done| |lia|lia|].
  - apply Forall_app. split.
    + eapply Forall_impl; [exact Hf|]. intros q Hq E. specialize (Hq E). lia.
    + constructor; [cbn; lia|done].
  - eapply Forall_impl; [exact Hp|]. done.
Qed.

(** ** Balance updates *)

Definition apply_change (now : Time) (c : accountChange) (b : BalanceRow) : BalanceRow :=
  mkBalanceRow (bal_currency b) (bal_type b) (newBalance c) (newVersion c) now.

Definition apply_changes (now : Time) (cs : list accountChange) (m : gmap UUID BalanceRow) : gmap UUID BalanceRow :=
  foldl (fun m c => alter (apply_change now c) (ch_accountID c) m) m cs.

Lemma apply_changes_lookup now cs m a :
  NoDup (ch_accountID <$> cs) ->
  (a ∉ (ch_accountID <$> cs) -> apply_changes now cs m !! a = m !! a) /\
  (forall c, c ∈ cs -> ch_accountID c = a -> apply_changes now cs m !! a = apply_change now c <$> m !! a).
Proof.
  revert m. induction cs as [|c cs IH]; intros m; cbn [fmap list_fmap apply_changes foldl].
  - intros _. split; [done|]. intros c Hc. set_solver.
  - intros [Hn Hd]%NoDup_cons.
    destruct (IH (alter (apply_change now c) (ch_accountID c) m) Hd) as [IH1 IH2]. split.
    + intros [Hne Ha]%not_elem_of_cons. unfold apply_changes in IH1. rewrite IH1 by done.
      by rewrite lookup_alter_ne.
    + intros c' [->|Hc]%elem_of_cons Ha.
      * subst a. unfold apply_changes in IH1. rewrite IH1 by done. by rewrite lookup_alter_eq.
      * unfold apply_changes in IH2. rewrite (IH2 c' Hc Ha). rewrite lookup_alter_ne; [done|].
        intros E. apply Hn. rewrite E, <- Ha. by apply list_elem_of_fmap_2.
Qed.

Lemma update_query_Ok c now d d' :
  updateBalanceQuery (ch_accountID c) (newBalance c) (newVersion c) now d = Ok (1, d') ->
  d' = set_balances (alter (apply_change now c) (ch_accountID c)) d.
Proof.
  unfold updateBalanceQuery. destruct (t_balances d !! _) as [b|] eqn:Eb; [|done].
  destruct (negb _); [done|]. destruct (_ <? 0); [done|]. intros [= <-].
  unfold set_balances. f_equal. apply map_eq. intros a.
  destruct (decide (a = ch_accountID c)) as [->|Hne].
  - by rewrite lookup_insert_eq, lookup_alter_eq, Eb.
  - by rewrite lookup_insert_ne, lookup_alter_ne.
Qed.

Lemma updateBalances_Ok cs s st st' :
  tx_open st -> updateBalances cs s st = (Ok tt, st') ->
  tx_open st' /\ tx_now st' = tx_now st /\
  tx_db st' = set_balances (apply_changes (tx_now st) cs) (tx_db st).
Proof.
  revert st. induction cs as [|c cs IH]; intros st Ho HR; cbn [updateBalances] in HR; tx_inv.
  - split_and!; [done..|]. by destruct (tx_db st').
  - result_inv. bool_simpl. subst.
    match goal with H : updateBalanceQuery _ _ _ _ _ = Ok _ |- _ => apply update_query_Ok in H as -> end.
    apply IH in HR as (Ho' & Hn & ->); [|done]. done.
Qed.

Lemma updateBalances_total cs s st :
  healthy s -> tx_open st ->
  Forall (fun c => exists b, t_balances (tx_db st) !! ch_accountID c = Some b /\
            (bal_type b = "system" \/ 0 <= newBalance c) /\ 0 <= newVersion c) cs ->
  exists st', updateBalances cs s st = (Ok tt, st').
Proof.
  intros Hs. revert st. induction cs as [|c cs IH]; intros st Ho Hall; [by eexists|].
  apply Forall_cons in Hall as [(b & Hb & Ht & Hv) Hall]. cbn [updateBalances].
  assert (Hu : updateBalanceQuery (ch_accountID c) (newBalance c) (newVersion c) (tx_now st) (tx_db st) =
    Ok (1, set_balances (insert (ch_accountID c) (apply_change (tx_now st) c b)) (tx_db st))).
  { unfold updateBalanceQuery. rewrite Hb. rewrite (proj2 (Z.ltb_ge _ _) Hv).
    assert (bool_decide (bal_type b = "system") || (0 <=? newBalance c) = true) as ->.
    { apply orb_true_iff. rewrite bool_decide_eq_true, Z.leb_le. done. }
    done. }
  erewrite bind_run by (apply exec_healthy; [done|done|exact Hu]).
  cbn. apply IH; [done|]. eapply Forall_impl; [exact Hall|]. cbn.
  intros c' (b' & Hb' & ? & ?). destruct (decide (ch_accountID c' = ch_accountID c)) as [E|Hne].
  - rewrite E, lookup_insert_eq. eexists. split; [done|]. cbn. rewrite E in Hb'. naive_solver.
  - rewrite lookup_insert_ne by done. eauto.
Qed.

End Spec.
