(* ===== verification/LedgerCorrect.v ===== *)
(** * The ledger as a whole

    Posting implements [posted] on exactly the [postable] entries; the ledger
    invariant (snapshots equal to the postings, customers not negative, every
    currency balanced) is preserved; retries and lost commits never apply an
    entry twice or in part. *)

From stdpp Require Import base list gmap strings numbers sorting pretty.
From Stdlib Require Import ZArith Lia.
From S2P Require Import Prelude GoText Money Journal Database LedgerRepo LedgerSpec.

Open Scope string_scope.
Open Scope Z_scope.

Section Correct.
Context `{PgLaws}.

(** ** Refinement of [posted] *)

Lemma settled_changes now ps cs cs' d :
  aggregates ps cs -> Forall2 (settles d) cs cs' ->
  apply_changes now cs' (t_balances d) = map_imap (fun a b => Some (settled now ps a b)) (t_balances d).
Proof.
  intros HA HF.
  assert (Hids : ch_accountID <$> cs' = ch_accountID <$> cs).
  { clear HA. induction HF as [|c c' cs cs' (b & _ & _ & ->) _ IH]; cbn; [done|]. by rewrite IH. }
  apply map_eq. intros a. rewrite map_lookup_imap.
  destruct (apply_changes_lookup now cs' (t_balances d) a) as [Hout Hin]; [rewrite Hids; apply HA|].
  unfold settled. destruct (decide (a ∈ accounts_of ps)) as [Ha|Ha]; rewrite <- (ag_accounts _ _ HA) in Ha.
  - apply list_elem_of_fmap in Ha as (c & -> & Hc). apply list_elem_of_lookup in Hc as [i Hi].
    eapply Forall2_lookup_l in HF as (c' & Hi' & b & Hb & _ & ->); [|done].
    rewrite (Hin (calculated c b)); [|by eapply list_elem_of_lookup_2|done]. rewrite Hb. cbn.
    destruct (ag_delta _ _ HA c) as [Hd _]; [by eapply list_elem_of_lookup_2|].
    unfold apply_change, calculated. cbn. by rewrite Hd.
  - rewrite Hout by by rewrite Hids. by destruct (t_balances d !! a).
Qed.

Lemma change_of_posting ps cs p :
  aggregates ps cs -> p ∈ ps -> exists c, c ∈ cs /\ ch_accountID c = pp_accountID p /\
    ch_currency c = pp_currency p /\ delta c = account_sum (pp_accountID p) ps.
Proof.
  intros HA Hp. assert (Ha : pp_accountID p ∈ ch_accountID <$> cs).
  { apply (ag_accounts _ _ HA). by apply list_elem_of_fmap_2. }
  apply list_elem_of_fmap in Ha as (c & Ha & Hc). exists c. split_and!; [done..| |].
  - symmetry. by eapply (ag_currency _ _ HA).
  - destruct (ag_delta _ _ HA c Hc) as [-> _]. by rewrite Ha.
Qed.

Lemma posting_of_change ps cs c :
  aggregates ps cs -> c ∈ cs -> exists p, p ∈ ps /\ pp_accountID p = ch_accountID c.
Proof.
  intros HA Hc. assert (Ha : ch_accountID c ∈ accounts_of ps).
  { apply (ag_accounts _ _ HA). by apply list_elem_of_fmap_2. }
  apply list_elem_of_fmap in Ha as (p & Ha & Hp). eauto.
Qed.

(** The accounts accept the postings exactly when every change settles. *)
Lemma accepts_settles ps cs d :
  aggregates ps cs ->
  Forall (account_accepts d ps) ps <-> exists cs', Forall2 (settles d) cs cs'.
Proof.
  intros HA. split.
  - intros Hall. rewrite Forall_forall in Hall.
    exists ((fun c => calculated c (default (mkBalanceRow "" "" 0 0 zeroTime) (t_balances d !! ch_accountID c))) <$> cs).
    apply Forall2_fmap_r, Forall_Forall2_diag, Forall_forall. intros c Hc.
    destruct (posting_of_change _ _ _ HA Hc) as (p & Hp & Ha).
    destruct (Hall p Hp) as (b & Hb & Hcur & Hi & Ht & Hv). rewrite Ha in *.
    exists b. rewrite Hb. cbn. split_and!; [done| |done]. destruct (ag_delta _ _ HA c Hc) as [Hd _].
    unfold row_accepts. rewrite Hd. split_and!; try done. by rewrite <- (ag_currency _ _ HA c p).
  - intros [cs' HF]. apply Forall_forall. intros p Hp.
    destruct (change_of_posting _ _ _ HA Hp) as (c & Hc & Ha & Hcur & Hd).
    apply list_elem_of_lookup in Hc as [i Hi].
    eapply Forall2_lookup_l in HF as (c' & _ & b & Hb & (H1 & H2 & H3 & H4) & _); [|done].
    exists b. rewrite Ha in Hb. rewrite Hcur in H1. rewrite Hd in H2, H3. done.
Qed.

Lemma aggregates_typed ps cs : aggregates ps cs -> Forall (fun c => in_int64 (delta c)) cs.
Proof. intros HA. apply Forall_forall. intros c Hc. by apply (ag_delta _ _ HA). Qed.

Lemma postPrepared_Ok prepared s st st' :
  prepared_wf prepared -> balances_typed (tx_db st) -> tx_open st ->
  postPrepared prepared s st = (Ok tt, st') ->
  postable (tx_db st) prepared /\ tx_open st' /\ tx_now st' = tx_now st /\
  tx_db st' = posted (tx_now st) prepared (tx_db st).
Proof.
  intros Hw Ht Ho HR. unfold postPrepared in HR. rewrite insertEntry_eq in HR by done.
  apply mbind_Ok in HR as (u & st1 & HV & HR).
  assert (Hst1 : tx_open st1 /\ tx_db st1 = tx_db st /\ tx_now st1 = tx_now st /\
            match reversesID prepared with
            | Some source => source_accepts (tx_db st) (pe_postings prepared) source | None => True end).
  { destruct u, (reversesID prepared); [|by injection HV as <-].
    eapply validate_reversal_Ok in HV; [exact HV|apply Hw]. }
  destruct Hst1 as (Ho1 & Hd1 & Hn1 & Hrev). clear HV. tx_inv.
  match goal with H : lockAndCalculateBalances _ _ _ = _ |- _ => apply lock_Ok in H as [-> HF] end;
    [|apply Hw|eapply aggregates_typed, Hw|by rewrite Hd1]. rewrite Hd1 in *. cbn in *.
  match goal with H : insertJournalEntryQuery _ _ _ _ _ _ = Ok _ |- _ =>
    apply insert_entry_query in H as [Hfresh [= -> ->]]; [|done] end.
  match goal with H : insertPostings _ _ _ = (Ok ?x, _) |- _ => destruct x; apply insert_batch_Ok in H as (Ho2 & Hn2 & Hd2) end; [|done].
  apply updateBalances_Ok in HR as (Ho3 & Hn3 & Hd3); [|done].
  split_and!; [split; [done| |done]|done|cbn in *; congruence|].
  - apply (accepts_settles _ (changes prepared)); [apply Hw|eauto].
  - rewrite Hd3, Hd2, Hn2. cbn. rewrite Hn1. unfold posted, set_balances. cbn. f_equal.
    eapply settled_changes; [apply Hw|done].
Qed.

Lemma posted_typed now prepared d :
  balances_typed d -> postable d prepared -> balances_typed (posted now prepared d).
Proof.
  intros Ht [_ Ha _] a b. cbn. rewrite map_lookup_imap. destruct (t_balances d !! a) as [b0|] eqn:E; [|done].
  cbn. intros [= <-]. destruct (Ht _ _ E) as [? ?]. unfold settled. case_decide as Hin; [|done].
  apply list_elem_of_fmap in Hin as (p & -> & Hp). rewrite Forall_forall in Ha.
  destruct (Ha p Hp) as (b & Hb & _ & Hi & _ & Hv). assert (b = b0) as -> by congruence. cbn.
  split; [done|lia].
Qed.

Lemma validate_reversal_total prepared source s st :
  healthy s -> tx_open st -> Forall pp_wf (pe_postings prepared) ->
  source_accepts (tx_db st) (pe_postings prepared) source ->
  exists st', validatePersistedReversal prepared source s st = (Ok tt, st') /\
    tx_open st' /\ tx_db st' = tx_db st /\ tx_now st' = tx_now st.
Proof.
  intros Hs Ho Hw ([e He] & Hr & HF).
  destruct (inverted_restored _ _ Hw HF) as (qs & HR & Hl & HI).
  unfold validatePersistedReversal, selectEntry, selectPostings.
  erewrite bind_run.
  2:{ erewrite bind_run by (by apply query_healthy). unfold selectEntryQuery. rewrite He. reflexivity. }
  erewrite bind_run.
  2:{ erewrite bind_run by (by apply query_healthy). cbn [tx_db advance].
      rewrite (restore_postings_total _ _ HR). reflexivity. }
  erewrite bind_run by (by apply query_healthy). cbn [tx_db advance].
  unfold selectReversalExistsQuery. rewrite (proj2 (existsb_reverses_false _ _) Hr), Hl, Nat.eqb_refl, HI.
  eexists. split; [reflexivity|done].
Qed.

Lemma postPrepared_total prepared s st :
  healthy s -> tx_open st -> prepared_wf prepared -> balances_typed (tx_db st) -> ledger_keys (tx_db st) ->
  postable (tx_db st) prepared -> exists st', postPrepared prepared s st = (Ok tt, st').
Proof.
  intros Hs Ho Hw Ht Hk Hp. pose proof Hp as [Hf Ha Hr]. unfold postPrepared. rewrite insertEntry_eq by done.
  assert (exists st1, match reversesID prepared with Some source => validatePersistedReversal prepared source
            | None => mret tt end s st = (Ok tt, st1) /\ tx_open st1 /\ tx_db st1 = tx_db st /\ tx_now st1 = tx_now st)
    as (st1 & E1 & Ho1 & Hd1 & Hn1).
  { destruct (reversesID prepared); [apply validate_reversal_total; [done|done|apply Hw|done]|by eexists]. }
  erewrite bind_run by exact E1.
  apply (accepts_settles _ (changes prepared)) in Ha as [cs' HF]; [|apply Hw]. rewrite <- Hd1 in *.
  erewrite bind_run by (apply lock_total; [done|done|apply Hw|eapply aggregates_typed, Hw|done|exact HF]).
  erewrite bind_run by (apply exec_healthy; [done|done|by apply insert_entry_query]).
  set (d1 := set_entries _ _). destruct (insert_batch_total (pe_id prepared) 0 (pe_postings prepared) s
    (advance (advance st1 (tx_db st1)) d1)) as [st2 E2]; [done|done|..].
  - cbn. by rewrite lookup_insert_eq.
  - apply Forall_forall. intros p Hin Heq. cbn in Hin. apply (lk_entry _ Hk) in Hin as [? Hin].
    rewrite Heq in Hin. congruence.
  - lia.
  - pose proof (pw_count _ Hw). lia.
  - apply Forall_forall. intros p Hin. split; [by eapply Forall_forall in Hin; [|apply Hw]|].
    destruct Hp as [_ Ha _]. rewrite Forall_forall in Ha. destruct (Ha p Hin) as (b & Hb & Hc & _).
    destruct (lk_account _ Hk _ _ Hb) as (acc & Hacc & Hcur). exists acc. split; [done|congruence].
  - erewrite bind_run by exact E2. apply insert_batch_Ok in E2 as (Ho2 & _ & Hd2); [|done].
    apply updateBalances_total; [done|done|]. rewrite Hd2. apply Forall_forall. intros c' Hin.
    apply list_elem_of_lookup in Hin as [i Hi].
    eapply Forall2_lookup_r in HF as (c & _ & b & Hb & (_ & _ & Hty & _) & ->); [|done].
    exists b. cbn. destruct (Ht _ _ Hb). split_and!; [done|naive_solver|lia].
Qed.

(** ** The ledger invariant *)

(** The sum of all stored postings of one currency. *)
Definition posting_total (cur : string) (l : list PostingRow) : Z :=
  foldr (fun p acc => (if decide (po_currency p = cur) then po_amount p else 0) + acc) 0 l.

(** The sum of all balance snapshots of one currency. *)
Definition balance_total (cur : string) (d : DB) : Z :=
  foldr (fun '(_, b) acc => (if decide (bal_currency b = cur) then balance_minor b else 0) + acc) 0
    (map_to_list (t_balances d)).

(** A stored entry with its stored postings. *)
Definition entry_stored (d : DB) (id : UUID) (e : EntryRow) : Prop :=
  exists ps,
    filter (fun p => po_entry p = id) (t_postings d) = posting_rows id 0 ps /\
    Forall pp_wf ps /\ 2 <= Z.of_nat (length ps) <= 1024 /\ (forall c, prepared_total c ps = 0) /\
    match ent_reverses e with
    | None => ent_type e = "standard"
    | Some source => ent_type e = "reversal" /\ source <> id /\ is_Some (t_entries d !! source) /\
        Forall2 inverted ps (selectPostingsQuery source d)
    end.

Record ledger_inv (d : DB) : Prop := {
  li_typed : balances_typed d;
  li_keys : ledger_keys d;
  li_type a b : t_balances d !! a = Some b ->
    bal_type b = "customer" /\ 0 <= balance_minor b \/ bal_type b = "system";
  li_snapshot a b : t_balances d !! a = Some b ->
    balance_minor b = ledger_sum a (bal_currency b) (t_postings d);
  li_posting p : p ∈ t_postings d ->
    exists b, t_balances d !! po_account p = Some b /\ bal_currency b = po_currency p;
  li_total cur : posting_total cur (t_postings d) = 0;
  li_entry id e : t_entries d !! id = Some e -> entry_stored d id e;
  li_one_reversal id1 e1 id2 e2 source : t_entries d !! id1 = Some e1 -> t_entries d !! id2 = Some e2 ->
    ent_reverses e1 = Some source -> ent_reverses e2 = Some source -> id1 = id2
}.

Lemma ledger_sum_app a cur l1 l2 : ledger_sum a cur (l1 ++ l2)%list = ledger_sum a cur l1 + ledger_sum a cur l2.
Proof. induction l1 as [|p l1 IH]; cbn; [done|]. unfold ledger_sum in IH |- *. rewrite IH. lia. Qed.

Lemma posting_total_app cur l1 l2 : posting_total cur (l1 ++ l2)%list = posting_total cur l1 + posting_total cur l2.
Proof. induction l1 as [|p l1 IH]; cbn; [done|]. unfold posting_total in IH |- *. rewrite IH. lia. Qed.

(** The rows of an entry add the entry's net amount to each of its accounts. *)
Lemma ledger_sum_rows a cur id i ps :
  Forall (fun p => pp_accountID p = a -> currency_String (pp_currency p) = cur) ps ->
  ledger_sum a cur (posting_rows id i ps) = account_sum a ps.
Proof.
  intros HF. revert i. induction HF as [|p ps Hp _ IH]; intros i; cbn; [done|].
  unfold ledger_sum, account_sum in IH |- *. rewrite IH. f_equal.
  case_bool_decide as E; case_decide; try done. by rewrite bool_decide_eq_true_2 by auto.
Qed.

Lemma account_sum_0 a ps : a ∉ accounts_of ps -> account_sum a ps = 0.
Proof.
  unfold accounts_of. induction ps as [|p ps IH]; cbn; [done|]. intros [Hne Hn]%not_elem_of_cons.
  unfold account_sum in IH |- *. rewrite IH by done. by rewrite decide_False.
Qed.

Lemma posting_total_rows cur id i ps :
  Forall pp_wf ps -> (forall c, prepared_total c ps = 0) -> posting_total cur (posting_rows id i ps) = 0.
Proof.
  intros Hw Hb.
  assert (Hsum : forall c, currency_valid c = true -> currency_String c = cur ->
    posting_total cur (posting_rows id i ps) = prepared_total c ps).
  { intros c Hc <-. clear Hb. revert i. induction Hw as [|p ps (Hv & _) _ IH]; intros i; cbn; [done|].
    unfold posting_total, prepared_total in IH |- *. rewrite IH. f_equal.
    do 2 case_decide; try done; [|congruence]. exfalso. eauto using currency_String_inj. }
  destruct (ParseCurrency cur) as [c|] eqn:Ec.
  { apply ParseCurrency_valid in Ec as [? ?]. by rewrite (Hsum c). }
  clear Hsum Hb. revert i. induction Hw as [|p ps (Hv & _) _ IH]; intros i; cbn; [done|].
  unfold posting_total in IH |- *. rewrite IH. rewrite decide_False; [done|]. intros <-.
  by rewrite ParseCurrency_String in Ec.
Qed.

Lemma filter_rows_same id i ps : filter (fun p => po_entry p = id) (posting_rows id i ps) = posting_rows id i ps.
Proof. revert i. induction ps as [|p ps IH]; intros i; cbn; [done|]. rewrite decide_True by done. by rewrite IH. Qed.

Lemma filter_rows_other id id' i ps : id <> id' -> filter (fun p => po_entry p = id) (posting_rows id' i ps) = [].
Proof. intros Hne. revert i. induction ps as [|p ps IH]; intros i; cbn; [done|]. rewrite decide_False by done. by rewrite IH. Qed.

Lemma filter_fresh id (d : DB) :
  ledger_keys d -> t_entries d !! id = None -> filter (fun p => po_entry p = id) (t_postings d) = [].
Proof.
  intros Hk Hf. apply elem_of_nil_inv. intros p [E Hp]%list_elem_of_filter.
  destruct (lk_entry _ Hk p Hp) as [? Hs]. congruence.
Qed.

Lemma elem_of_rows p id i ps :
  p ∈ posting_rows id i ps -> exists pp, pp ∈ ps /\ po_entry p = id /\ po_account p = pp_accountID pp /\
    po_currency p = currency_String (pp_currency pp).
Proof.
  revert i. induction ps as [|pp ps IH]; intros i; cbn; [set_solver|].
  intros [->|Hp]%elem_of_cons; [exists pp; set_solver|]. destruct (IH _ Hp) as (q & ? & ?). exists q. set_solver.
Qed.

Lemma selectPostings_posted now prepared d id :
  id <> pe_id prepared -> selectPostingsQuery id (posted now prepared d) = selectPostingsQuery id d.
Proof.
  intros Hne. unfold selectPostingsQuery. cbn. rewrite filter_app, filter_rows_other by done.
  by rewrite (right_id_L [] (++)%list).
Qed.

Lemma settled_currency now ps a b : bal_currency (settled now ps a b) = bal_currency b.
Proof. unfold settled. by case_decide. Qed.

Lemma settled_type now ps a b : bal_type (settled now ps a b) = bal_type b.
Proof. unfold settled. by case_decide. Qed.

Lemma settled_balance now ps a b : balance_minor (settled now ps a b) = balance_minor b + account_sum a ps.
Proof. unfold settled. case_decide; cbn; [done|]. rewrite account_sum_0 by done. lia. Qed.

Lemma posted_postings now prepared d :
  t_postings (posted now prepared d) =
  (t_postings d ++ posting_rows (pe_id prepared) 0 (pe_postings prepared))%list.
Proof. done. Qed.

Lemma posted_balance now prepared d a b' :
  t_balances (posted now prepared d) !! a = Some b' ->
  exists b, t_balances d !! a = Some b /\ b' = settled now (pe_postings prepared) a b.
Proof.
  cbn. rewrite map_lookup_imap. destruct (t_balances d !! a) as [b|]; [|done]. cbn. intros [= <-]. eauto.
Qed.

(** A posting's account carries the posting's currency. *)
Lemma accepts_currency d ps a b :
  Forall (account_accepts d ps) ps -> t_balances d !! a = Some b ->
  Forall (fun p => pp_accountID p = a -> currency_String (pp_currency p) = bal_currency b) ps.
Proof.
  intros HF Hb. eapply Forall_impl; [exact HF|]. intros p (b' & Hb' & Hc & _) <-. congruence.
Qed.

Lemma posted_keys now prepared d :
  ledger_keys d -> ledger_keys (posted now prepared d).
Proof.
  intros Hk. split.
  - intros a b' (b & Hb & ->)%posted_balance. rewrite settled_currency. by apply (lk_account _ Hk).
  - cbn. intros p [Hp|(pp & _ & -> & _)%elem_of_rows]%elem_of_app.
    + destruct (lk_entry _ Hk p Hp) as [e He].
      destruct (decide (po_entry p = pe_id prepared)) as [->|]; [by rewrite lookup_insert_eq|].
      rewrite lookup_insert_ne by done. eauto.
    + by rewrite lookup_insert_eq.
Qed.

Lemma posted_entry_stored now prepared d id e :
  ledger_inv d -> prepared_wf prepared -> postable d prepared ->
  t_entries (posted now prepared d) !! id = Some e -> entry_stored (posted now prepared d) id e.
Proof.
  intros Hinv Hw [Hf Ha Hr]. unfold entry_stored.
  rewrite posted_postings.
  change (t_entries (posted now prepared d)) with (<[pe_id prepared := entry_row prepared]> (t_entries d)).
  rewrite filter_app.
  assert (Hsome : forall src, is_Some (t_entries d !! src) -> is_Some (<[pe_id prepared := entry_row prepared]> (t_entries d) !! src)).
  { intros src [x Hx]. destruct (decide (src = pe_id prepared)) as [->|]; [by rewrite lookup_insert_eq|].
    by rewrite lookup_insert_ne, Hx. }
  destruct (decide (id = pe_id prepared)) as [->|Hne].
  - rewrite lookup_insert_eq. intros [= <-]. exists (pe_postings prepared).
    rewrite filter_fresh, filter_rows_same by (done || apply Hinv).
    pose proof (pw_shape _ Hw) as Hs. split_and!; [done|apply Hw..|apply Hw|].
    cbn [ent_reverses ent_type entry_row]. destruct (reversesID prepared) as [src|]; [|done]. destruct Hr as (? & _ & HF), Hs.
    split_and!; [done..|by apply Hsome|]. by rewrite selectPostings_posted.
  - rewrite lookup_insert_ne by done. intros He.
    destruct (li_entry _ Hinv _ _ He) as (ps & Hps & H1 & H2 & H3 & H4). exists ps.
    rewrite filter_rows_other, (right_id_L [] (++)%list) by done. split_and!; try (done || lia).
    destruct (ent_reverses e) as [src|]; [|done]. destruct H4 as (? & ? & Hsrc & HF).
    split_and!; [done..|by apply Hsome|]. rewrite selectPostings_posted; [done|].
    intros ->. destruct Hsrc. congruence.
Qed.

(** Posting a postable entry keeps the ledger's books. *)
Lemma posted_inv now prepared d :
  ledger_inv d -> prepared_wf prepared -> postable d prepared -> ledger_inv (posted now prepared d).
Proof.
  intros Hinv Hw Hp. pose proof Hp as [Hf Ha Hr]. split.
  - apply posted_typed; [apply Hinv|done].
  - apply posted_keys, Hinv.
  - intros a b' (b & Hb & ->)%posted_balance. rewrite settled_type, settled_balance.
    destruct (decide (a ∈ accounts_of (pe_postings prepared))) as [Hin|Hn].
    + apply list_elem_of_fmap in Hin as (p & -> & Hin). rewrite Forall_forall in Ha.
      destruct (Ha p Hin) as (b' & Hb' & _ & _ & Ht & _). assert (b' = b) as -> by congruence. done.
    + rewrite account_sum_0 by done. rewrite Z.add_0_r. by eapply (li_type _ Hinv).
  - intros a b' (b & Hb & ->)%posted_balance. rewrite settled_currency, settled_balance.
    rewrite posted_postings, ledger_sum_app, <- (li_snapshot _ Hinv _ _ Hb). f_equal. symmetry.
    apply ledger_sum_rows. by eapply accepts_currency.
  - cbn. intros p Hin. rewrite map_lookup_imap.
    assert (exists b, t_balances d !! po_account p = Some b /\ bal_currency b = po_currency p) as (b & -> & Hc).
    { apply elem_of_app in Hin as [Hin|(pp & Hpp & _ & -> & ->)%elem_of_rows]; [by apply (li_posting _ Hinv)|].
      rewrite Forall_forall in Ha. destruct (Ha pp Hpp) as (b & ? & ? & _). eauto. }
    cbn. eexists. split; [done|]. by rewrite settled_currency.
  - intros cur. rewrite posted_postings, posting_total_app, (li_total _ Hinv). apply posting_total_rows; apply Hw.
  - intros id e. by apply posted_entry_stored.
  - intros id1 e1 id2 e2 src.
    change (t_entries (posted now prepared d)) with (<[pe_id prepared := entry_row prepared]> (t_entries d)).
    intros H1 H2 R1 R2.
    destruct (decide (id1 = pe_id prepared)) as [->|Hn1], (decide (id2 = pe_id prepared)) as [->|Hn2]; [done|..].
    + rewrite lookup_insert_eq in H1. rewrite lookup_insert_ne in H2 by done. injection H1 as <-. cbn in R1.
      rewrite R1 in Hr. destruct Hr as (_ & Hr & _). by apply Hr in H2.
    + rewrite lookup_insert_eq in H2. rewrite lookup_insert_ne in H1 by done. injection H2 as <-. cbn in R2.
      rewrite R2 in Hr. destruct Hr as (_ & Hr & _). by apply Hr in H1.
    + rewrite lookup_insert_ne in H1, H2 by done. by eapply (li_one_reversal _ Hinv).
Qed.

(** ** Conservation *)

Definition sum_over (f : UUID -> BalanceRow -> Z) (l : list (UUID * BalanceRow)) : Z :=
  foldr (fun '(a, b) acc => f a b + acc) 0 l.

Lemma sum_over_ext f g l : (forall a b, (a, b) ∈ l -> f a b = g a b) -> sum_over f l = sum_over g l.
Proof.
  induction l as [|[a b] l IH]; cbn; intros Hfg; [done|]. unfold sum_over in IH |- *.
  rewrite IH, Hfg; [done|by left|]. intros. apply Hfg. by right.
Qed.

Lemma sum_over_add f g l : sum_over (fun a b => f a b + g a b) l = sum_over f l + sum_over g l.
Proof. induction l as [|[a b] l IH]; cbn; [done|]. unfold sum_over in IH |- *. rewrite IH. lia. Qed.

Lemma sum_over_zero l : sum_over (fun _ _ => 0) l = 0.
Proof. induction l as [|[a b] l IH]; cbn; [done|]. unfold sum_over in IH. by rewrite IH. Qed.

(** A quantity that sits on one account only. *)
Lemma sum_over_single a0 b0 (g : BalanceRow -> Z) l :
  NoDup l.*1 -> (a0, b0) ∈ l -> sum_over (fun a b => if decide (a0 = a) then g b else 0) l = g b0.
Proof.
  induction l as [|[a b] l IH]; cbn; [intros; set_solver|]. intros [Hn Hd]%NoDup_cons.
  intros [[= -> ->]|Hin]%elem_of_cons.
  - rewrite decide_True by done. rewrite <- (Z.add_0_r (g b)) at 2. f_equal.
    etrans; [|apply (sum_over_zero l)]. apply (sum_over_ext (fun a' b' => if decide (a = a') then g b' else 0)).
    intros a' b' Hin. rewrite decide_False; [done|].
    intros <-. apply Hn. by apply (list_elem_of_fmap_2 fst) in Hin.
  - rewrite decide_False; [by apply IH|]. intros ->. apply Hn. by apply (list_elem_of_fmap_2 fst) in Hin.
Qed.

Lemma sum_of_ledger_sums (m : gmap UUID BalanceRow) cur l :
  Forall (fun p => exists b, m !! po_account p = Some b /\ bal_currency b = po_currency p) l ->
  sum_over (fun a b => if decide (bal_currency b = cur) then ledger_sum a (bal_currency b) l else 0) (map_to_list m) =
  posting_total cur l.
Proof.
  induction 1 as [|p l (b0 & Hb0 & Hc0) _ IH]; cbn [posting_total foldr].
  - etrans; [|apply (sum_over_zero (map_to_list m))]. apply sum_over_ext. intros. cbn. by case_decide.
  - unfold posting_total in IH. rewrite <- IH.
    transitivity (sum_over (fun a b =>
      (if decide (po_account p = a) then if decide (bal_currency b = cur) then po_amount p else 0 else 0) +
      (if decide (bal_currency b = cur) then ledger_sum a (bal_currency b) l else 0)) (map_to_list m)).
    + apply sum_over_ext. intros a b Hin%elem_of_map_to_list. cbn.
      destruct (decide (po_account p = a)) as [<-|Hne].
      * assert (b = b0) as -> by congruence. rewrite Hc0. case_decide; [|done].
        by rewrite !bool_decide_eq_true_2 by done.
      * rewrite bool_decide_eq_false_2 by done. case_decide; done.
    + rewrite sum_over_add. f_equal.
      rewrite (sum_over_single _ b0 (fun b => if decide (bal_currency b = cur) then po_amount p else 0));
        [by rewrite Hc0|apply NoDup_fst_map_to_list|by apply elem_of_map_to_list].
Qed.

Lemma inv_conserves d cur : ledger_inv d -> balance_total cur d = 0.
Proof.
  intros Hinv. rewrite <- (li_total _ Hinv cur), <- (sum_of_ledger_sums (t_balances d)).
  - unfold balance_total. change (sum_over (fun _ b => if decide (bal_currency b = cur) then balance_minor b else 0)
      (map_to_list (t_balances d)) =
      sum_over (fun a b => if decide (bal_currency b = cur) then ledger_sum a (bal_currency b) (t_postings d) else 0)
        (map_to_list (t_balances d))).
    apply sum_over_ext. intros a b Hin%elem_of_map_to_list. case_decide; [|done]. by apply (li_snapshot _ Hinv).
  - apply Forall_forall. apply (li_posting _ Hinv).
Qed.

(** ** Runs of [Post] *)

Lemma quiet_insert_batch id i ps : quiet (insert_batch id i ps).
Proof. revert i. induction ps as [|p ps IH]; intros i; cbn; quiet. Qed.

Lemma quiet_updateBalances cs : quiet (updateBalances cs).
Proof. induction cs as [|c cs IH]; cbn; quiet. Qed.

Lemma quiet_selectEntry id : quiet (selectEntry id).
Proof. unfold selectEntry. quiet. Qed.

Lemma quiet_selectPostings id : quiet (selectPostings id).
Proof. unfold selectPostings. quiet. Qed.

Hint Resolve quiet_insert_batch quiet_updateBalances quiet_selectEntry quiet_selectPostings : wallet.

Lemma quiet_postPrepared prepared : quiet (postPrepared prepared).
Proof.
  unfold postPrepared, validatePersistedReversal, lockAndCalculateBalances, insertEntry, insertPostings. quiet.
Qed.

Lemma begun_open s w : tx_open (begun s w).
Proof. done. Qed.

Lemma postOnce_spec prepared s w r w' :
  prepared_wf prepared -> balances_typed (committed w) -> postOnce prepared s w = (r, w') ->
  match r with
  | Ok _ => postable (committed w) prepared /\ exists now, committed w' = posted now prepared (committed w)
  | Err e => committed w' = committed w \/
      e = [Other "connection"] /\ postable (committed w) prepared /\
      exists now, committed w' = posted now prepared (committed w)
  end.
Proof.
  intros Hw Ht HR. apply (run_tx_commit _ _ (fun u => u)) in HR; [|apply quiet_postPrepared].
  assert (Hok : forall u st, postPrepared prepared s (begun s w) = (Ok u, st) -> committed w' = tx_db st ->
    postable (committed w) prepared /\ exists now, committed w' = posted now prepared (committed w)).
  { intros [] st E ->. apply postPrepared_Ok in E as (? & _ & _ & ->); [|done..].
    split; [done|by eexists]. }
  destruct r as [u|e].
  - destruct HR as (a & st & E & _ & Ec). eauto.
  - destruct HR as [?|(-> & a & st & E & Ec)]; [by left|right]. destruct (Hok _ _ E Ec) as (? & ?). eauto.
Qed.

(** What any number of attempts leaves behind. *)
Lemma post_attempts_spec left prepared lastErr s w r w' :
  prepared_wf prepared -> balances_typed (committed w) ->
  post_attempts left prepared lastErr s w = (r, w') ->
  match r with
  | Ok _ => postable (committed w) prepared /\ exists now, committed w' = posted now prepared (committed w)
  | Err e => committed w' = committed w \/
      e = [Other "connection"] /\ postable (committed w) prepared /\
      exists now, committed w' = posted now prepared (committed w)
  end.
Proof.
  intros Hw. revert lastErr w. induction left as [|left IH]; intros lastErr w Ht; cbn [post_attempts].
  - intros [= <- <-]. by left.
  - destruct (cancelled s (tick w)); [intros [= <- <-]; by left|].
    destruct (postOnce prepared s w) as [r1 w1] eqn:E. apply postOnce_spec in E; [|done..].
    destruct r1 as [u|e]; [by intros [= <- <-]|]. destruct (isRetryableTransaction e) eqn:Er.
    + destruct E as [Ec|(-> & _)]; [|done]. intros HR. apply IH in HR; [|by rewrite Ec]. by rewrite Ec in HR.
    + intros [= <- <-]. destruct E as [?|(-> & ? & ?)]; [by left|by right].
Qed.

Lemma run_tx_commit_healthy {A} join (m : Tx A) s w a st :
  healthy s -> quiet m -> m s (begun s w) = (Ok a, st) -> tx_aborted st = false -> deferred_ok (tx_db st) = true ->
  exists w', run_tx join (a ← m; _ ← commit; mret a) s w = (Ok a, w') /\ committed w' = tx_db st.
Proof.
  intros Hs Hq E Ha Hd. unfold run_tx. rewrite (no_faults s Hs).
  destruct (Hq _ _ _ _ E) as (Hap & Hc & _). cbn in Hap, Hc.
  erewrite bind_run by exact E. unfold mbind, Tx_bind, commit. rewrite Hc, Ha, Hd, (commits_apply s Hs). cbn.
  eexists. split; [reflexivity|done].
Qed.

(** ** Reading entries back *)

Definition canonical_posting (p : preparedPosting) : Posting :=
  mkPosting (uuid_text (pp_accountID p)) (mkMoney (pp_amount p) (pp_currency p)).

Lemma canonical_posting_wf p : pp_wf p -> posting_wf (canonical_posting p).
Proof.
  intros (? & ? & ? & ?). destruct (uuid_text_posting (pp_accountID p)). split_and!; cbn; try done.
Qed.

Lemma restore_rows id i ps :
  Forall pp_wf ps -> restore_postings (posting_rows id i ps) = Ok (canonical_posting <$> ps).
Proof.
  intros Hw. apply restore_postings_total. revert i.
  induction Hw as [|p ps Hp _ IH]; intros i; cbn; constructor; [|apply IH].
  split_and!; try done. by apply canonical_posting_wf.
Qed.

Lemma rows_sorted id i ps :
  StronglySorted position_le (posting_rows id i ps) /\ Forall (fun p => i <= po_position p) (posting_rows id i ps).
Proof.
  revert i. induction ps as [|p ps IH]; intros i; cbn; [split; constructor|].
  destruct (IH (i + 1)) as [HS HF]. split; constructor; cbn; try done; try lia.
  - eapply Forall_impl; [exact HF|]. intros q Hq. unfold position_le. cbn in *. lia.
  - eapply Forall_impl; [exact HF|]. intros q Hq. cbn in *. lia.
Qed.

Lemma rows_position_inj id i ps p q :
  p ∈ posting_rows id i ps -> q ∈ posting_rows id i ps -> po_position p = po_position q -> p = q.
Proof.
  revert i. induction ps as [|x ps IH]; intros i; cbn; [set_solver|].
  destruct (rows_sorted id (i + 1) ps) as [_ HF]. rewrite Forall_forall in HF.
  intros [->|Hp]%elem_of_cons [->|Hq]%elem_of_cons E; [done| | |eauto].
  - apply HF in Hq. cbn in *. lia.
  - apply HF in Hp. cbn in *. lia.
Qed.

#[local] Instance position_le_trans : Transitive position_le.
Proof. intros x y z. unfold position_le. lia. Qed.

#[local] Instance position_le_total : Total position_le.
Proof. intros x y. unfold position_le. lia. Qed.

Lemma select_rows d id ps :
  filter (fun p => po_entry p = id) (t_postings d) = posting_rows id 0 ps ->
  selectPostingsQuery id d = posting_rows id 0 ps.
Proof.
  intros E. unfold selectPostingsQuery. rewrite E.
  apply (StronglySorted_unique_strong position_le).
  - intros p q Hp Hq. rewrite merge_sort_Permutation in Hp. unfold position_le. intros.
    eapply rows_position_inj; [done..|lia].
  - apply (StronglySorted_merge_sort position_le).
  - apply rows_sorted.
  - apply merge_sort_Permutation.
Qed.

Lemma equalPostings_refl ps : equalPostings ps ps = true.
Proof. induction ps as [|p ps IH]; cbn; [done|]. by rewrite !bool_decide_eq_true_2, IH. Qed.

Lemma canonical_total c ps : currency_total c (canonical_posting <$> ps) = prepared_total c ps.
Proof. induction ps as [|p ps IH]; cbn; [done|]. unfold prepared_total in IH |- *. by rewrite IH. Qed.

(** A stored entry as [Get] returns it. *)
Definition stored_as (id : UUID) (e : EntryRow) (ps : list preparedPosting) : JournalEntry :=
  match ent_reverses e with
  | None => mkEntry (uuid_text id) JournalEntryTypeStandard "" (canonical_posting <$> ps) (UTC (ent_recorded_at e))
  | Some source => mkEntry (uuid_text id) JournalEntryTypeReversal (uuid_text source) (canonical_posting <$> ps)
                     (UTC (ent_recorded_at e))
  end.

Lemma stored_standard_wf id ps t :
  Forall pp_wf ps -> 2 <= Z.of_nat (length ps) <= 1024 -> (forall c, prepared_total c ps = 0) -> IsZero t = false ->
  entry_wf (mkEntry (uuid_text id) JournalEntryTypeStandard "" (canonical_posting <$> ps) (UTC t)).
Proof.
  intros Hw Hn Hb Ht. split; cbn.
  - apply uuid_text_posting.
  - done.
  - by left.
  - by rewrite length_fmap.
  - apply Forall_fmap. eapply Forall_impl; [exact Hw|]. apply canonical_posting_wf.
  - intros c. by rewrite canonical_total.
Qed.

Lemma NewJournalEntry_stored id ps t :
  Forall pp_wf ps -> 2 <= Z.of_nat (length ps) <= 1024 -> (forall c, prepared_total c ps = 0) -> IsZero t = false ->
  NewJournalEntry (mkEntryParams (uuid_text id) (canonical_posting <$> ps) t) =
  Ok (mkEntry (uuid_text id) JournalEntryTypeStandard "" (canonical_posting <$> ps) (UTC t)).
Proof.
  intros Hw Hn Hb Ht. destruct (uuid_text_posting id) as [_ E].
  unfold NewJournalEntry. rewrite newJournalEntry_complete; cbn [param_ID param_Postings param_RecordedAt]; rewrite E;
    [done|by apply stored_standard_wf].
Qed.

Lemma inverted_negated ps qs id i :
  Forall pp_wf ps -> Forall pp_wf qs -> Forall2 inverted ps (posting_rows id i qs) ->
  negated <$> (canonical_posting <$> qs) = canonical_posting <$> ps.
Proof.
  intros Hps. revert i qs. induction Hps as [|p ps (Hv & _) _ IH]; intros i [|q qs] Hqs HF; cbn in HF; try by inversion HF.
  apply Forall2_cons in HF as [(Ha & Hc & Hu) HF]. apply Forall_cons in Hqs as [(Hv' & _) Hqs]. cbn in *.
  rewrite (IH _ _ Hqs HF). f_equal. unfold negated, canonical_posting. cbn. subst.
  rewrite Ha, Hu, Z.opp_involutive. do 2 f_equal. by apply currency_String_inj.
Qed.

End Correct.

#[export] Hint Resolve quiet_insert_batch quiet_updateBalances quiet_selectEntry quiet_selectPostings
  quiet_postPrepared : wallet.
