(* ===== verification/LedgerTheorems.v ===== *)
(** * Theorems about the ledger repository

    The properties of [Post], [PostTx], [Get] and [Reconcile], each with a run
    on a concrete ledger. *)

From stdpp Require Import base list gmap strings numbers sorting pretty.
From Stdlib Require Import ZArith Lia.
From S2P Require Import Prelude GoText Money Journal Database LedgerRepo LedgerSpec LedgerCorrect PgInstance.

Open Scope string_scope.
Open Scope Z_scope.

Section Theorems.
Context `{PgLaws}.

(** ** Posting on a healthy service *)

Lemma posted_deferred now prepared d :
  deferred_ok d = true -> deferred_ok (posted now prepared d) = true.
Proof.
  unfold deferred_ok. rewrite !forallb_forall. intros Hall [id r] Hin. specialize (Hall (id, r) Hin).
  cbn in *. bool_simpl. rewrite !andb_true_iff. split_and!; try done.
  destruct (tr_journal r) as [e|]; [|done]. apply bool_decide_eq_true.
  destruct (decide (e = pe_id prepared)) as [->|]; [by rewrite lookup_insert_eq|].
  rewrite lookup_insert_ne by done. by bool_simpl.
Qed.

Lemma Post_total e prepared s w :
  healthy s -> entry_typed e -> ledger_inv (committed w) -> deferred_ok (committed w) = true ->
  prepareEntry e = Ok prepared -> postable (committed w) prepared ->
  exists w', Post e s w = (Ok tt, w').
Proof.
  intros Hs Ht Hinv Hd Hp Hpost. unfold Post. rewrite Hp. apply prepareEntry_Ok in Hp as (Hw & _); [|done].
  destruct (postPrepared_total prepared s (begun s w)) as [st E]; [done|done|done|apply Hinv..|done|].
  pose proof E as E'. apply postPrepared_Ok in E' as (_ & [_ Ha] & _ & Hdb); [|done|apply Hinv|done].
  cbn [post_attempts maxTransactionAttempts]. rewrite (not_cancelled s Hs). unfold postOnce.
  edestruct (run_tx_commit_healthy true (postPrepared prepared) s w) as (w' & -> & _);
    [done|apply quiet_postPrepared|exact E|done|rewrite Hdb; by apply posted_deferred|]. eauto.
Qed.

Lemma Post_spec e s w r w' :
  entry_typed e -> ledger_inv (committed w) -> Post e s w = (r, w') ->
  match r with
  | Ok _ => exists prepared now, prepareEntry e = Ok prepared /\ postable (committed w) prepared /\
      committed w' = posted now prepared (committed w)
  | Err err => committed w' = committed w \/
      err = [Other "connection"] /\ exists prepared now, prepareEntry e = Ok prepared /\
        postable (committed w) prepared /\ committed w' = posted now prepared (committed w)
  end.
Proof.
  intros Ht Hinv. unfold Post. destruct (prepareEntry e) as [prepared|err] eqn:Ep; [|intros [= <- <-]; by left].
  intros HR. apply post_attempts_spec in HR; [|by apply prepareEntry_Ok in Ep as [? _]|apply Hinv].
  destruct r as [u|err].
  - destruct HR as (? & now & ?). exists prepared, now. done.
  - destruct HR as [?|(-> & ? & now & ?)]; [by left|right]. split; [done|]. exists prepared, now. done.
Qed.

Lemma Post_inv e s w r w' :
  entry_typed e -> ledger_inv (committed w) -> Post e s w = (r, w') -> ledger_inv (committed w').
Proof.
  intros Ht Hinv HR. apply Post_spec in HR; [|done..].
  assert (Hp : forall prepared now, prepareEntry e = Ok prepared -> postable (committed w) prepared ->
    ledger_inv (posted now prepared (committed w))).
  { intros prepared now Ep Hpost. apply prepareEntry_Ok in Ep as [? _]; [|done]. by apply posted_inv. }
  destruct r; [|destruct HR as [->|(_ & HR)]; [done|]]; destruct HR as (p & now & ? & ? & ->); auto.
Qed.

(** Any sequence of calls, each under its own service. *)
Fixpoint run_posts (calls : list (JournalEntry * Service)) (w : World) : World :=
  match calls with
  | [] => w
  | (e, s) :: rest => run_posts rest (Post e s w).2
  end.

Lemma run_posts_inv calls w :
  Forall (fun c => entry_typed c.1) calls -> ledger_inv (committed w) -> ledger_inv (committed (run_posts calls w)).
Proof.
  intros HF. revert w. induction HF as [|[e s] calls Ht _ IH]; intros w Hinv; cbn; [done|].
  apply IH. destruct (Post e s w) as [r w'] eqn:E. by eapply Post_inv.
Qed.

(** A ledger on which nothing has been posted. *)
Record fresh_ledger (d : DB) : Prop := {
  fl_entries : t_entries d = ∅;
  fl_postings : t_postings d = [];
  fl_balances a b : t_balances d !! a = Some b ->
    balance_minor b = 0 /\ bal_version b = 0 /\ (bal_type b = "customer" \/ bal_type b = "system") /\
    exists acc, t_accounts d !! a = Some acc /\ acc_currency acc = bal_currency b
}.

Lemma fresh_ledger_inv d : fresh_ledger d -> ledger_inv d.
Proof.
  intros [He Hp Hb]. split.
  - intros a b (-> & -> & _)%Hb. split; int64_lia.
  - split; [by intros a b (_ & _ & _ & ?)%Hb|]. rewrite Hp. set_solver.
  - intros a b (-> & _ & Ht & _)%Hb. naive_solver lia.
  - intros a b (-> & _)%Hb. by rewrite Hp.
  - rewrite Hp. set_solver.
  - by rewrite Hp.
  - by rewrite He.
  - by rewrite He.
Qed.

(** ** Reading back *)

Definition readable (d : DB) (e : EntryRow) : Prop :=
  IsZero (ent_recorded_at e) = false /\
  match ent_reverses e with
  | Some source => exists e', t_entries d !! source = Some e' /\ IsZero (ent_recorded_at e') = false
  | None => True
  end.

Lemma selectEntry_healthy id e s st :
  healthy s -> tx_open st -> t_entries (tx_db st) !! id = Some e ->
  selectEntry id s st =
    (Ok (mkStored (uuid_text id) (ent_type e)
           (match ent_reverses e with Some source => uuid_text source | None => "" end) (ent_recorded_at e)),
     advance st (tx_db st)).
Proof.
  intros Hs Ho He. unfold selectEntry. erewrite bind_run by (by apply query_healthy).
  unfold selectEntryQuery. by rewrite He.
Qed.

Lemma selectPostings_healthy id ps s st :
  healthy s -> tx_open st -> Forall pp_wf ps ->
  filter (fun p => po_entry p = id) (t_postings (tx_db st)) = posting_rows id 0 ps ->
  selectPostings id s st = (Ok (canonical_posting <$> ps), advance st (tx_db st)).
Proof.
  intros Hs Ho Hw E. unfold selectPostings. erewrite bind_run by (by apply query_healthy).
  rewrite (select_rows _ _ _ E). by rewrite restore_rows.
Qed.

Lemma posting_rows_inj id i ps qs :
  Forall pp_wf ps -> Forall pp_wf qs -> posting_rows id i ps = posting_rows id i qs -> ps = qs.
Proof.
  intros Hps. revert i qs. induction Hps as [|[a c u] ps (Hv & _) _ IH]; intros i [|[a' c' u'] qs] Hqs E; cbn in E; try done.
  apply Forall_cons in Hqs as [(Hv' & _) Hqs]. injection E as -> E1 -> E2. cbn in *.
  rewrite (currency_String_inj c c') by done. f_equal. eauto.
Qed.

(** Every stored entry of a ledger in good order is restored. *)
Lemma restore_stored id e ps s st :
  healthy s -> tx_open st -> ledger_inv (tx_db st) -> t_entries (tx_db st) !! id = Some e -> readable (tx_db st) e ->
  filter (fun p => po_entry p = id) (t_postings (tx_db st)) = posting_rows id 0 ps -> Forall pp_wf ps ->
  exists st', (record ← selectEntry id; postings ← selectPostings id; restoreEntry record postings) s st =
    (Ok (stored_as id e ps), st') /\ tx_open st' /\ tx_db st' = tx_db st.
Proof.
  intros Hs Ho Hinv He [Ht Hsrc] Hps Hw.
  destruct (li_entry _ Hinv _ _ He) as (ps' & Hps' & Hw' & Hn & Hb & Hkind).
  assert (ps' = ps) as -> by (eapply posting_rows_inj; [done..|etrans; [symmetry; exact Hps'|exact Hps]]).
  erewrite bind_run by (by apply selectEntry_healthy). erewrite bind_run by (by apply selectPostings_healthy).
  unfold restoreEntry, stored_as. cbn [se_id se_entryType se_reversesID se_recordedAt].
  destruct (ent_reverses e) as [source|].
  - destruct Hkind as (-> & Hne & _ & HF), Hsrc as (e' & He' & Ht').
    destruct (li_entry _ Hinv _ _ He') as (qs & Hqs & Hwq & Hnq & Hbq & _).
    rewrite (select_rows _ _ _ Hqs) in HF.
    rewrite bool_decide_eq_false_2, bool_decide_eq_true_2 by done. cbn [negb].
    erewrite bind_run by (apply lift_Ok; by rewrite parseUUID_text).
    erewrite bind_run by (apply wrap_tx_Ok; by apply selectEntry_healthy).
    erewrite bind_run by (apply wrap_tx_Ok; by apply selectPostings_healthy).
    erewrite bind_run by (apply lift_Ok; cbn [se_id se_recordedAt]; rewrite NewJournalEntry_stored by done; done).
    destruct (uuid_text_posting id) as [Hid Htrim].
    destruct (Reverse_wf (mkEntry (uuid_text source) JournalEntryTypeStandard "" (canonical_posting <$> qs)
      (UTC (ent_recorded_at e'))) (uuid_text id) (ent_recorded_at e)) as [HR _];
      [by apply stored_standard_wf|by rewrite Htrim| |done|].
    { cbn. rewrite Htrim. intros E%uuid_text_inj. done. }
    cbn [Journal.entry_id Journal.postings] in HR.
    erewrite bind_run by (apply lift_Ok; rewrite HR; done).
    rewrite (inverted_negated ps qs source 0), Htrim by done. cbn [Journal.postings]. rewrite equalPostings_refl.
    eexists. split; [reflexivity|done].
  - rewrite Hkind. cbn. rewrite NewJournalEntry_stored by done. eexists. split; [reflexivity|done].
Qed.

Lemma Get_stored id e ps s w :
  healthy s -> ledger_inv (committed w) -> deferred_ok (committed w) = true ->
  t_entries (committed w) !! id = Some e -> readable (committed w) e ->
  filter (fun p => po_entry p = id) (t_postings (committed w)) = posting_rows id 0 ps -> Forall pp_wf ps ->
  exists w', Get (uuid_text id) s w = (Ok (stored_as id e ps), w') /\ committed w' = committed w.
Proof.
  intros Hs Hinv Hd He Hr Hps Hw. unfold Get. rewrite parseUUID_text.
  destruct (restore_stored id e ps s (begun s w)) as (st & E & [_ Ha] & Hdb); [done..|].
  assert (Hq : quiet (record ← selectEntry id; postings ← selectPostings id; restoreEntry record postings)).
  { unfold restoreEntry. quiet. }
  destruct (run_tx_commit_healthy true _ _ _ _ _ Hs Hq E Ha) as (w' & -> & Hc); [by rewrite Hdb|].
  exists w'. split; [done|]. by rewrite Hc.
Qed.

(** ** Rejections *)

(** When every locked row either calculates or fails with the same error, and
    one fails, that is the error of the loop. *)
Lemma calculate_rows_reject err m l cs n :
  indexes m cs -> NoDup l.*1 ->
  (forall a b, (a, b) ∈ l -> exists i c, cs !! i = Some c /\ ch_accountID c = a /\
     (calculate_row c b = Err err \/ exists c', calculate_row c b = Ok c')) ->
  (exists a b i c, (a, b) ∈ l /\ cs !! i = Some c /\ ch_accountID c = a /\ calculate_row c b = Err err) ->
  calculate_rows m (row_texts l) cs n = Err err.
Proof.
  revert cs n. induction l as [|[a b] l IH]; intros cs n Hm Hd Hall Hex; cbn [row_texts fmap list_fmap calculate_rows].
  - destruct Hex as (a & b & _ & _ & Hin & _). set_solver.
  - cbn in Hd. apply NoDup_cons in Hd as [Hn Hd].
    destruct (Hall a b) as (i & c & Hi & Hca & Hcase); [by left|].
    assert (m !! uuid_text a = Some i) as -> by (apply Hm; rewrite list_lookup_fmap, Hi; cbn; congruence).
    rewrite Hi. destruct Hcase as [->|[c1 E1]]; [done|]. rewrite E1.
    assert (Hother : forall a' b', (a', b') ∈ l -> a' <> a).
    { intros a' b' Hin ->. apply Hn. by apply (list_elem_of_fmap_2 fst) in Hin. }
    apply IH; [eapply indexes_insert; [done|done|by eapply calculate_row_account]|done|..].
    + intros a' b' Hin. destruct (Hall a' b') as (j & c' & Hj & Hca' & Hc'); [by right|].
      exists j, c'. split_and!; [|done|done]. rewrite list_lookup_insert_ne; [done|].
      intros <-. apply (Hother a' b' Hin). congruence.
    + destruct Hex as (a' & b' & j & c' & Hin & Hj & Hca' & E').
      apply elem_of_cons in Hin as [[= -> ->]|Hin].
      { exfalso. assert (i = j) as ->; [|congruence].
        assert (Hj' : m !! uuid_text a = Some j) by (apply Hm; rewrite list_lookup_fmap, Hj; cbn; congruence).
        assert (Hi' : m !! uuid_text a = Some i) by (apply Hm; rewrite list_lookup_fmap, Hi; cbn; congruence).
        congruence. }
      exists a', b', j, c'. split_and!; [done| |done|done]. rewrite list_lookup_insert_ne; [done|].
      intros <-. apply (Hother a' b' Hin). congruence.
Qed.

(** An account that could take its share if overdrafts were allowed. *)
Definition account_solvent_or_short (d : DB) (ps : list preparedPosting) (p : preparedPosting) : Prop :=
  exists b, t_balances d !! pp_accountID p = Some b /\
    bal_currency b = currency_String (pp_currency p) /\
    in_int64 (balance_minor b + account_sum (pp_accountID p) ps) /\
    (bal_type b = "customer" \/ bal_type b = "system") /\ bal_version b <> MaxInt64.

Definition account_short (d : DB) (ps : list preparedPosting) (p : preparedPosting) : Prop :=
  exists b, t_balances d !! pp_accountID p = Some b /\ bal_type b = "customer" /\
    balance_minor b + account_sum (pp_accountID p) ps < 0.

Lemma calculate_row_short c b :
  in_int64 (balance_minor b) -> 0 <= bal_version b <= MaxInt64 -> in_int64 (delta c) ->
  bal_currency b = currency_String (ch_currency c) -> in_int64 (balance_minor b + delta c) ->
  bal_type b = "customer" \/ bal_type b = "system" -> bal_version b <> MaxInt64 ->
  (bal_type b = "customer" -> balance_minor b + delta c < 0 -> calculate_row c b = Err [ErrInsufficientFunds]) /\
  (calculate_row c b = Err [ErrInsufficientFunds] \/ exists c', calculate_row c b = Ok c').
Proof.
  intros H1 H2 H3 Hc Hi Ht Hv. unfold calculate_row. rewrite checkedAdd_spec, decide_True by done.
  rewrite (bool_decide_eq_true_2 (_ = currency_String _)) by done. cbn [negb].
  rewrite (proj2 (Z.eqb_neq _ _) Hv). destruct Ht as [Ht|Ht]; rewrite Ht.
  - destruct (Z.ltb_spec (balance_minor b + delta c) 0); cbn; [auto|]. split; [lia|eauto].
  - cbn. split; [done|eauto].
Qed.

Lemma lock_short prepared s st :
  healthy s -> tx_open st -> prepared_wf prepared -> balances_typed (tx_db st) ->
  Forall (account_solvent_or_short (tx_db st) (pe_postings prepared)) (pe_postings prepared) ->
  Exists (account_short (tx_db st) (pe_postings prepared)) (pe_postings prepared) ->
  lockAndCalculateBalances (changes prepared) s st = (Err [ErrInsufficientFunds], advance st (tx_db st)).
Proof.
  intros Hs Ho Hw Ht Hall Hex. pose proof (pw_aggregates _ Hw) as HA. rewrite Forall_forall in Hall.
  assert (Hrow : forall c b, c ∈ changes prepared -> t_balances (tx_db st) !! ch_accountID c = Some b ->
    (bal_type b = "customer" -> balance_minor b + delta c < 0 -> calculate_row c b = Err [ErrInsufficientFunds]) /\
    (calculate_row c b = Err [ErrInsufficientFunds] \/ exists c', calculate_row c b = Ok c')).
  { intros c b Hc Hb. destruct (posting_of_change _ _ _ HA Hc) as (p & Hp & Ha).
    destruct (Hall p Hp) as (b' & Hb' & Hcur & Hi & Hty & Hv). rewrite Ha in *.
    assert (b' = b) as -> by congruence. destruct (ag_delta _ _ HA c Hc) as [Hd Hdi]. destruct (Ht _ _ Hb) as [? ?].
    apply calculate_row_short; try done; [|by rewrite Hd]. by rewrite <- (ag_currency _ _ HA c p). }
  unfold lockAndCalculateBalances. erewrite bind_run by (by apply query_healthy).
  change (lockBalancesQuery _ _) with (row_texts (locked_rows (ch_accountID <$> changes prepared) (tx_db st))).
  unfold mbind, Tx_bind, lift. rewrite (calculate_rows_reject [ErrInsufficientFunds]); [done|..].
  - apply index_changes_indexes, HA.
  - apply NoDup_locked_rows.
  - intros a b [(c & -> & Hc)%list_elem_of_fmap Hb]%elem_of_locked_rows.
    pose proof Hc as [i Hi]%list_elem_of_lookup. exists i, c. split_and!; [done..|]. by apply Hrow.
  - apply Exists_exists in Hex as (p & Hp & b & Hb & Hty & Hneg).
    destruct (change_of_posting _ _ _ HA Hp) as (c & Hc & Ha & _ & Hd).
    pose proof Hc as [i Hi]%list_elem_of_lookup. exists (pp_accountID p), b, i, c.
    split_and!; [|done|done|].
    + apply elem_of_locked_rows. split; [|done]. rewrite <- Ha. by apply list_elem_of_fmap_2.
    + rewrite <- Ha in Hb. apply (Hrow c b Hc Hb); [done|]. by rewrite Hd.
Qed.

Lemma Post_reject e prepared msg s w st :
  healthy s -> prepareEntry e = Ok prepared -> postPrepared prepared s (begun s w) = (Err [Sentinel msg], st) ->
  exists w', Post e s w = (Err [Sentinel msg], w') /\ committed w' = committed w.
Proof.
  intros Hs Hp E. unfold Post. rewrite Hp. cbn [post_attempts maxTransactionAttempts].
  rewrite (not_cancelled s Hs). unfold postOnce, run_tx. rewrite (no_faults s Hs).
  unfold mbind, Tx_bind. rewrite E.
  destruct (quiet_postPrepared prepared _ _ _ _ E) as (Hap & Hc & _). cbn in Hap, Hc.
  rewrite Hap, Hc, (no_faults s Hs). cbn. eexists. split; [reflexivity|done].
Qed.

Lemma postPrepared_short prepared s st :
  healthy s -> tx_open st -> prepared_wf prepared -> balances_typed (tx_db st) ->
  match reversesID prepared with Some source => source_accepts (tx_db st) (pe_postings prepared) source | None => True end ->
  Forall (account_solvent_or_short (tx_db st) (pe_postings prepared)) (pe_postings prepared) ->
  Exists (account_short (tx_db st) (pe_postings prepared)) (pe_postings prepared) ->
  exists st', postPrepared prepared s st = (Err [ErrInsufficientFunds], st').
Proof.
  intros Hs Ho Hw Ht Hr Hall Hex. unfold postPrepared.
  assert (exists st1, match reversesID prepared with Some source => validatePersistedReversal prepared source
            | None => mret tt end s st = (Ok tt, st1) /\ tx_open st1 /\ tx_db st1 = tx_db st)
    as (st1 & E1 & Ho1 & Hd1).
  { destruct (reversesID prepared); [|by eexists].
    destruct (validate_reversal_total prepared u s st) as (st1 & ? & ? & ? & _); [done|done|apply Hw|done|]. eauto. }
  erewrite bind_run by exact E1. rewrite <- Hd1 in *. unfold mbind, Tx_bind at 1.
  rewrite lock_short by done. eauto.
Qed.

Lemma postPrepared_reversed prepared source id e s st :
  healthy s -> tx_open st -> ledger_inv (tx_db st) -> reversesID prepared = Some source ->
  t_entries (tx_db st) !! id = Some e -> ent_reverses e = Some source ->
  exists st', postPrepared prepared s st = (Err [ErrAlreadyReversed], st').
Proof.
  intros Hs Ho Hinv Hsrc He Hre. unfold postPrepared. rewrite Hsrc.
  destruct (li_entry _ Hinv _ _ He) as (ps & _ & _ & _ & _ & Hkind). rewrite Hre in Hkind.
  destruct Hkind as (_ & _ & [e' He'] & _).
  destruct (li_entry _ Hinv _ _ He') as (qs & Hqs & Hwq & _).
  assert (E : exists st', validatePersistedReversal prepared source s st = (Err [ErrAlreadyReversed], st')).
  { unfold validatePersistedReversal. erewrite bind_run by (by apply selectEntry_healthy).
    erewrite bind_run by (by apply selectPostings_healthy). erewrite bind_run by (by apply query_healthy).
    cbn [tx_db advance]. destruct (selectReversalExistsQuery source (tx_db st)) eqn:Er; [by eexists|].
    exfalso. unfold selectReversalExistsQuery in Er.
    by apply (proj1 (existsb_reverses_false _ _) Er id e). }
  destruct E as [st' E]. unfold mbind, Tx_bind at 1. rewrite E. eauto.
Qed.

(** ** Canonical entries *)

(** An entry whose identifiers are written in canonical form. *)
Record canonical_entry (e : JournalEntry) : Prop := {
  ce_id : isCanonicalUUID (entry_id e) = true;
  ce_accounts : Forall (fun p => isCanonicalUUID (accountID p) = true) (postings e);
  ce_source : entryType e = JournalEntryTypeReversal -> isCanonicalUUID (reversesEntryID e) = true
}.

Lemma parseUUID_canonical t u : isCanonicalUUID t = true -> parseUUID t = Ok u -> uuid_text u = t.
Proof.
  intros (u' & E & Ht)%uuid_scan_canonical. unfold parseUUID. rewrite E. by intros [= <-].
Qed.

Lemma prepares_canonical ps prep :
  Forall (fun p => isCanonicalUUID (accountID p) = true) ps -> Forall2 prepares ps prep ->
  canonical_posting <$> prep = ps.
Proof.
  intros Hc HF. induction HF as [|[a [u c]] pp ps prep (Ha & Hcur & Hu) _ IH]; [done|].
  apply Forall_cons in Hc as [Hc0 Hc]. cbn. rewrite (IH Hc). unfold canonical_posting. cbn in *.
  rewrite (parseUUID_canonical _ _ Hc0 Ha), <- Hcur, <- Hu. done.
Qed.

Lemma prepareEntry_source e prepared :
  prepareEntry e = Ok prepared ->
  match reversesID prepared with
  | Some source => parseUUID (reversesEntryID e) = Ok source /\ entryType e = JournalEntryTypeReversal
  | None => reversesEntryID e = "" /\ entryType e = JournalEntryTypeStandard
  end.
Proof.
  unfold prepareEntry. destruct (parseUUID (entry_id e)); [|done]. destruct (NewJournalEntry _); [|done].
  destruct (entryType e); [done|..].
  - case_bool_decide; [|done]. cbn. destruct (preparePostings _) as [[]|]; [|done]. by intros [= <-].
  - destruct (parseUUID (reversesEntryID e)); [|done]. case_bool_decide; [done|].
    destruct (preparePostings _) as [[]|]; [|done]. by intros [= <-].
Qed.

Lemma stored_as_prepared e prepared :
  entry_typed e -> canonical_entry e -> prepareEntry e = Ok prepared ->
  uuid_text (pe_id prepared) = entry_id e /\
  stored_as (pe_id prepared) (entry_row prepared) (pe_postings prepared) =
    mkEntry (entry_id e) (entryType e) (reversesEntryID e) (postings e) (UTC (stored_time (recordedAt e))).
Proof.
  intros Ht [Hid Hac Hsrc] Hp. pose proof (prepareEntry_source _ _ Hp) as Hs.
  apply prepareEntry_Ok in Hp as (_ & He & Hparse & HF); [|done].
  apply parseUUID_canonical in Hparse; [|done]. split; [done|].
  unfold stored_as, entry_row. cbn [ent_reverses ent_recorded_at]. rewrite (prepares_canonical _ _ Hac HF), Hparse, He.
  destruct (reversesID prepared) as [src|]; destruct Hs as [Hs Hty]; rewrite Hty; [|by rewrite Hs].
  f_equal. apply parseUUID_canonical; auto.
Qed.

Lemma Get_posted e prepared now s w :
  healthy s -> entry_typed e -> canonical_entry e -> prepareEntry e = Ok prepared ->
  ledger_inv (committed w) -> deferred_ok (committed w) = true -> postable (committed w) prepared ->
  1000 <= instant (recordedAt e) ->
  map_Forall (fun _ row => IsZero (ent_recorded_at row) = false) (t_entries (committed w)) ->
  exists w', Get (entry_id e) s (mkWorld (posted now prepared (committed w)) (tick w)) =
    (Ok (mkEntry (entry_id e) (entryType e) (reversesEntryID e) (postings e) (UTC (stored_time (recordedAt e)))), w').
Proof.
  intros Hs Ht Hc Hp Hinv Hd Hpost Hat Htimes.
  destruct (stored_as_prepared _ _ Ht Hc Hp) as [<- <-]. pose proof Hpost as [Hf _ Hr].
  pose proof Hp as (Hw & He & _)%prepareEntry_Ok; [|done].
  edestruct (Get_stored (pe_id prepared) (entry_row prepared) (pe_postings prepared) s) as (w' & -> & _); cbn [committed].
  - done.
  - by apply posted_inv.
  - by apply posted_deferred.
  - cbn. by rewrite lookup_insert_eq.
  - split.
    + cbn. rewrite He. unfold IsZero. apply Z.eqb_neq. pose proof (stored_time_close (recordedAt e)). lia.
    + cbn. destruct (reversesID prepared) as [src|]; [|done]. destruct Hr as ([e' He'] & _).
      exists e'. rewrite lookup_insert_ne by congruence. split; [done|]. by apply Htimes in He'.
  - rewrite posted_postings, filter_app, filter_fresh, filter_rows_same; [done|apply Hinv|done].
  - apply Hw.
  - eauto.
Qed.

(** Rows ordered by account come out in the order of their keys. *)
Lemma sorted_rows (rows : list (UUID * BalanceRow)) :
  StronglySorted string_le ((fun r => uuid_text r.1) <$> merge_sort uuid_row_le rows).
Proof.
  assert (Htr : Transitive (@uuid_row_le _ BalanceRow)) by (intros x y z; unfold uuid_row_le; apply transitivity).
  assert (Hto : Total (@uuid_row_le _ BalanceRow)) by (intros x y; unfold uuid_row_le; apply string_le_total).
  pose proof (StronglySorted_merge_sort uuid_row_le rows) as HS.
  induction HS as [|r rows' _ IH HF]; cbn; constructor; [done|]. apply Forall_fmap. exact HF.
Qed.

(** ** Properties *)

(** C23: on a service that does not fail, posting succeeds exactly when the entry
    is postable (fresh identifier, every account present, in the posting's
    currency, within range and not overdrawn, and for a reversal a source not yet
    reversed whose postings it inverts); it then inserts the entry with its
    postings and adds the net amount to every account, and nothing else. *)
Theorem Post_refines (e : JournalEntry) (prepared : preparedEntry) (s : Service) (w : World) :
  healthy s -> entry_typed e -> ledger_inv (committed w) -> deferred_ok (committed w) = true ->
  prepareEntry e = Ok prepared ->
  (is_ok (Post e s w).1 = true <-> postable (committed w) prepared) /\
  (is_ok (Post e s w).1 = true ->
     exists now, committed (Post e s w).2 = posted now prepared (committed w)) /\
  (forall a b, postable (committed w) prepared -> t_balances (committed w) !! a = Some b ->
     exists b', t_balances (committed (Post e s w).2) !! a = Some b' /\
       balance_minor b' = balance_minor b + account_sum a (pe_postings prepared)).
Proof.
  intros Hs Ht Hinv Hd Hp. destruct (Post e s w) as [r w'] eqn:E. cbn [fst snd].
  assert (Hok : is_ok r = true -> postable (committed w) prepared /\
    exists now, committed w' = posted now prepared (committed w)).
  { apply Post_spec in E; [|done..]. destruct r; [|done]. intros _.
    destruct E as (p & now & Ep & ? & ?). assert (p = prepared) as -> by congruence. eauto. }
  assert (Hrev : postable (committed w) prepared -> is_ok r = true).
  { intros Hpost. destruct (Post_total e prepared s w) as [w1 E1]; [done..|]. rewrite E in E1. by injection E1 as -> _. }
  split_and!.
  - split; [intros ?; by apply Hok|done].
  - intros Hr. by apply Hok.
  - intros a b Hpost Hb. destruct Hok as (_ & now & ->); [auto|]. cbn. rewrite map_lookup_imap, Hb. cbn.
    eexists. split; [done|]. apply settled_balance.
Qed.

(** C6: whatever the server and the network do (failed statements, refused
    commits, lost acknowledgements, cancellations between attempts), one call of
    [Post] leaves the tables either untouched or with the whole entry applied
    once; it applied the entry whenever it reports success, and behind a reported
    failure only when the acknowledgement of the commit was lost. *)
Theorem Post_atomic (e : JournalEntry) (s : Service) (w w' : World) (r : Result unit) :
  entry_typed e -> ledger_inv (committed w) -> Post e s w = (r, w') ->
  let applied := exists prepared now, prepareEntry e = Ok prepared /\ postable (committed w) prepared /\
                   committed w' = posted now prepared (committed w) in
  match r with
  | Ok _ => applied
  | Err err => committed w' = committed w \/ (err = [Other "connection"] /\ applied)
  end.
Proof. intros Ht Hinv E. by apply Post_spec in E. Qed.

(** C7: after any history of posting attempts on a fresh ledger, under any
    behaviour of the service, the books are in order: every snapshot equals the
    sum of the account's postings, no customer is overdrawn, the balances of each
    currency sum to zero, every entry is balanced, and no entry has two
    reversals. *)
Theorem ledger_sound (calls : list (JournalEntry * Service)) (w : World) :
  fresh_ledger (committed w) -> Forall (fun c => entry_typed c.1) calls ->
  let d := committed (run_posts calls w) in
  (forall a b, t_balances d !! a = Some b ->
     balance_minor b = ledger_sum a (bal_currency b) (t_postings d) /\
     (bal_type b = "customer" -> 0 <= balance_minor b)) /\
  (forall cur, balance_total cur d = 0) /\
  (forall id e, t_entries d !! id = Some e -> entry_stored d id e) /\
  (forall id1 e1 id2 e2 source, t_entries d !! id1 = Some e1 -> t_entries d !! id2 = Some e2 ->
     ent_reverses e1 = Some source -> ent_reverses e2 = Some source -> id1 = id2).
Proof.
  intros Hf Hc d. assert (Hinv : ledger_inv d) by by apply run_posts_inv, fresh_ledger_inv.
  split_and!.
  - intros a b Hb. split; [by apply (li_snapshot _ Hinv)|]. destruct (li_type _ Hinv _ _ Hb) as [[_ ?]|E]; [done|].
    rewrite E. discriminate.
  - intros cur. by apply inv_conserves.
  - apply (li_entry _ Hinv).
  - apply (li_one_reversal _ Hinv).
Qed.

(** C29: an entry that was posted is read back by [Get] as it was given, up to
    the microsecond resolution of its stored time. *)
Theorem Get_after_Post (e : JournalEntry) (s : Service) (w w' : World) :
  healthy s -> entry_typed e -> canonical_entry e -> ledger_inv (committed w) -> deferred_ok (committed w) = true ->
  1000 <= instant (recordedAt e) ->
  map_Forall (fun _ row => IsZero (ent_recorded_at row) = false) (t_entries (committed w)) ->
  Post e s w = (Ok tt, w') ->
  exists w'', Get (entry_id e) s w' =
    (Ok (mkEntry (entry_id e) (entryType e) (reversesEntryID e) (postings e) (UTC (stored_time (recordedAt e)))), w'').
Proof.
  intros Hs Ht Hc Hinv Hd Hat Htimes E. apply Post_spec in E as (prepared & now & Hp & Hpost & Ew); [|done..].
  destruct w' as [d' n]. cbn in Ew. subst d'.
  destruct (Get_posted e prepared now s (mkWorld (committed w) n)) as [w'' Hget]; try done. eauto.
Qed.

(** C30: [Reconcile] reports exactly the accounts whose snapshot differs from
    their postings, in the order of the accounts, and does not change anything;
    on a ledger in good order it reports none. *)
Theorem Reconcile_exact (s : Service) (w : World) :
  healthy s -> deferred_ok (committed w) = true ->
  exists l w', Reconcile s w = (Ok l, w') /\ committed w' = committed w /\
    (forall x, x ∈ l <-> exists a b, t_balances (committed w) !! a = Some b /\
       balance_minor b <> ledger_sum a (bal_currency b) (t_postings (committed w)) /\
       x = mkDiscrepancy (uuid_text a) (bal_currency b)
             (pretty (ledger_sum a (bal_currency b) (t_postings (committed w)))) (pretty (balance_minor b))) /\
    StronglySorted string_le (AccountID <$> l) /\
    (ledger_inv (committed w) -> l = []).
Proof.
  intros Hs Hd. set (l := selectBalanceDiscrepanciesQuery (committed w)).
  assert (E : query (fun d => Ok (selectBalanceDiscrepanciesQuery d)) s (begun s w) =
                (Ok l, advance (begun s w) (committed w))) by by apply query_healthy.
  destruct (run_tx_commit_healthy true _ _ _ _ _ Hs (quiet_query _) E) as (w' & E' & Ec); [done..|].
  assert (Hl : forall x, x ∈ l <-> exists a b, t_balances (committed w) !! a = Some b /\
       balance_minor b <> ledger_sum a (bal_currency b) (t_postings (committed w)) /\
       x = mkDiscrepancy (uuid_text a) (bal_currency b)
             (pretty (ledger_sum a (bal_currency b) (t_postings (committed w)))) (pretty (balance_minor b))).
  { intros x. unfold l, selectBalanceDiscrepanciesQuery. rewrite list_elem_of_fmap. split.
    - intros ([a b] & -> & Hin). rewrite merge_sort_Permutation, list_elem_of_filter, elem_of_map_to_list in Hin.
      destruct Hin as [Hne Hb]. exists a, b. split_and!; [done|congruence|done].
    - intros (a & b & Hb & Hne & ->). exists (a, b). split; [done|].
      rewrite merge_sort_Permutation, list_elem_of_filter, elem_of_map_to_list.
      split; [|done]. intros Heq%(inj pretty). congruence. }
  exists l, w'. split_and!; [exact E'|exact Ec|exact Hl| |].
  - unfold l, selectBalanceDiscrepanciesQuery. rewrite <- list_fmap_compose.
    erewrite list_fmap_ext; [apply sorted_rows|]. by intros _ [a b] _.
  - intros Hinv. apply elem_of_nil_inv. intros x (a & b & Hb & Hne & _)%Hl. apply Hne. by apply (li_snapshot _ Hinv).
Qed.

(** When the only obstacle is money, that is what is reported: if some
    customer's balance would become negative and every other check of the
    affected accounts passes, [Post] answers [ErrInsufficientFunds] and changes
    nothing. *)
Theorem Post_insufficient_funds (e : JournalEntry) (prepared : preparedEntry) (s : Service) (w : World) :
  healthy s -> entry_typed e -> ledger_inv (committed w) -> prepareEntry e = Ok prepared ->
  match reversesID prepared with
  | Some source => source_accepts (committed w) (pe_postings prepared) source
  | None => True
  end ->
  Forall (account_solvent_or_short (committed w) (pe_postings prepared)) (pe_postings prepared) ->
  Exists (account_short (committed w) (pe_postings prepared)) (pe_postings prepared) ->
  exists w', Post e s w = (Err [ErrInsufficientFunds], w') /\ committed w' = committed w.
Proof.
  intros Hs Ht Hinv Hp Hr Hall Hex. pose proof Hp as (Hw & _)%prepareEntry_Ok; [|done].
  destruct (postPrepared_short prepared s (begun s w)) as [st E]; [done|done|done|apply Hinv|done..|].
  by eapply Post_reject.
Qed.

(** A second reversal of an entry is refused with [ErrAlreadyReversed] and
    changes nothing. *)
Theorem Post_already_reversed (e : JournalEntry) (prepared : preparedEntry) (source id : UUID) (row : EntryRow)
    (s : Service) (w : World) :
  healthy s -> ledger_inv (committed w) -> prepareEntry e = Ok prepared -> reversesID prepared = Some source ->
  t_entries (committed w) !! id = Some row -> ent_reverses row = Some source ->
  exists w', Post e s w = (Err [ErrAlreadyReversed], w') /\ committed w' = committed w.
Proof.
  intros Hs Hinv Hp Hsrc Hrow Hrev.
  destruct (postPrepared_reversed prepared source id row s (begun s w)) as [st E]; [done..|]. by eapply Post_reject.
Qed.

(** The order in which an entry's accounts are updated depends only on which
    accounts it touches: two entries on the same accounts, in whatever order
    their postings come, update them in the same ascending order, and the rows
    are locked in ascending order too. *)
Theorem stable_account_order (e1 e2 : JournalEntry) (p1 p2 : preparedEntry) (d : DB) :
  entry_typed e1 -> entry_typed e2 -> prepareEntry e1 = Ok p1 -> prepareEntry e2 = Ok p2 ->
  (forall a, a ∈ accounts_of (pe_postings p1) <-> a ∈ accounts_of (pe_postings p2)) ->
  ch_accountID <$> changes p1 = ch_accountID <$> changes p2 /\
  StronglySorted string_le (uuid_text <$> (ch_accountID <$> changes p1)) /\
  StronglySorted string_le (fst <$> lockBalancesQuery (ch_accountID <$> changes p1) d).
Proof.
  intros Ht1 Ht2 Hp1 Hp2 Hsame. apply prepareEntry_Ok in Hp1 as (Hw1 & _); [|done].
  apply prepareEntry_Ok in Hp2 as (Hw2 & _); [|done].
  pose proof (pw_aggregates _ Hw1) as A1. pose proof (pw_aggregates _ Hw2) as A2. split_and!.
  - apply (inj (fmap uuid_text)). apply (StronglySorted_unique string_le); [apply A1|apply A2|].
    apply fmap_Permutation, NoDup_Permutation; [apply A1|apply A2|]. intros a.
    rewrite (ag_accounts _ _ A1), (ag_accounts _ _ A2). apply Hsame.
  - apply A1.
  - unfold lockBalancesQuery. rewrite <- list_fmap_compose.
    erewrite list_fmap_ext; [apply sorted_rows|]. by intros _ [a b] _.
Qed.

End Theorems.

(** ** Runs on a concrete ledger *)

Definition move (id : UUID) (kind : JournalEntryType) (source : string) (from to : UUID) (units : Z) (at_ : Z) : JournalEntry :=
  mkEntry (uuid_text id) kind source
    [mkPosting (uuid_text from) (mkMoney (- units) sample_currency);
     mkPosting (uuid_text to) (mkMoney units sample_currency)] (mkTime at_ 0).

Definition funding : JournalEntry := move id_entry JournalEntryTypeStandard "" id_system id_alice 25 1234567.
Definition payment : JournalEntry := move id_other JournalEntryTypeStandard "" id_alice id_bob 25 1234567.
Definition refund (id : UUID) : JournalEntry :=
  mkEntry (uuid_text id) JournalEntryTypeReversal (uuid_text id_entry) (negated <$> postings funding) (mkTime 2000000 0).

Definition fundedWorld : World := (Post funding calm sampleWorld).2.
Definition refundedWorld : World := run_posts [(funding, calm); (refund id_other, calm)] sampleWorld.

(** A service on which every commit is applied but never acknowledged. *)
Definition forgetful : Service := mkService (fun _ => None) (fun _ => CommitLost true) (fun _ => id_other)
  (fun _ => sample_now) (fun _ => false).

(** The decidable form of [fresh_ledger]. *)
Definition fresh_balances (d : DB) : bool :=
  forallb (fun '(a, b) =>
    (balance_minor b =? 0) && (bal_version b =? 0) &&
    (bool_decide (bal_type b = "customer") || bool_decide (bal_type b = "system")) &&
    match t_accounts d !! a with
    | Some acc => bool_decide (acc_currency acc = bal_currency b) | None => false end)
    (map_to_list (t_balances d)).

Lemma fresh_balances_sound d :
  t_entries d = ∅ -> t_postings d = [] -> fresh_balances d = true -> fresh_ledger d.
Proof.
  intros He Hp Hall. split; [done..|]. intros a b Hb. unfold fresh_balances in Hall. rewrite forallb_forall in Hall.
  specialize (Hall (a, b)). cbn beta iota in Hall. rewrite <- list_elem_of_In, elem_of_map_to_list in Hall. specialize (Hall Hb).
  destruct (t_accounts d !! a) as [acc|]; [|by rewrite andb_false_r in Hall]. bool_simpl.
  match goal with H : _ || _ = true |- _ => apply orb_true_iff in H end.
  rewrite !bool_decide_eq_true in *. split_and!; try assumption. exists acc. done.
Qed.

Lemma sample_fresh : fresh_ledger sampleDB.
Proof. apply fresh_balances_sound; [reflexivity|reflexivity|vm_compute; reflexivity]. Qed.

Lemma sample_inv : ledger_inv sampleDB.
Proof. apply fresh_ledger_inv, sample_fresh. Qed.

Lemma move_typed id kind src from to units at_ :
  bool_decide (in_int64 units) = true -> units <> MinInt64 -> entry_typed (move id kind src from to units at_).
Proof. intros Hi%bool_decide_eq_true Hm. repeat constructor; cbn; int64_lia. Qed.

Lemma funding_typed : entry_typed funding.
Proof. by apply move_typed. Qed.

Lemma refund_typed id : entry_typed (refund id).
Proof. repeat constructor; cbn; int64_lia. Qed.

Lemma prepared_ok e : is_ok (prepareEntry e) = true -> exists p, prepareEntry e = Ok p.
Proof. destruct (prepareEntry e); [eauto|done]. Qed.

Lemma payment_typed : entry_typed payment.
Proof. by apply move_typed. Qed.

Lemma Post_ok_pair e s w : is_ok (Post e s w).1 = true -> Post e s w = (Ok tt, (Post e s w).2).
Proof. destruct (Post e s w) as [[[]|] w']; [done|discriminate]. Qed.

Lemma prepares_text a m pp : prepares (mkPosting (uuid_text a) m) pp -> pp = mkPrepared a (currency m) (minorUnits m).
Proof.
  intros (Ha & Hc & Hu). cbn [accountID amount] in *. rewrite parseUUID_text in Ha. injection Ha as Ha.
  destruct pp as [a' c' u']. change (a = a') in Ha. change (currency m = c') in Hc. change (minorUnits m = u') in Hu.
  by subst.
Qed.

Lemma move_prepared id kind src from to units at_ p :
  entry_typed (move id kind src from to units at_) -> prepareEntry (move id kind src from to units at_) = Ok p ->
  pe_postings p = [mkPrepared from sample_currency (- units); mkPrepared to sample_currency units].
Proof.
  intros Ht (_ & _ & _ & HF)%prepareEntry_Ok; [|done]. cbn in HF.
  apply Forall2_cons_inv_l in HF as (p1 & l1 & ->%prepares_text & HF & ->).
  apply Forall2_cons_inv_l in HF as (p2 & l2 & ->%prepares_text & HF & ->).
  by apply Forall2_nil_inv_l in HF as ->.
Qed.

Lemma Post_refines_witness :
  exists prepared, prepareEntry funding = Ok prepared /\ postable sampleDB prepared.
Proof.
  destruct (prepared_ok funding) as [p Hp]; [vm_compute; reflexivity|]. exists p. split; [exact Hp|].
  apply (Post_refines funding p calm sampleWorld calm_healthy funding_typed sample_inv eq_refl Hp).
  vm_compute. reflexivity.
Defined.

Lemma Post_atomic_witness :
  (Post funding forgetful sampleWorld).1 = Err [Other "connection"] /\
  (committed (Post funding forgetful sampleWorld).2 = sampleDB \/
   exists prepared now, prepareEntry funding = Ok prepared /\
     committed (Post funding forgetful sampleWorld).2 = posted now prepared sampleDB).
Proof.
  assert (Hr : (Post funding forgetful sampleWorld).1 = Err [Other "connection"]) by (vm_compute; reflexivity).
  split; [exact Hr|]. destruct (Post funding forgetful sampleWorld) as [r w'] eqn:E. cbn [fst] in Hr. subst r.
  destruct (Post_atomic funding forgetful sampleWorld w' _ funding_typed sample_inv E)
    as [HP|(_ & p & now & Hp & _ & HP)]; [left; exact HP|].
  right. exists p, now. split; [exact Hp|exact HP].
Defined.

Lemma ledger_sound_witness :
  balance_total "USD" (committed (run_posts [(funding, calm); (payment, forgetful)] sampleWorld)) = 0.
Proof.
  apply (ledger_sound [(funding, calm); (payment, forgetful)] sampleWorld).
  - apply sample_fresh.
  - constructor; [apply funding_typed|]. constructor; [|constructor]. apply move_typed; [reflexivity|done].
Defined.

Lemma Get_after_Post_witness :
  exists w'', Get (entry_id funding) calm fundedWorld =
    (Ok (mkEntry (entry_id funding) JournalEntryTypeStandard "" (postings funding) (mkTime 1234000 0)), w'').
Proof.
  destruct (Get_after_Post funding calm sampleWorld fundedWorld) as [w'' Hget].
  - apply calm_healthy.
  - apply funding_typed.
  - split; [vm_compute; reflexivity|repeat constructor; vm_compute; reflexivity|discriminate].
  - apply sample_inv.
  - reflexivity.
  - vm_compute. discriminate.
  - intros id row Hrow. change (t_entries (committed sampleWorld)) with (∅ : gmap UUID EntryRow) in Hrow.
    rewrite lookup_empty in Hrow. discriminate.
  - apply Post_ok_pair. vm_compute. reflexivity.
  - exists w''. exact Hget.
Defined.

Lemma Reconcile_exact_witness :
  exists w', Reconcile calm sampleWorld = (Ok [], w') /\ committed w' = sampleDB.
Proof.
  destruct (Reconcile_exact calm sampleWorld calm_healthy eq_refl) as (l & w' & E & Hc & _ & _ & Hn).
  exists w'. split; [|exact Hc]. rewrite E. rewrite (Hn sample_inv). reflexivity.
Defined.

Lemma Post_insufficient_funds_witness :
  exists w', Post payment calm sampleWorld = (Err [ErrInsufficientFunds], w') /\ committed w' = sampleDB.
Proof.
  destruct (prepared_ok payment) as [p Hp]; [vm_compute; reflexivity|].
  pose proof (move_prepared _ _ _ _ _ _ _ _ payment_typed Hp) as Hps.
  apply (Post_insufficient_funds payment p calm sampleWorld).
  - apply calm_healthy.
  - apply payment_typed.
  - apply sample_inv.
  - exact Hp.
  - pose proof (prepareEntry_source _ _ Hp) as Hs. destruct (reversesID p); [destruct Hs; discriminate|exact I].
  - rewrite Hps. repeat constructor.
    + exists (sample_balance "customer"). split; [apply sample_balance_alice|].
      split_and!; [reflexivity|vm_compute; split; discriminate|auto|discriminate].
    + exists (sample_balance "customer"). split; [apply sample_balance_bob|].
      split_and!; [reflexivity|vm_compute; split; discriminate|auto|discriminate].
  - rewrite Hps. left. exists (sample_balance "customer"). split; [apply sample_balance_alice|].
    split; [reflexivity|vm_compute; reflexivity].
Defined.

Lemma Post_already_reversed_witness :
  exists w', Post (refund id_wallet) calm refundedWorld = (Err [ErrAlreadyReversed], w') /\
    committed w' = committed refundedWorld.
Proof.
  destruct (ok_with (prepareEntry (refund id_wallet)) (fun p => bool_decide (reversesID p = Some id_entry)))
    as (p & Hp & Hb); [vm_compute; reflexivity|].
  destruct (some_with (t_entries (committed refundedWorld) !! id_other)
    (fun row => bool_decide (ent_reverses row = Some id_entry))) as (row & Hrow & Hr); [vm_compute; reflexivity|].
  apply (Post_already_reversed (refund id_wallet) p id_entry id_other row calm refundedWorld).
  - apply calm_healthy.
  - apply run_posts_inv; [|apply sample_inv]. constructor; [apply funding_typed|]. constructor; [|constructor].
    apply refund_typed.
  - exact Hp.
  - exact (bool_decide_eq_true_1 _ Hb).
  - exact Hrow.
  - exact (bool_decide_eq_true_1 _ Hr).
Defined.

Lemma stable_account_order_witness :
  let reversed := move id_other JournalEntryTypeStandard "" id_alice id_system 7 2000 in
  exists p1 p2, prepareEntry funding = Ok p1 /\ prepareEntry reversed = Ok p2 /\
    ch_accountID <$> changes p1 = ch_accountID <$> changes p2.
Proof.
  intros reversed. assert (Ht : entry_typed reversed) by (apply move_typed; [reflexivity|done]).
  destruct (prepared_ok funding) as [p1 H1]; [vm_compute; reflexivity|].
  destruct (prepared_ok reversed) as [p2 H2]; [vm_compute; reflexivity|].
  exists p1, p2. split; [exact H1|]. split; [exact H2|].
  apply (stable_account_order funding reversed p1 p2 sampleDB funding_typed Ht H1 H2).
  rewrite (move_prepared _ _ _ _ _ _ _ _ funding_typed H1), (move_prepared _ _ _ _ _ _ _ _ Ht H2).
  intros a. change (a ∈ [id_system; id_alice] <-> a ∈ [id_alice; id_system]).
  rewrite !elem_of_cons, elem_of_nil. tauto.
Defined.
