(* ===== verification/WalletRepo.v ===== *)
(** * Wallets and their accounts

    [internal/wallet/model.go] and [internal/wallet/postgres/repository.go]: a
    wallet is created with one account and one zero balance per currency, and read
    back with its balances, each in one transaction. *)

From stdpp Require Import base list gmap strings numbers sorting.
From Stdlib Require Import ZArith Lia.
From S2P Require Import Prelude GoText Money Database LedgerRepo.

Open Scope string_scope.
Open Scope Z_scope.

(** ** model.go *)

Definition ErrInvalidStatus : leaf := errors_New "wallet domain: invalid status".

(** [Status] is a string type. *)
Definition StatusActive : string := "active".
Definition StatusFrozen : string := "frozen".
Definition StatusClosed : string := "closed".

Definition ParseStatus (value : string) : Result string :=
  if bool_decide (value = StatusActive) || bool_decide (value = StatusFrozen) || bool_decide (value = StatusClosed)
  then Ok value else Err [ErrInvalidStatus].

Record Account := mkAccount {
  account_ID : string;
  account_WalletID : string;
  account_Status : string;
  account_Balance : Money;
  account_BalanceVersion : Z;
  account_CreatedAt : Time;
  account_UpdatedAt : Time
}.

Record Wallet := mkWallet {
  wallet_ID : string;
  wallet_OwnerID : string;
  wallet_Status : string;
  wallet_Accounts : list Account;
  wallet_CreatedAt : Time;
  wallet_UpdatedAt : Time
}.

(** ** repository.go *)

Definition ErrInvalidArgument : leaf := errors_New "wallet repository: invalid argument".
Definition ErrNotFound : leaf := errors_New "wallet repository: wallet not found".

Definition maxCurrenciesPerWallet : nat := 32.

(** The loop of [normalizeCurrencies]. *)
Fixpoint collect_codes (currencies : list Currency) (codes : list string) (seen : gset string) : Result (list string) :=
  match currencies with
  | [] => Ok codes
  | c :: rest =>
      let code := currency_String c in
      if bool_decide (code = "") then Err [ErrInvalidArgument]
      else if bool_decide (code ∈ seen) then Err [ErrInvalidArgument]
      else collect_codes rest (codes ++ [code])%list ({[ code ]} ∪ seen)
  end.

Definition normalizeCurrencies (currencies : list Currency) : Result (list string) :=
  if bool_decide (length currencies = 0%nat) then Err [ErrInvalidArgument]
  else if bool_decide (maxCurrenciesPerWallet < length currencies)%nat then Err [ErrInvalidArgument]
  else
    codes ← collect_codes currencies [] ∅;
    mret (sort_strings codes).

Definition decodeAccount (account : Money -> string -> Account) (currencyCode statusValue : string) (balanceMinor : Z)
    : Result Account :=
  currency ← ParseCurrency currencyCode;
  status ← ParseStatus statusValue;
  balance ← NewMoney balanceMinor currency;
  mret (account balance status).

Section Repository.
Context `{Pg}.

(** ** SQL statements *)

(** [insertWalletQuery]: the status is the column default. *)
Definition insertWalletQuery (owner : UUID) (s : Service) (n : nat) (now : Time) (d : DB) : Result (UUID * WalletRow * DB) :=
  let id := generated s n in
  let row := mkWalletRow owner "active" now now in
  if negb (bool_decide (t_wallets d !! id = None)) then Err (unique_violation "wallets_pkey")
  else Ok (id, row, set_wallets (insert id row) d).

(** The account and the balance [insertAccountQuery] returns. *)
Definition AccountRecord : Type := UUID * AccountRow * BalanceRow.

(** [insertAccountQuery]: both rows, with their column defaults. *)
Definition insertAccountQuery (walletID currencyCode : string) (s : Service) (n : nat) (now : Time) (d : DB)
    : Result (AccountRecord * DB) :=
  match uuid_scan walletID with
  | None => Err invalid_text
  | Some wallet =>
      let id := generated s n in
      let account := mkAccountRow wallet currencyCode "active" "customer" now in
      let balance := mkBalanceRow currencyCode "customer" 0 0 now in
      if negb (currency_check currencyCode) then Err (check_violation "accounts_currency_check")
      else if negb (bool_decide (t_accounts d !! id = None)) then Err (unique_violation "accounts_pkey")
      else if existsb (fun '(_, a) => bool_decide (acc_wallet a = wallet) && bool_decide (acc_currency a = currencyCode))
                (map_to_list (t_accounts d))
      then Err (unique_violation "accounts_wallet_currency_key")
      else if negb (bool_decide (is_Some (t_wallets d !! wallet))) then Err (foreign_key_violation "accounts_wallet_id_fkey")
      else if negb (bool_decide (t_balances d !! id = None)) then Err (unique_violation "account_balances_pkey")
      else Ok ((id, account, balance),
               set_balances (insert id balance) (set_accounts (insert id account) d))
  end.

Definition selectWalletQuery (walletID : UUID) (d : DB) : option (UUID * WalletRow) :=
  match t_wallets d !! walletID with Some row => Some (walletID, row) | None => None end.

(** ORDER BY account.currency. *)
Definition currency_row_le (x y : AccountRecord) : Prop := string_le (acc_currency x.1.2) (acc_currency y.1.2).

#[export] Instance currency_row_le_dec : RelDecision currency_row_le.
Proof. intros x y. unfold currency_row_le. apply _. Defined.

(** [selectAccountsQuery]: the accounts of the wallet joined with their balances. *)
Definition selectAccountsQuery (walletID : UUID) (d : DB) : list AccountRecord :=
  merge_sort currency_row_le
    (omap (fun '(id, a) =>
      if bool_decide (acc_wallet a = walletID) then
        match t_balances d !! id with
        | Some b => if bool_decide (bal_currency b = acc_currency a) then Some (id, a, b) else None
        | None => None
        end
      else None) (map_to_list (t_accounts d))).

(** ** Operations *)

(** The scanned columns of a wallet, its status parsed. *)
Definition restore_wallet (id : UUID) (row : WalletRow) : Result Wallet :=
  status ← ParseStatus (wal_status row);
  mret (mkWallet (uuid_text id) (uuid_text (wal_owner row)) status [] (wal_created_at row) (wal_updated_at row)).

(** The scanned columns of an account, decoded. *)
Definition restore_account (r : AccountRecord) : Result Account :=
  let '(id, a, b) := r in
  decodeAccount (fun balance status =>
      mkAccount (uuid_text id) (uuid_text (acc_wallet a)) status balance (bal_version b) (acc_created_at a) (bal_updated_at b))
    (acc_currency a) (acc_status a) (balance_minor b).

Definition insertWallet (owner : UUID) : Tx Wallet :=
  '(id, row) ← stmt (insertWalletQuery owner);
  lift (restore_wallet id row).

Definition insertAccount (walletID currencyCode : string) : Tx Account :=
  r ← stmt (insertAccountQuery walletID currencyCode);
  lift (restore_account r).

Definition selectWallet (walletID : UUID) : Tx Wallet :=
  found ← query (fun d => Ok (selectWalletQuery walletID d));
  match found with
  | None => lift (Err [ErrNotFound])
  | Some (id, row) => lift (restore_wallet id row)
  end.

(** The loop over the rows. *)
Fixpoint restore_accounts (rows : list AccountRecord) : Result (list Account) :=
  match rows with
  | [] => Ok []
  | r :: rest =>
      account ← restore_account r;
      accounts ← restore_accounts rest;
      mret (account :: accounts)
  end.

Definition selectAccounts (walletID : UUID) : Tx (list Account) :=
  rows ← query (fun d => Ok (selectAccountsQuery walletID d));
  lift (restore_accounts rows).

(** The loop of [Create]. *)
Fixpoint insert_accounts (walletID : string) (codes : list string) : Tx (list Account) :=
  match codes with
  | [] => mret []
  | code :: rest =>
      account ← insertAccount walletID code;
      accounts ← insert_accounts walletID rest;
      mret (account :: accounts)
  end.

Definition with_accounts (w : Wallet) (accounts : list Account) : Wallet :=
  mkWallet (wallet_ID w) (wallet_OwnerID w) (wallet_Status w) accounts (wallet_CreatedAt w) (wallet_UpdatedAt w).

Definition create_wallet_body (owner : UUID) (codes : list string) : Tx Wallet :=
  created ← insertWallet owner;
  accounts ← insert_accounts (wallet_ID created) codes;
  _ ← commit;
  mret (with_accounts created accounts).

Definition Create (ownerID : string) (currencies : list Currency) (s : Service) (w : World) : Result Wallet * World :=
  match wrap_err [ErrInvalidArgument] (parseUUID ownerID) with
  | Err e => (Err e, w)
  | Ok owner =>
      match normalizeCurrencies currencies with
      | Err e => (Err e, w)
      | Ok codes => run_tx true (create_wallet_body owner codes) s w
      end
  end.

Definition get_wallet_body (walletID : UUID) : Tx Wallet :=
  result ← selectWallet walletID;
  accounts ← selectAccounts walletID;
  _ ← commit;
  mret (with_accounts result accounts).

Definition Get (walletID : string) (s : Service) (w : World) : Result Wallet * World :=
  match wrap_err [ErrInvalidArgument] (parseUUID walletID) with
  | Err e => (Err e, w)
  | Ok wallet => run_tx true (get_wallet_body wallet) s w
  end.

End Repository.
