(* ===== verification/WalletTheorems.v ===== *)
(** * Wallets: lemmas and properties *)

From stdpp Require Import base list gmap strings numbers sorting.
From Stdlib Require Import ZArith Lia Ascii.
From S2P Require Import Prelude GoText Money Database PgInstance LedgerRepo LedgerSpec LedgerCorrect WalletRepo.

Open Scope string_scope.
Open Scope Z_scope.

(** ** Currencies *)

Lemma collect_codes_Ok currencies codes seen l :
  collect_codes currencies codes seen = Ok l ->
  l = (codes ++ (currency_String <$> currencies))%list /\ Forall (fun c => currency_valid c = true) currencies /\
  NoDup (currency_String <$> currencies) /\ Forall (fun code => code ∉ seen) (currency_String <$> currencies).
Proof.
  revert codes seen. induction currencies as [|c rest IH]; intros codes seen; cbn.
  - intros [= <-]. rewrite app_nil_r. split_and!; try done; constructor.
  - case_bool_decide as E1; [done|]. case_bool_decide as E2; [done|]. intros (-> & Hv & Hn & Hs)%IH.
    rewrite <- app_assoc. split_and!; [done| | |].
    + constructor; [|done]. destruct (currency_valid c) eqn:E; [done|]. by apply currency_String_empty in E.
    + constructor; [|done]. intros Hin. rewrite Forall_forall in Hs. apply (Hs _ Hin). set_solver.
    + constructor; [done|]. eapply Forall_impl; [exact Hs|]. cbn. set_solver.
Qed.

Lemma normalizeCurrencies_Ok currencies codes :
  normalizeCurrencies currencies = Ok codes ->
  codes ≡ₚ (currency_String <$> currencies) /\ StronglySorted string_le codes /\ NoDup codes /\
  Forall (fun code => currency_check code = true) codes.
Proof.
  unfold normalizeCurrencies. case_bool_decide; [done|]. case_bool_decide; [done|].
  destruct (collect_codes currencies [] ∅) as [l|] eqn:E; [|done]. cbn. intros [= <-].
  apply collect_codes_Ok in E as (-> & Hv & Hn & _). cbn [app].
  assert (Hp : sort_strings (currency_String <$> currencies) ≡ₚ (currency_String <$> currencies)) by apply merge_sort_Permutation.
  split_and!; [done|apply (StronglySorted_merge_sort string_le)|by rewrite Hp|]. rewrite Hp. apply Forall_fmap.
  eapply Forall_impl; [exact Hv|]. intros c Hc. cbn. unfold currency_check. by rewrite ParseCurrency_String.
Qed.

Section Theorems.
Context `{PgLaws}.

(** ** What creating a wallet adds *)

Definition new_wallet (owner : UUID) (now : Time) : WalletRow := mkWalletRow owner "active" now now.
Definition new_account (wallet : UUID) (now : Time) (code : string) : AccountRow := mkAccountRow wallet code "active" "customer" now.
Definition new_balance (now : Time) (code : string) : BalanceRow := mkBalanceRow code "customer" 0 0 now.

Definition account_added (wallet : UUID) (now : Time) (id : UUID) (code : string) (d : DB) : DB :=
  set_balances (insert id (new_balance now code)) (set_accounts (insert id (new_account wallet now code)) d).

(** The insertions of the loop, one after the other. *)
Inductive accounts_added (wallet : UUID) (now : Time) : list string -> list UUID -> DB -> DB -> Prop :=
| AddedNone d : accounts_added wallet now [] [] d d
| AddedOne code codes id ids d d' :
    t_accounts d !! id = None -> t_balances d !! id = None -> is_Some (t_wallets d !! wallet) ->
    accounts_added wallet now codes ids (account_added wallet now id code d) d' ->
    accounts_added wallet now (code :: codes) (id :: ids) d d'.

(** The wallet and all its accounts are new, and nothing else has changed. *)
Record opened (owner : UUID) (codes : list string) (now : Time) (id : UUID) (ids : list UUID) (d d' : DB) : Prop := {
  op_wallet : t_wallets d !! id = None;
  op_ids : length ids = length codes /\ NoDup ids;
  op_fresh a : a ∈ ids -> t_accounts d !! a = None /\ t_balances d !! a = None;
  op_tables : d' =
    set_balances (fun m => list_to_map (zip ids (new_balance now <$> codes)) ∪ m)
      (set_accounts (fun m => list_to_map (zip ids (new_account id now <$> codes)) ∪ m)
        (set_wallets (insert id (new_wallet owner now)) d))
}.

(** The accounts as they are reported. *)
Definition account_view (wallet : UUID) (now : Time) (id : UUID) (c : Currency) : Account :=
  mkAccount (uuid_text id) (uuid_text wallet) StatusActive (mkMoney 0 c) 0 now now.

Definition wallet_view (owner : UUID) (now : Time) (id : UUID) (accounts : list Account) : Wallet :=
  mkWallet (uuid_text id) (uuid_text owner) StatusActive accounts now now.

Definition records (wallet : UUID) (now : Time) (ids : list UUID) (codes : list string) : list AccountRecord :=
  zip_with (fun id code => (id, new_account wallet now code, new_balance now code)) ids codes.

Lemma accounts_added_tables wallet now codes ids d d' :
  accounts_added wallet now codes ids d d' ->
  length ids = length codes /\ NoDup ids /\ (forall a, a ∈ ids -> t_accounts d !! a = None /\ t_balances d !! a = None) /\
  d' = set_balances (fun m => list_to_map (zip ids (new_balance now <$> codes)) ∪ m)
         (set_accounts (fun m => list_to_map (zip ids (new_account wallet now <$> codes)) ∪ m) d).
Proof.
  induction 1 as [d|code codes id ids d d' Ha Hb _ _ (IHl & IHn & IHf & ->)].
  - split_and!; [done|constructor|set_solver|]. destruct d. unfold set_balances, set_accounts. cbn. by rewrite !(left_id_L ∅ (∪)).
  - assert (Hid : id ∉ ids).
    { intros [Hx _]%IHf. cbn in Hx. by rewrite lookup_insert_eq in Hx. }
    split_and!; [cbn; lia|by constructor| |].
    + intros a [->|Hin]%elem_of_cons; [done|]. destruct (IHf _ Hin) as [H1 H2]. cbn in H1, H2.
      by apply lookup_insert_None in H1 as [? _], H2 as [? _].
    + assert (Hz : forall {A} (l : list A), (list_to_map (zip ids l) : gmap UUID A) !! id = None).
      { intros A l. apply not_elem_of_list_to_map. intros (x & -> & Hx)%list_elem_of_fmap.
        destruct x as [x1 x2]. apply elem_of_zip_l in Hx. done. }
      assert (Hu : forall {A} (l : list A) x (m : gmap UUID A),
        list_to_map (zip ids l) ∪ <[id := x]> m = <[id := x]> (list_to_map (zip ids l)) ∪ m).
      { intros A l x m. rewrite <- insert_union_r by apply Hz. by rewrite insert_union_l. }
      destruct d. unfold account_added, set_balances, set_accounts. cbn. by rewrite !Hu.
Qed.

Lemma insertAccount_Ok walletID code wallet s st a st' :
  uuid_scan walletID = Some wallet -> insertAccount walletID code s st = (Ok a, st') ->
  exists id, t_accounts (tx_db st) !! id = None /\ t_balances (tx_db st) !! id = None /\
    is_Some (t_wallets (tx_db st) !! wallet) /\
    st' = advance st (account_added wallet (tx_now st) id code (tx_db st)) /\
    restore_account (id, new_account wallet (tx_now st) code, new_balance (tx_now st) code) = Ok a.
Proof.
  intros Hw. unfold insertAccount. intros (r & st1 & HS & [HR ->]%lift_Ok)%mbind_Ok.
  apply stmt_Ok in HS as (Ho & _ & HQ & Hst). unfold insertAccountQuery in HQ. rewrite Hw in HQ.
  destruct (negb (currency_check code)); [done|]. case_bool_decide as E1; [|done]. cbn [negb] in HQ.
  destruct (existsb _ _); [done|]. case_bool_decide as E2; [|done]. cbn [negb] in HQ. case_bool_decide as E3; [|done].
  cbn [negb] in HQ. injection HQ as <- Hdb. exists (generated s (tx_tick st)). split_and!; [done..| |done].
  rewrite Hst, <- Hdb. done.
Qed.

Lemma insert_accounts_Ok walletID wallet codes s st accounts st' :
  uuid_scan walletID = Some wallet -> insert_accounts walletID codes s st = (Ok accounts, st') ->
  exists ids, accounts_added wallet (tx_now st) codes ids (tx_db st) (tx_db st') /\
    restore_accounts (records wallet (tx_now st) ids codes) = Ok accounts.
Proof.
  intros Hw. revert st accounts st'. induction codes as [|code codes IH]; intros st accounts st'; cbn [insert_accounts].
  - intros [= <- <-]. exists []. split; [constructor|done].
  - intros (a & st1 & Ha & (l & st2 & Hl & [= <- <-])%mbind_Ok)%mbind_Ok.
    apply insertAccount_Ok with (wallet := wallet) in Ha as (id & F1 & F2 & F3 & -> & HR); [|done].
    apply IH in Hl as (ids & HA & HL). cbn [tx_now tx_db advance] in HA, HL. exists (id :: ids). split; [by constructor|].
    change (records wallet (tx_now st) (id :: ids) (code :: codes)) with
      ((id, new_account wallet (tx_now st) code, new_balance (tx_now st) code) :: records wallet (tx_now st) ids codes).
    cbn [restore_accounts]. by rewrite HR, HL.
Qed.

(** The reported accounts of the inserted rows. *)
Lemma restore_new wallet now ids sorted :
  length ids = length sorted -> Forall (fun c => currency_valid c = true) sorted ->
  restore_accounts (records wallet now ids (currency_String <$> sorted)) = Ok (zip_with (account_view wallet now) ids sorted).
Proof.
  intros Hl Hv. revert ids Hl. induction Hv as [|c sorted Hc _ IH]; intros [|id ids] Hl; try done.
  change (records wallet now (id :: ids) (currency_String <$> (c :: sorted))) with
    ((id, new_account wallet now (currency_String c), new_balance now (currency_String c)) ::
      records wallet now ids (currency_String <$> sorted)).
  cbn [restore_accounts zip_with]. unfold restore_account, decodeAccount. cbn [acc_currency new_account].
  rewrite ParseCurrency_String by done. cbn. rewrite NewMoney_wf_ok by done. cbn. by rewrite IH by (cbn in Hl; lia).
Qed.

Lemma sorted_currencies currencies codes :
  normalizeCurrencies currencies = Ok codes ->
  exists sorted, codes = currency_String <$> sorted /\ sorted ≡ₚ currencies /\
    Forall (fun c => currency_valid c = true) sorted.
Proof.
  intros HN. pose proof HN as (Hp & _ & _ & _)%normalizeCurrencies_Ok.
  apply Permutation_map_inv in Hp as (sorted & -> & Hp). exists sorted. split_and!; [done|done|].
  rewrite <- Hp. unfold normalizeCurrencies in HN. case_bool_decide; [done|]. case_bool_decide; [done|].
  destruct (collect_codes currencies [] ∅) eqn:E; [|done]. by apply collect_codes_Ok in E as (_ & ? & _).
Qed.

(** ** Create *)

(** A new wallet with an empty account in each currency, and what is reported of it. *)
Definition opens (ownerID : string) (currencies : list Currency) (now : Time) (d d' : DB) (wallet : Wallet) : Prop :=
  exists owner sorted id ids,
    uuid_scan ownerID = Some owner /\ sorted ≡ₚ currencies /\ sorted <> [] /\ Forall (fun c => currency_valid c = true) sorted /\
    StronglySorted string_le (currency_String <$> sorted) /\ NoDup (currency_String <$> sorted) /\
    opened owner (currency_String <$> sorted) now id ids d d' /\
    wallet = wallet_view owner now id (zip_with (account_view id now) ids sorted).

Definition create_wallet_work (owner : UUID) (codes : list string) : Tx Wallet :=
  created ← insertWallet owner;
  accounts ← insert_accounts (wallet_ID created) codes;
  mret (with_accounts created accounts).

Lemma quiet_insert_accounts walletID codes : quiet (insert_accounts walletID codes).
Proof. induction codes; cbn [insert_accounts]; unfold insertAccount; quiet. Qed.

Lemma quiet_create_wallet owner codes : quiet (create_wallet_work owner codes).
Proof. unfold create_wallet_work, insertWallet. quiet. apply quiet_insert_accounts. Qed.

Lemma create_wallet_ends owner codes : ends (create_wallet_work owner codes) (create_wallet_body owner codes).
Proof. unfold create_wallet_work, create_wallet_body. ends. Qed.

Lemma insertWallet_Ok owner s st wallet st' :
  insertWallet owner s st = (Ok wallet, st') ->
  exists id, t_wallets (tx_db st) !! id = None /\ wallet = wallet_view owner (tx_now st) id [] /\
    st' = advance st (set_wallets (insert id (new_wallet owner (tx_now st))) (tx_db st)).
Proof.
  unfold insertWallet. intros ([id row] & st1 & HS & [HR ->]%lift_Ok)%mbind_Ok.
  apply stmt_Ok in HS as (Ho & _ & HQ & Hst). unfold insertWalletQuery in HQ. case_bool_decide as E; [|done]. cbn [negb] in HQ.
  injection HQ as <- <- Hdb. cbn in HR. injection HR as <-. eexists. split_and!; [exact E|done|]. by rewrite Hst, <- Hdb.
Qed.

Lemma create_wallet_Ok ownerID owner currencies codes s st wallet st' :
  uuid_scan ownerID = Some owner -> normalizeCurrencies currencies = Ok codes ->
  create_wallet_work owner codes s st = (Ok wallet, st') ->
  opens ownerID currencies (tx_now st) (tx_db st) (tx_db st') wallet.
Proof.
  intros Ho Hn (created & st1 & HI & (accounts & st2 & HA & [= <- <-])%mbind_Ok)%mbind_Ok.
  apply insertWallet_Ok in HI as (id & Hid & -> & ->).
  apply insert_accounts_Ok with (wallet := id) in HA as (ids & HA & HR); [|apply uuid_scan_text].
  apply accounts_added_tables in HA as (Hl & Hd & Hf & HT). cbn [tx_now tx_db advance] in *.
  destruct (sorted_currencies _ _ Hn) as (sorted & -> & Hp & Hv). rewrite length_fmap in Hl.
  destruct (normalizeCurrencies_Ok _ _ Hn) as (_ & Hs & Hnd & _).
  rewrite restore_new in HR by done. injection HR as <-. exists owner, sorted, id, ids.
  split_and!; [done|done| |done..| |done].
  - intros ->. apply Permutation_nil in Hp. by subst.
  - split; [done|by rewrite length_fmap|done|done].
Qed.

Lemma wallet_Create_outcome ownerID currencies s w r w' :
  Create ownerID currencies s w = (r, w') ->
  match r with
  | Ok wallet => opens ownerID currencies (now_at s (tick w)) (committed w) (committed w') wallet
  | Err e => committed w' = committed w \/ e = [Other "connection"] /\
      exists wallet, opens ownerID currencies (now_at s (tick w)) (committed w) (committed w') wallet
  end.
Proof.
  unfold Create, parseUUID. destruct (uuid_scan ownerID) as [owner|] eqn:Eo; cbn; [|intros [= <- <-]; by left].
  destruct (normalizeCurrencies currencies) as [codes|] eqn:En; [|intros [= <- <-]; by left].
  intros HR. apply (run_tx_ends _ _ _ _ _ _ _ (create_wallet_ends owner codes) (quiet_create_wallet owner codes)) in HR.
  destruct r as [wallet|e].
  - destruct HR as (st & HR & ->). by apply (create_wallet_Ok ownerID owner currencies) in HR.
  - destruct HR as [?|(-> & wallet & st & HR & ->)]; [by left|right]. split; [done|]. exists wallet.
    by apply (create_wallet_Ok ownerID owner currencies) in HR.
Qed.

(** ** Get *)

(** The foreign key of the accounts. *)
Definition accounts_owned (d : DB) : Prop :=
  forall a acc, t_accounts d !! a = Some acc -> is_Some (t_wallets d !! acc_wallet acc).

Lemma empty_owned : accounts_owned emptyDB.
Proof. intros a acc Ha. cbn in Ha. by rewrite lookup_empty in Ha. Qed.

#[local] Instance currency_row_le_trans : Transitive currency_row_le.
Proof. intros x y z. unfold currency_row_le. apply string_le_trans. Qed.

#[local] Instance currency_row_le_total : Total currency_row_le.
Proof. intros x y. unfold currency_row_le. apply string_le_total. Qed.

(** The rows the query selects, before they are ordered. *)
Definition joined (wallet : UUID) (d : DB) (x : UUID * AccountRow) : option AccountRecord :=
  let '(id, a) := x in
  if bool_decide (acc_wallet a = wallet) then
    match t_balances d !! id with
    | Some b => if bool_decide (bal_currency b = acc_currency a) then Some (id, a, b) else None
    | None => None
    end
  else None.

Lemma omap_none {A B} (f : A -> option B) l : (forall x, x ∈ l -> f x = None) -> omap f l = [].
Proof.
  induction l as [|x l IH]; intros Hf; [done|]. cbn. rewrite (Hf x) by set_solver. apply IH. set_solver.
Qed.

Lemma joined_new wallet now d ids codes :
  length ids = length codes ->
  (forall i id code, ids !! i = Some id -> codes !! i = Some code -> t_balances d !! id = Some (new_balance now code)) ->
  omap (joined wallet d) (zip ids (new_account wallet now <$> codes)) = records wallet now ids codes.
Proof.
  revert codes. induction ids as [|id ids IH]; intros [|code codes] Hl Hb; try done. cbn in Hl.
  change (zip (id :: ids) (new_account wallet now <$> (code :: codes))) with
    ((id, new_account wallet now code) :: zip ids (new_account wallet now <$> codes)).
  change (records wallet now (id :: ids) (code :: codes)) with
    ((id, new_account wallet now code, new_balance now code) :: records wallet now ids codes).
  cbn [omap list_omap]. unfold joined at 1. cbn [acc_wallet new_account]. rewrite bool_decide_eq_true_2 by done.
  rewrite (Hb 0%nat id code) by done. cbn. rewrite bool_decide_eq_true_2 by done. f_equal. apply IH; [lia|]. intros i. apply (Hb (S i)).
Qed.

Lemma records_sorted wallet now ids codes :
  StronglySorted string_le codes -> StronglySorted currency_row_le (records wallet now ids codes).
Proof.
  intros Hs. revert ids. induction Hs as [|code codes _ IH Hf]; intros [|id ids]; try constructor.
  - apply IH.
  - clear IH. revert ids. induction Hf as [|c l Hc _ IHf]; intros [|i l']; try constructor; [exact Hc|apply IHf].
Qed.

Lemma records_elem wallet now ids codes x : x ∈ records wallet now ids codes ->
  exists i id code, ids !! i = Some id /\ codes !! i = Some code /\ x = (id, new_account wallet now code, new_balance now code).
Proof.
  intros (i & Hi)%list_elem_of_lookup. unfold records in Hi. rewrite lookup_zip_with in Hi.
  destruct (ids !! i) as [id|] eqn:E1; [|done]. destruct (codes !! i) as [code|] eqn:E2; [|done]. cbn in Hi.
  injection Hi as <-. by exists i, id, code.
Qed.

(** Accounts of distinct currencies are ordered in one way. *)
Lemma records_unique wallet now ids codes l :
  StronglySorted string_le codes -> NoDup codes -> l ≡ₚ records wallet now ids codes ->
  merge_sort currency_row_le l = records wallet now ids codes.
Proof.
  intros Hs Hn Hp. apply (StronglySorted_unique_strong currency_row_le).
  - intros x y Hx Hy Hxy Hyx. rewrite merge_sort_Permutation, Hp in Hx.
    apply records_elem in Hx as (i & id1 & c1 & Hi1 & Hc1 & ->), Hy as (j & id2 & c2 & Hi2 & Hc2 & ->).
    assert (c1 = c2) as -> by (by apply (anti_symm string_le)).
    assert (i = j) as -> by (by eapply NoDup_lookup). congruence.
  - apply (StronglySorted_merge_sort currency_row_le).
  - by apply records_sorted.
  - by rewrite merge_sort_Permutation.
Qed.

Lemma opened_balance owner codes now id ids d d' i a code :
  opened owner codes now id ids d d' -> ids !! i = Some a -> codes !! i = Some code ->
  t_balances d' !! a = Some (new_balance now code).
Proof.
  intros [_ [Hl Hn] _ ->] Ha Hc. cbn. apply lookup_union_Some_l, elem_of_list_to_map_1.
  - rewrite fst_zip by (rewrite length_fmap; lia). done.
  - apply list_elem_of_lookup. exists i. rewrite lookup_zip_with, list_lookup_fmap, Ha, Hc. done.
Qed.

Lemma opened_accounts owner codes now id ids d d' :
  opened owner codes now id ids d d' ->
  map_to_list (t_accounts d') ≡ₚ (zip ids (new_account id now <$> codes) ++ map_to_list (t_accounts d))%list.
Proof.
  intros [_ [Hl Hn] Hf ->]. cbn. assert (Hz : NoDup (zip ids (new_account id now <$> codes)).*1).
  { rewrite fst_zip by (rewrite length_fmap; lia). done. }
  rewrite <- (list_to_map_to_list (t_accounts d)) at 1. rewrite <- list_to_map_app. apply map_to_list_to_map.
  rewrite fmap_app. apply NoDup_app. split; [done|]. split; [|apply NoDup_fst_map_to_list].
  rewrite fst_zip by (rewrite length_fmap; lia). intros a Ha ([b x] & -> & Hx%elem_of_map_to_list)%list_elem_of_fmap.
  destruct (Hf _ Ha). cbn in *. congruence.
Qed.

Lemma opened_select owner codes now id ids d d' :
  opened owner codes now id ids d d' -> accounts_owned d -> StronglySorted string_le codes -> NoDup codes ->
  selectAccountsQuery id d' = records id now ids codes.
Proof.
  intros HO Hown Hs Hn. unfold selectAccountsQuery. apply records_unique; [done..|].
  change (omap (joined id d') (map_to_list (t_accounts d')) ≡ₚ records id now ids codes).
  rewrite (opened_accounts _ _ _ _ _ _ _ HO), omap_app, joined_new.
  - rewrite (omap_none (joined id d')); [by rewrite app_nil_r|]. intros [a acc] Ha%elem_of_map_to_list. cbn.
    apply Hown in Ha. rewrite bool_decide_eq_false_2; [done|]. intros E. rewrite E in Ha.
    rewrite (op_wallet _ _ _ _ _ _ _ HO) in Ha. by destruct Ha.
  - apply (op_ids _ _ _ _ _ _ _ HO).
  - intros i a code. by eapply opened_balance.
Qed.

(** Accounts that were there are still there, and the new ones are empty. *)
Lemma opened_old owner codes now id ids d d' :
  opened owner codes now id ids d d' ->
  (forall a acc, t_accounts d !! a = Some acc -> t_accounts d' !! a = Some acc) /\
  (forall a b, t_balances d !! a = Some b -> t_balances d' !! a = Some b).
Proof.
  intros [_ _ Hf ->]. assert (Hk : forall {A} (l : list A) (m : gmap UUID A) a x,
    (forall i, i ∈ ids -> m !! i = None) -> m !! a = Some x -> (list_to_map (zip ids l) ∪ m) !! a = Some x).
  { intros A l m a x Hm Ha. apply lookup_union_Some_raw. right. split; [|done]. apply not_elem_of_list_to_map.
    intros ([i y] & -> & Hx)%list_elem_of_fmap. apply elem_of_zip_l, Hm in Hx. cbn in *. congruence. }
  split; intros a x; apply Hk; intros i [? ?]%Hf; done.
Qed.

Lemma opened_new owner codes now id ids d d' a b :
  opened owner codes now id ids d d' -> t_balances d' !! a = Some b ->
  t_balances d !! a = Some b \/
  t_balances d !! a = None /\ exists code, b = new_balance now code /\ t_accounts d' !! a = Some (new_account id now code).
Proof.
  intros [_ [Hl Hn] Hf ->]. cbn. rewrite lookup_union_Some_raw. intros [Ha|[_ Ha]]; [right|by left].
  apply elem_of_list_to_map_2, list_elem_of_lookup in Ha as (i & Hi). rewrite lookup_zip_with, list_lookup_fmap in Hi.
  destruct (ids !! i) as [a'|] eqn:Ei; [|done]. destruct (codes !! i) as [code|] eqn:Ec; [|done]. cbn in Hi.
  injection Hi as <- <-. split; [by apply Hf; eapply list_elem_of_lookup_2|]. exists code. split; [done|].
  apply lookup_union_Some_l, elem_of_list_to_map_1; [rewrite fst_zip by (rewrite length_fmap; lia); done|].
  apply list_elem_of_lookup. exists i. rewrite lookup_zip_with, list_lookup_fmap, Ei, Ec. done.
Qed.

Lemma opened_deferred owner codes now id ids d d' :
  opened owner codes now id ids d d' -> deferred_ok d = true -> deferred_ok d' = true.
Proof.
  intros HO. destruct (opened_old _ _ _ _ _ _ _ HO) as [Hk _]. pose proof (op_tables _ _ _ _ _ _ _ HO) as HT.
  unfold deferred_ok. rewrite !forallb_forall. intros Hall [tid r] Hin.
  assert (Hr : In (tid, r) (map_to_list (t_transfers d))) by (by rewrite HT in Hin). specialize (Hall _ Hr). cbn in Hall |- *.
  destruct (t_accounts d !! tr_source r) eqn:E1; [|by rewrite andb_false_r in Hall].
  destruct (t_accounts d !! tr_destination r) eqn:E2; [|by rewrite andb_false_r in Hall].
  rewrite (Hk _ _ E1), (Hk _ _ E2). rewrite HT. exact Hall.
Qed.

(** Opening accounts keeps the books in order. *)
Lemma opened_ledger owner codes now id ids d d' :
  opened owner codes now id ids d d' -> ledger_inv d -> ledger_inv d'.
Proof.
  intros HO Hinv. destruct (opened_old _ _ _ _ _ _ _ HO) as [Hka Hkb].
  pose proof (fun a b => opened_new _ _ _ _ _ _ _ a b HO) as Hnew.
  assert (Hp : t_postings d' = t_postings d) by (by rewrite (op_tables _ _ _ _ _ _ _ HO)).
  assert (He : t_entries d' = t_entries d) by (by rewrite (op_tables _ _ _ _ _ _ _ HO)).
  destruct Hinv as [H1 [H2 H2'] H3 H4 H5 H6 H7 H8]. split.
  - intros a b [Hb|(_ & code & -> & _)]%Hnew; [by eapply H1|unfold new_balance; cbn [balance_minor bal_version]; split; int64_lia].
  - split; [|by rewrite Hp, He]. intros a b [(acc & ? & ?)%H2|(_ & code & -> & Ha)]%Hnew; eauto.
  - intros a b [Hb|(_ & code & -> & _)]%Hnew; [by apply H3 in Hb|left; by cbn].
  - intros a b [Hb|(Hn & code & -> & _)]%Hnew; rewrite Hp; [by apply H4|]. cbn.
    assert (Hnone : forall p, p ∈ t_postings d -> po_account p <> a) by (intros p (b & Hb & _)%H5 E; rewrite E in Hb; congruence).
    revert Hnone. generalize (t_postings d). intros l. induction l as [|p l IH]; intros Hl; [done|]. cbn.
    rewrite bool_decide_eq_false_2 by (apply Hl; by left). cbn. apply IH. intros q Hq. apply Hl. by right.
  - intros p. rewrite Hp. intros (b & Hb & ?)%H5. eauto.
  - intros cur. by rewrite Hp.
  - intros eid e. rewrite He. intros Hs%H7. unfold entry_stored, selectPostingsQuery in *. by rewrite Hp, He.
  - by rewrite He.
Qed.

Definition get_wallet_work (walletID : UUID) : Tx Wallet :=
  result ← selectWallet walletID;
  accounts ← selectAccounts walletID;
  mret (with_accounts result accounts).

Lemma get_wallet_ends id : ends (get_wallet_work id) (get_wallet_body id).
Proof. unfold get_wallet_work, get_wallet_body. ends. Qed.

Lemma quiet_get_wallet id : quiet (get_wallet_work id).
Proof. unfold get_wallet_work, selectWallet, selectAccounts. quiet. Qed.

(** On a healthy service a stored wallet is returned with the accounts selected for it. *)
Lemma Get_healthy id row restored accounts s w :
  healthy s -> deferred_ok (committed w) = true -> t_wallets (committed w) !! id = Some row ->
  restore_wallet id row = Ok restored -> restore_accounts (selectAccountsQuery id (committed w)) = Ok accounts ->
  exists w', Get (uuid_text id) s w = (Ok (with_accounts restored accounts), w') /\ committed w' = committed w.
Proof.
  intros Hs Hd Hr Hw Ha. unfold Get, parseUUID. rewrite uuid_scan_text. cbn [wrap_err].
  destruct (run_tx_ends_healthy true _ _ s w (with_accounts restored accounts)
    (advance (advance (begun s w) (committed w)) (committed w)) Hs (get_wallet_ends id) (quiet_get_wallet id))
    as (w' & HR & HC); [|done|done|by exists w'].
  unfold get_wallet_work, selectWallet, selectAccounts.
  erewrite bind_run; [|erewrite bind_run by (by apply query_healthy); unfold selectWalletQuery; cbn [tx_db begun];
    rewrite Hr; unfold lift; rewrite Hw; reflexivity].
  erewrite bind_run; [|erewrite bind_run by (by apply query_healthy); unfold lift; cbn [tx_db advance begun]; rewrite Ha; reflexivity].
  done.
Qed.

(** ** Properties *)

(** C35: creating a wallet is all or nothing: it adds, under new identifiers, an
    active wallet of the owner with exactly one active, empty customer account
    per requested currency, at least one and all distinct, and reports them in
    the order of the currency codes; or it adds nothing.  Behind a reported
    failure something was added only when the acknowledgement of the commit was
    lost. *)
Theorem wallet_Create_correct (ownerID : string) (currencies : list Currency) (s : Service) (w w' : World) (r : Result Wallet) :
  Create ownerID currencies s w = (r, w') ->
  let opens := opens ownerID currencies (now_at s (tick w)) (committed w) (committed w') in
  match r with
  | Ok wallet => opens wallet
  | Err e => committed w' = committed w \/ e = [Other "connection"] /\ exists wallet, opens wallet
  end.
Proof. apply wallet_Create_outcome. Qed.

(** C36: a created wallet reads back: whatever the service did during its
    creation, a later [Get] on a healthy service returns the very wallet
    [Create] reported, and changes nothing. *)
Theorem wallet_roundtrip (ownerID : string) (currencies : list Currency) (s s' : Service) (w w' : World) (wallet : Wallet) :
  accounts_owned (committed w) -> deferred_ok (committed w) = true -> healthy s' ->
  Create ownerID currencies s w = (Ok wallet, w') ->
  exists w'', Get (wallet_ID wallet) s' w' = (Ok wallet, w'') /\ committed w'' = committed w'.
Proof.
  intros Hown Hd Hs (owner & sorted & id & ids & _ & Hp & _ & Hv & Hss & Hnd & HO & ->)%wallet_Create_outcome.
  set (now := now_at s (tick w)) in *.
  apply (Get_healthy id (new_wallet owner now) (wallet_view owner now id [])); [done|by eapply opened_deferred| |done|].
  - rewrite (op_tables _ _ _ _ _ _ _ HO). apply lookup_insert_eq.
  - rewrite (opened_select _ _ _ _ _ _ _ HO Hown Hss Hnd).
    destruct (op_ids _ _ _ _ _ _ _ HO) as [Hl _]. rewrite length_fmap in Hl. by apply restore_new.
Qed.

End Theorems.

(** ** A concrete wallet *)

Definition usd : Currency := mkCurrency "U"%char "S"%char "D"%char.
Definition eur : Currency := mkCurrency "E"%char "U"%char "R"%char.

(** A service that generates a different identifier at each tick. *)
Definition numbering : Service := mkService (fun _ => None) (fun _ => CommitApplied)
  (fun n => nth n [id_system; id_alice; id_bob; id_wallet; id_entry] id_other) (fun _ => sample_now) (fun _ => false).

Definition first_wallet : Result Wallet * World := Create (uuid_text id_other) [usd; eur] numbering (mkWorld emptyDB 0).

(** The reported wallet has an account in euros and one in dollars. *)
Definition euros_and_dollars (wallet : Wallet) : bool :=
  bool_decide (wallet_ID wallet = uuid_text id_alice) &&
  bool_decide ((fun a => (account_ID a, currency_String (currency (account_Balance a)))) <$> wallet_Accounts wallet =
    [(uuid_text id_bob, "EUR"); (uuid_text id_wallet, "USD")]).

Lemma wallet_Create_correct_witness :
  exists wallet, first_wallet.1 = Ok wallet /\ euros_and_dollars wallet = true /\
    opens (uuid_text id_other) [usd; eur] sample_now emptyDB (committed first_wallet.2) wallet.
Proof.
  destruct (ok_with first_wallet.1 euros_and_dollars) as (wallet & Hw & Hs); [vm_compute; reflexivity|].
  exists wallet. split; [exact Hw|]. split; [exact Hs|].
  pose proof (wallet_Create_correct (uuid_text id_other) [usd; eur] numbering (mkWorld emptyDB 0) first_wallet.2
    first_wallet.1 (surjective_pairing _)) as HC.
  rewrite Hw in HC. exact HC.
Defined.

Lemma wallet_roundtrip_witness :
  exists wallet w'', first_wallet.1 = Ok wallet /\ euros_and_dollars wallet = true /\
    Get (uuid_text id_alice) calm first_wallet.2 = (Ok wallet, w'').
Proof.
  destruct (ok_with first_wallet.1 euros_and_dollars) as (wallet & Hw & Hs); [vm_compute; reflexivity|].
  destruct (wallet_roundtrip (uuid_text id_other) [usd; eur] numbering calm (mkWorld emptyDB 0) first_wallet.2 wallet)
    as (w'' & HG & _).
  - exact empty_owned.
  - reflexivity.
  - exact calm_healthy.
  - rewrite <- Hw. apply surjective_pairing.
  - exists wallet, w''. split; [exact Hw|]. split; [exact Hs|].
    apply andb_true_iff in Hs as [Hid%bool_decide_eq_true _]. rewrite <- Hid. exact HG.
Defined.
