(* ===== verification/Json.v ===== *)
(** * JSON: what the sources use of [encoding/json]

    The byte-level scanner ([json.Valid], and the acceptance test of
    [json.Decoder]), [json.Compact], and [json.Marshal] of structs whose fields
    are strings, integers, booleans and slices of such structs.  The texts the
    marshaller writes are scanned to their end and are fixed points of the
    compaction, at every depth the scanner supports. *)

From stdpp Require Import base list strings numbers pretty.
From Stdlib Require Import ZArith Lia Ascii String.
From S2P Require Import Prelude GoText.

Open Scope string_scope.
Open Scope Z_scope.

(** ** Scanner *)

Definition eqc (c d : ascii) : bool := Ascii.eqb c d.

Definition quote : ascii := "034"%char.
Definition backslash : ascii := "\"%char.

(** Space, tab, carriage return and line feed. *)
Definition is_ws (c : ascii) : bool :=
  (byte_val c =? 32) || (byte_val c =? 9) || (byte_val c =? 13) || (byte_val c =? 10).

Fixpoint skip_ws (s : string) : string :=
  match s with
  | String c t => if is_ws c then skip_ws t else s
  | EmptyString => EmptyString
  end.

Definition hex_digit (c : ascii) : bool := is_hex (byte_val c).
Definition digit (c : ascii) : bool := is_digit (byte_val c).

(** The bytes allowed after a backslash, apart from [u]. *)
Definition simple_escape (c : ascii) : bool :=
  eqc c "b" || eqc c "f" || eqc c "n" || eqc c "r" || eqc c "t" || eqc c backslash || eqc c "/" || eqc c quote.

(** From inside a string literal to just after its closing quote. *)
Fixpoint scan_string (s : string) : option string :=
  match s with
  | EmptyString => None
  | String c t =>
      if eqc c quote then Some t
      else if eqc c backslash then
        match t with
        | EmptyString => None
        | String e t1 =>
            if simple_escape e then scan_string t1
            else if eqc e "u" then
              match t1 with
              | String a (String b (String c (String d t2))) =>
                  if hex_digit a && hex_digit b && hex_digit c && hex_digit d then scan_string t2 else None
              | _ => None
              end
            else None
        end
      else if byte_val c <? 0x20 then None
      else scan_string t
  end.

Fixpoint scan_digits (s : string) : string :=
  match s with
  | String c t => if digit c then scan_digits t else s
  | EmptyString => EmptyString
  end.

Definition scan_digits1 (s : string) : option string :=
  match s with
  | String c t => if digit c then Some (scan_digits t) else None
  | EmptyString => None
  end.

Definition scan_exponent (s : string) : option string :=
  match s with
  | String c t =>
      if eqc c "e" || eqc c "E" then
        match t with
        | String g t1 => if eqc g "+" || eqc g "-" then scan_digits1 t1 else scan_digits1 t
        | EmptyString => None
        end
      else Some s
  | EmptyString => Some s
  end.

Definition scan_fraction (s : string) : option string :=
  match s with
  | String c t =>
      if eqc c "." then match scan_digits1 t with Some r => scan_exponent r | None => None end
      else scan_exponent s
  | EmptyString => Some s
  end.

Definition scan_unsigned (s : string) : option string :=
  match s with
  | String c t =>
      if eqc c "0" then scan_fraction t
      else if digit c then scan_fraction (scan_digits t)
      else None
  | EmptyString => None
  end.

Definition scan_number (s : string) : option string :=
  match s with
  | String c t => if eqc c "-" then scan_unsigned t else scan_unsigned s
  | EmptyString => None
  end.

(** A literal name; the first byte has been compared. *)
Fixpoint scan_literal (name s : string) : option string :=
  match name, s with
  | EmptyString, _ => Some s
  | String a name', String b s' => if eqc a b then scan_literal name' s' else None
  | String _ _, EmptyString => None
  end.

(** [maxNestingDepth] of the scanner. *)
Definition maxNestingDepth : Z := 10000.

(** From before a value to just after it.  Every call consumes a byte, so the
    length of the text is enough fuel. *)
Fixpoint scan_value (fuel : nat) (depth : Z) (s : string) : option string :=
  match fuel with
  | O => None
  | S fuel' =>
      match skip_ws s with
      | EmptyString => None
      | String c t =>
          if eqc c quote then scan_string t
          else if eqc c "-" || digit c then scan_number (String c t)
          else if eqc c "{" then
            if depth <=? 0 then None
            else match skip_ws t with
            | String e r => if eqc e "}" then Some r else scan_members fuel' (depth - 1) t
            | EmptyString => None
            end
          else if eqc c "[" then
            if depth <=? 0 then None
            else match skip_ws t with
            | String e r => if eqc e "]" then Some r else scan_elements fuel' (depth - 1) t
            | EmptyString => None
            end
          else if eqc c "t" then scan_literal "rue" t
          else if eqc c "f" then scan_literal "alse" t
          else if eqc c "n" then scan_literal "ull" t
          else None
      end
  end
with scan_members (fuel : nat) (depth : Z) (s : string) : option string :=
  match fuel with
  | O => None
  | S fuel' =>
      match skip_ws s with
      | String c t =>
          if negb (eqc c quote) then None
          else match scan_string t with
          | None => None
          | Some r =>
              match skip_ws r with
              | String d r' =>
                  if negb (eqc d ":") then None
                  else match scan_value fuel' depth r' with
                  | None => None
                  | Some q =>
                      match skip_ws q with
                      | String e q' =>
                          if eqc e "," then scan_members fuel' depth q'
                          else if eqc e "}" then Some q'
                          else None
                      | EmptyString => None
                      end
                  end
              | EmptyString => None
              end
          end
      | EmptyString => None
      end
  end
with scan_elements (fuel : nat) (depth : Z) (s : string) : option string :=
  match fuel with
  | O => None
  | S fuel' =>
      match scan_value fuel' depth s with
      | None => None
      | Some q =>
          match skip_ws q with
          | String e q' =>
              if eqc e "," then scan_elements fuel' depth q'
              else if eqc e "]" then Some q'
              else None
          | EmptyString => None
          end
      end
  end.

Definition scan (s : string) : option string := scan_value (2 * String.length s) maxNestingDepth s.

(** [json.Valid]. *)
Definition json_Valid (s : string) : bool :=
  match scan s with
  | Some rest => bool_decide (skip_ws rest = "")
  | None => false
  end.

(** ** Compaction *)

(** White space outside string literals is dropped. *)
Fixpoint strip (inString escaped : bool) (s : string) : string :=
  match s with
  | EmptyString => EmptyString
  | String c t =>
      if inString then
        String c (if escaped then strip true false t
                  else if eqc c backslash then strip true true t
                  else if eqc c quote then strip false false t
                  else strip true false t)
      else if is_ws c then strip false false t
      else String c (if eqc c quote then strip true false t else strip false false t)
  end.

(** [json.Compact]. *)
Definition json_Compact (s : string) : option string :=
  if json_Valid s then Some (strip false false s) else None.

(** ** Marshalling *)

Definition hex_char (n : Z) : ascii := if n <? 10 then byte_of (48 + n) else byte_of (87 + n).

(** A byte below [utf8.RuneSelf], as [appendString] writes it with HTML escaping. *)
Definition escape_byte (c : ascii) : string :=
  let b := byte_val c in
  if eqc c backslash || eqc c quote then String backslash (String c "")
  else if b =? 8 then "\b"
  else if b =? 12 then "\f"
  else if b =? 10 then "\n"
  else if b =? 13 then "\r"
  else if b =? 9 then "\t"
  else if (b <? 0x20) || eqc c "<" || eqc c ">" || eqc c "&"
  then "\u00" ++ String (hex_char (b / 16)) (String (hex_char (b mod 16)) "")
  else String c "".

(** The body of a string literal; [skip] counts the bytes of a copied rune that
    are still to be passed over. *)
Fixpoint escape (skip : nat) (s : string) : string :=
  match s with
  | EmptyString => EmptyString
  | String c t =>
      match skip with
      | S k => escape k t
      | O =>
          if byte_val c <? RuneSelf then escape_byte c ++ escape 0 t
          else
            let '(r, size) := decode_rune s in
            if (r =? RuneError) && (size =? 1)%nat then "\ufffd" ++ escape 0 t
            else if (r =? 0x2028) || (r =? 0x2029)
            then "\u202" ++ String (hex_char (r mod 16)) (escape (pred size) t)
            else take_bytes size s ++ escape (pred size) t
      end
  end.

Definition marshal_string (s : string) : string := String quote (escape 0 s ++ String quote "").

(** The values the sources marshal. *)
#[local] Unset Elimination Schemes.
Inductive value :=
| VString (s : string)
| VInt (z : Z)
| VBool (b : bool)
| VArray (items : list value)
| VObject (fields : list (string * value)).
#[local] Set Elimination Schemes.

(** The texts of the items with commas between them. *)
Fixpoint comma_join (texts : list string) : string :=
  match texts with
  | [] => ""
  | [t] => t
  | t :: rest => t ++ String "," (comma_join rest)
  end.

(** [json.Marshal]. *)
Fixpoint marshal (v : value) : string :=
  match v with
  | VString s => marshal_string s
  | VInt z => pretty z
  | VBool true => "true"
  | VBool false => "false"
  | VArray items => String "[" (comma_join (marshal <$> items) ++ "]")
  | VObject fields =>
      String "{" (comma_join ((fun '(k, w) => marshal_string k ++ String ":" (marshal w)) <$> fields) ++ "}")
  end.

#[local] Arguments String.append : simpl nomatch.

(** ** Induction on marshalled values *)

Section ValueInduction.
Variable P : value -> Prop.
Hypothesis HString : forall s, P (VString s).
Hypothesis HInt : forall z, P (VInt z).
Hypothesis HBool : forall b, P (VBool b).
Hypothesis HArray : forall items, Forall P items -> P (VArray items).
Hypothesis HObject : forall fields, Forall (fun kv => P kv.2) fields -> P (VObject fields).

Fixpoint value_ind' (v : value) : P v :=
  match v with
  | VString s => HString s
  | VInt z => HInt z
  | VBool b => HBool b
  | VArray items =>
      HArray items ((fix go l : Forall P l :=
        match l with [] => Forall_nil_2 _ | x :: l' => Forall_cons_2 _ _ _ (value_ind' x) (go l') end) items)
  | VObject fields =>
      HObject fields ((fix go l : Forall (fun kv => P kv.2) l :=
        match l with
        | [] => Forall_nil_2 _
        | (k, x) :: l' => Forall_cons_2 (fun kv => P kv.2) (k, x) l' (value_ind' x) (go l')
        end) fields)
  end.
End ValueInduction.

(** Strings of bytes below 0x80, which are copied or escaped byte by byte. *)
Definition is_ascii (c : Z) : bool := c <? RuneSelf.
Definition ascii_text (s : string) : bool := all_bytes is_ascii s.

(** How deep a value nests. *)
Fixpoint depth_of (v : value) : Z :=
  match v with
  | VArray items => 1 + foldr Z.max 0 (depth_of <$> items)
  | VObject fields => 1 + foldr Z.max 0 ((fun '(_, w) => depth_of w) <$> fields)
  | _ => 0
  end.

Fixpoint ascii_value (v : value) : bool :=
  match v with
  | VString s => ascii_text s
  | VArray items => forallb ascii_value items
  | VObject fields => forallb (fun '(k, w) => ascii_text k && ascii_value w) fields
  | _ => true
  end.

(** ** Strings *)

Lemma append_assoc a b c : ((a ++ b) ++ c = a ++ (b ++ c))%string.
Proof. induction a as [|x a IH]; cbn; congruence. Qed.

Lemma append_nil_r a : (a ++ "")%string = a.
Proof. induction a as [|x a IH]; cbn; congruence. Qed.

Lemma length_append a b : String.length (a ++ b) = (String.length a + String.length b)%nat.
Proof. induction a as [|x a IH]; cbn; congruence. Qed.

(** One escaped byte is passed over as a unit, wherever it stands. *)
Lemma scan_escape_byte c t : scan_string (escape_byte c ++ t) = scan_string t.
Proof. destruct c as [[] [] [] [] [] [] [] []]; reflexivity. Qed.

Lemma strip_escape_byte c t : strip true false (escape_byte c ++ t) = (escape_byte c ++ strip true false t)%string.
Proof. destruct c as [[] [] [] [] [] [] [] []]; reflexivity. Qed.

Lemma escape_ascii_cons c s :
  ascii_text (String c s) = true -> escape 0 (String c s) = (escape_byte c ++ escape 0 s)%string.
Proof. unfold ascii_text. cbn. intros [H _]%andb_true_iff. unfold is_ascii in H. by rewrite H. Qed.

Lemma ascii_text_tail c s : ascii_text (String c s) = true -> ascii_text s = true.
Proof. by intros [_ H]%andb_true_iff. Qed.

Lemma scan_escape s t : ascii_text s = true -> scan_string (escape 0 s ++ t) = scan_string t.
Proof.
  induction s as [|c s IH]; intros H; [done|].
  rewrite escape_ascii_cons, append_assoc, scan_escape_byte by done. eauto using ascii_text_tail.
Qed.

Lemma strip_escape s t :
  ascii_text s = true -> strip true false (escape 0 s ++ t) = (escape 0 s ++ strip true false t)%string.
Proof.
  induction s as [|c s IH]; intros H; [done|].
  rewrite escape_ascii_cons, !append_assoc, strip_escape_byte by done. f_equal. eauto using ascii_text_tail.
Qed.

Lemma marshal_string_app s t :
  (marshal_string s ++ t)%string = String quote (escape 0 s ++ String quote t).
Proof. unfold marshal_string. cbn. by rewrite append_assoc. Qed.

(** ** Numbers *)

Fixpoint all_digits (s : string) : bool :=
  match s with
  | String c t => digit c && all_digits t
  | EmptyString => true
  end.

Lemma pretty_N_char_digit n : (n < 10)%N -> digit (pretty_N_char n) = true /\ (n <> 0%N -> eqc (pretty_N_char n) "0" = false).
Proof.
  intros H. assert (Hn : n ∈ [0; 1; 2; 3; 4; 5; 6; 7; 8; 9]%N).
  { rewrite !elem_of_cons. lia. }
  rewrite !elem_of_cons, elem_of_nil in Hn. destruct_or! Hn; try (subst n; by vm_compute); done.
Qed.

Lemma pretty_N_go_digits n acc :
  (0 < n)%N -> all_digits acc = true ->
  exists c ds, pretty_N_go n acc = String c ds /\ digit c = true /\ eqc c "0" = false /\ all_digits ds = true.
Proof.
  revert acc. induction (N.lt_wf_0 n) as [n _ IH]. intros acc Hn Hacc.
  rewrite pretty_N_go_step by done.
  assert (Hmod : (n mod 10 < 10)%N) by by apply N.mod_lt.
  destruct (pretty_N_char_digit (n mod 10) Hmod) as [Hd Hz].
  destruct (decide (n / 10 = 0)%N) as [E|E].
  - rewrite E, pretty_N_go_0. eexists _, _. split; [done|]. split_and!; [done| |done].
    apply Hz. apply N.div_small_iff in E; [|done]. rewrite N.mod_small by done. lia.
  - apply IH; [apply N.div_lt; lia|by apply N.neq_0_lt_0|]. cbn. by rewrite Hd, Hacc.
Qed.

Lemma pretty_pos_digits p :
  exists c ds, pretty (Z.pos p) = String c ds /\ digit c = true /\ eqc c "0" = false /\ all_digits ds = true.
Proof. apply (pretty_N_go_digits (N.pos p) ""); done. Qed.

(** What may follow a number. *)
Definition delimited (rest : string) : bool :=
  match rest with
  | EmptyString => true
  | String c _ => negb (digit c || eqc c "." || eqc c "e" || eqc c "E")
  end.

Lemma scan_digits_all ds rest :
  all_digits ds = true -> delimited rest = true -> scan_digits (ds ++ rest) = rest.
Proof.
  induction ds as [|c ds IH]; cbn; intros Hd Hr.
  - destruct rest as [|c rest]; [done|]. cbn in *. by destruct (digit c).
  - bool_simpl. destruct (digit c); [auto|done].
Qed.

Lemma scan_fraction_delimited rest : delimited rest = true -> scan_fraction rest = Some rest.
Proof.
  destruct rest as [|c rest]; [done|]. cbn. intros H. bool_simpl.
  unfold scan_exponent. by repeat match goal with H : _ = false |- _ => rewrite H; clear H end.
Qed.

Lemma digit_not_minus c : digit c = true -> eqc c "-" = false.
Proof. by destruct c as [[] [] [] [] [] [] [] []]. Qed.

Lemma scan_number_pretty (z : Z) rest : delimited rest = true -> scan_number (pretty z ++ rest) = Some rest.
Proof.
  intros Hr. assert (Hpos : forall p, scan_unsigned (pretty (Z.pos p) ++ rest) = Some rest).
  { intros p. destruct (pretty_pos_digits p) as (c & ds & -> & Hc & Hz & Hds). cbn. rewrite Hz, Hc.
    rewrite scan_digits_all by done. by apply scan_fraction_delimited. }
  destruct z as [|p|p].
  - cbn. by apply scan_fraction_delimited.
  - specialize (Hpos p). destruct (pretty_pos_digits p) as (c & ds & E & Hc & _). rewrite E in *. cbn in *.
    by rewrite digit_not_minus.
  - exact (Hpos p).
Qed.

(** ** Marshalled texts *)

(** The first byte of a number. *)
Definition number_start (c : ascii) : bool := eqc c "-" || digit c.

Lemma pretty_head (z : Z) : exists c t, pretty z = String c t /\ number_start c = true.
Proof.
  destruct z as [|p|p]; [by eexists _, _| |by eexists _, _].
  destruct (pretty_pos_digits p) as (c & ds & -> & Hc & _). exists c, ds. split; [done|].
  unfold number_start. by rewrite Hc, orb_true_r.
Qed.

Lemma number_start_bytes c :
  number_start c = true -> is_ws c = false /\ eqc c quote = false /\ eqc c "{" = false /\ eqc c "[" = false.
Proof. by destruct c as [[] [] [] [] [] [] [] []]. Qed.

Lemma scan_value_int fuel depth (z : Z) rest :
  (0 < fuel)%nat -> delimited rest = true -> scan_value fuel depth (pretty z ++ rest) = Some rest.
Proof.
  intros Hf Hr. destruct fuel as [|fuel]; [lia|].
  pose proof (scan_number_pretty z rest Hr) as Hn. destruct (pretty_head z) as (c & t & E & Hc).
  rewrite E in *. destruct (number_start_bytes c Hc) as (Hws & Hq & _). cbn in Hn |- *.
  rewrite Hws. cbn. rewrite Hq. unfold number_start in Hc. rewrite Hc. exact Hn.
Qed.

Definition member_text (kv : string * value) : string :=
  let '(k, w) := kv in marshal_string k ++ String ":" (marshal w).

Lemma comma_join_cons t ts : ts <> [] -> comma_join (t :: ts) = (t ++ String "," (comma_join ts))%string.
Proof. by destruct ts. Qed.

(** A value's text scans to its end. *)
Definition scans (v : value) : Prop := forall fuel depth rest,
  (String.length (marshal v) <= fuel)%nat -> depth_of v <= depth -> delimited rest = true ->
  scan_value fuel depth (marshal v ++ rest) = Some rest.

Lemma marshal_nonempty v : (1 <= String.length (marshal v))%nat.
Proof.
  destruct v as [s|z|b|items|fields]; cbn; try lia; [|by destruct b; cbn; lia].
  destruct (pretty_head z) as (c & t & -> & _). cbn. lia.
Qed.

Lemma skip_ws_head c t : is_ws c = false -> skip_ws (String c t) = String c t.
Proof. intros E. cbn. by rewrite E. Qed.

(** One member of an object. *)
Lemma scan_member fuel depth k r :
  ascii_text k = true ->
  scan_members (S fuel) depth (marshal_string k ++ String ":" r) =
    match scan_value fuel depth r with
    | None => None
    | Some q =>
        match skip_ws q with
        | String e q' =>
            if eqc e "," then scan_members fuel depth q' else if eqc e "}" then Some q' else None
        | EmptyString => None
        end
    end.
Proof.
  intros Hk. rewrite marshal_string_app. cbn [scan_members]. rewrite skip_ws_head by done.
  change (negb (eqc quote quote)) with false. cbn iota. rewrite scan_escape by done.
  change (scan_string (String quote (String ":" r))) with (Some (String ":" r)). cbn iota.
  rewrite skip_ws_head by done. done.
Qed.

Lemma scan_members_join fields fuel depth rest :
  fields <> [] -> Forall (fun kv => ascii_text kv.1 = true /\ scans kv.2 /\ depth_of kv.2 <= depth) fields ->
  (String.length (comma_join (member_text <$> fields)) <= fuel)%nat ->
  scan_members fuel depth (comma_join (member_text <$> fields) ++ String "}" rest) = Some rest.
Proof.
  intros Hne HF. revert fuel Hne. induction HF as [|[k w] fields (Hk & Hs & Hd) HF IH]; intros fuel Hne Hlen; [done|].
  cbn [fst snd] in *. clear Hne. pose proof (marshal_nonempty w) as Hw.
  destruct fields as [|kv fields].
  - cbn [fmap list_fmap comma_join] in *. unfold member_text in *. rewrite length_append in Hlen. cbn in Hlen.
    destruct fuel as [|fuel]; [lia|]. rewrite append_assoc. cbn [String.append].
    rewrite scan_member by done. rewrite Hs; [done|lia|done|done].
  - assert (Htail : member_text <$> kv :: fields <> []) by done.
    change (member_text <$> (k, w) :: kv :: fields) with (member_text (k, w) :: (member_text <$> kv :: fields)) in *.
    rewrite comma_join_cons in * by done. rewrite length_append in Hlen. cbn [String.length] in Hlen.
    unfold member_text at 1 in Hlen. rewrite length_append in Hlen. cbn [String.length] in Hlen.
    destruct fuel as [|fuel]; [lia|]. unfold member_text at 1. rewrite !append_assoc. cbn [String.append].
    rewrite scan_member by done.
    rewrite Hs; [|lia|done|done]. rewrite skip_ws_head by done. cbn iota.
    change (eqc "," ",") with true. cbn iota. apply IH; [done|lia].
Qed.

Lemma scan_elements_join items fuel depth rest :
  items <> [] -> Forall (fun w => scans w /\ depth_of w <= depth) items ->
  (String.length (comma_join (marshal <$> items)) < fuel)%nat ->
  scan_elements fuel depth (comma_join (marshal <$> items) ++ String "]" rest) = Some rest.
Proof.
  intros Hne HF. revert fuel Hne. induction HF as [|w items (Hs & Hd) HF IH]; intros fuel Hne Hlen; [done|].
  clear Hne. destruct fuel as [|fuel]; [lia|]. destruct items as [|x items].
  - cbn [fmap list_fmap comma_join] in *. cbn [scan_elements]. rewrite Hs; [done|lia|done|done].
  - assert (Htail : marshal <$> x :: items <> []) by done.
    change (marshal <$> w :: x :: items) with (marshal w :: (marshal <$> x :: items)) in *.
    rewrite comma_join_cons in * by done. rewrite length_append in Hlen. cbn [String.length] in Hlen.
    rewrite append_assoc. cbn [String.append scan_elements]. rewrite Hs; [|lia|done|done].
    cbn [skip_ws]. change (is_ws ",") with false. change (eqc "," ",") with true. cbn iota.
    apply IH; [done|]. pose proof (marshal_nonempty w). lia.
Qed.

Lemma foldr_max_ge (l : list Z) x : x ∈ l -> x <= foldr Z.max 0 l.
Proof. induction l as [|y l IH]; cbn; [by intros ?%elem_of_nil|]. intros [->|H]%elem_of_cons; [lia|]. specialize (IH H). lia. Qed.

Lemma foldr_max_nonneg (l : list Z) : 0 <= foldr Z.max 0 l.
Proof. induction l; cbn; lia. Qed.

Lemma marshal_head v : exists c t, marshal v = String c t /\ is_ws c = false /\ eqc c "]" = false /\ eqc c "}" = false.
Proof.
  destruct v as [s|z|[]|items|fields]; try by eexists _, _.
  destruct (pretty_head z) as (c & t & E & Hc). exists c, t. split; [done|].
  revert Hc. by destruct c as [[] [] [] [] [] [] [] []].
Qed.

Lemma scan_open_object fuel depth e t :
  0 < depth -> is_ws e = false -> eqc e "}" = false ->
  scan_value (S fuel) depth (String "{" (String e t)) = scan_members fuel (depth - 1) (String e t).
Proof.
  intros Hd Hws He. cbn [scan_value]. rewrite skip_ws_head by done. cbn iota.
  change (eqc "{" quote) with false. change (eqc "{" "-" || digit "{") with false. change (eqc "{" "{") with true.
  cbn iota. rewrite (proj2 (Z.leb_gt depth 0)) by lia. rewrite skip_ws_head by done. by rewrite He.
Qed.

Lemma scan_open_array fuel depth e t :
  0 < depth -> is_ws e = false -> eqc e "]" = false ->
  scan_value (S fuel) depth (String "[" (String e t)) = scan_elements fuel (depth - 1) (String e t).
Proof.
  intros Hd Hws He. cbn [scan_value]. rewrite skip_ws_head by done. cbn iota.
  change (eqc "[" quote) with false. change (eqc "[" "-" || digit "[") with false. change (eqc "[" "{") with false.
  change (eqc "[" "[") with true. cbn iota. rewrite (proj2 (Z.leb_gt depth 0)) by lia.
  rewrite skip_ws_head by done. by rewrite He.
Qed.

Lemma scan_array items fuel depth rest :
  Forall (fun w => scans w /\ depth_of w <= depth - 1) items -> 0 < depth ->
  (String.length (marshal (VArray items)) <= fuel)%nat ->
  scan_value fuel depth (marshal (VArray items) ++ rest) = Some rest.
Proof.
  intros HF Hd Hf. cbn in Hf. rewrite length_append in Hf. cbn in Hf. destruct fuel as [|fuel]; [lia|].
  cbn [marshal String.append]. rewrite append_assoc. cbn [String.append].
  destruct items as [|x items].
  { cbn. by rewrite (proj2 (Z.leb_gt depth 0)) by lia. }
  destruct (marshal_head x) as (c & t & Ex & Hws & Hc & _).
  assert (Hhead : exists t', comma_join (marshal <$> x :: items) = String c t').
  { destruct items; [by exists t|]. cbn [fmap list_fmap]. rewrite comma_join_cons by done. rewrite Ex. by eexists. }
  destruct Hhead as [t' Et]. rewrite Et. cbn [String.append]. rewrite scan_open_array by done.
  change (String c (t' ++ String "]" rest)) with (String c t' ++ String "]" rest)%string. rewrite <- Et.
  apply scan_elements_join; [done|done|lia].
Qed.

Lemma scan_object fields fuel depth rest :
  Forall (fun kv => ascii_text kv.1 = true /\ scans kv.2 /\ depth_of kv.2 <= depth - 1) fields -> 0 < depth ->
  (String.length (marshal (VObject fields)) <= fuel)%nat ->
  scan_value fuel depth (marshal (VObject fields) ++ rest) = Some rest.
Proof.
  intros HF Hd. change (marshal (VObject fields)) with (String "{" (comma_join (member_text <$> fields) ++ "}")).
  intros Hf. cbn [String.length] in Hf. rewrite length_append in Hf. cbn [String.length] in Hf.
  destruct fuel as [|fuel]; [lia|]. cbn [String.append]. rewrite append_assoc. cbn [String.append].
  destruct fields as [|[k x] fields].
  { cbn. by rewrite (proj2 (Z.leb_gt depth 0)) by lia. }
  assert (Hhead : exists t', comma_join (member_text <$> (k, x) :: fields) = String quote t').
  { destruct fields; [by eexists|]. cbn [fmap list_fmap]. rewrite comma_join_cons by done. by eexists. }
  destruct Hhead as [t' Et]. rewrite Et. cbn [String.append]. rewrite scan_open_object by done.
  change (String quote (t' ++ String "}" rest)) with (String quote t' ++ String "}" rest)%string. rewrite <- Et.
  apply scan_members_join; [done|done|lia].
Qed.

Lemma scan_marshal v : ascii_value v = true -> scans v.
Proof.
  induction v as [s|z|b|items IH|fields IH] using value_ind'; intros Ha fuel depth rest Hf Hd Hr.
  - cbn [marshal] in *. rewrite marshal_string_app. destruct fuel as [|fuel]; [cbn in Hf; lia|].
    change (scan_string (escape 0 s ++ String quote rest) = Some rest). by rewrite scan_escape.
  - cbn [marshal] in *. apply scan_value_int; [|done]. destruct (pretty_head z) as (c & t & E & _).
    rewrite E in Hf. cbn in Hf. lia.
  - destruct fuel as [|fuel]; [destruct b; cbn in Hf; lia|]. by destruct b.
  - cbn in Hd, Ha. pose proof (foldr_max_nonneg (depth_of <$> items)). apply scan_array; [|lia|done].
    rewrite forallb_forall in Ha. rewrite Forall_forall in IH. apply Forall_forall. intros w Hw. split.
    + apply IH; [done|]. apply Ha. by apply list_elem_of_In.
    + assert (depth_of w <= foldr Z.max 0 (depth_of <$> items)); [|lia].
      apply foldr_max_ge. by apply list_elem_of_fmap_2.
  - cbn in Hd, Ha. pose proof (foldr_max_nonneg ((fun '(_, w) => depth_of w) <$> fields)).
    apply scan_object; [|lia|done].
    rewrite forallb_forall in Ha. rewrite Forall_forall in IH. apply Forall_forall. intros [k' w] Hw. cbn [fst snd].
    specialize (Ha (k', w)). rewrite <- list_elem_of_In in Ha. specialize (Ha Hw). cbn in Ha. bool_simpl.
    split_and!; [done|by apply (IH (k', w))|].
    assert (depth_of w <= foldr Z.max 0 ((fun '(_, w) => depth_of w) <$> fields)); [|lia].
    apply foldr_max_ge. apply list_elem_of_fmap. by exists (k', w).
Qed.

(** Marshalled texts are valid. *)
Lemma json_Valid_marshal v : ascii_value v = true -> depth_of v <= maxNestingDepth -> json_Valid (marshal v) = true.
Proof.
  intros Ha Hd. unfold json_Valid, scan. rewrite <- (append_nil_r (marshal v)) at 2.
  rewrite (scan_marshal v Ha); [done|lia|done|done].
Qed.

(** ** Compaction of marshalled texts *)

Definition strips (v : value) : Prop := forall rest,
  strip false false (marshal v ++ rest) = (marshal v ++ strip false false rest)%string.

Lemma strip_plain t rest :
  all_bytes (fun c => negb ((c =? 32) || (c =? 9) || (c =? 13) || (c =? 10) || (c =? 34))) t = true ->
  strip false false (t ++ rest) = (t ++ strip false false rest)%string.
Proof.
  induction t as [|c t IH]; intros Hp; [done|]. cbn [all_bytes] in Hp. apply andb_true_iff in Hp as [Hc Hp].
  cbn [String.append strip]. assert (is_ws c = false /\ eqc c quote = false) as [-> ->].
  { revert Hc. by destruct c as [[] [] [] [] [] [] [] []]. }
  by rewrite IH.
Qed.

Lemma strip_string s rest : ascii_text s = true ->
  strip false false (marshal_string s ++ rest) = (marshal_string s ++ strip false false rest)%string.
Proof.
  intros Hs. rewrite !marshal_string_app.
  change (strip false false (String quote (escape 0 s ++ String quote rest)))
    with (String quote (strip true false (escape 0 s ++ String quote rest))).
  rewrite strip_escape by done. done.
Qed.

Lemma digits_plain ds : all_digits ds = true ->
  all_bytes (fun c => negb ((c =? 32) || (c =? 9) || (c =? 13) || (c =? 10) || (c =? 34))) ds = true.
Proof.
  induction ds as [|c ds IH]; cbn; [done|]. intros [Hc Hd]%andb_true_iff. rewrite IH by done. rewrite andb_true_r.
  revert Hc. by destruct c as [[] [] [] [] [] [] [] []].
Qed.

Lemma pretty_all_digits p : all_digits (pretty (Z.pos p)) = true.
Proof. destruct (pretty_pos_digits p) as (c & ds & -> & Hc & _ & Hd). cbn. by rewrite Hc, Hd. Qed.

Lemma strip_int (z : Z) rest : strip false false (pretty z ++ rest) = (pretty z ++ strip false false rest)%string.
Proof.
  apply strip_plain. destruct z as [|p|p]; [done| |].
  - apply digits_plain, pretty_all_digits.
  - change (pretty (Z.neg p)) with (String "-" (pretty (Z.pos p))). cbn. apply digits_plain, pretty_all_digits.
Qed.

Lemma strip_join texts rest :
  Forall (fun t => forall r, strip false false (t ++ r) = (t ++ strip false false r)%string) texts ->
  strip false false (comma_join texts ++ rest) = (comma_join texts ++ strip false false rest)%string.
Proof.
  intros HF. induction HF as [|t texts Ht HF IH]; [done|]. destruct texts as [|u texts]; [apply Ht|].
  rewrite comma_join_cons by done. rewrite !append_assoc. rewrite Ht. f_equal. cbn [String.append strip].
  change (is_ws ",") with false. change (eqc "," quote) with false. cbn iota. by rewrite IH.
Qed.

Lemma strip_marshal v : ascii_value v = true -> strips v.
Proof.
  induction v as [s|z|b|items IH|fields IH] using value_ind'; intros Ha rest.
  - by apply strip_string.
  - apply strip_int.
  - destruct b; by apply strip_plain.
  - cbn in Ha. cbn [marshal String.append]. rewrite !append_assoc.
    change (strip false false (String "[" (comma_join (marshal <$> items) ++ "]" ++ rest)))
      with (String "[" (strip false false (comma_join (marshal <$> items) ++ "]" ++ rest))).
    rewrite strip_join; [done|]. apply Forall_fmap, Forall_forall. intros w Hw. rewrite Forall_forall in IH.
    rewrite forallb_forall in Ha. apply IH; [done|]. apply Ha. by apply list_elem_of_In.
  - cbn in Ha. change (marshal (VObject fields)) with (String "{" (comma_join (member_text <$> fields) ++ "}")).
    cbn [String.append]. rewrite !append_assoc.
    change (strip false false (String "{" (comma_join (member_text <$> fields) ++ "}" ++ rest)))
      with (String "{" (strip false false (comma_join (member_text <$> fields) ++ "}" ++ rest))).
    rewrite strip_join; [done|]. apply Forall_fmap, Forall_forall. intros [k w] Hw r. rewrite Forall_forall in IH.
    rewrite forallb_forall in Ha. specialize (Ha (k, w)). rewrite <- list_elem_of_In in Ha. specialize (Ha Hw).
    cbn in Ha. bool_simpl. cbn [compose member_text]. rewrite !append_assoc, strip_string by done. f_equal.
    cbn [String.append strip]. change (is_ws ":") with false. change (eqc ":" quote) with false. cbn iota.
    f_equal. by apply (IH (k, w)).
Qed.

(** Marshalled texts are already compact. *)
Lemma json_Compact_marshal v :
  ascii_value v = true -> depth_of v <= maxNestingDepth -> json_Compact (marshal v) = Some (marshal v).
Proof.
  intros Ha Hd. unfold json_Compact. rewrite json_Valid_marshal by done. f_equal.
  pose proof (strip_marshal v Ha "") as E. by rewrite !append_nil_r in E.
Qed.
