(* ===== verification/GoTime.v ===== *)
(** * Times as text

    [time.Time.Format] with the layout [time.RFC3339Nano]: the civil date of an
    instant (proleptic Gregorian calendar), the fraction without trailing zeros
    and the zone. *)

From stdpp Require Import base list strings numbers pretty.
From Stdlib Require Import ZArith Lia Ascii String.
From S2P Require Import Prelude GoText Json.

Open Scope string_scope.
Open Scope Z_scope.

Definition Minute : Z := 60 * Second.
Definition Hour : Z := 60 * Minute.
Definition Day : Z := 24 * Hour.

(** Year, month and day of a number of days since January 1 of year 1.  Years
    are counted from March 1, in eras of 400 years or 146097 days. *)
Definition civil (days : Z) : Z * Z * Z :=
  let z := days + 306 in
  let era := z / 146097 in
  let doe := z mod 146097 in
  let yoe := (doe - doe / 1460 + doe / 36524 - doe / 146096) / 365 in
  let doy := doe - (365 * yoe + yoe / 4 - yoe / 100) in
  let mp := (5 * doy + 2) / 153 in
  let day := doy - (153 * mp + 2) / 5 + 1 in
  let month := if mp <? 10 then mp + 3 else mp - 9 in
  let year := yoe + 400 * era + (if month <=? 2 then 1 else 0) in
  (year, month, day).

(** The day number of a civil date, the inverse of [civil]. *)
Definition days_of (year month day : Z) : Z :=
  let y := if month <=? 2 then year - 1 else year in
  let era := y / 400 in
  let yoe := y mod 400 in
  let doy := (153 * (if 2 <? month then month - 3 else month + 9) + 2) / 5 + day - 1 in
  let doe := 365 * yoe + yoe / 4 - yoe / 100 + doy in
  146097 * era + doe - 306.

Definition dig (n : Z) : ascii := byte_of (48 + n mod 10).
Definition pad2 (n : Z) : string := String (dig (n / 10)) (String (dig n) "").

(** [appendInt] with a width of four. *)
Definition pad_year (y : Z) : string :=
  if (0 <=? y) && (y <? 10000)
  then String (dig (y / 1000)) (String (dig (y / 100)) (String (dig (y / 10)) (String (dig y) "")))
  else if y <? 0 then
    if - y <? 10000
    then String "-" (String (dig (- y / 1000)) (String (dig (- y / 100)) (String (dig (- y / 10)) (String (dig (- y)) ""))))
    else pretty y
  else pretty y.

(** The digits of a number below [10 ^ width], without trailing zeros. *)
Fixpoint fraction_digits (width : nat) (n : Z) : string :=
  match width with
  | O => ""
  | S w =>
      if n =? 0 then ""
      else let unit := 10 ^ Z.of_nat w in String (dig (n / unit)) (fraction_digits w (n mod unit))
  end.

Definition fraction (nanos : Z) : string :=
  if nanos =? 0 then "" else String "." (fraction_digits 9 nanos).

Definition zone (offset : Z) : string :=
  if offset =? 0 then "Z"
  else
    let minutes := Z.abs offset / 60 in
    String (if offset <? 0 then "-"%char else "+"%char) (pad2 (minutes / 60) ++ String ":" (pad2 (minutes mod 60))).

(** [t.Format(time.RFC3339Nano)]; the offset is in seconds. *)
Definition format_rfc3339nano (t : Time) : string :=
  let local := instant t + offset t * Second in
  let '(year, month, day) := civil (local / Day) in
  let clock := local mod Day in
  pad_year year ++ String "-" (pad2 month ++ String "-" (pad2 day ++ String "T"
    (pad2 (clock / Hour) ++ String ":" (pad2 (clock / Minute mod 60) ++ String ":"
      (pad2 (clock / Second mod 60) ++ (fraction (clock mod Second) ++ zone (offset t))))))).

(** The calendar year of a time in its zone. *)
Definition year_of (t : Time) : Z := (civil ((instant t + offset t * Second) / Day)).1.1.

(** ** Lemmas *)

#[local] Arguments String.append : simpl nomatch.

Lemma all_bytes_app P a b : all_bytes P (a ++ b) = all_bytes P a && all_bytes P b.
Proof. induction a as [|c a IH]; cbn; [done|]. by rewrite IH, andb_assoc. Qed.

Lemma ascii_text_app a b : ascii_text (a ++ b) = ascii_text a && ascii_text b.
Proof. apply all_bytes_app. Qed.

Lemma ascii_text_cons c s : ascii_text (String c s) = is_ascii (byte_val c) && ascii_text s.
Proof. done. Qed.

(** The bytes of numbers and times: digits and the punctuation between them. *)
Section Bytes.
Context (P : Z -> bool) (Hdigit : forall c, is_digit c = true -> P c = true) (Hminus : P 45 = true).

Lemma dig_bytes n : P (byte_val (dig n)) = true.
Proof.
  apply Hdigit. unfold dig. pose proof (Z.mod_pos_bound n 10 ltac:(lia)). rewrite byte_val_of by lia. unfold is_digit. lia.
Qed.

Lemma pad2_bytes n : all_bytes P (pad2 n) = true.
Proof. unfold pad2. cbn [all_bytes]. by rewrite !dig_bytes. Qed.

Lemma digits_bytes ds : all_digits ds = true -> all_bytes P ds = true.
Proof.
  induction ds as [|c ds IH]; [done|]. cbn [all_digits all_bytes]. intros [Hc Hd]%andb_true_iff.
  by rewrite (Hdigit _ Hc), IH.
Qed.

Lemma pretty_bytes (z : Z) : all_bytes P (pretty z) = true.
Proof.
  destruct z as [|p|p]; [cbn; by rewrite Hdigit|apply digits_bytes, pretty_all_digits|].
  change (pretty (Z.neg p)) with (String "-" (pretty (Z.pos p))). cbn [all_bytes]. change (byte_val "-") with 45.
  by rewrite Hminus, digits_bytes by apply pretty_all_digits.
Qed.

Lemma pad_year_bytes y : all_bytes P (pad_year y) = true.
Proof.
  unfold pad_year. repeat case_match; try apply pretty_bytes; cbn [all_bytes]; rewrite ?dig_bytes; [done|].
  change (byte_val "-") with 45. by rewrite Hminus.
Qed.

Lemma fraction_bytes n : P 46 = true -> all_bytes P (fraction n) = true.
Proof.
  intros Hdot. unfold fraction. destruct (n =? 0); [done|]. cbn [all_bytes]. change (byte_val ".") with 46. rewrite Hdot. cbn [andb].
  generalize 9%nat as w. intros w. revert n. induction w as [|w IH]; intros n; [done|]. cbn [fraction_digits].
  destruct (n =? 0); [done|]. cbn [all_bytes]. by rewrite dig_bytes, IH.
Qed.

Lemma zone_bytes o : P 90 = true -> P 43 = true -> P 58 = true -> all_bytes P (zone o) = true.
Proof.
  intros HZ Hplus Hcolon. unfold zone. destruct (o =? 0); [cbn [all_bytes]; change (byte_val "Z") with 90; by rewrite HZ|].
  cbn [all_bytes]. rewrite all_bytes_app. cbn [all_bytes]. change (byte_val ":") with 58. rewrite !pad2_bytes, Hcolon.
  destruct (o <? 0); [change (byte_val "-") with 45|change (byte_val "+") with 43]; by rewrite ?Hminus, ?Hplus.
Qed.

Lemma format_bytes t :
  P 46 = true -> P 90 = true -> P 43 = true -> P 58 = true -> P 84 = true -> all_bytes P (format_rfc3339nano t) = true.
Proof.
  intros Hdot HZ Hplus Hcolon HT. unfold format_rfc3339nano. destruct (civil _) as [[y m] d].
  repeat (rewrite all_bytes_app || cbn [all_bytes]). change (byte_val "-") with 45. change (byte_val "T") with 84.
  change (byte_val ":") with 58. by rewrite pad_year_bytes, !pad2_bytes, fraction_bytes, zone_bytes, Hminus, HT, Hcolon.
Qed.

End Bytes.

Lemma digit_is_ascii c : is_digit c = true -> is_ascii c = true.
Proof. unfold is_digit, is_ascii, RuneSelf. lia. Qed.

Lemma digits_ascii ds : all_digits ds = true -> ascii_text ds = true.
Proof. apply digits_bytes, digit_is_ascii. Qed.

Lemma pretty_ascii (z : Z) : ascii_text (pretty z) = true.
Proof. apply pretty_bytes; [apply digit_is_ascii|done]. Qed.

Lemma format_ascii t : ascii_text (format_rfc3339nano t) = true.
Proof. apply format_bytes; [apply digit_is_ascii|done..]. Qed.

Lemma len_append a b : len (a ++ b) = len a + len b.
Proof. induction a as [|c a IH]; cbn; [done|]. rewrite IH. lia. Qed.

Lemma len_fraction_digits w n : len (fraction_digits w n) <= Z.of_nat w.
Proof.
  revert n. induction w as [|w IH]; intros n; [done|]. cbn [fraction_digits]. case_match; [cbn; lia|].
  cbn [len]. specialize (IH (n mod 10 ^ Z.of_nat w)). lia.
Qed.

Lemma len_format t : 0 <= year_of t < 10000 -> len (format_rfc3339nano t) <= 35.
Proof.
  unfold year_of, format_rfc3339nano. destruct (civil _) as [[y m] d]. cbn [fst]. intros Hy.
  unfold pad_year. rewrite (proj2 (Z.leb_le 0 y)), (proj2 (Z.ltb_lt y 10000)) by lia. cbn [andb].
  repeat (rewrite len_append || cbn [len pad2]).
  assert (len (fraction ((instant t + offset t * Second) mod Day mod Second)) <= 10).
  { unfold fraction. case_match; [cbn; lia|]. cbn [len]. pose proof (len_fraction_digits 9 ((instant t + offset t * Second) mod Day mod Second)). lia. }
  assert (len (zone (offset t)) <= 6).
  { unfold zone. case_match; [cbn; lia|]. cbn [len]. rewrite len_append. cbn [len pad2]. lia. }
  lia.
Qed.
