(* ===== verification/Event.v ===== *)
(** * Event envelopes

    [internal/event/envelope.go]: drafts and durably identified envelopes of
    integration events, with the normalization of their JSON payloads. *)

From stdpp Require Import base list strings numbers pretty.
From Stdlib Require Import ZArith Lia Ascii String.
From S2P Require Import Prelude GoText Json GoTime.

Open Scope string_scope.
Open Scope Z_scope.

Definition maxEventTypeBytes : Z := 128.
Definition maxAggregateTypeBytes : Z := 64.
Definition maxPayloadBytes : Z := 65536.

Definition ErrInvalidEnvelope : leaf := errors_New "event: invalid envelope".

Record DraftParams := mkDraftParams {
  param_EventType : string;
  param_EventVersion : Z;
  param_AggregateType : string;
  param_AggregateID : string;
  param_AggregateVersion : Z;
  param_CorrelationID : string;
  param_CausationID : string;
  param_OccurredAt : Time;
  param_Payload : string
}.

Record Draft := mkDraft {
  eventType : string;
  eventVersion : Z;
  aggregateType : string;
  aggregateID : string;
  aggregateVersion : Z;
  correlationID : string;
  causationID : string;
  occurredAt : Time;
  payload : string
}.

#[export] Instance Draft_eq_dec : EqDecision Draft.
Proof. solve_decision. Defined.

Record Envelope := mkEnvelope {
  eventID : string;
  draft : Draft
}.

#[export] Instance Envelope_eq_dec : EqDecision Envelope.
Proof. solve_decision. Defined.

(** The loop of [validEventPart] from some index on. *)
Fixpoint event_part_from (first : bool) (value : string) : bool :=
  match value with
  | EmptyString => true
  | String a rest =>
      let c := byte_val a in
      if is_lower c || negb first && is_digit c || negb first && (c =? 95)
      then event_part_from false rest else false
  end.

Definition validEventPart (value : string) : bool :=
  event_part_from true value && negb (bool_decide (value = "")).

(** [strings.SplitSeq value "."]; [part] holds the bytes since the last dot. *)
Fixpoint split_dots (part value : string) : list string :=
  match value with
  | EmptyString => [part]
  | String a rest =>
      if byte_val a =? 46 then part :: split_dots "" rest else split_dots (part ++ String a "") rest
  end.

Definition validEventType (value : string) : bool :=
  if bool_decide (value = "") || (maxEventTypeBytes <? len value) then false
  else forallb validEventPart (split_dots "" value).

Fixpoint lower_name_from (first separators : bool) (value : string) : bool :=
  match value with
  | EmptyString => true
  | String a rest =>
      let c := byte_val a in
      if is_lower c || negb first && is_digit c then lower_name_from false separators rest
      else if separators && negb first && ((c =? 95) || (c =? 45)) then lower_name_from false separators rest
      else false
  end.

Definition validLowerName (value : string) (separators : bool) : bool :=
  lower_name_from true separators value && negb (bool_decide (value = "")).

Definition validAggregateType (value : string) : bool :=
  negb (bool_decide (value = "")) && (len value <=? maxAggregateTypeBytes) && validLowerName value true.

Definition starts_object (payload : string) : bool :=
  match payload with String c _ => eqc c "{" | EmptyString => false end.

Definition validPayload (payload : string) : bool :=
  (2 <=? len payload) && (len payload <=? maxPayloadBytes) && starts_object payload && json_Valid payload.

(** Where the loop of [postgresJSONBTextSize] stands. *)
Inductive SizeMode :=
| Outside
| InString (escaped : bool)
| InNumber.

(** The loop of [postgresJSONBTextSize]: the extra bytes the stored text has, or
    [None] for a number with an exponent.  The byte that ends a number is looked
    at again outside of it. *)
Fixpoint jsonb_extra (mode : SizeMode) (payload : string) : option Z :=
  match payload with
  | EmptyString => Some 0
  | String c rest =>
      let outside (_ : unit) :=
        if eqc c quote then jsonb_extra (InString false) rest
        else if eqc c "," || eqc c ":" then
          match jsonb_extra Outside rest with Some n => Some (n + 1) | None => None end
        else if eqc c "-" || digit c then jsonb_extra InNumber rest
        else jsonb_extra Outside rest in
      match mode with
      | InString escaped =>
          if escaped then jsonb_extra (InString false) rest
          else if eqc c backslash then jsonb_extra (InString true) rest
          else if eqc c quote then jsonb_extra Outside rest
          else jsonb_extra (InString false) rest
      | Outside => outside tt
      | InNumber =>
          if eqc c "e" || eqc c "E" then None
          else if eqc c "," || eqc c "]" || eqc c "}" then outside tt
          else jsonb_extra InNumber rest
      end
  end.

Definition postgresJSONBTextSize (payload : string) : Z * bool :=
  match jsonb_extra Outside payload with
  | Some extra => (len payload + extra, true)
  | None => (0, false)
  end.

Definition normalizePayload (payload : string) : Result string :=
  let trimmed := TrimSpace payload in
  if (len trimmed <? 2) || negb (starts_object trimmed) then Err [ErrInvalidEnvelope]
  else match json_Compact trimmed with
  | None => Err [ErrInvalidEnvelope]
  | Some compact =>
      let '(storedSize, supported) := postgresJSONBTextSize compact in
      if negb supported || (maxPayloadBytes <? storedSize) then Err [ErrInvalidEnvelope]
      else Ok compact
  end.

(** [Draft.validate]. *)
Definition draft_validate (d : Draft) : Result unit :=
  if negb (validEventType (eventType d)) then Err [ErrInvalidEnvelope]
  else if eventVersion d <=? 0 then Err [ErrInvalidEnvelope]
  else if negb (validAggregateType (aggregateType d)) then Err [ErrInvalidEnvelope]
  else if negb (isCanonicalUUID (aggregateID d)) then Err [ErrInvalidEnvelope]
  else if aggregateVersion d <=? 0 then Err [ErrInvalidEnvelope]
  else if negb (isCanonicalUUID (correlationID d)) then Err [ErrInvalidEnvelope]
  else if negb (bool_decide (causationID d = "")) && negb (isCanonicalUUID (causationID d))
  then Err [ErrInvalidEnvelope]
  else if IsZero (occurredAt d) then Err [ErrInvalidEnvelope]
  else if negb (validPayload (payload d)) then Err [ErrInvalidEnvelope]
  else Ok tt.

Definition NewDraft (params : DraftParams) : Result Draft :=
  match normalizePayload (param_Payload params) with
  | Err e => Err e
  | Ok payload =>
      let aggregateID := (normalizeUUID (param_AggregateID params)).1 in
      let correlationID := (normalizeUUID (param_CorrelationID params)).1 in
      let causation : Result string :=
        if bool_decide (param_CausationID params = "") then Ok ""
        else
          let '(causationID, valid) := normalizeUUID (param_CausationID params) in
          if valid then Ok causationID else Err [ErrInvalidEnvelope] in
      match causation with
      | Err e => Err e
      | Ok causationID =>
          let d := mkDraft (param_EventType params) (param_EventVersion params) (param_AggregateType params)
                     aggregateID (param_AggregateVersion params) correlationID causationID
                     (UTC (param_OccurredAt params)) payload in
          match draft_validate d with
          | Err e => Err e
          | Ok _ => Ok d
          end
      end
  end.

Definition NewEnvelope (eventID : string) (d : Draft) : Result Envelope :=
  let '(canonicalID, valid) := normalizeUUID eventID in
  if negb valid then Err [ErrInvalidEnvelope]
  else match draft_validate d with
  | Err e => Err e
  | Ok _ => Ok (mkEnvelope canonicalID d)
  end.

(** ** Payloads *)

#[local] Arguments String.append : simpl nomatch.

Lemma jsonb_extra_range mode s n : jsonb_extra mode s = Some n -> 0 <= n <= len s.
Proof.
  revert mode n. induction s as [|c s IH]; intros mode n; cbn; [intros [= <-]; lia|].
  assert (Hstep : forall m n, jsonb_extra m s = Some n -> 0 <= n <= 1 + len s) by (intros m k Hk%IH; lia).
  assert (Hplus : forall m n, match jsonb_extra m s with Some k => Some (k + 1) | None => None end = Some n ->
    0 <= n <= 1 + len s).
  { intros m k. destruct (jsonb_extra m s) as [x|] eqn:E; [|done]. apply IH in E. intros [= <-]. lia. }
  destruct mode as [|[]|]; repeat (case_match; eauto); try done; eauto.
Qed.

(** The rest of a text after a value inside an object or an array, or its end. *)
Definition closes (rest : string) : bool :=
  match rest with
  | EmptyString => true
  | String c _ => eqc c "," || eqc c "]" || eqc c "}"
  end.

Lemma closes_delimited rest : closes rest = true -> delimited rest = true.
Proof. destruct rest as [|c rest]; [done|]. cbn. by destruct c as [[] [] [] [] [] [] [] []]. Qed.

Lemma jsonb_escape_byte c t : jsonb_extra (InString false) (escape_byte c ++ t) = jsonb_extra (InString false) t.
Proof. destruct c as [[] [] [] [] [] [] [] []]; reflexivity. Qed.

Lemma jsonb_string s rest :
  ascii_text s = true -> jsonb_extra Outside (marshal_string s ++ rest) = jsonb_extra Outside rest.
Proof.
  intros Hs. rewrite marshal_string_app.
  change (jsonb_extra (InString false) (escape 0 s ++ String quote rest) = jsonb_extra Outside rest).
  induction s as [|c s IH]; [done|].
  rewrite escape_ascii_cons, append_assoc, jsonb_escape_byte by done. eauto using ascii_text_tail.
Qed.

Lemma digit_in_number c : digit c = true ->
  eqc c "e" || eqc c "E" = false /\ eqc c "," || eqc c "]" || eqc c "}" = false /\
  eqc c quote = false /\ eqc c "," || eqc c ":" = false.
Proof. by destruct c as [[] [] [] [] [] [] [] []]. Qed.

Lemma jsonb_digits ds rest :
  all_digits ds = true -> closes rest = true -> jsonb_extra InNumber (ds ++ rest) = jsonb_extra Outside rest.
Proof.
  intros Hd Hc. induction ds as [|c ds IH]; cbn [String.append].
  - destruct rest as [|c rest]; [done|]. cbn in Hc. cbn. rewrite Hc.
    assert (eqc c "e" || eqc c "E" = false) as -> by (revert Hc; by destruct c as [[] [] [] [] [] [] [] []]). done.
  - cbn in Hd. apply andb_true_iff in Hd as [Hc' Hd]. destruct (digit_in_number c Hc') as (E1 & E2 & _).
    cbn [jsonb_extra]. rewrite E1, E2. auto.
Qed.

Lemma jsonb_int (z : Z) rest : closes rest = true -> jsonb_extra Outside (pretty z ++ rest) = jsonb_extra Outside rest.
Proof.
  intros Hc. destruct z as [|p|p].
  - change (pretty 0) with "0". cbn [String.append]. by rewrite <- (jsonb_digits "" rest).
  - destruct (pretty_pos_digits p) as (c & ds & -> & Hd & _ & Hds). cbn [String.append].
    destruct (digit_in_number c Hd) as (_ & _ & Hq & Hs). cbn [jsonb_extra]. rewrite Hq, Hs, Hd, orb_true_r.
    by apply jsonb_digits.
  - change (pretty (Z.neg p)) with (String "-" (pretty (Z.pos p))). cbn [String.append].
    change (jsonb_extra InNumber (pretty (Z.pos p) ++ rest) = jsonb_extra Outside rest).
    apply jsonb_digits; [apply pretty_all_digits|done].
Qed.

(** Texts whose numbers have no exponents. *)
Definition sized (t : string) : Prop := forall rest, closes rest = true ->
  is_Some (jsonb_extra Outside rest) -> is_Some (jsonb_extra Outside (t ++ rest)).

Lemma sized_comma rest : is_Some (jsonb_extra Outside rest) -> is_Some (jsonb_extra Outside (String "," rest)).
Proof. intros [n E]. cbn. rewrite E. eauto. Qed.

Lemma sized_join texts : Forall sized texts -> sized (comma_join texts).
Proof.
  intros HF. induction HF as [|t texts Ht HF IH]; intros rest Hc Hr; [done|].
  destruct texts as [|u texts]; [by apply Ht|]. rewrite comma_join_cons by done. rewrite append_assoc. cbn [String.append].
  apply Ht; [done|]. by apply sized_comma, IH.
Qed.

Lemma sized_marshal v : ascii_value v = true -> sized (marshal v).
Proof.
  induction v as [s|z|b|items IH|fields IH] using value_ind'; intros Ha rest Hc Hr.
  - by rewrite (jsonb_string s).
  - by rewrite (jsonb_int z).
  - by destruct b.
  - cbn in Ha. cbn [marshal String.append]. rewrite append_assoc. cbn [String.append].
    change (is_Some (jsonb_extra Outside (comma_join (marshal <$> items) ++ String "]" rest))).
    apply sized_join; [|done|exact Hr]. apply Forall_fmap, Forall_forall. intros w Hw. rewrite Forall_forall in IH.
    rewrite forallb_forall in Ha. apply IH; [done|]. apply Ha. by apply list_elem_of_In.
  - cbn in Ha. change (marshal (VObject fields)) with (String "{" (comma_join (member_text <$> fields) ++ "}")).
    cbn [String.append]. rewrite append_assoc. cbn [String.append].
    change (is_Some (jsonb_extra Outside (comma_join (member_text <$> fields) ++ String "}" rest))).
    apply sized_join; [|done|exact Hr]. apply Forall_fmap, Forall_forall. intros [k w] Hw rest' Hc' Hr'.
    rewrite Forall_forall in IH. rewrite forallb_forall in Ha. specialize (Ha (k, w)).
    rewrite <- list_elem_of_In in Ha. specialize (Ha Hw). cbn in Ha. bool_simpl.
    cbn [compose member_text]. rewrite append_assoc, jsonb_string by done. cbn [String.append].
    destruct (IH (k, w) Hw) with (rest := rest') as [n En]; [done|done|done|]. cbn. cbn in En. rewrite En. eauto.
Qed.

(** [TrimSpace] keeps a text whose first and last bytes are not spaces. *)
Lemma byte_at_end s c : byte_at (s ++ String c "") (pred (String.length (s ++ String c ""))) = Some c.
Proof.
  rewrite length_append. cbn [String.length]. rewrite Nat.add_1_r. cbn [pred].
  induction s as [|a s IH]; cbn; done.
Qed.

Lemma TrimSpace_delimited a s c :
  is_ascii (byte_val a) = true -> is_space (byte_val a) = false ->
  is_ascii (byte_val c) = true -> is_space (byte_val c) = false ->
  TrimSpace (String a (s ++ String c "")) = String a (s ++ String c "").
Proof.
  unfold is_ascii. intros Ha Hsa Hc Hsc. bool_simpl. unfold TrimSpace. rewrite trim_left_id.
  - unfold trim_right. apply trim_right_fuel_id. unfold decode_last_rune.
    change (String a (s ++ String c "")) with ((String a s) ++ String c "")%string. rewrite byte_at_end.
    rewrite (proj2 (Z.ltb_lt _ _)) by done. done.
  - rewrite decode_rune_ascii by done. done.
Qed.

Lemma len_marshal_object fields : 2 <= len (marshal (VObject fields)).
Proof.
  change (marshal (VObject fields)) with (String "{" (comma_join (member_text <$> fields) ++ "}")).
  cbn [len]. rewrite len_append. cbn [len]. pose proof (len_nonneg (comma_join (member_text <$> fields))). lia.
Qed.

(** The payloads the sources write are accepted as they are. *)
Lemma normalizePayload_marshal fields :
  ascii_value (VObject fields) = true -> depth_of (VObject fields) <= maxNestingDepth ->
  len (marshal (VObject fields)) <= 32768 ->
  normalizePayload (marshal (VObject fields)) = Ok (marshal (VObject fields)).
Proof.
  intros Ha Hd Hl. set (v := VObject fields) in *. unfold normalizePayload.
  assert (Htrim : TrimSpace (marshal v) = marshal v) by by apply TrimSpace_delimited.
  rewrite Htrim, (proj2 (Z.ltb_ge (len (marshal v)) 2)) by apply len_marshal_object.
  change (starts_object (marshal v)) with true. cbn [orb negb].
  rewrite json_Compact_marshal by done. unfold postgresJSONBTextSize.
  destruct (sized_marshal v Ha "") as [n En]; [done|by eexists|]. rewrite append_nil_r in En. rewrite En.
  pose proof (jsonb_extra_range _ _ _ En). cbn [negb orb].
  rewrite (proj2 (Z.ltb_ge maxPayloadBytes _)) by (unfold maxPayloadBytes; lia). done.
Qed.

Lemma validPayload_marshal fields :
  ascii_value (VObject fields) = true -> depth_of (VObject fields) <= maxNestingDepth ->
  len (marshal (VObject fields)) <= 32768 -> validPayload (marshal (VObject fields)) = true.
Proof.
  intros Ha Hd Hl. unfold validPayload. rewrite json_Valid_marshal by done.
  change (starts_object (marshal (VObject fields))) with true.
  rewrite (proj2 (Z.leb_le 2 _)) by apply len_marshal_object.
  rewrite (proj2 (Z.leb_le _ maxPayloadBytes)) by (unfold maxPayloadBytes; lia). done.
Qed.

(** ** Drafts *)

(** The drafts [NewDraft] can produce. *)
Record draft_wf (d : Draft) : Prop := {
  dw_valid : draft_validate d = Ok tt;
  dw_payload : normalizePayload (payload d) = Ok (payload d);
  dw_time : UTC (occurredAt d) = occurredAt d
}.

Definition draft_params (d : Draft) : DraftParams :=
  mkDraftParams (eventType d) (eventVersion d) (aggregateType d) (aggregateID d) (aggregateVersion d)
    (correlationID d) (causationID d) (occurredAt d) (payload d).

Lemma draft_validate_Ok d :
  draft_validate d = Ok tt <->
  validEventType (eventType d) = true /\ 0 < eventVersion d /\ validAggregateType (aggregateType d) = true /\
  isCanonicalUUID (aggregateID d) = true /\ 0 < aggregateVersion d /\ isCanonicalUUID (correlationID d) = true /\
  (causationID d = "" \/ isCanonicalUUID (causationID d) = true) /\ IsZero (occurredAt d) = false /\
  validPayload (payload d) = true.
Proof.
  unfold draft_validate. destruct (validEventType _); cbn; [|naive_solver].
  destruct (Z.leb_spec (eventVersion d) 0); [naive_solver lia|].
  destruct (validAggregateType _); cbn; [|naive_solver].
  destruct (isCanonicalUUID (aggregateID d)); cbn; [|naive_solver].
  destruct (Z.leb_spec (aggregateVersion d) 0); [naive_solver lia|].
  destruct (isCanonicalUUID (correlationID d)); cbn; [|naive_solver].
  case_bool_decide; cbn; [|destruct (isCanonicalUUID (causationID d)); cbn; [|naive_solver]];
    (destruct (IsZero _); [naive_solver|]); (destruct (validPayload _); cbn; naive_solver).
Qed.

(** Re-validating a well-formed draft gives it back. *)
Lemma NewDraft_fixed d : draft_wf d -> NewDraft (draft_params d) = Ok d.
Proof.
  intros [Hv Hp Ht]. unfold NewDraft, draft_params. cbn [param_Payload param_AggregateID param_CorrelationID
    param_CausationID param_EventType param_EventVersion param_AggregateType param_AggregateVersion param_OccurredAt].
  rewrite Hp, Ht. pose proof Hv as (_ & _ & _ & Ha & _ & Hc & Hca & _)%draft_validate_Ok.
  rewrite (canonical_normalize _ Ha), (canonical_normalize _ Hc). cbn [fst].
  assert (Hd : mkDraft (eventType d) (eventVersion d) (aggregateType d) (aggregateID d) (aggregateVersion d)
    (correlationID d) (causationID d) (occurredAt d) (payload d) = d) by by destruct d.
  case_bool_decide as E.
  - rewrite <- E. rewrite Hd, Hv. done.
  - destruct Hca as [?|Hca]; [done|]. rewrite (canonical_normalize _ Hca), Hd, Hv. done.
Qed.

Lemma NewEnvelope_wf id d :
  isCanonicalUUID id = true -> draft_wf d -> NewEnvelope id d = Ok (mkEnvelope id d).
Proof.
  intros Hid [Hv _ _]. unfold NewEnvelope. rewrite (canonical_normalize _ Hid). cbn [negb]. by rewrite Hv.
Qed.

(** Construction keeps the identity of an event, and its identifiers come out
    in canonical form. *)
Lemma NewDraft_identity p d :
  NewDraft p = Ok d ->
  eventType d = param_EventType p /\ eventVersion d = param_EventVersion p /\
  aggregateType d = param_AggregateType p /\ aggregateVersion d = param_AggregateVersion p /\
  aggregateID d = (normalizeUUID (param_AggregateID p)).1.
Proof.
  unfold NewDraft. destruct (normalizePayload _); [|done].
  destruct (if bool_decide _ then _ else _); [|done]. destruct (draft_validate _); [|done]. by intros [= <-].
Qed.
