(* ===== verification/TransferEvents.v ===== *)
(** * Transfer events

    [internal/transfer/events/]: the integration events of the transfer
    lifecycle.  Each constructor marshals its payload and builds a draft; for a
    valid transfer or lifecycle in the right state it always succeeds. *)

From stdpp Require Import base list strings numbers pretty.
From Stdlib Require Import ZArith Lia Ascii String.
From S2P Require Import Prelude GoText Money Journal TransferDomain RiskPolicy Json GoTime Event.

Open Scope string_scope.
Open Scope Z_scope.

Definition RequestedType : string := "transfer.requested".
Definition RequestedVersion : Z := 1.
Definition CompletedType : string := "transfer.completed".
Definition CompletedVersion : Z := 1.
Definition FailedType : string := "transfer.failed".
Definition FailedVersion : Z := 1.
Definition RiskAssessedType : string := "transfer.risk_assessed".
Definition RiskAssessedVersion : Z := 1.
Definition ReviewDecidedType : string := "transfer.review_decided".
Definition ReviewDecidedVersion : Z := 1.

(** The fields that the requested and completed payloads share. *)
Definition intent_fields (t : Transfer) : list (string * value) :=
  [("transfer_id", VString (transfer_id t));
   ("requester_id", VString (requesterID t));
   ("source_account_id", VString (sourceAccountID t));
   ("destination_account_id", VString (destinationAccountID t));
   ("currency", VString (currency_String (currency (transfer_amount t))));
   ("amount_minor", VInt (minorUnits (transfer_amount t)));
   ("requested_at", VString (format_rfc3339nano (requestedAt t)))].

Definition Requested (lifecycle : Lifecycle) : Result Draft :=
  if negb (bool_decide (lc_status lifecycle = StatusPendingRisk)) then Err [ErrInvalidLifecycle]
  else
    let transfer := lc_transfer lifecycle in
    let payload := marshal (VObject (intent_fields transfer ++
                     [("risk_policy_version", VString (riskPolicyVersion lifecycle))])%list) in
    NewDraft (mkDraftParams RequestedType RequestedVersion "transfer" (transfer_id transfer)
      (lc_version lifecycle) (transfer_id transfer) "" (requestedAt transfer) payload).

Definition Completed (transfer : Transfer) : Result Draft :=
  match transfer_JournalEntry transfer with
  | Err e => Err e
  | Ok _ =>
      let payload := marshal (VObject (intent_fields transfer)) in
      NewDraft (mkDraftParams CompletedType CompletedVersion "transfer" (transfer_id transfer) 1
        (transfer_id transfer) "" (requestedAt transfer) payload)
  end.

Definition CompletedLifecycle (lifecycle : Lifecycle) (completedAt : Time) (causationID : string) : Result Draft :=
  if negb (bool_decide (lc_status lifecycle = StatusCompleted)) || bool_decide (causationID = "")
  then Err [ErrInvalidLifecycle]
  else
    let transfer := lc_transfer lifecycle in
    let payload := marshal (VObject (intent_fields transfer)) in
    NewDraft (mkDraftParams CompletedType CompletedVersion "transfer" (transfer_id transfer)
      (lc_version lifecycle) (transfer_id transfer) causationID completedAt payload).

Definition Failed (lifecycle : Lifecycle) (failedAt : Time) (causationID : string) : Result Draft :=
  if negb (bool_decide (lc_status lifecycle = StatusFailed)) || bool_decide (causationID = "")
  then Err [ErrInvalidLifecycle]
  else
    let id := transfer_id (lc_transfer lifecycle) in
    let payload := marshal (VObject [("transfer_id", VString id);
                                     ("reason_code", VString (failureReason lifecycle))]) in
    NewDraft (mkDraftParams FailedType FailedVersion "transfer" id (lc_version lifecycle) id causationID
      failedAt payload).

Definition matchesRiskDecision (status : Status) (decision : RiskDecision) : bool :=
  match decision with
  | DecisionApprove => bool_decide (status = StatusApproved)
  | DecisionReview => bool_decide (status = StatusReviewRequired)
  | DecisionDecline => bool_decide (status = StatusDeclined)
  | DecisionUnknown => false
  end.

Definition signal_value (s : Signal) : value :=
  VObject [("code", VString (signal_code s)); ("contribution", VInt (contribution s))].

Definition RiskAssessed (lifecycle : Lifecycle) (evaluation : Evaluation) (assessedAt : Time)
    (causationID : string) : Result Draft :=
  if negb (matchesRiskDecision (lc_status lifecycle) (decision evaluation)) ||
     negb (bool_decide (eval_policyVersion evaluation = riskPolicyVersion lifecycle)) ||
     (score evaluation <? 0) || (1000 <? score evaluation) || bool_decide (causationID = "")
  then Err [ErrInvalidLifecycle]
  else
    let id := transfer_id (lc_transfer lifecycle) in
    let payload := marshal (VObject [("transfer_id", VString id);
                                     ("risk_policy_version", VString (eval_policyVersion evaluation));
                                     ("score", VInt (score evaluation));
                                     ("decision", VString (decision_String (decision evaluation)));
                                     ("signals", VArray (signal_value <$> signals evaluation))]) in
    NewDraft (mkDraftParams RiskAssessedType RiskAssessedVersion "transfer" id (lc_version lifecycle) id
      causationID assessedAt payload).

Definition ReviewDecided (lifecycle : Lifecycle) (subject : string) (decidedAt : Time) : Result Draft :=
  if (negb (bool_decide (lc_status lifecycle = StatusApproved)) &&
      negb (bool_decide (lc_status lifecycle = StatusDeclined))) || bool_decide (subject = "")
  then Err [ErrInvalidLifecycle]
  else
    let id := transfer_id (lc_transfer lifecycle) in
    let payload := marshal (VObject [("transfer_id", VString id);
                                     ("decision", VString (status_String (lc_status lifecycle)));
                                     ("decided_by", VString subject)]) in
    NewDraft (mkDraftParams ReviewDecidedType ReviewDecidedVersion "transfer" id (lc_version lifecycle) id ""
      (UTC decidedAt) payload).

(** ** Sizes of payloads *)

#[local] Arguments String.append : simpl nomatch.

Lemma len_escape_byte c : len (escape_byte c) <= 6.
Proof. destruct c as [[] [] [] [] [] [] [] []]; vm_compute; discriminate. Qed.

Lemma len_marshal_string s : ascii_text s = true -> len (marshal_string s) <= 6 * len s + 2.
Proof.
  intros Hs. unfold marshal_string. cbn [len]. rewrite len_append. cbn [len].
  enough (len (escape 0 s) <= 6 * len s) by lia.
  induction s as [|c s IH]; [done|]. rewrite escape_ascii_cons by done. rewrite len_append. cbn [len].
  pose proof (len_escape_byte c). specialize (IH (ascii_text_tail _ _ Hs)). lia.
Qed.

Lemma len_pretty_N_go k n acc : (n < 10 ^ N.of_nat k)%N -> len (pretty_N_go n acc) <= Z.of_nat k + len acc.
Proof.
  revert n acc. induction k as [|k IH]; intros n acc Hn.
  - assert (n = 0%N) as -> by (cbn in Hn; lia). rewrite pretty_N_go_0. lia.
  - destruct (decide (n = 0%N)) as [->|Hz]; [rewrite pretty_N_go_0; lia|].
    rewrite pretty_N_go_step by lia. etrans; [apply IH|cbn [len]; lia].
    apply N.Div0.div_lt_upper_bound. rewrite Nat2N.inj_succ, N.pow_succ_r' in Hn. lia.
Qed.

Lemma len_pretty z : in_int64 z -> len (pretty z) <= 20.
Proof.
  intros Hz. assert (Hp : forall p, Z.pos p <= 9223372036854775808 -> len (pretty (Z.pos p)) <= 19).
  { intros p Hp. change (len (pretty_N_go (N.pos p) "") <= 19).
    etrans; [apply (len_pretty_N_go 19)|cbn; lia]. change (10 ^ N.of_nat 19)%N with 10000000000000000000%N. lia. }
  destruct z as [|p|p]; [vm_compute; discriminate| |].
  - specialize (Hp p). int64_lia.
  - change (pretty (Z.neg p)) with (String "-" (pretty (Z.pos p))). cbn [len]. specialize (Hp p). int64_lia.
Qed.

(** An upper bound of the text of an object. *)
Definition object_bound (fields : list (string * value)) : Z :=
  2 + foldr (fun '(k, w) acc => 6 * len k + len (marshal w) + 4 + acc) 0 fields.

Lemma len_comma_join texts : len (comma_join texts) <= foldr (fun t acc => len t + 1 + acc) 0 texts.
Proof.
  induction texts as [|t texts IH]; [done|]. destruct texts as [|u texts]; [cbn; lia|].
  rewrite comma_join_cons by done. rewrite len_append. cbn [len foldr]. cbn [foldr] in IH. lia.
Qed.

Lemma len_marshal_object_le fields :
  Forall (fun kv => ascii_text kv.1 = true) fields -> len (marshal (VObject fields)) <= object_bound fields.
Proof.
  intros HF. change (marshal (VObject fields)) with (String "{" (comma_join (member_text <$> fields) ++ "}")).
  cbn [len]. rewrite len_append. cbn [len]. pose proof (len_comma_join (member_text <$> fields)) as Hj.
  assert (Hs : foldr (fun t acc => len t + 1 + acc) 0 (member_text <$> fields) <=
               foldr (fun '(k, w) acc => 6 * len k + len (marshal w) + 4 + acc) 0 fields).
  { clear Hj. induction HF as [|[k w] fields Hk _ IH]; [done|]. cbn [fmap list_fmap foldr].
    cbn [member_text]. rewrite len_append. cbn [len]. pose proof (len_marshal_string k Hk).
    change (list_fmap _ _ member_text fields) with (member_text <$> fields). lia. }
  unfold object_bound. lia.
Qed.

(** ** Drafts of marshalled payloads *)

Lemma NewDraft_marshal ty v id av ca at_ fields :
  validEventType ty = true -> 0 < v -> isCanonicalUUID id = true -> 0 < av ->
  (ca = "" \/ isCanonicalUUID ca = true) -> IsZero at_ = false ->
  ascii_value (VObject fields) = true -> depth_of (VObject fields) <= maxNestingDepth ->
  object_bound fields <= 32768 ->
  let d := mkDraft ty v "transfer" id av id ca (UTC at_) (marshal (VObject fields)) in
  NewDraft (mkDraftParams ty v "transfer" id av id ca at_ (marshal (VObject fields))) = Ok d /\ draft_wf d.
Proof.
  intros Hty Hv Hid Hav Hca Hat Ha Hd Hb d.
  assert (Hl : len (marshal (VObject fields)) <= 32768).
  { etrans; [apply len_marshal_object_le|done]. cbn in Ha. rewrite forallb_forall in Ha.
    apply Forall_forall. intros [k w] Hin%list_elem_of_In. specialize (Ha _ Hin). cbn in Ha. by bool_simpl. }
  assert (Hw : draft_wf d).
  { split; [apply draft_validate_Ok|by apply normalizePayload_marshal|done].
    split_and!; try done. by apply validPayload_marshal. }
  split; [|done]. rewrite <- (NewDraft_fixed d Hw). done.
Qed.

Lemma visible_ascii s : all_bytes is_visible s = true -> ascii_text s = true.
Proof. apply all_bytes_impl. intros c _. unfold is_visible, is_ascii, RuneSelf. lia. Qed.

Lemma canonical_ascii s : isCanonicalUUID s = true -> ascii_text s = true.
Proof. intros H. by apply visible_ascii, canonical_visible. Qed.

Lemma currency_text c : currency_valid c = true ->
  ascii_text (currency_String c) = true /\ len (currency_String c) = 3.
Proof.
  intros H. unfold currency_String. rewrite H. split; [|done]. unfold currency_valid in H. bool_simpl.
  assert (Hl : forall a, letter a = true -> is_ascii (byte_val a) = true).
  { intros a. unfold letter, is_upper, is_ascii, RuneSelf. lia. }
  cbn [negb]. rewrite !ascii_text_cons. rewrite !Hl by done. done.
Qed.

(** The times whose text has a four-digit year. *)
Definition printable_time (t : Time) : Prop := 0 <= year_of t < 10000.

Lemma len_uuid_text s : isCanonicalUUID s = true -> len (marshal_string s) <= 218.
Proof. intros H. pose proof (len_marshal_string s (canonical_ascii s H)). rewrite (canonical_len s H) in *. lia. Qed.

Lemma intent_fields_ok t :
  transfer_wf t -> printable_time (requestedAt t) ->
  forallb (fun '(k, w) => ascii_text k && ascii_value w) (intent_fields t) = true /\
  object_bound (intent_fields t) <= 4000 /\ foldr Z.max 0 ((fun '(_, w) => depth_of w) <$> intent_fields t) = 0.
Proof.
  intros ((Hid & _ & Hr & Hs & Hd & _ & Hc & _ & _)%transfer_validate_Ok & Hi & _) Ht.
  destruct (currency_text _ Hc) as [Hca Hcl].
  split_and!; [|unfold object_bound|done].
  - unfold intent_fields. cbn [forallb ascii_value]. 
    by rewrite (canonical_ascii _ Hid), (canonical_ascii _ Hr), (canonical_ascii _ Hs), (canonical_ascii _ Hd), Hca, format_ascii.
  - unfold intent_fields. cbn [foldr marshal].
    pose proof (len_uuid_text _ Hid). pose proof (len_uuid_text _ Hr). pose proof (len_uuid_text _ Hs).
    pose proof (len_uuid_text _ Hd). pose proof (len_marshal_string _ Hca). pose proof (len_pretty _ Hi).
    pose proof (len_marshal_string _ (format_ascii (requestedAt t))). pose proof (len_format _ Ht).
    cbn [len] in *. lia.
Qed.

(** ** The drafts *)

Definition requested_draft (l : Lifecycle) : Draft :=
  let t := lc_transfer l in
  mkDraft RequestedType RequestedVersion "transfer" (transfer_id t) (lc_version l) (transfer_id t) ""
    (UTC (requestedAt t))
    (marshal (VObject (intent_fields t ++ [("risk_policy_version", VString (riskPolicyVersion l))])%list)).

Definition completed_draft (t : Transfer) (version : Z) (causationID : string) (at_ : Time) : Draft :=
  mkDraft CompletedType CompletedVersion "transfer" (transfer_id t) version (transfer_id t) causationID (UTC at_)
    (marshal (VObject (intent_fields t))).

Definition failed_draft (l : Lifecycle) (at_ : Time) (causationID : string) : Draft :=
  let id := transfer_id (lc_transfer l) in
  mkDraft FailedType FailedVersion "transfer" id (lc_version l) id causationID (UTC at_)
    (marshal (VObject [("transfer_id", VString id); ("reason_code", VString (failureReason l))])).

Definition assessed_draft (l : Lifecycle) (ev : Evaluation) (at_ : Time) (causationID : string) : Draft :=
  let id := transfer_id (lc_transfer l) in
  mkDraft RiskAssessedType RiskAssessedVersion "transfer" id (lc_version l) id causationID (UTC at_)
    (marshal (VObject [("transfer_id", VString id);
                       ("risk_policy_version", VString (eval_policyVersion ev));
                       ("score", VInt (score ev));
                       ("decision", VString (decision_String (decision ev)));
                       ("signals", VArray (signal_value <$> signals ev))])).

Definition decided_draft (l : Lifecycle) (subject : string) (at_ : Time) : Draft :=
  let id := transfer_id (lc_transfer l) in
  mkDraft ReviewDecidedType ReviewDecidedVersion "transfer" id (lc_version l) id "" (UTC at_)
    (marshal (VObject [("transfer_id", VString id); ("decision", VString (status_String (lc_status l)));
                       ("decided_by", VString subject)])).

Lemma transfer_entry_ok t : transfer_wf t -> transfer_JournalEntry t = Ok (transfer_entry t (requestedAt t)).
Proof.
  intros Hw. pose proof Hw as (Hv & _ & _). pose proof Hv as (_ & _ & _ & _ & _ & _ & _ & _ & Hz)%transfer_validate_Ok.
  unfold transfer_JournalEntry. rewrite Hv. cbn [mbind Result_bind]. by apply build_transfer_entry.
Qed.

(** The draft of a payload with the intent fields and perhaps one more. *)
Lemma intent_draft ty v t av ca at_ extra :
  validEventType ty = true -> 0 < v -> transfer_wf t -> printable_time (requestedAt t) -> 0 < av ->
  (ca = "" \/ isCanonicalUUID ca = true) -> IsZero at_ = false ->
  forallb (fun '(k, w) => ascii_text k && ascii_value w) extra = true ->
  object_bound extra <= 4000 -> foldr Z.max 0 ((fun '(_, w) => depth_of w) <$> extra) = 0 ->
  let d := mkDraft ty v "transfer" (transfer_id t) av (transfer_id t) ca (UTC at_)
             (marshal (VObject (intent_fields t ++ extra)%list)) in
  NewDraft (mkDraftParams ty v "transfer" (transfer_id t) av (transfer_id t) ca at_
    (marshal (VObject (intent_fields t ++ extra)%list))) = Ok d /\ draft_wf d.
Proof.
  intros Hty Hv Hw Hp Hav Hca Hat He Hb Hd. destruct (intent_fields_ok t Hw Hp) as (Ha & Hib & Hid).
  pose proof Hw as ((Hcan & _)%transfer_validate_Ok & _).
  apply NewDraft_marshal; try done.
  - cbn [ascii_value]. rewrite forallb_app, Ha, He. done.
  - cbn [depth_of]. rewrite fmap_app, foldr_app, Hd, Hid. done.
  - unfold object_bound in *. rewrite foldr_app.
    assert (Hs : forall (l : list (string * value)) a, foldr (fun '(k, w) acc => 6 * len k + len (marshal w) + 4 + acc) a l =
      a + foldr (fun '(k, w) acc => 6 * len k + len (marshal w) + 4 + acc) 0 l).
    { clear. intros l a. induction l as [|[k w] l IH]; cbn [foldr]; [lia|]. rewrite IH. lia. }
    rewrite Hs. lia.
Qed.

Lemma policy_text v : validPolicyVersion v = true -> ascii_text v = true /\ len (marshal_string v) <= 386.
Proof.
  intros H. pose proof (visible_ascii _ (validPolicyVersion_visible v H)) as Ha. split; [done|].
  pose proof (len_marshal_string v Ha). unfold validPolicyVersion, maxLifecycleCodeBytes in H.
  destruct (len v =? 0); [done|]. destruct (Z.ltb_spec 64 (len v)); [done|]. lia.
Qed.

Lemma Completed_ok t :
  transfer_wf t -> printable_time (requestedAt t) ->
  Completed t = Ok (completed_draft t 1 "" (requestedAt t)) /\ draft_wf (completed_draft t 1 "" (requestedAt t)).
Proof.
  intros Hw Hp. unfold Completed, completed_draft. rewrite transfer_entry_ok by done.
  pose proof Hw as ((_ & _ & _ & _ & _ & _ & _ & _ & Hz)%transfer_validate_Ok & _).
  pose proof (intent_draft CompletedType CompletedVersion t 1 "" (requestedAt t) []) as H.
  rewrite app_nil_r in H. apply H; (done || auto).
Qed.

Lemma Requested_ok l :
  lifecycle_wf l -> lc_status l = StatusPendingRisk -> printable_time (requestedAt (lc_transfer l)) ->
  Requested l = Ok (requested_draft l) /\ draft_wf (requested_draft l).
Proof.
  intros Hw Hs Hp. unfold Requested. rewrite Hs. cbn [negb]. rewrite bool_decide_eq_true_2 by done. cbn [negb].
  pose proof Hw as (Hv & Ht & _). pose proof Hv as (Htv & Hver & _)%lifecycle_validate_Ok.
  pose proof Htv as (_ & _ & _ & _ & _ & _ & _ & _ & Hz)%transfer_validate_Ok.
  destruct (policy_text (riskPolicyVersion l)) as [Ha Hl]; [apply lifecycle_policy; [done|congruence]|].
  apply intent_draft; try done; auto.
  - cbn. by rewrite Ha.
  - unfold object_bound. cbn [foldr marshal]. cbn [len]. lia.
Qed.

Lemma CompletedLifecycle_ok l at_ ca :
  lifecycle_wf l -> lc_status l = StatusCompleted -> printable_time (requestedAt (lc_transfer l)) ->
  IsZero at_ = false -> isCanonicalUUID ca = true ->
  let d := completed_draft (lc_transfer l) (lc_version l) ca at_ in
  CompletedLifecycle l at_ ca = Ok d /\ draft_wf d.
Proof.
  intros Hw Hs Hp Hat Hca. unfold CompletedLifecycle, completed_draft. rewrite Hs.
  rewrite bool_decide_eq_true_2 by done. rewrite bool_decide_eq_false_2 by by apply canonical_nonempty. cbn [negb orb].
  destruct Hw as ((_ & Hver & _)%lifecycle_validate_Ok & Ht & _).
  pose proof (intent_draft CompletedType CompletedVersion (lc_transfer l) (lc_version l) ca at_ []) as H.
  rewrite app_nil_r in H. apply H; (done || auto).
Qed.

Lemma Failed_ok l at_ ca :
  lifecycle_wf l -> lc_status l = StatusFailed -> IsZero at_ = false -> isCanonicalUUID ca = true ->
  Failed l at_ ca = Ok (failed_draft l at_ ca) /\ draft_wf (failed_draft l at_ ca).
Proof.
  intros Hw Hs Hat Hca. unfold Failed, failed_draft. rewrite Hs.
  rewrite bool_decide_eq_true_2 by done. rewrite bool_decide_eq_false_2 by by apply canonical_nonempty. cbn [negb orb].
  destruct Hw as ((_ & Hver & Hsh)%lifecycle_validate_Ok & ((Hid & _)%transfer_validate_Ok & _) & _).
  unfold status_shape in Hsh. rewrite Hs in Hsh.
  assert (Hc : validLifecycleCode (failureReason l) = true) by naive_solver.
  pose proof (visible_ascii _ (validLifecycleCode_visible _ Hc)) as Ha.
  assert (len (failureReason l) <= 64).
  { unfold validLifecycleCode, maxLifecycleCodeBytes in Hc. destruct (_ || _) eqn:E; [done|]. bool_simpl. lia. }
  apply NewDraft_marshal; try done; auto.
  - cbn. by rewrite (canonical_ascii _ Hid), Ha.
  - unfold object_bound. cbn [foldr marshal]. pose proof (len_uuid_text _ Hid).
    pose proof (len_marshal_string _ Ha). cbn [len]. lia.
Qed.

(** The evaluations the policy produces. *)
Definition evaluation_wf (ev : Evaluation) : Prop :=
  0 <= score ev <= 1000 /\ (List.length (signals ev) <= 8)%nat /\
  Forall (fun s => ascii_text (signal_code s) = true /\ len (signal_code s) <= 64 /\ in_int64 (contribution s)) (signals ev).

Lemma signals_bound ss :
  Forall (fun s => ascii_text (signal_code s) = true /\ len (signal_code s) <= 64 /\ in_int64 (contribution s)) ss ->
  forallb ascii_value (signal_value <$> ss) = true /\
  foldr Z.max 0 (depth_of <$> (signal_value <$> ss)) <= 1 /\
  len (comma_join (marshal <$> (signal_value <$> ss))) <= 1000 * Z.of_nat (List.length ss).
Proof.
  intros HF. split_and!.
  - induction HF as [|s ss (Ha & _) _ IH]; [done|]. cbn. cbn in IH. by rewrite Ha.
  - induction HF as [|s ss _ _ IH]; cbn; [lia|]. cbn in IH. lia.
  - etrans; [apply len_comma_join|]. induction HF as [|s ss (Ha & Hl & Hi) _ IH]; [done|].
    cbn [fmap list_fmap foldr List.length].
    assert (len (marshal (signal_value s)) <= 900).
    { etrans; [apply len_marshal_object_le; repeat constructor|]. unfold object_bound. cbn [foldr marshal].
      pose proof (len_marshal_string _ Ha). pose proof (len_pretty _ Hi). cbn [len]. lia. }
    cbn [fmap list_fmap] in IH. lia.
Qed.

(** The documents of the two decisions are small. *)
Definition assessed_members (l : Lifecycle) (ev : Evaluation) : list (string * value) :=
  [("transfer_id", VString (transfer_id (lc_transfer l))); ("risk_policy_version", VString (eval_policyVersion ev));
   ("score", VInt (score ev)); ("decision", VString (decision_String (decision ev)));
   ("signals", VArray (signal_value <$> signals ev))].

Definition decided_members (l : Lifecycle) (subject : string) : list (string * value) :=
  [("transfer_id", VString (transfer_id (lc_transfer l))); ("decision", VString (status_String (lc_status l)));
   ("decided_by", VString subject)].

Lemma assessed_members_ok l ev :
  lifecycle_wf l -> evaluation_wf ev -> lc_status l <> StatusCompleted -> eval_policyVersion ev = riskPolicyVersion l ->
  ascii_value (VObject (assessed_members l ev)) = true /\ depth_of (VObject (assessed_members l ev)) <= 3 /\
  object_bound (assessed_members l ev) <= 32768.
Proof.
  intros Hw (Hsc & Hn & HF) Hst Hpv. destruct (policy_text (riskPolicyVersion l)) as [Ha Hl]; [by apply lifecycle_policy|].
  destruct Hw as (_ & ((Hid & _)%transfer_validate_Ok & _) & _). destruct (signals_bound _ HF) as (Hsa & Hsd & Hsl).
  assert (ascii_text (decision_String (decision ev)) = true /\ len (marshal_string (decision_String (decision ev))) <= 50)
    as [Hda Hdl] by (destruct (decision ev); vm_compute; split; congruence).
  assert (Hsi : in_int64 (score ev)) by int64_lia. unfold assessed_members. rewrite Hpv. split_and!.
  - cbn [ascii_value forallb]. by rewrite (canonical_ascii _ Hid), Ha, Hda, Hsa.
  - cbn [depth_of fmap list_fmap foldr]. cbn [fmap list_fmap] in Hsd. lia.
  - unfold object_bound. cbn [foldr marshal]. pose proof (len_uuid_text _ Hid). pose proof (len_pretty _ Hsi).
    cbn [len] in *. rewrite !len_append. cbn [len] in *. lia.
Qed.

Lemma decided_members_ok l subject :
  lifecycle_wf l -> ascii_text subject = true -> len subject <= 128 ->
  ascii_value (VObject (decided_members l subject)) = true /\ depth_of (VObject (decided_members l subject)) <= 3 /\
  object_bound (decided_members l subject) <= 32768.
Proof.
  intros (_ & ((Hid & _)%transfer_validate_Ok & _) & _) Ha Hl.
  assert (ascii_text (status_String (lc_status l)) = true /\ len (marshal_string (status_String (lc_status l))) <= 100)
    as [Hsa Hsl] by (destruct (lc_status l); vm_compute; split; congruence).
  unfold decided_members. split_and!; [cbn; by rewrite (canonical_ascii _ Hid), Hsa, Ha|done|].
  unfold object_bound. cbn [foldr marshal]. pose proof (len_uuid_text _ Hid). pose proof (len_marshal_string _ Ha). cbn [len] in *. lia.
Qed.

Lemma RiskAssessed_ok l ev at_ ca :
  lifecycle_wf l -> evaluation_wf ev -> matchesRiskDecision (lc_status l) (decision ev) = true ->
  eval_policyVersion ev = riskPolicyVersion l -> IsZero at_ = false -> isCanonicalUUID ca = true ->
  RiskAssessed l ev at_ ca = Ok (assessed_draft l ev at_ ca) /\ draft_wf (assessed_draft l ev at_ ca).
Proof.
  intros Hw Hev Hm Hpv Hat Hca. unfold RiskAssessed, assessed_draft. rewrite Hm.
  rewrite bool_decide_eq_true_2 by done. rewrite bool_decide_eq_false_2 by by apply canonical_nonempty.
  pose proof Hev as (Hsc & _). rewrite (proj2 (Z.ltb_ge (score ev) 0)), (proj2 (Z.ltb_ge 1000 (score ev))) by lia. cbn [negb orb].
  assert (Hst : lc_status l <> StatusCompleted) by (intros E; rewrite E in Hm; by destruct (decision ev)).
  destruct (assessed_members_ok l ev Hw Hev Hst Hpv) as (Ha & Hd & Hb).
  destruct Hw as ((_ & Hver & _)%lifecycle_validate_Ok & ((Hid & _)%transfer_validate_Ok & _) & _).
  apply NewDraft_marshal; try done; auto. etrans; [exact Hd|done].
Qed.

Lemma ReviewDecided_ok l subject at_ :
  lifecycle_wf l -> lc_status l = StatusApproved \/ lc_status l = StatusDeclined ->
  subject <> "" -> ascii_text subject = true -> len subject <= 128 -> IsZero at_ = false ->
  ReviewDecided l subject at_ = Ok (decided_draft l subject at_) /\ draft_wf (decided_draft l subject at_).
Proof.
  intros Hw Hs Hne Ha Hl Hat. unfold ReviewDecided, decided_draft.
  assert (Hg : negb (bool_decide (lc_status l = StatusApproved)) && negb (bool_decide (lc_status l = StatusDeclined)) = false).
  { destruct Hs as [-> | ->]; done. }
  rewrite Hg, bool_decide_eq_false_2 by done. cbn [orb]. rewrite <- (IsZero_UTC at_) in Hat.
  change (UTC at_) with (UTC (UTC at_)) at 2 3. destruct (decided_members_ok l subject Hw Ha Hl) as (Hma & Hmd & Hmb).
  destruct Hw as ((_ & Hver & _)%lifecycle_validate_Ok & ((Hid & _)%transfer_validate_Ok & _) & _).
  apply NewDraft_marshal; try done; auto.
Qed.

(** ** Identities *)

(** An event of a transfer at a version. *)
Definition about (e : Draft) (type : string) (id : string) (version : Z) : Prop :=
  eventType e = type /\ aggregateType e = "transfer" /\ aggregateID e = id /\ aggregateVersion e = version.

Lemma NewDraft_about type v id version co ca at_ text e :
  isCanonicalUUID id = true -> NewDraft (mkDraftParams type v "transfer" id version co ca at_ text) = Ok e ->
  about e type id version.
Proof.
  intros Hid (H1 & _ & H2 & H3 & H4)%NewDraft_identity. cbn in *. rewrite canonical_normalize in H4 by done. done.
Qed.

Lemma canonical_transfer_id t : transfer_wf t -> isCanonicalUUID (transfer_id t) = true.
Proof. by intros ((? & _)%transfer_validate_Ok & _). Qed.

Lemma Completed_about t e : transfer_wf t -> Completed t = Ok e -> about e CompletedType (transfer_id t) 1.
Proof.
  intros Hw. unfold Completed. destruct (transfer_JournalEntry t); [|done]. apply NewDraft_about. by apply canonical_transfer_id.
Qed.

Lemma Requested_about l e :
  transfer_wf (lc_transfer l) -> Requested l = Ok e -> about e RequestedType (transfer_id (lc_transfer l)) (lc_version l).
Proof.
  intros Hw. unfold Requested. destruct (negb _); [done|]. apply NewDraft_about. by apply canonical_transfer_id.
Qed.

Lemma CompletedLifecycle_about l at_ ca e :
  transfer_wf (lc_transfer l) -> CompletedLifecycle l at_ ca = Ok e ->
  about e CompletedType (transfer_id (lc_transfer l)) (lc_version l).
Proof.
  intros Hw. unfold CompletedLifecycle. destruct (_ || _); [done|]. apply NewDraft_about. by apply canonical_transfer_id.
Qed.

Lemma Failed_about l at_ ca e :
  transfer_wf (lc_transfer l) -> Failed l at_ ca = Ok e ->
  about e FailedType (transfer_id (lc_transfer l)) (lc_version l).
Proof.
  intros Hw. unfold Failed. destruct (_ || _); [done|]. apply NewDraft_about. by apply canonical_transfer_id.
Qed.

Lemma RiskAssessed_about l ev at_ ca e :
  transfer_wf (lc_transfer l) -> RiskAssessed l ev at_ ca = Ok e ->
  about e RiskAssessedType (transfer_id (lc_transfer l)) (lc_version l).
Proof.
  intros Hw. unfold RiskAssessed. destruct (_ || _); [done|]. apply NewDraft_about. by apply canonical_transfer_id.
Qed.

Lemma ReviewDecided_about l subject at_ e :
  transfer_wf (lc_transfer l) -> ReviewDecided l subject at_ = Ok e ->
  about e ReviewDecidedType (transfer_id (lc_transfer l)) (lc_version l).
Proof.
  intros Hw. unfold ReviewDecided. destruct (_ || _); [done|]. apply NewDraft_about. by apply canonical_transfer_id.
Qed.
