(* ===== verification/Outbox.v ===== *)
(** * The transactional outbox: writing events

    [internal/outbox/postgres/writer.go]: [AddTx] stores an event inside the
    caller's transaction, with the constraints of
    [migrations/000004_create_outbox_inbox.up.sql] and
    [000006_allow_event_type_underscores.up.sql]. *)

From stdpp Require Import base list gmap strings numbers.
From Stdlib Require Import ZArith Lia.
From S2P Require Import Prelude GoText Json GoTime Event Database.

Open Scope string_scope.
Open Scope Z_scope.

Definition ErrInvalidArgument : leaf := errors_New "outbox repository: invalid argument".
Definition ErrAlreadyExists : leaf := errors_New "outbox repository: event already exists".
Definition ErrClaimLost : leaf := errors_New "outbox repository: claim lost".
Definition ErrCorruptData : leaf := errors_New "outbox repository: corrupt data".

Definition has_prefix (prefix s : string) : bool := bool_decide (take_bytes (String.length prefix) s = prefix).

Definition classifyWriteError (err : error) : error :=
  match errors_AsPg err with
  | None => err
  | Some e =>
      if bool_decide (Code e = "23505") && bool_decide (ConstraintName e = "outbox_events_aggregate_event_key")
      then ErrAlreadyExists :: err
      else if bool_decide (Code e = "23514") && bool_decide (ConstraintName e = "outbox_events_payload_check")
      then ErrInvalidArgument :: err
      else if has_prefix "22" (Code e) then ErrInvalidArgument :: err
      else err
  end.

Definition validateDraft (d : Draft) : Result Draft := NewDraft (draft_params d).

Definition nullableString (value : string) : option string :=
  if bool_decide (value = "") then None else Some value.

Section Outbox.
Context `{Pg}.

(** The identity of an aggregate's event, unique in the table. *)
Definition same_event (r1 r2 : OutboxRow) : bool :=
  bool_decide (ob_aggregate_type r1 = ob_aggregate_type r2) &&
  bool_decide (ob_aggregate_id r1 = ob_aggregate_id r2) &&
  (ob_aggregate_version r1 =? ob_aggregate_version r2) &&
  bool_decide (ob_type r1 = ob_type r2) && (ob_version r1 =? ob_version r2).

(** The server's reading of an optional UUID text. *)
Definition scan_optional (value : option string) : option (option UUID) :=
  match value with
  | None => Some None
  | Some text => match uuid_scan text with Some u => Some (Some u) | None => None end
  end.

(** The row of a draft, or [None] when the server refuses one of its UUIDs. *)
Definition outbox_row (sequence : Z) (now : Time) (stored : string) (d : Draft) : option OutboxRow :=
  match uuid_scan (aggregateID d), uuid_scan (correlationID d), scan_optional (nullableString (causationID d)) with
  | Some aggregate, Some correlation, Some causation =>
      Some (mkOutboxRow sequence (eventType d) (eventVersion d) (aggregateType d) aggregate (aggregateVersion d)
              correlation causation (stored_time (occurredAt d)) stored now now 0 None None None None)
  | _, _, _ => None
  end.

(** [insertEventQuery]: the generated event identifier.  The CHECK on the event
    and aggregate types is the same grammar as [validEventType] and
    [validAggregateType]. *)
Definition insertEventQuery (d : Draft) (s : Service) (n : nat) (now : Time) (db : DB) : Result (UUID * DB) :=
  match stored_json (payload d) with
  | None => Err [Postgres (mkPgError "22P05" "")]
  | Some stored =>
      match outbox_row (t_outbox_sequence db + 1) now stored d with
      | None => Err invalid_text
      | Some row =>
          if aggregateVersion d <=? 0 then Err (check_violation "outbox_events_aggregate_version_check")
          else if negb (validAggregateType (aggregateType d)) then Err (check_violation "outbox_events_aggregate_type_check")
          else if negb (validEventType (eventType d)) then Err (check_violation "outbox_events_event_type_check")
          else if eventVersion d <=? 0 then Err (check_violation "outbox_events_event_version_check")
          else if maxPayloadBytes <? len stored then Err (check_violation "outbox_events_payload_check")
          else
            let id := generated s n in
            if negb (bool_decide (t_outbox db !! id = None)) then Err (unique_violation "outbox_events_pkey")
            else if existsb (fun '(_, r) => same_event r row) (map_to_list (t_outbox db))
            then Err (unique_violation "outbox_events_aggregate_event_key")
            else Ok (id, set_outbox_sequence (fun q => q + 1) (set_outbox (insert id row) db))
      end
  end.

Definition AddTx (d : Draft) : Tx Envelope :=
  validated ← lift (wrap_err [ErrInvalidArgument] (validateDraft d));
  eventID ← map_err classifyWriteError (stmt (insertEventQuery validated));
  lift (wrap_err [ErrCorruptData] (NewEnvelope (uuid_text eventID) validated)).

(** ** Lemmas *)

Lemma quiet_AddTx d : quiet (AddTx d).
Proof. unfold AddTx. quiet. Qed.

(** What a stored event leaves in the tables. *)
Lemma AddTx_Ok d s st env st' :
  AddTx d s st = (Ok env, st') ->
  exists v id row stored,
    validateDraft d = Ok v /\
    stored_json (payload v) = Some stored /\
    outbox_row (t_outbox_sequence (tx_db st) + 1) (tx_now st) stored v = Some row /\
    t_outbox (tx_db st) !! id = None /\
    (forall i r, t_outbox (tx_db st) !! i = Some r -> same_event r row = false) /\
    st' = advance st (set_outbox_sequence (fun q => q + 1) (set_outbox (insert id row) (tx_db st))) /\
    env = mkEnvelope (eventID env) v.
Proof.
  intros HR. unfold AddTx in HR. destruct (validateDraft d) as [v|] eqn:Ev; [|done]. cbn [wrap_err] in HR. tx_inv.
  match goal with H : Ok _ = Ok _ |- _ => injection H as <- end.
  match goal with H : stmt _ _ _ = _ |- _ => apply stmt_Ok in H as (Ho & _ & HI & Hst) end.
  unfold insertEventQuery in HI. destruct (stored_json (payload v)) as [stored|] eqn:Es; [|done].
  destruct (outbox_row _ _ _ _) as [row|] eqn:Er; [|done].
  repeat match type of HI with (if ?b then _ else _) = _ => destruct b eqn:?; [done|] end.
  injection HI as Hid Hdb. match goal with H : negb (bool_decide (_ = None)) = false |- _ => rename H into Hfresh end.
  match goal with H : existsb _ _ = false |- _ => rename H into Hsame end. bool_simpl.
  eexists v, _, row, stored. split_and!; [done|done|exact Er|exact Hfresh| | |].
  - intros i r Hi. apply not_true_iff_false. intros E. apply not_true_iff_false in Hsame. apply Hsame.
    apply existsb_exists. exists (i, r). split; [by apply list_elem_of_In, elem_of_map_to_list|done].
  - rewrite Hst. unfold advance. by rewrite <- Hdb.
  - unfold NewEnvelope in *. destruct (normalizeUUID _) as [c []]; cbn in *; [|done].
    destruct (draft_validate v); cbn in *; [|done]. by result_inv.
Qed.

(** Validation keeps the identity of an event. *)
Lemma validateDraft_identity d v :
  validateDraft d = Ok v ->
  eventType v = eventType d /\ eventVersion v = eventVersion d /\ aggregateType v = aggregateType d /\
  aggregateVersion v = aggregateVersion d /\
  (isCanonicalUUID (aggregateID d) = true -> aggregateID v = aggregateID d).
Proof.
  unfold validateDraft. intros (-> & -> & -> & -> & ->)%NewDraft_identity. split_and!; try done.
  intros Hc. cbn. by rewrite canonical_normalize.
Qed.

End Outbox.

#[export] Hint Resolve quiet_AddTx : wallet.
