(* ===== verification/OutboxRepo.v ===== *)
(** * The transactional outbox: leasing and completing events

    [internal/outbox/postgres/repository.go] and [internal/outbox/outbox.go]:
    publishers claim batches of stored events with a token and a lease, and
    complete or release each event under its token.  The random bytes of a token
    and the rows other transactions hold locked ([SKIP LOCKED]) are arguments. *)

From stdpp Require Import base list gmap strings numbers sorting.
From Stdlib Require Import ZArith Lia.
From S2P Require Import Prelude GoText Json GoTime Event Database Outbox.

Open Scope string_scope.
Open Scope Z_scope.

Definition maxClaimBatch : Z := 100.
Definition minClaimLease : Z := Second.
Definition maxClaimLease : Z := 15 * Minute.
Definition maxRetryDelay : Z := 24 * Hour.
Definition maxDiagnosticBytes : Z := 1024.
Definition fallbackDiagnostic : string := "publication failed".
Definition MaxInt32 : Z := 2147483647.

Record ClaimedEvent := mkClaimed {
  ce_Envelope : Envelope;
  ce_Sequence : Z;
  ce_PublishAttempts : Z;
  ce_ClaimToken : string
}.

(** ** Tokens and diagnostics *)

(** [%x] on a slice of bytes. *)
Definition hex_bytes (bytes : list Z) : string :=
  foldr (fun b s => String (hex_char (b / 16)) (String (hex_char (b mod 16)) s)) "" bytes.

(** [newClaimToken]: [random] is what [rand.Read] fills the token with. *)
Definition newClaimToken (random : Result (list Z)) : Result string :=
  match random with
  | Err e => Err e
  | Ok bytes =>
      let token := alter (fun b => Z.lor (Z.land b 0x0f) 0x40) 6%nat bytes in
      let token := alter (fun b => Z.lor (Z.land b 0x3f) 0x80) 8%nat token in
      let slice lo hi := hex_bytes (take (hi - lo) (drop lo token)) in
      Ok (slice 0 4 ++ "-" ++ slice 4 6 ++ "-" ++ slice 6 8 ++ "-" ++ slice 8 10 ++ "-" ++ slice 10 16)%nat
  end.

(** The loop of [sanitizeDiagnostic]: [room] bytes may still be appended. *)
Fixpoint sanitize (room : nat) (characters : list Z) : string :=
  match characters, room with
  | [], _ | _, O => ""
  | character :: rest, S room' =>
      if (character <? 32) || (126 <? character) then String (byte_of 63) (sanitize room' rest)
      else String (byte_of character) (sanitize room' rest)
  end.

Definition sanitizeDiagnostic (value : string) : string :=
  let sanitized := sanitize (Z.to_nat maxDiagnosticBytes) (runes value) in
  if len sanitized =? 0 then fallbackDiagnostic else sanitized.

Section Repository.
Context `{Pg}.

(** ** Claiming *)

(** The WHERE clause of the candidates. *)
Definition eligible (now : Time) (r : OutboxRow) : bool :=
  bool_decide (ob_published_at r = None) && (instant (ob_available_at r) <=? instant now) &&
  match ob_claimed_until r with
  | None => true
  | Some until => instant until <=? instant now
  end.

(** ORDER BY available_at, sequence. *)
Definition queue_le (x y : UUID * OutboxRow) : Prop :=
  instant (ob_available_at x.2) < instant (ob_available_at y.2) \/
  instant (ob_available_at x.2) = instant (ob_available_at y.2) /\ ob_sequence x.2 <= ob_sequence y.2.

#[export] Instance queue_le_dec : RelDecision queue_le.
Proof. intros x y. unfold queue_le. apply _. Defined.

Definition candidates (locked : UUID -> bool) (limit : nat) (now : Time) (d : DB) : list (UUID * OutboxRow) :=
  take limit
    (merge_sort queue_le
      (filter (fun x => eligible now x.2 = true /\ locked x.1 = false) (map_to_list (t_outbox d)))).

(** The SET clause of the claim. *)
Definition leased (token : UUID) (until : Time) (r : OutboxRow) : OutboxRow :=
  mkOutboxRow (ob_sequence r) (ob_type r) (ob_version r) (ob_aggregate_type r) (ob_aggregate_id r)
    (ob_aggregate_version r) (ob_correlation r) (ob_causation r) (ob_occurred_at r) (ob_payload r) (ob_created_at r)
    (ob_available_at r) (ob_attempts r) (Some token) (Some until) (ob_last_error r) (ob_published_at r).

(** [claimEventsQuery]: the rows it returns, in any order. *)
Definition claimEventsQuery (locked : UUID -> bool) (limit : Z) (claimToken : string) (secs : Z) (now : Time) (d : DB)
    : Result (list (UUID * OutboxRow) * DB) :=
  match uuid_scan claimToken with
  | None => Err invalid_text
  | Some token =>
      let rows := candidates locked (Z.to_nat limit) now d in
      let until := add_seconds now secs in
      Ok (rows, set_outbox (fun m =>
            map_imap (fun id r => Some (if decide (id ∈ rows.*1) then leased token until r else r)) m) d)
  end.

Definition row_params (r : OutboxRow) : DraftParams :=
  mkDraftParams (ob_type r) (ob_version r) (ob_aggregate_type r) (uuid_text (ob_aggregate_id r))
    (ob_aggregate_version r) (uuid_text (ob_correlation r))
    (match ob_causation r with Some c => uuid_text c | None => "" end) (ob_occurred_at r) (ob_payload r).

Definition scanClaimedEvent (claimToken : string) (row : UUID * OutboxRow) : Result ClaimedEvent :=
  d ← wrap_err [ErrCorruptData] (NewDraft (row_params row.2));
  envelope ← wrap_err [ErrCorruptData] (NewEnvelope (uuid_text row.1) d);
  mret (mkClaimed envelope (ob_sequence row.2) (ob_attempts row.2) claimToken).

(** The loop over the rows. *)
Fixpoint scan_claimed (claimToken : string) (rows : list (UUID * OutboxRow)) : Result (list ClaimedEvent) :=
  match rows with
  | [] => Ok []
  | row :: rest =>
      stored ← scanClaimedEvent claimToken row;
      claimed ← scan_claimed claimToken rest;
      mret (stored :: claimed)
  end.

Definition sequence_le (x y : ClaimedEvent) : Prop := ce_Sequence x <= ce_Sequence y.

#[export] Instance sequence_le_dec : RelDecision sequence_le.
Proof. intros x y. unfold sequence_le. apply _. Defined.

Definition claim_body (locked : UUID -> bool) (limit : Z) (claimToken : string) (secs : Z) : Tx (list ClaimedEvent) :=
  rows ← exec (claimEventsQuery locked limit claimToken secs);
  claimed ← lift (scan_claimed claimToken rows);
  _ ← commit;
  mret (merge_sort sequence_le claimed).

Definition Claim (random : Result (list Z)) (locked : UUID -> bool) (limit lease : Z) (s : Service) (w : World)
    : Result (list ClaimedEvent) * World :=
  if (limit <=? 0) || (maxClaimBatch <? limit) then (Err [ErrInvalidArgument], w)
  else if (lease <? minClaimLease) || (maxClaimLease <? lease) || negb (Z.rem lease Second =? 0)
  then (Err [ErrInvalidArgument], w)
  else match newClaimToken random with
  | Err e => (Err e, w)
  | Ok claimToken => run_tx true (claim_body locked limit claimToken (Z.quot lease Second)) s w
  end.

(** ** Completing *)

Definition parseClaimIdentity (eventID claimToken : string) : Result (UUID * UUID) :=
  parsedEventID ← wrap_err [ErrInvalidArgument] (parseUUID eventID);
  parsedToken ← wrap_err [ErrInvalidArgument] (parseUUID claimToken);
  mret (parsedEventID, parsedToken).

(** The WHERE clause of both updates. *)
Definition held (token : UUID) (r : OutboxRow) : bool :=
  bool_decide (ob_claimed_by r = Some token) && bool_decide (ob_published_at r = None).

(** The SET clause of [markPublishedQuery]. *)
Definition completed (now : Time) (r : OutboxRow) : OutboxRow :=
  mkOutboxRow (ob_sequence r) (ob_type r) (ob_version r) (ob_aggregate_type r) (ob_aggregate_id r)
    (ob_aggregate_version r) (ob_correlation r) (ob_causation r) (ob_occurred_at r) (ob_payload r) (ob_created_at r)
    (ob_available_at r) (ob_attempts r) None None None (Some now).

(** The SET clause of [markFailedQuery]. *)
Definition released (available : Time) (diagnostic : string) (r : OutboxRow) : OutboxRow :=
  mkOutboxRow (ob_sequence r) (ob_type r) (ob_version r) (ob_aggregate_type r) (ob_aggregate_id r)
    (ob_aggregate_version r) (ob_correlation r) (ob_causation r) (ob_occurred_at r) (ob_payload r) (ob_created_at r)
    available (Z.min (ob_attempts r + 1) MaxInt32) None None (Some diagnostic) (ob_published_at r).

(** The number of rows affected. *)
Definition markPublishedQuery (eventID token : UUID) (now : Time) (d : DB) : Result (Z * DB) :=
  match t_outbox d !! eventID with
  | Some r =>
      if negb (held token r) then Ok (0, d)
      else if instant now <? instant (ob_created_at r)
      then Err (check_violation "outbox_events_publication_time_check")
      else Ok (1, set_outbox (insert eventID (completed now r)) d)
  | None => Ok (0, d)
  end.

Definition markFailedQuery (eventID token : UUID) (secs : Z) (diagnostic : string) (now : Time) (d : DB)
    : Result (Z * DB) :=
  match t_outbox d !! eventID with
  | Some r =>
      let available := add_seconds now secs in
      if negb (held token r) then Ok (0, d)
      else if instant available <? instant (ob_created_at r)
      then Err (check_violation "outbox_events_availability_check")
      else if (len diagnostic <? 1) || (1024 <? len diagnostic)
      then Err (check_violation "outbox_events_last_error_check")
      else Ok (1, set_outbox (insert eventID (released available diagnostic r)) d)
  | None => Ok (0, d)
  end.

(** [commandTag.RowsAffected() != 1]. *)
Definition one_row (p : Result Z * World) : Result unit * World :=
  match p with
  | (Ok n, w) => if n =? 1 then (Ok tt, w) else (Err [ErrClaimLost], w)
  | (Err e, w) => (Err e, w)
  end.

Definition MarkPublished (eventID claimToken : string) (s : Service) (w : World) : Result unit * World :=
  match parseClaimIdentity eventID claimToken with
  | Err e => (Err e, w)
  | Ok (parsedEventID, parsedToken) => one_row (run_stmt (markPublishedQuery parsedEventID parsedToken) s w)
  end.

Definition MarkFailed (eventID claimToken : string) (retryAfter : Z) (diagnostic : string) (s : Service) (w : World)
    : Result unit * World :=
  match parseClaimIdentity eventID claimToken with
  | Err e => (Err e, w)
  | Ok (parsedEventID, parsedToken) =>
      if (retryAfter <? 0) || (maxRetryDelay <? retryAfter) || negb (Z.rem retryAfter Second =? 0)
      then (Err [ErrInvalidArgument], w)
      else one_row (run_stmt (markFailedQuery parsedEventID parsedToken (Z.quot retryAfter Second)
                                (sanitizeDiagnostic diagnostic)) s w)
  end.

End Repository.
