(* ===== verification/OutboxTheorems.v ===== *)
(** * Leasing and completing events: lemmas and properties

    The publication state of a stored event as a small state machine
    ([pub_step]); every operation of OutboxRepo.v moves events along it and
    touches nothing else ([republished]), under any service. *)

From stdpp Require Import base list gmap strings numbers sorting.
From Stdlib Require Import ZArith Lia Ascii.
From S2P Require Import Prelude GoText Json GoTime Event Database PgInstance Outbox OutboxRepo.

Open Scope string_scope.
Open Scope Z_scope.

#[local] Arguments String.append : simpl nomatch.

(** ** Tokens and diagnostics *)

Definition is_byte (b : Z) : Prop := 0 <= b < 256.

Definition hex_char_ok (n : Z) : bool :=
  negb (byte_val (hex_char n) =? 45) && is_hex (byte_val (hex_char n)) && bool_decide (lower_ascii (hex_char n) = hex_char n).

Lemma hex_char_facts n : 0 <= n < 16 ->
  (byte_val (hex_char n) =? 45) = false /\ is_hex (byte_val (hex_char n)) = true /\ lower_ascii (hex_char n) = hex_char n.
Proof.
  intros Hn. assert (Hall : forallb hex_char_ok (seqZ 0 16) = true) by (vm_compute; reflexivity).
  rewrite forallb_forall in Hall. assert (Hin : In n (seqZ 0 16)) by (apply list_elem_of_In, elem_of_seqZ; lia).
  apply Hall in Hin. unfold hex_char_ok in Hin. rewrite !andb_true_iff, negb_true_iff, bool_decide_eq_true in Hin. tauto.
Qed.

Lemma hex_byte_range b : is_byte b -> 0 <= b / 16 < 16 /\ 0 <= b mod 16 < 16.
Proof. unfold is_byte. intros Hb. split; [split; [apply Z.div_pos|apply Z.div_lt_upper_bound]; lia|]. by apply Z.mod_pos_bound. Qed.

Section Hex.
Context (bs : list Z) (Hbs : Forall is_byte bs).

Lemma remove_dashes_hex_bytes s : remove_dashes (hex_bytes bs ++ s) = hex_bytes bs ++ remove_dashes s.
Proof.
  induction Hbs as [|b l Hb Hl IH]; [done|]. destruct (hex_byte_range b Hb) as [H1 H2].
  change (hex_bytes (b :: l)) with (String (hex_char (b / 16)) (String (hex_char (b mod 16)) (hex_bytes l))).
  cbn [String.append remove_dashes]. rewrite (proj1 (hex_char_facts _ H1)), (proj1 (hex_char_facts _ H2)). by rewrite (IH Hl).
Qed.

Lemma len_hex_bytes s : len (hex_bytes bs ++ s) = 2 * Z.of_nat (length bs) + len s.
Proof.
  clear Hbs. induction bs as [|b l IH]; [done|].
  change (hex_bytes (b :: l)) with (String (hex_char (b / 16)) (String (hex_char (b mod 16)) (hex_bytes l))).
  cbn [String.append len length]. rewrite IH. lia.
Qed.

Lemma all_hex_bytes s : all_bytes is_hex (hex_bytes bs ++ s) = all_bytes is_hex s.
Proof.
  induction Hbs as [|b l Hb Hl IH]; [done|]. destruct (hex_byte_range b Hb) as [H1 H2].
  change (hex_bytes (b :: l)) with (String (hex_char (b / 16)) (String (hex_char (b mod 16)) (hex_bytes l))).
  cbn [String.append all_bytes]. rewrite (proj1 (proj2 (hex_char_facts _ H1))), (proj1 (proj2 (hex_char_facts _ H2))). by rewrite (IH Hl).
Qed.

Lemma lower_hex_bytes s : ToLower (hex_bytes bs ++ s) = hex_bytes bs ++ ToLower s.
Proof.
  induction Hbs as [|b l Hb Hl IH]; [done|]. destruct (hex_byte_range b Hb) as [H1 H2].
  change (hex_bytes (b :: l)) with (String (hex_char (b / 16)) (String (hex_char (b mod 16)) (hex_bytes l))).
  unfold ToLower in *. cbn [String.append map_bytes]. rewrite (proj2 (proj2 (hex_char_facts _ H1))), (proj2 (proj2 (hex_char_facts _ H2))). by rewrite (IH Hl).
Qed.

Lemma byte_at_hex_bytes c s k :
  byte_at (hex_bytes bs ++ String c s) (2 * length bs) = Some c /\
  byte_at (hex_bytes bs ++ String c s) (2 * length bs + S k) = byte_at s k.
Proof.
  clear Hbs. induction bs as [|b l IH]; [done|].
  change (hex_bytes (b :: l)) with (String (hex_char (b / 16)) (String (hex_char (b mod 16)) (hex_bytes l))).
  replace (2 * length (b :: l))%nat with (S (S (2 * length l))) by (cbn; lia). exact IH.
Qed.

End Hex.

Lemma land_lor_byte b mask bits : is_byte b -> is_byte mask -> is_byte bits -> is_byte (Z.lor (Z.land b mask) bits).
Proof.
  unfold is_byte. intros Hb Hm Hs. change 256 with (2 ^ 8) in *.
  split; [apply Z.lor_nonneg; split; [apply Z.land_nonneg|]; lia|].
  destruct (decide (Z.lor (Z.land b mask) bits = 0)) as [->|Hz]; [lia|].
  assert (0 <= Z.lor (Z.land b mask) bits) by (apply Z.lor_nonneg; split; [apply Z.land_nonneg|]; lia).
  apply Z.log2_lt_pow2; [lia|]. rewrite Z.log2_lor by (try apply Z.land_nonneg; lia).
  apply Z.max_lub_lt.
  - destruct (decide (Z.land b mask = 0)) as [->|Hn]; [cbn; lia|]. pose proof (Z.log2_land b mask).
    destruct (decide (b = 0)) as [->|]; [done|]. assert (Z.log2 b < 8) by (apply Z.log2_lt_pow2; lia). lia.
  - destruct (decide (bits = 0)) as [->|]; [cbn; lia|]. apply Z.log2_lt_pow2; lia.
Qed.

(** Five groups of digits make a canonical UUID. *)
Lemma groups_canonical a b c d e :
  Forall is_byte a -> Forall is_byte b -> Forall is_byte c -> Forall is_byte d -> Forall is_byte e ->
  length a = 4%nat -> length b = 2%nat -> length c = 2%nat -> length d = 2%nat -> length e = 6%nat ->
  isCanonicalUUID (hex_bytes a ++ String "-"%char (hex_bytes b ++ String "-"%char (hex_bytes c ++ String "-"%char (hex_bytes d ++
    String "-"%char (hex_bytes e ++ ""))))) = true.
Proof.
  intros Ha Hb Hc Hd He La Lb Lc Ld Le. apply isCanonicalUUID_spec. split.
  - unfold uuid_shape, hex_decodes.
    repeat (rewrite remove_dashes_hex_bytes by done; cbn [remove_dashes];
            try match goal with |- context [byte_val "-"%char =? 45] => change (byte_val "-"%char =? 45) with true; cbn iota end).
    repeat (rewrite len_hex_bytes; cbn [len]). repeat rewrite all_hex_bytes by done.
    pose proof (byte_at_hex_bytes a "-"%char (hex_bytes b ++ String "-"%char (hex_bytes c ++ String "-"%char (hex_bytes d ++
      String "-"%char (hex_bytes e ++ ""))))) as Pa.
    pose proof (byte_at_hex_bytes b "-"%char (hex_bytes c ++ String "-"%char (hex_bytes d ++ String "-"%char (hex_bytes e ++ "")))) as Pb.
    pose proof (byte_at_hex_bytes c "-"%char (hex_bytes d ++ String "-"%char (hex_bytes e ++ ""))) as Pc.
    pose proof (byte_at_hex_bytes d "-"%char (hex_bytes e ++ "")) as Pd.
    rewrite La in Pa. rewrite Lb in Pb. rewrite Lc in Pc. rewrite Ld in Pd. cbn [Nat.mul Nat.add] in *.
    rewrite (proj1 (Pa 0%nat)), (proj2 (Pa 4%nat)), (proj1 (Pb 0%nat)), (proj2 (Pa 9%nat)), (proj2 (Pb 4%nat)), (proj1 (Pc 0%nat)),
      (proj2 (Pa 14%nat)), (proj2 (Pb 9%nat)), (proj2 (Pc 4%nat)), (proj1 (Pd 0%nat)). rewrite La, Lb, Lc, Ld, Le. reflexivity.
  - assert (Hdash : forall s, ToLower (String "-"%char s) = String "-"%char (ToLower s)) by done.
    repeat (rewrite lower_hex_bytes by done; rewrite ?Hdash). done.
Qed.

(** Whatever the random bytes, the token is a canonical UUID. *)
Lemma newClaimToken_canonical bytes :
  length bytes = 16%nat -> Forall is_byte bytes ->
  exists token, newClaimToken (Ok bytes) = Ok token /\ isCanonicalUUID token = true.
Proof.
  intros Hl Hb. cbn [newClaimToken]. eexists. split; [done|].
  set (token := alter _ 8%nat (alter _ 6%nat bytes)).
  assert (Ht : Forall is_byte token).
  { unfold token. apply Forall_alter; [apply Forall_alter; [done|]|];
      intros b _ Hx; (apply land_lor_byte; [exact Hx|unfold is_byte; lia..]). }
  assert (Hlen : length token = 16%nat) by (unfold token; by rewrite !length_alter).
  clearbody token.
  rewrite <- (append_nil_r (hex_bytes (take (16 - 10) (drop 10 token)))).
  apply groups_canonical; try (by apply Forall_take, Forall_drop); rewrite length_take, length_drop; lia.
Qed.

Definition is_printable (c : Z) : bool := (32 <=? c) && (c <=? 126).

Lemma sanitize_facts room characters :
  len (sanitize room characters) = Z.min (Z.of_nat room) (Z.of_nat (length characters)) /\
  all_bytes is_printable (sanitize room characters) = true.
Proof.
  revert room. induction characters as [|c l IH]; intros room;
    [destruct room; (split; [cbn -[Z.of_nat Z.min]; lia|done])|].
  destruct room as [|room]; [split; [cbn -[Z.of_nat Z.min]; lia|done]|]. destruct (IH room) as [IH1 IH2]. cbn [sanitize length].
  destruct ((c <? 32) || (126 <? c)) eqn:E; cbn [len all_bytes]; rewrite IH1, IH2; (split; [lia|]); [done|].
  apply orb_false_iff in E as [?%Z.ltb_ge ?%Z.ltb_ge]. rewrite byte_val_of by lia. unfold is_printable.
  rewrite !andb_true_iff. split; [split; apply Z.leb_le; lia|done].
Qed.

(** The text that is stored satisfies the constraint of its column. *)
Lemma sanitizeDiagnostic_bounds value :
  1 <= len (sanitizeDiagnostic value) <= maxDiagnosticBytes /\ all_bytes is_printable (sanitizeDiagnostic value) = true.
Proof.
  unfold sanitizeDiagnostic. destruct (sanitize_facts (Z.to_nat maxDiagnosticBytes) (runes value)) as [Hl Hp].
  destruct (len (sanitize _ _) =? 0) eqn:E; [by vm_compute|]. split; [|done]. apply Z.eqb_neq in E.
  rewrite Hl in E |- *. change (Z.of_nat (Z.to_nat maxDiagnosticBytes)) with 1024 in *. unfold maxDiagnosticBytes. lia.
Qed.

Section Theorems.
Context `{PgLaws}.

(** ** The states of an event *)

(** What an event says; the other columns are its publication state. *)
Definition same_content (r r' : OutboxRow) : Prop :=
  ob_sequence r' = ob_sequence r /\ ob_type r' = ob_type r /\ ob_version r' = ob_version r /\
  ob_aggregate_type r' = ob_aggregate_type r /\ ob_aggregate_id r' = ob_aggregate_id r /\
  ob_aggregate_version r' = ob_aggregate_version r /\ ob_correlation r' = ob_correlation r /\
  ob_causation r' = ob_causation r /\ ob_occurred_at r' = ob_occurred_at r /\ ob_payload r' = ob_payload r /\
  ob_created_at r' = ob_created_at r.

(** A lease of an unpublished event, and the two ways to end it. *)
Inductive pub_step (r : OutboxRow) : OutboxRow -> Prop :=
| PubLease token until : ob_published_at r = None -> pub_step r (leased token until r)
| PubComplete token now : held token r = true -> instant (ob_created_at r) <= instant now -> pub_step r (completed now r)
| PubRelease token available diagnostic : held token r = true -> 1 <= len diagnostic <= maxDiagnosticBytes ->
    instant (ob_created_at r) <= instant available -> pub_step r (released available diagnostic r).

(** Only the publication state of events changed, one step each. *)
Record republished (d d' : DB) : Prop := {
  rp_tables : d' = set_outbox (fun _ => t_outbox d') d;
  rp_kept id r : t_outbox d !! id = Some r -> exists r', t_outbox d' !! id = Some r' /\ (r' = r \/ pub_step r r');
  rp_none id : t_outbox d !! id = None -> t_outbox d' !! id = None
}.

Lemma pub_step_content r r' : pub_step r r' -> same_content r r'.
Proof. by intros []. Qed.

Lemma republished_refl d : republished d d.
Proof. split; [by destruct d|eauto|done]. Qed.

(** A published event takes no further step. *)
Lemma published_final r r' at_ : pub_step r r' -> ob_published_at r <> Some at_.
Proof.
  unfold held. intros [token until Hp|token now Hh _|token av di Hh _ _]; [congruence|..];
    apply andb_true_iff in Hh as [_ Hp%bool_decide_eq_true]; congruence.
Qed.

(** ** Claiming *)

Lemma scan_claimed_Ok token rows claimed :
  scan_claimed token rows = Ok claimed <-> Forall2 (fun row c => scanClaimedEvent token row = Ok c) rows claimed.
Proof.
  revert claimed. induction rows as [|row rows IH]; intros claimed; cbn.
  - split; [by intros [= <-]; constructor|by intros ->%Forall2_nil_inv_l].
  - destruct (scanClaimedEvent token row) as [c|e] eqn:E; cbn.
    + destruct (scan_claimed token rows) as [l|e] eqn:El; cbn.
      * split; [intros [= <-]; constructor; [done|by apply IH]|].
        intros (c' & l' & Hc & Hl & ->)%Forall2_cons_inv_l. apply IH in Hl. cbn beta in Hc. unfold mret, Result_ret. congruence.
      * split; [done|]. intros (c' & l' & Hc & Hl & ->)%Forall2_cons_inv_l. apply IH in Hl. cbn beta in Hc. unfold mret, Result_ret. congruence.
    + split; [done|]. intros (c' & l' & Hc & Hl & ->)%Forall2_cons_inv_l. cbn beta in Hc. unfold mret, Result_ret. congruence.
Qed.

Lemma scanClaimedEvent_Ok token row c :
  scanClaimedEvent token row = Ok c ->
  eventID (ce_Envelope c) = uuid_text row.1 /\ NewDraft (row_params row.2) = Ok (draft (ce_Envelope c)) /\
  ce_Sequence c = ob_sequence row.2 /\ ce_PublishAttempts c = ob_attempts row.2 /\ ce_ClaimToken c = token.
Proof.
  unfold scanClaimedEvent. destruct (NewDraft (row_params row.2)) as [d|] eqn:Ed; [|done]. cbn.
  destruct (NewEnvelope _ _) as [env|] eqn:Ee; [|done]. cbn. intros [= <-]. cbn.
  unfold NewEnvelope in Ee. rewrite canonical_normalize in Ee by apply uuid_text_canonical. cbn in Ee.
  destruct (draft_validate d); [|done]. by injection Ee as <-.
Qed.

Lemma queue_total x y : queue_le x y \/ queue_le y x.
Proof. unfold queue_le. lia. Qed.

#[local] Instance queue_le_trans : Transitive queue_le.
Proof. intros x y z. unfold queue_le. lia. Qed.

#[local] Instance sequence_le_trans : Transitive sequence_le.
Proof. intros x y z. unfold sequence_le. lia. Qed.

#[local] Instance sequence_le_total : Total sequence_le.
Proof. intros x y. unfold sequence_le. lia. Qed.

#[local] Instance queue_le_total : Total queue_le.
Proof. intros x y. apply queue_total. Qed.

(** What a claim leaves behind and reports. *)
Record claims (locked : UUID -> bool) (limit : nat) (text : string) (token : UUID) (now until : Time) (d d' : DB)
    (claimed : list ClaimedEvent) : Prop := {
  cl_token : uuid_scan text = Some token;
  cl_tables : d' = set_outbox (fun _ => t_outbox d') d;
  cl_bound : (length claimed <= limit)%nat;
  cl_sorted : StronglySorted sequence_le claimed;
  cl_once : NoDup ((fun c => eventID (ce_Envelope c)) <$> claimed);
  (** Every reported event was free and is now leased under the token. *)
  cl_leased c : c ∈ claimed -> exists id r,
    t_outbox d !! id = Some r /\ eligible now r = true /\ locked id = false /\
    eventID (ce_Envelope c) = uuid_text id /\ NewDraft (row_params r) = Ok (draft (ce_Envelope c)) /\
    ce_Sequence c = ob_sequence r /\ ce_PublishAttempts c = ob_attempts r /\ ce_ClaimToken c = text /\
    t_outbox d' !! id = Some (leased token until r);
  (** Every other event is as before. *)
  cl_others id : (forall c, c ∈ claimed -> eventID (ce_Envelope c) <> uuid_text id) -> t_outbox d' !! id = t_outbox d !! id;
  (** A free event is left out only for a full batch of earlier ones. *)
  cl_fair id r : t_outbox d !! id = Some r -> eligible now r = true -> locked id = false ->
    (exists c, c ∈ claimed /\ eventID (ce_Envelope c) = uuid_text id) \/
    length claimed = limit /\ forall c id' r', c ∈ claimed -> eventID (ce_Envelope c) = uuid_text id' ->
      t_outbox d !! id' = Some r' -> queue_le (id', r') (id, r)
}.

Definition free (locked : UUID -> bool) (now : Time) (d : DB) (id : UUID) (r : OutboxRow) : Prop :=
  t_outbox d !! id = Some r /\ eligible now r = true /\ locked id = false.

Definition free_rows (locked : UUID -> bool) (now : Time) (d : DB) : list (UUID * OutboxRow) :=
  merge_sort queue_le (filter (fun x => eligible now x.2 = true /\ locked x.1 = false) (map_to_list (t_outbox d))).

Lemma elem_of_free_rows locked now d id r : (id, r) ∈ free_rows locked now d <-> free locked now d id r.
Proof.
  unfold free_rows, free. rewrite merge_sort_Permutation, list_elem_of_filter, elem_of_map_to_list. cbn. naive_solver.
Qed.

Lemma NoDup_free_rows locked now d : NoDup (free_rows locked now d).*1.
Proof.
  unfold free_rows. rewrite (merge_sort_Permutation queue_le).
  eapply sublist_NoDup; [apply (NoDup_fst_map_to_list (t_outbox d))|].
  apply fmap_sublist, sublist_filter.
Qed.

Lemma NoDup_candidates locked limit now d : NoDup (candidates locked limit now d).*1.
Proof.
  change (candidates locked limit now d) with (take limit (free_rows locked now d)).
  eapply sublist_NoDup; [apply NoDup_free_rows|]. apply fmap_sublist, sublist_take.
Qed.

Lemma candidates_free locked limit now d id r :
  (id, r) ∈ candidates locked limit now d -> free locked now d id r.
Proof. intros Hin. apply elem_of_free_rows. eapply elem_of_take in Hin as (i & Hi & _). by eapply list_elem_of_lookup_2. Qed.

Lemma candidates_fair locked limit now d id r :
  free locked now d id r -> (id, r) ∉ candidates locked limit now d ->
  length (candidates locked limit now d) = limit /\
  forall x, x ∈ candidates locked limit now d -> queue_le x (id, r).
Proof.
  intros Hf%elem_of_free_rows Hn. change (candidates locked limit now d) with (take limit (free_rows locked now d)) in *.
  assert (Hs : StronglySorted queue_le (free_rows locked now d)) by apply (StronglySorted_merge_sort queue_le).
  rewrite <- (take_drop limit (free_rows locked now d)) in Hf, Hs. apply elem_of_app in Hf as [Hf|Hf]; [done|].
  split.
  - rewrite length_take. apply list_elem_of_lookup in Hf as [i Hi]. apply lookup_lt_Some in Hi. rewrite length_drop in Hi. lia.
  - intros x Hx. by eapply StronglySorted_app_1_elem_of.
Qed.

Definition claim_work (locked : UUID -> bool) (limit : Z) (claimToken : string) (secs : Z) : Tx (list ClaimedEvent) :=
  rows ← exec (claimEventsQuery locked limit claimToken secs);
  claimed ← lift (scan_claimed claimToken rows);
  mret (merge_sort sequence_le claimed).

Lemma claim_ends locked limit token secs : ends (claim_work locked limit token secs) (claim_body locked limit token secs).
Proof. unfold claim_work, claim_body. ends. Qed.

Lemma quiet_claim_work locked limit token secs : quiet (claim_work locked limit token secs).
Proof. unfold claim_work. quiet. Qed.

Lemma claimed_ids text rows claimed :
  Forall2 (fun row c => scanClaimedEvent text row = Ok c) rows claimed ->
  (fun c => eventID (ce_Envelope c)) <$> claimed = uuid_text <$> rows.*1.
Proof. induction 1 as [|row c rows claimed Hs _ IH]; [done|]. cbn. apply scanClaimedEvent_Ok in Hs as [-> _]. by f_equal. Qed.

(** The rows of a batch, read and leased. *)
Lemma claims_of locked limit text token now until d rows claimed :
  uuid_scan text = Some token -> rows = candidates locked limit now d ->
  Forall2 (fun row c => scanClaimedEvent text row = Ok c) rows claimed ->
  claims locked limit text token now until d
    (set_outbox (map_imap (fun id r => Some (if decide (id ∈ rows.*1) then leased token until r else r))) d)
    (merge_sort sequence_le claimed).
Proof.
  intros Ht Hrows HF. pose proof (merge_sort_Permutation sequence_le claimed) as Hperm.
  assert (Hfrom : forall c, c ∈ merge_sort sequence_le claimed -> exists id r, (id, r) ∈ rows /\ scanClaimedEvent text (id, r) = Ok c).
  { intros c. rewrite Hperm. intros Hc. apply list_elem_of_lookup in Hc as [i Hi].
    destruct (Forall2_lookup_r _ _ _ _ _ HF Hi) as ([id r] & Hr & Hs). exists id, r. split; [by eapply list_elem_of_lookup_2|done]. }
  assert (Hto : forall id r, (id, r) ∈ rows -> exists c, c ∈ merge_sort sequence_le claimed /\ eventID (ce_Envelope c) = uuid_text id).
  { intros id r Hr. apply list_elem_of_lookup in Hr as [i Hi]. destruct (Forall2_lookup_l _ _ _ _ _ HF Hi) as (c & Hc & Hs).
    exists c. rewrite Hperm. split; [by eapply list_elem_of_lookup_2|]. by apply scanClaimedEvent_Ok in Hs as [-> _]. }
  assert (Hlen : length (merge_sort sequence_le claimed) = length rows).
  { rewrite Hperm. symmetry. by eapply Forall2_length. }
  assert (Hfree : forall id r, (id, r) ∈ rows -> free locked now d id r) by (rewrite Hrows; intros id r; apply candidates_free).
  assert (Hinj : forall u v, uuid_text u = uuid_text v -> u = v).
  { intros u v E. apply (f_equal uuid_scan) in E. rewrite !uuid_scan_text in E. congruence. }
  split; [done|done|..].
  - rewrite Hlen, Hrows. unfold candidates. rewrite length_take. lia.
  - apply (StronglySorted_merge_sort sequence_le).
  - rewrite Hperm, (claimed_ids _ _ _ HF).
    apply NoDup_fmap_2; [intros u v; apply Hinj|]. rewrite Hrows. apply NoDup_candidates.
  - intros c (id & r & Hr & Hs)%Hfrom. destruct (Hfree id r Hr) as (Ho & He & Hk).
    apply scanClaimedEvent_Ok in Hs as (E1 & E2 & E3 & E4 & E5). exists id, r. split_and!; try done.
    cbn. rewrite map_lookup_imap, Ho. cbn. rewrite decide_True; [done|]. apply list_elem_of_fmap. by exists (id, r).
  - intros id Hno. cbn. rewrite map_lookup_imap. destruct (t_outbox d !! id) as [r|] eqn:Er; [|done]. cbn.
    rewrite decide_False; [done|]. intros ([id' r'] & -> & Hin)%list_elem_of_fmap. destruct (Hto _ _ Hin) as (c & Hc & E).
    by apply (Hno c Hc).
  - intros id r Ho He Hk. destruct (decide (id ∈ rows.*1)) as [Hin|Hin].
    { apply list_elem_of_fmap in Hin as ([id2 r2] & -> & Hin). left. by eapply Hto. }
    right. assert (Hno : (id, r) ∉ rows) by (intros Hc; apply Hin, list_elem_of_fmap; by exists (id, r)).
    rewrite Hlen, Hrows. destruct (candidates_fair locked limit now d id r) as [Hl Hq]; [done|by rewrite <- Hrows|].
    split; [done|]. intros c id' r' (id2 & r2 & Hr2 & Hs)%Hfrom E Ho'. apply Hq. rewrite <- Hrows.
    apply scanClaimedEvent_Ok in Hs as [E' _]. cbn [fst] in E'. rewrite E in E'. apply Hinj in E' as ->.
    destruct (Hfree _ _ Hr2) as (Ho2 & _). assert (r2 = r') as <- by congruence. done.
Qed.

Lemma claim_work_Ok locked limit text secs s st claimed st' :
  claim_work locked limit text secs s st = (Ok claimed, st') ->
  exists token, claims locked (Z.to_nat limit) text token (tx_now st) (add_seconds (tx_now st) secs) (tx_db st) (tx_db st') claimed.
Proof.
  unfold claim_work. intros HR. tx_inv. cbn [advance tx_db].
  match goal with H : claimEventsQuery _ _ _ _ _ _ = _ |- _ => rename H into HQ end.
  match goal with H : scan_claimed _ _ = _ |- _ => apply scan_claimed_Ok in H as HF end.
  unfold claimEventsQuery in HQ. destruct (uuid_scan text) as [token|] eqn:Et; [|done]. injection HQ as <- <-.
  exists token. set (rows := candidates locked (Z.to_nat limit) (tx_now st) (tx_db st)) in *.
  by apply claims_of.
Qed.

(** The instant at which a lease ends. *)
Definition lease_end (lease : Z) (now : Time) : Time := mkTime (instant now + lease) (offset now).

Lemma whole_seconds t n : Z.rem n Second = 0 -> add_seconds t (Z.quot n Second) = mkTime (instant t + n) (offset t).
Proof. intros Hr. unfold add_seconds. f_equal. pose proof (Z.quot_rem n Second). unfold Second in *. lia. Qed.

(** The batch a call of [Claim] took. *)
Definition claimed_as (random : Result (list Z)) (locked : UUID -> bool) (limit lease : Z) (now : Time) (d d' : DB)
    (l : list ClaimedEvent) : Prop :=
  exists text token, newClaimToken random = Ok text /\
    claims locked (Z.to_nat limit) text token now (lease_end lease now) d d' l.

Lemma Claim_outcome random locked limit lease s w r w' :
  Claim random locked limit lease s w = (r, w') ->
  let took := claimed_as random locked limit lease (now_at s (tick w)) (committed w) (committed w') in
  match r with
  | Ok claimed => took claimed
  | Err e => committed w' = committed w \/ e = [Other "connection"] /\ exists claimed, took claimed
  end.
Proof.
  unfold Claim. intros HR.
  destruct ((limit <=? 0) || _); [injection HR as <- <-; by left|].
  destruct (_ || negb (Z.rem lease Second =? 0)) eqn:El; [injection HR as <- <-; by left|].
  destruct (newClaimToken random) as [text|e] eqn:Et; [|injection HR as <- <-; by left].
  apply orb_false_iff in El as [_ El%negb_false_iff%Z.eqb_eq].
  set (took := claimed_as random locked limit lease (now_at s (tick w)) (committed w) (committed w')).
  assert (Hw : forall l st', claim_work locked limit text (Z.quot lease Second) s (begun s w) = (Ok l, st') ->
    committed w' = tx_db st' -> took l).
  { intros l st' HW Hc. apply claim_work_Ok in HW as [token HW]. rewrite whole_seconds in HW by done. exists text, token.
    split; [done|]. by rewrite Hc. }
  apply (run_tx_ends true (claim_work locked limit text (Z.quot lease Second))) in HR; [|apply claim_ends|apply quiet_claim_work].
  destruct r as [claimed|e].
  - destruct HR as (st & HW & Hc). by eapply Hw.
  - destruct HR as [?|(-> & l & st & HW & Hc)]; [by left|right]. split; [done|]. exists l. by eapply Hw.
Qed.

Lemma claims_republished locked limit text token now until d d' claimed :
  claims locked limit text token now until d d' claimed -> republished d d'.
Proof.
  intros [Ht Htab _ _ _ Hl Ho _]. split; [done|..].
  - intros id r Hr. destruct (decide (Exists (fun c => eventID (ce_Envelope c) = uuid_text id) claimed)) as [He|Hn].
    + apply Exists_exists in He as (c & Hc & E). destruct (Hl c Hc) as (id' & r' & Hr' & He & _ & E' & _ & _ & _ & _ & Hd).
      assert (id' = id) as ->.
      { rewrite E in E'. apply (f_equal uuid_scan) in E'. rewrite !uuid_scan_text in E'. congruence. }
      assert (r' = r) as -> by congruence. exists (leased token until r). split; [done|]. right. constructor.
      unfold eligible in He. rewrite !andb_true_iff in He. by destruct He as [[?%bool_decide_eq_true _] _].
    + exists r. split; [|by left]. rewrite Ho; [done|]. intros c Hc E. apply Hn. apply Exists_exists. by exists c.
  - intros id Hn. rewrite Ho; [done|]. intros c Hc E. destruct (Hl c Hc) as (id' & r' & Hr' & _ & _ & E' & _).
    rewrite E in E'. apply (f_equal uuid_scan) in E'. rewrite !uuid_scan_text in E'. congruence.
Qed.

(** ** Completing *)

(** The row a completing statement works on. *)
Definition holds (token id : UUID) (d : DB) (r : OutboxRow) : Prop := t_outbox d !! id = Some r /\ held token r = true.

Definition ended (token id : UUID) (set : OutboxRow -> OutboxRow) (d d' : DB) : Prop :=
  exists row, holds token id d row /\ pub_step row (set row) /\ d' = set_outbox (insert id (set row)) d.

(** What ending a lease does, and when it can: never under a token that does not
    hold the event. *)
Record ends_lease (token id : UUID) (set : OutboxRow -> OutboxRow) (d d' : DB) (r : Result unit) : Prop := {
  el_done : r = Ok tt -> ended token id set d d';
  el_failed e : r = Err e -> d' = d \/ e = [Other "connection"] /\ ended token id set d d';
  el_lost : ~ (exists row, holds token id d row) -> d' = d /\ r <> Ok tt
}.

Lemma one_row_ends token id set (f : Time -> DB -> Result (Z * DB)) s w r w' :
  let d := committed w in
  (forall n d', f (now_at s (tick w)) d = Ok (n, d') -> n = 0 /\ d' = d \/ n = 1 /\ ended token id set d d') ->
  one_row (run_stmt f s w) = (r, w') -> ends_lease token id set d (committed w') r.
Proof.
  intros d Hf. assert (Hheld : forall d', ended token id set d d' -> exists row, holds token id d row) by (intros d' (row & ? & _); eauto).
  destruct (run_stmt f s w) as [[n|e] w1] eqn:E; cbn; apply run_stmt_outcome in E.
  - destruct E as (d' & E & Hc). apply Hf in E as [[-> ->]|[-> He]]; intros [= <- <-]; rewrite Hc.
    + split; [done|by left|done].
    + split; [done|done|]. intros Hn. exfalso. eauto.
  - intros [= <- <-]. destruct E as [Hc|(-> & n & d' & E & Hc)]; rewrite Hc; fold d.
    + split; [done|by left|done].
    + apply Hf in E as [[-> ->]|[-> He]]; [split; [done|by left|done]|].
      split; [done|intros e' [= <-]; by right|]. intros Hn. exfalso. eauto.
Qed.

Lemma ends_lease_republished token id set d d' r : ends_lease token id set d d' r -> republished d d'.
Proof.
  intros [Hd Hf _]. assert (He : d' = d \/ ended token id set d d').
  { destruct r as [[]|e]; [right; by apply Hd|]. destruct (Hf e eq_refl) as [?|[_ ?]]; auto. }
  destruct He as [->|(row & [Hr _] & Hs & ->)]; [apply republished_refl|]. split; [done|..].
  - intros id' r' Hr'. cbn. destruct (decide (id' = id)) as [->|Hne].
    + rewrite lookup_insert_eq. assert (r' = row) as -> by congruence. eauto.
    + rewrite lookup_insert_ne by done. eauto.
  - intros id' Hn. cbn. rewrite lookup_insert_ne by congruence. done.
Qed.

Lemma markPublishedQuery_Ok id token now d n d' :
  markPublishedQuery id token now d = Ok (n, d') -> n = 0 /\ d' = d \/ n = 1 /\ ended token id (completed now) d d'.
Proof.
  unfold markPublishedQuery, ended, holds. destruct (t_outbox d !! id) as [row|]; [|intros [= <- <-]; by left].
  destruct (held token row) eqn:Eh; cbn; [|intros [= <- <-]; by left].
  destruct (_ <? _) eqn:El; [done|]. apply Z.ltb_ge in El. intros [= <- <-]. right. split; [done|]. exists row.
  split_and!; [done..| |done]. by eapply PubComplete.
Qed.

Lemma markFailedQuery_Ok id token secs diagnostic now d n d' :
  markFailedQuery id token secs diagnostic now d = Ok (n, d') ->
  n = 0 /\ d' = d \/ n = 1 /\ ended token id (released (add_seconds now secs) diagnostic) d d'.
Proof.
  unfold markFailedQuery, ended, holds. destruct (t_outbox d !! id) as [row|]; [|intros [= <- <-]; by left].
  destruct (held token row) eqn:Eh; cbn [negb]; [|intros [= <- <-]; by left].
  destruct (_ <? instant (ob_created_at row)) eqn:El; [done|]. apply Z.ltb_ge in El.
  destruct ((len diagnostic <? 1) || _) eqn:Ed; [done|]. apply orb_false_iff in Ed as [?%Z.ltb_ge ?%Z.ltb_ge].
  intros [= <- <-]. right. split; [done|]. exists row. split_and!; [done..| |done].
  eapply PubRelease; [done|unfold maxDiagnosticBytes; lia|done].
Qed.

Lemma parseClaimIdentity_Ok eventID token id u :
  parseClaimIdentity eventID token = Ok (id, u) <-> uuid_scan eventID = Some id /\ uuid_scan token = Some u.
Proof.
  unfold parseClaimIdentity, parseUUID.
  destruct (uuid_scan eventID), (uuid_scan token); cbn; unfold mret, Result_ret; naive_solver.
Qed.

Lemma MarkPublished_outcome eventID token id u s w r w' :
  uuid_scan eventID = Some id -> uuid_scan token = Some u -> MarkPublished eventID token s w = (r, w') ->
  ends_lease u id (completed (now_at s (tick w))) (committed w) (committed w') r.
Proof.
  intros Hi Hu. unfold MarkPublished. rewrite (proj2 (parseClaimIdentity_Ok _ _ id u)) by done.
  apply one_row_ends. intros n d'. apply markPublishedQuery_Ok.
Qed.

Lemma MarkFailed_outcome eventID token id u delay diagnostic s w r w' :
  uuid_scan eventID = Some id -> uuid_scan token = Some u -> MarkFailed eventID token delay diagnostic s w = (r, w') ->
  ends_lease u id (released (lease_end delay (now_at s (tick w))) (sanitizeDiagnostic diagnostic))
    (committed w) (committed w') r.
Proof.
  intros Hi Hu. unfold MarkFailed. rewrite (proj2 (parseClaimIdentity_Ok _ _ id u)) by done.
  destruct ((_ || _) || _) eqn:E; [intros [= <- <-]; split; [done|by left|done]|].
  apply orb_false_iff in E as [_ E%negb_false_iff%Z.eqb_eq].
  apply one_row_ends. intros n d'. unfold lease_end. rewrite <- whole_seconds by done. apply markFailedQuery_Ok.
Qed.

(** Identifiers that do not parse are refused before the database is asked. *)
Lemma parseClaimIdentity_Err eventID token :
  uuid_scan eventID = None \/ uuid_scan token = None -> exists e, parseClaimIdentity eventID token = Err e.
Proof.
  unfold parseClaimIdentity, parseUUID. intros [-> | ->]; cbn; [eauto|]. destruct (uuid_scan eventID); cbn; eauto.
Qed.

(** ** Every operation moves events along their states *)

Lemma Claim_republished random locked limit lease s w r w' :
  Claim random locked limit lease s w = (r, w') -> republished (committed w) (committed w').
Proof.
  intros HR%Claim_outcome. assert (Ht : forall l, claimed_as random locked limit lease (now_at s (tick w)) (committed w) (committed w') l ->
    republished (committed w) (committed w')) by (intros l (text & token & _ & HC); by eapply claims_republished).
  destruct r as [claimed|e]; [by eapply Ht|]. destruct HR as [->|[_ [l HC]]]; [apply republished_refl|by eapply Ht].
Qed.

Lemma Mark_republished eventID token s w r w' :
  (MarkPublished eventID token s w = (r, w') -> republished (committed w) (committed w')) /\
  (forall delay diagnostic, MarkFailed eventID token delay diagnostic s w = (r, w') ->
     republished (committed w) (committed w')).
Proof.
  destruct (uuid_scan eventID) as [id|] eqn:Ei; [destruct (uuid_scan token) as [u|] eqn:Eu|].
  - split; [|intros delay diagnostic]; intros HR.
    + exact (ends_lease_republished _ _ _ _ _ _ (MarkPublished_outcome _ _ _ _ _ _ _ _ Ei Eu HR)).
    + exact (ends_lease_republished _ _ _ _ _ _ (MarkFailed_outcome _ _ _ _ _ _ _ _ _ _ Ei Eu HR)).
  - destruct (parseClaimIdentity_Err eventID token) as [e He]; [by right|].
    unfold MarkPublished, MarkFailed. rewrite He. split; [|intros ? ?]; intros [= _ <-]; apply republished_refl.
  - destruct (parseClaimIdentity_Err eventID token) as [e He]; [by left|].
    unfold MarkPublished, MarkFailed. rewrite He. split; [|intros ? ?]; intros [= _ <-]; apply republished_refl.
Qed.

Lemma uuid_text_inj u v : uuid_text u = uuid_text v -> u = v.
Proof. intros E. apply (f_equal uuid_scan) in E. rewrite !uuid_scan_text in E. congruence. Qed.

(** A leased event is not held under any other token. *)
Lemma leased_holds d id r token until u row :
  t_outbox d !! id = Some (leased token until r) -> holds u id d row -> u = token.
Proof.
  intros Hl [Hr Hh]. assert (row = leased token until r) as -> by congruence.
  unfold held in Hh. apply andb_true_iff in Hh as [Hh%bool_decide_eq_true _]. cbn in Hh. congruence.
Qed.

(** A leased event is not free before its lease ends. *)
Lemma leased_eligible token until r now : eligible now (leased token until r) = true -> instant until <= instant now.
Proof. unfold eligible. rewrite !andb_true_iff. cbn. intros [_ ?%Z.leb_le]. done. Qed.

(** ** Completion, column by column *)

(** The unpublished event the token has a lease on. *)
Definition mine (token id : UUID) (d : DB) (row : OutboxRow) : Prop :=
  t_outbox d !! id = Some row /\ ob_claimed_by row = Some token /\ ob_published_at row = None.

(** The publication state of an event that was published. *)
Record published_row (now : Time) (row row' : OutboxRow) : Prop := {
  pr_at : ob_published_at row' = Some now;
  pr_token : ob_claimed_by row' = None;
  pr_lease : ob_claimed_until row' = None;
  pr_error : ob_last_error row' = None;
  pr_attempts : ob_attempts row' = ob_attempts row;
  pr_available : ob_available_at row' = ob_available_at row
}.

(** The publication state of an event that is to be sent again. *)
Record retried_row (retry_at : Z) (text : string) (row row' : OutboxRow) : Prop := {
  rr_at : ob_published_at row' = None;
  rr_token : ob_claimed_by row' = None;
  rr_lease : ob_claimed_until row' = None;
  rr_error : ob_last_error row' = Some text;
  rr_attempts : ob_attempts row' = Z.min (ob_attempts row + 1) 2147483647;
  rr_available : instant (ob_available_at row') = retry_at
}.

(** The token's event is changed, and nothing else. *)
Definition changes (token id : UUID) (change : OutboxRow -> OutboxRow -> Prop) (d d' : DB) : Prop :=
  exists row row', mine token id d row /\ same_content row row' /\ change row row' /\ d' = set_outbox (insert id row') d.

(** Success means the change; a failure without a lost acknowledgement, or a
    token without a lease, that nothing changed. *)
Record fenced (token id : UUID) (change : OutboxRow -> OutboxRow -> Prop) (d d' : DB) (r : Result unit) : Prop := {
  fe_done : r = Ok tt -> changes token id change d d';
  fe_failed e : r = Err e -> d' = d \/ e = [Other "connection"] /\ changes token id change d d';
  fe_lost : ~ (exists row, mine token id d row) -> d' = d /\ r <> Ok tt
}.

Lemma holds_mine token id d row : holds token id d row <-> mine token id d row.
Proof. unfold holds, mine, held. rewrite andb_true_iff, !bool_decide_eq_true. done. Qed.

Lemma ends_lease_fenced token id set change d d' r :
  (forall row, ob_published_at row = None -> change row (set row)) -> ends_lease token id set d d' r -> fenced token id change d d' r.
Proof.
  intros Hc [Hd Hf Hl]. assert (He : ended token id set d d' -> changes token id change d d').
  { intros (row & Hh%holds_mine & Hs & ->). exists row, (set row). split_and!; [done|by apply pub_step_content|apply Hc, Hh|done]. }
  split.
  - intros Hr. by apply He, Hd.
  - intros e Hr. destruct (Hf e Hr) as [?|[? ?]]; auto.
  - intros Hn. apply Hl. intros (row & Hh%holds_mine). eauto.
Qed.

(** On a healthy service the token's event can be completed, and only that. *)
Lemma MarkPublished_healthy eventID token id u s w :
  uuid_scan eventID = Some id -> uuid_scan token = Some u -> healthy s ->
  (forall row, mine u id (committed w) row -> instant (ob_created_at row) <= instant (now_at s (tick w)) ->
     (MarkPublished eventID token s w).1 = Ok tt) /\
  (~ (exists row, mine u id (committed w) row) -> (MarkPublished eventID token s w).1 = Err [ErrClaimLost]).
Proof.
  intros Hi Hu Hs. unfold MarkPublished. rewrite (proj2 (parseClaimIdentity_Ok _ _ id u)) by done. split.
  - intros row [Hr Hh]%holds_mine Ht. erewrite run_stmt_healthy; [|done|].
    2:{ unfold markPublishedQuery. rewrite Hr, Hh. cbn [negb]. rewrite (proj2 (Z.ltb_ge _ _)) by lia. reflexivity. }
    done.
  - intros Hn. erewrite run_stmt_healthy; [|done|].
    2:{ unfold markPublishedQuery. destruct (t_outbox _ !! id) as [row|] eqn:Hr; [|reflexivity].
        destruct (held u row) eqn:Hh; [|reflexivity]. exfalso. apply Hn. exists row. by apply holds_mine. }
    done.
Qed.

(** The delays [MarkFailed] accepts: whole seconds up to a day. *)
Definition retry_delay_ok (delay : Z) : Prop := 0 <= delay <= 86400 * Second /\ Z.rem delay Second = 0.

Lemma delay_refused delay :
  (delay <? 0) || (maxRetryDelay <? delay) || negb (Z.rem delay Second =? 0) = false <-> retry_delay_ok delay.
Proof.
  unfold retry_delay_ok. change maxRetryDelay with (86400 * Second). rewrite !orb_false_iff, negb_false_iff, !Z.ltb_ge, Z.eqb_eq. tauto.
Qed.

Lemma MarkFailed_healthy eventID token id u delay diagnostic s w :
  uuid_scan eventID = Some id -> uuid_scan token = Some u -> healthy s -> retry_delay_ok delay ->
  (forall row, mine u id (committed w) row -> instant (ob_created_at row) <= instant (now_at s (tick w)) ->
     (MarkFailed eventID token delay diagnostic s w).1 = Ok tt) /\
  (~ (exists row, mine u id (committed w) row) -> (MarkFailed eventID token delay diagnostic s w).1 = Err [ErrClaimLost]).
Proof.
  intros Hi Hu Hs Hd. unfold MarkFailed. rewrite (proj2 (parseClaimIdentity_Ok _ _ id u)), (proj2 (delay_refused delay)) by done.
  pose proof (sanitizeDiagnostic_bounds diagnostic) as [[Hb1 Hb2] _]. unfold maxDiagnosticBytes in Hb2. split.
  - intros row [Hr Hh]%holds_mine Ht. erewrite run_stmt_healthy; [|done|].
    2:{ unfold markFailedQuery. rewrite Hr, Hh. cbn [negb]. rewrite whole_seconds by apply Hd. cbn [instant].
        rewrite (proj2 (Z.ltb_ge _ _)) by (destruct Hd; lia).
        rewrite (proj2 (orb_false_iff _ _)) by (rewrite !Z.ltb_ge; lia). reflexivity. }
    done.
  - intros Hn. erewrite run_stmt_healthy; [|done|].
    2:{ unfold markFailedQuery. destruct (t_outbox _ !! id) as [row|] eqn:Hr; [|reflexivity].
        destruct (held u row) eqn:Hh; [|reflexivity]. exfalso. apply Hn. exists row. by apply holds_mine. }
    done.
Qed.

(** What a later claim reports was free when it was made. *)
Lemma claimed_was_free random locked limit lease s w claimed w' c id row :
  Claim random locked limit lease s w = (Ok claimed, w') -> c ∈ claimed -> uuid_scan (eventID (ce_Envelope c)) = Some id ->
  t_outbox (committed w) !! id = Some row -> eligible (now_at s (tick w)) row = true.
Proof.
  intros (text & token & _ & HC)%Claim_outcome Hc Hi Hr.
  destruct (cl_leased _ _ _ _ _ _ _ _ _ HC _ Hc) as (id' & r' & Hr' & He & _ & Hid & _).
  rewrite Hid, uuid_scan_text in Hi. injection Hi as ->. congruence.
Qed.

Lemma sanitize_printable room value : all_bytes is_printable value = true ->
  sanitize room (runes value) = take_bytes room value.
Proof.
  unfold runes. revert room. induction value as [|a value IH]; intros room; [by destruct room|].
  cbn [all_bytes]. intros [Ha Hv]%andb_true_iff. unfold is_printable in Ha. apply andb_true_iff in Ha as [H1%Z.leb_le H2%Z.leb_le].
  cbn [runes_from]. rewrite decode_rune_ascii by lia. cbn [pred]. destruct room as [|room]; [done|]. cbn [sanitize take_bytes].
  rewrite (proj2 (Z.ltb_ge _ _)), (proj2 (Z.ltb_ge _ _)) by lia. cbn [orb].
  rewrite (byte_val_inj (byte_of (byte_val a)) a) by (rewrite byte_val_of by lia; done). f_equal. by apply IH.
Qed.

(** A printable diagnostic is kept, up to its length; an empty one is replaced. *)
Lemma sanitizeDiagnostic_printable value : all_bytes is_printable value = true ->
  sanitizeDiagnostic value = if bool_decide (value = "") then "publication failed" else take_bytes 1024 value.
Proof.
  intros Hp. unfold sanitizeDiagnostic. change (Z.to_nat maxDiagnosticBytes) with 1024%nat. rewrite sanitize_printable by done.
  case_bool_decide as E; [by subst|]. destruct (len (take_bytes 1024 value) =? 0) eqn:El; [|done].
  apply Z.eqb_eq, len_0 in El. by destruct value.
Qed.

(** ** Properties *)

(** C33: a claim with any 16 random bytes, under any service and beside any rows
    locked by others, either changes nothing, or leases under a fresh canonical
    token at most [limit] events, each of them unpublished, due and not under a
    running lease, until the lease ends; it reports exactly these, each once, in the order
    of their sequence numbers and with the content stored in their rows; it
    leaves every other row alone, and passes over a free event only for a full
    batch of events that were due before it.  Behind a reported failure a batch
    is leased only when the acknowledgement of the commit was lost. *)
Theorem Claim_correct (bytes : list Z) (locked : UUID -> bool) (limit lease : Z) (s : Service) (w w' : World)
    (r : Result (list ClaimedEvent)) :
  length bytes = 16%nat -> Forall is_byte bytes -> Claim (Ok bytes) locked limit lease s w = (r, w') ->
  let now := now_at s (tick w) in
  exists token, newClaimToken (Ok bytes) = Ok (uuid_text token) /\
    let took := claims locked (Z.to_nat limit) (uuid_text token) token now (lease_end lease now) (committed w) (committed w') in
    match r with
    | Ok claimed => took claimed
    | Err e => committed w' = committed w \/ e = [Other "connection"] /\ exists claimed, took claimed
    end.
Proof.
  intros Hl Hb HR%Claim_outcome now. destruct (newClaimToken_canonical bytes Hl Hb) as (text & Ht & Hc).
  destruct (uuid_scan_canonical text Hc) as (token & Hs & <-). exists token. split; [done|].
  assert (Htook : forall l, claimed_as (Ok bytes) locked limit lease now (committed w) (committed w') l ->
    claims locked (Z.to_nat limit) (uuid_text token) token now (lease_end lease now) (committed w) (committed w') l).
  { intros l (text & token' & Ht' & HC). assert (text = uuid_text token) as -> by congruence.
    pose proof (cl_token _ _ _ _ _ _ _ _ _ HC) as Hs'. assert (token' = token) as -> by congruence. done. }
  destruct r as [claimed|e]; [by apply Htook|]. destruct HR as [?|[? [l HC]]]; [by left|]. right. eauto.
Qed.

(** C11: a lease is exclusive and fenced: an event that two successive claims
    report was claimed the second time only after the first lease had ended, and
    from then on the first publisher can neither complete nor release it. *)
Theorem lease_exclusive (random1 random2 : Result (list Z)) (locked1 locked2 : UUID -> bool) (limit1 limit2 lease1 lease2 : Z)
    (s1 s2 s : Service) (w w1 w2 w3 : World) (claimed1 claimed2 : list ClaimedEvent) (c1 c2 : ClaimedEvent) (r : Result unit) :
  Claim random1 locked1 limit1 lease1 s1 w = (Ok claimed1, w1) -> c1 ∈ claimed1 ->
  Claim random2 locked2 limit2 lease2 s2 w1 = (Ok claimed2, w2) -> c2 ∈ claimed2 ->
  eventID (ce_Envelope c1) = eventID (ce_Envelope c2) ->
  instant (now_at s1 (tick w)) + lease1 <= instant (now_at s2 (tick w1)) /\
  (uuid_scan (ce_ClaimToken c1) <> uuid_scan (ce_ClaimToken c2) ->
   (MarkPublished (eventID (ce_Envelope c1)) (ce_ClaimToken c1) s w2 = (r, w3) -> committed w3 = committed w2 /\ r <> Ok tt) /\
   (forall delay diagnostic, MarkFailed (eventID (ce_Envelope c1)) (ce_ClaimToken c1) delay diagnostic s w2 = (r, w3) ->
      committed w3 = committed w2 /\ r <> Ok tt)).
Proof.
  intros (t1 & u1 & _ & H1)%Claim_outcome Hc1 (t2 & u2 & _ & H2)%Claim_outcome Hc2 Eid.
  destruct (cl_leased _ _ _ _ _ _ _ _ _ H1 _ Hc1) as (id & r1 & _ & _ & _ & E1 & _ & _ & _ & T1 & L1).
  destruct (cl_leased _ _ _ _ _ _ _ _ _ H2 _ Hc2) as (id2 & r2 & O2 & El2 & _ & E2 & _ & _ & _ & T2 & L2).
  assert (id2 = id) as -> by (apply uuid_text_inj; congruence).
  split.
  - assert (r2 = leased u1 (lease_end lease1 (now_at s1 (tick w))) r1) as -> by congruence.
    by apply leased_eligible in El2.
  - rewrite T1, T2, E1. rewrite (cl_token _ _ _ _ _ _ _ _ _ H1), (cl_token _ _ _ _ _ _ _ _ _ H2). intros Hne.
    assert (Hno : ~ exists row, holds u1 id (committed w2) row).
    { intros (row & Hh). apply Hne. f_equal. by eapply leased_holds. }
    pose proof (cl_token _ _ _ _ _ _ _ _ _ H1) as Hu1.
    split; [|intros delay diagnostic]; intros HR.
    + exact (el_lost _ _ _ _ _ _ (MarkPublished_outcome _ _ _ _ _ _ _ _ (uuid_scan_text id) Hu1 HR) Hno).
    + exact (el_lost _ _ _ _ _ _ (MarkFailed_outcome _ _ _ _ _ _ _ _ _ _ (uuid_scan_text id) Hu1 HR) Hno).
Qed.

(** C34: completing and releasing an event are fenced by the token, stated on the
    columns of its row.  [MarkPublished] changes only an unpublished event that the
    token has a lease on: it is published at that time, without lease or error, its
    content and every other row kept, and no later claim reports it.  [MarkFailed]
    likewise keeps it unpublished and ends the lease, counts the attempt (up to the
    maximum of its type), stores a printable diagnostic of 1 to 1024 bytes, which is
    the given one when that is printable, and no claim reports it before the delay
    has passed; a delay that is negative, above a day or no whole number of seconds
    is refused.  Without the lease nothing changes, and a failure with an effect
    is a lost acknowledgement.  On a healthy service the holder succeeds, once the
    clock is not behind the event's creation, and everyone else is told that the
    claim is lost. *)
Theorem completion_fenced (event_ID token diagnostic : string) (delay : Z) (id u : UUID) (s : Service) (w w' : World)
    (r : Result unit) :
  uuid_scan event_ID = Some id -> uuid_scan token = Some u ->
  let now := now_at s (tick w) in
  let later_claim_needs (T : Service -> Prop) := forall random locked limit lease s2 claimed w2 c,
    Claim random locked limit lease s2 w' = (Ok claimed, w2) -> c ∈ claimed -> uuid_scan (eventID (ce_Envelope c)) = Some id -> T s2 in
  let holder := exists row, mine u id (committed w) row /\ instant (ob_created_at row) <= instant now in
  (MarkPublished event_ID token s w = (r, w') ->
     fenced u id (published_row now) (committed w) (committed w') r /\
     (r = Ok tt -> later_claim_needs (fun _ => False)) /\
     (healthy s -> (holder -> r = Ok tt) /\ (~ (exists row, mine u id (committed w) row) -> r = Err [ErrClaimLost]))) /\
  (MarkFailed event_ID token delay diagnostic s w = (r, w') ->
     (~ retry_delay_ok delay -> r = Err [ErrInvalidArgument] /\ w' = w) /\
     exists text, fenced u id (retried_row (instant now + delay) text) (committed w) (committed w') r /\
       1 <= len text <= 1024 /\ all_bytes is_printable text = true /\
       (all_bytes is_printable diagnostic = true -> diagnostic <> "" -> text = take_bytes 1024 diagnostic) /\
       (r = Ok tt -> later_claim_needs (fun s2 => instant now + delay <= instant (now_at s2 (tick w')))) /\
       (healthy s -> retry_delay_ok delay ->
          (holder -> r = Ok tt) /\ (~ (exists row, mine u id (committed w) row) -> r = Err [ErrClaimLost]))).
Proof.
  intros Hi Hu now later holder. split; intros HR.
  - assert (HF : fenced u id (published_row now) (committed w) (committed w') r).
    { eapply ends_lease_fenced, MarkPublished_outcome; [by split|done..]. }
    split; [done|]. split.
    + intros Hr random locked limit lease s2 claimed w2 c HC Hc Hid.
      destruct (fe_done _ _ _ _ _ _ HF Hr) as (row & row' & _ & _ & [Hp _ _ _ _ _] & E).
      pose proof (claimed_was_free _ _ _ _ _ _ _ _ _ _ row' HC Hc Hid) as He. rewrite E in He. cbn in He. rewrite lookup_insert_eq in He.
      specialize (He eq_refl). unfold eligible in He. by rewrite Hp in He.
    + intros Hs. destruct (MarkPublished_healthy event_ID token id u s w Hi Hu Hs) as [H1 H2]. rewrite HR in H1, H2.
      split; [|done]. intros (row & Hm & Ht). by eapply H1.
  - split.
    { intros Hd. unfold MarkFailed in HR. rewrite (proj2 (parseClaimIdentity_Ok _ _ id u)) in HR by done.
      rewrite <- delay_refused in Hd. apply not_false_iff_true in Hd. rewrite Hd in HR. by injection HR as <- <-. }
    exists (sanitizeDiagnostic diagnostic). pose proof (sanitizeDiagnostic_bounds diagnostic) as [Hb Hpr].
    assert (HF : fenced u id (retried_row (instant now + delay) (sanitizeDiagnostic diagnostic)) (committed w) (committed w') r).
    { eapply ends_lease_fenced, MarkFailed_outcome; [by split|done..]. }
    split_and!; [done|apply Hb|apply Hb|done| | |].
    + intros Hd Hne. by rewrite sanitizeDiagnostic_printable, bool_decide_eq_false_2.
    + intros Hr random locked limit lease s2 claimed w2 c HC Hc Hid.
      destruct (fe_done _ _ _ _ _ _ HF Hr) as (row & row' & _ & _ & [_ _ _ _ _ Ha] & E).
      pose proof (claimed_was_free _ _ _ _ _ _ _ _ _ _ row' HC Hc Hid) as He. rewrite E in He. cbn in He. rewrite lookup_insert_eq in He.
      specialize (He eq_refl). unfold eligible in He. rewrite !andb_true_iff, Ha in He. destruct He as [[_ He%Z.leb_le] _]. done.
    + intros Hs Hd. destruct (MarkFailed_healthy event_ID token id u delay diagnostic s w Hi Hu Hs Hd) as [H1 H2]. rewrite HR in H1, H2.
      split; [|done]. intros (row & Hm & Ht). by eapply H1.
Qed.

End Theorems.

(** ** Runs on a concrete outbox *)

Definition waiting : OutboxRow :=
  mkOutboxRow 1 "transfer.completed" 1 "transfer" id_entry 1 id_entry None sample_now "{}" sample_now sample_now 0
    None None None None.

Definition waitingWorld : World := mkWorld (set_outbox (fun _ => {[ id_other := waiting ]}) sampleDB) 0.

(** A service whose clock shows the given instant. *)
Definition clock (at_ : Z) : Service :=
  mkService (fun _ => None) (fun _ => CommitApplied) (fun _ => id_other) (fun _ => mkTime at_ 0) (fun _ => false).

Definition first_bytes : list Z := [1; 2; 3; 4; 5; 6; 7; 8; 9; 10; 11; 12; 13; 14; 15; 16].
Definition second_bytes : list Z := [21; 2; 3; 4; 5; 6; 7; 8; 9; 10; 11; 12; 13; 14; 15; 16].

Definition unlocked : UUID -> bool := fun _ => false.

Definition first_claim : Result (list ClaimedEvent) * World :=
  Claim (Ok first_bytes) unlocked 10 (60 * Second) (clock (10 * Second)) waitingWorld.
Definition second_claim : Result (list ClaimedEvent) * World :=
  Claim (Ok second_bytes) unlocked 10 (60 * Second) (clock (70 * Second)) first_claim.2.

(** The single event of a batch. *)
Definition sole (p : Result (list ClaimedEvent) * World) : option ClaimedEvent :=
  match p.1 with Ok [c] => Some c | _ => None end.

Lemma sole_Some p c : sole p = Some c -> p = (Ok [c], p.2).
Proof. destruct p as [[[|x [|y l]]|e] w]; cbn; congruence. Qed.

Lemma Claim_correct_witness :
  exists token c, newClaimToken (Ok first_bytes) = Ok (uuid_text token) /\ first_claim.1 = Ok [c] /\
    claims unlocked (Z.to_nat 10) (uuid_text token) token (now_at (clock (10 * Second)) (tick waitingWorld))
      (lease_end (60 * Second) (now_at (clock (10 * Second)) (tick waitingWorld)))
      (committed waitingWorld) (committed first_claim.2) [c].
Proof.
  destruct (some_with (sole first_claim) (fun c => ce_Sequence c =? 1)) as (c & Hc & _); [vm_compute; reflexivity|].
  apply sole_Some in Hc.
  destruct (Claim_correct first_bytes unlocked 10 (60 * Second) (clock (10 * Second)) waitingWorld first_claim.2 (Ok [c])
    eq_refl ltac:(unfold is_byte; repeat constructor; lia) Hc) as (token & Ht & HC).
  exists token, c. split; [exact Ht|]. split; [exact (f_equal fst Hc)|exact HC].
Defined.

Lemma lease_exclusive_witness :
  exists c1 c2, sole first_claim = Some c1 /\ sole second_claim = Some c2 /\
    committed (MarkPublished (eventID (ce_Envelope c1)) (ce_ClaimToken c1) (clock (71 * Second)) second_claim.2).2 =
      committed second_claim.2.
Proof.
  destruct (some_with (sole first_claim) (fun c => bool_decide (eventID (ce_Envelope c) = uuid_text id_other) &&
    bool_decide (ce_ClaimToken c = "01020304-0506-4708-890a-0b0c0d0e0f10"))) as (c1 & H1 & E1); [vm_compute; reflexivity|].
  destruct (some_with (sole second_claim) (fun c => bool_decide (eventID (ce_Envelope c) = uuid_text id_other) &&
    bool_decide (ce_ClaimToken c = "15020304-0506-4708-890a-0b0c0d0e0f10"))) as (c2 & H2 & E2); [vm_compute; reflexivity|].
  exists c1, c2. split; [exact H1|]. split; [exact H2|].
  apply andb_true_iff in E1 as [I1 T1], E2 as [I2 T2]. apply bool_decide_eq_true_1 in I1, T1, I2, T2.
  apply sole_Some in H1, H2.
  refine (proj1 (proj1 (proj2 (lease_exclusive (Ok first_bytes) (Ok second_bytes) unlocked unlocked 10 10 (60 * Second)
    (60 * Second) (clock (10 * Second)) (clock (70 * Second)) (clock (71 * Second)) waitingWorld first_claim.2
    second_claim.2 _ [c1] [c2] c1 c2 _ H1 _ H2 _ _) _) (surjective_pairing _))).
  - apply list_elem_of_singleton. reflexivity.
  - apply list_elem_of_singleton. reflexivity.
  - congruence.
  - rewrite T1, T2. intros E. apply (f_equal (fmap uuid_text)) in E. vm_compute in E. discriminate E.
Defined.

(** The event under a lease of the publisher whose token is Alice's identifier. *)
Definition leasedWorld : World :=
  mkWorld (set_outbox (fun _ => {[ id_other := leased id_alice (mkTime (90 * Second) 0) waiting ]}) sampleDB) 0.

Lemma clock_healthy at_ : healthy (clock at_).
Proof. done. Qed.

Lemma leased_mine : mine id_alice id_other (committed leasedWorld) (leased id_alice (mkTime (90 * Second) 0) waiting).
Proof. split; [apply lookup_singleton_eq|done]. Qed.

Lemma completion_fenced_witness :
  (MarkPublished (uuid_text id_other) (uuid_text id_alice) (clock (71 * Second)) leasedWorld).1 = Ok tt /\
  (MarkPublished (uuid_text id_other) (uuid_text id_bob) (clock (71 * Second)) leasedWorld).1 = Err [ErrClaimLost] /\
  (MarkFailed (uuid_text id_other) (uuid_text id_alice) (5 * Second) "broker timeout" (clock (71 * Second)) leasedWorld).1 = Ok tt.
Proof.
  pose proof (fun token => completion_fenced (uuid_text id_other) (uuid_text token) "broker timeout" (5 * Second) id_other token
    (clock (71 * Second)) leasedWorld) as HC.
  assert (Hold : exists row, mine id_alice id_other (committed leasedWorld) row /\
    instant (ob_created_at row) <= instant (now_at (clock (71 * Second)) (tick leasedWorld))).
  { eexists. split; [exact leased_mine|]. vm_compute. discriminate. }
  split; [|split].
  - destruct (proj1 (HC id_alice _ _ (uuid_scan_text _) (uuid_scan_text _)) (surjective_pairing _)) as (_ & _ & HH).
    exact (proj1 (HH (clock_healthy _)) Hold).
  - destruct (proj1 (HC id_bob _ _ (uuid_scan_text _) (uuid_scan_text _)) (surjective_pairing _)) as (_ & _ & HH).
    apply (proj2 (HH (clock_healthy _))). intros (row & Hr & Ht & _).
    rewrite (proj1 leased_mine) in Hr. assert (row = leased id_alice (mkTime (90 * Second) 0) waiting) as -> by congruence.
    apply (f_equal (fmap uuid_text)) in Ht. vm_compute in Ht. discriminate Ht.
  - destruct (proj2 (HC id_alice _ _ (uuid_scan_text _) (uuid_scan_text _)) (surjective_pairing _)) as (_ & text & _ & _ & _ & _ & _ & HH).
    apply (HH (clock_healthy _)); [|exact Hold]. split; [unfold Second; lia|reflexivity].
Defined.
