(* ===== verification/Inbox.v ===== *)
(** * The consumer inbox

    [internal/inbox/postgres/inbox.go]: [ReserveTx] records that a consumer has
    taken an event, once per consumer and event. *)

From stdpp Require Import base list gmap strings numbers.
From Stdlib Require Import ZArith Lia.
From S2P Require Import Prelude GoText Event Database.

Open Scope string_scope.
Open Scope Z_scope.

Definition maxConsumerNameBytes : Z := 128.

Definition ErrInvalidArgument : leaf := errors_New "inbox repository: invalid argument".

Fixpoint consumer_name_from (first : bool) (value : string) : bool :=
  match value with
  | EmptyString => true
  | String a rest =>
      let c := byte_val a in
      if is_lower c || is_digit c then consumer_name_from false rest
      else if negb first && ((c =? 46) || (c =? 95) || (c =? 45)) then consumer_name_from false rest
      else false
  end.

Definition validConsumerName (value : string) : bool :=
  if bool_decide (value = "") || (maxConsumerNameBytes <? len value) then false
  else consumer_name_from true value.

Section Inbox.
Context `{Pg}.

(** [insertInboxQuery] (ON CONFLICT DO NOTHING): the event, or nothing when the
    pair is already there. *)
Definition insertInboxQuery (consumerName eventID eventType : string) (eventVersion : Z) (_ : Time) (db : DB)
    : Result (option UUID * DB) :=
  match uuid_scan eventID with
  | None => Err invalid_text
  | Some id =>
      if negb (validConsumerName consumerName) then Err (check_violation "consumer_inbox_name_check")
      else if negb (validEventType eventType) then Err (check_violation "consumer_inbox_event_type_check")
      else if eventVersion <=? 0 then Err (check_violation "consumer_inbox_event_version_check")
      else match t_inbox db !! (consumerName, id) with
      | Some _ => Ok (None, db)
      | None => Ok (Some id, set_inbox (insert (consumerName, id) (mkInboxRow eventType eventVersion)) db)
      end
  end.

Definition ReserveTx (consumerName : string) (envelope : Envelope) : Tx bool :=
  if negb (validConsumerName consumerName) then lift (Err [ErrInvalidArgument])
  else if bool_decide (eventID envelope = "") || bool_decide (eventType (draft envelope) = "") ||
          (eventVersion (draft envelope) <=? 0)
  then lift (Err [ErrInvalidArgument])
  else
    reserved ← exec (insertInboxQuery consumerName (eventID envelope) (eventType (draft envelope))
                       (eventVersion (draft envelope)));
    mret (match reserved with Some _ => true | None => false end).

(** ** Lemmas *)

Lemma quiet_ReserveTx name env : quiet (ReserveTx name env).
Proof. unfold ReserveTx. quiet. Qed.

(** A reservation succeeds once: it is granted exactly when the pair is new, and
    then the pair is there. *)
Lemma ReserveTx_Ok name env s st b st' :
  ReserveTx name env s st = (Ok b, st') ->
  exists id, uuid_scan (eventID env) = Some id /\ tx_open st' /\ tx_now st' = tx_now st /\
    if b then t_inbox (tx_db st) !! (name, id) = None /\
              tx_db st' = set_inbox (insert (name, id) (mkInboxRow (eventType (draft env)) (eventVersion (draft env)))) (tx_db st)
    else is_Some (t_inbox (tx_db st) !! (name, id)) /\ tx_db st' = tx_db st.
Proof.
  unfold ReserveTx. destruct (negb _); [done|]. destruct (_ || _); [done|]. intros HR. tx_inv.
  match goal with H : insertInboxQuery _ _ _ _ _ _ = Ok _ |- _ => rename H into HI end.
  unfold insertInboxQuery in HI. destruct (uuid_scan (eventID env)) as [id|]; [|done].
  repeat match type of HI with (if ?b then _ else _) = _ => destruct b eqn:?; [done|] end.
  exists id. split; [done|]. destruct (t_inbox (tx_db st) !! (name, id)) eqn:E; injection HI as <- <-; cbn;
    split_and!; (done || eauto).
Qed.

End Inbox.

#[export] Hint Resolve quiet_ReserveTx : wallet.
