(* ===== verification/Quarantine.v ===== *)
(** * The quarantine of poison records

    [internal/quarantine/postgres/repository.go]: a record that a consumer cannot
    read is stored once, with a bounded excerpt and its digest, before its offset
    is committed. *)

From stdpp Require Import base list gmap strings numbers.
From Stdlib Require Import ZArith Lia.
From S2P Require Import Prelude GoText Sha256 Database Inbox.

Open Scope string_scope.
Open Scope Z_scope.

Definition maxTopicBytes : Z := 249.
Definition maxValueExcerptBytes : Z := 65536.

Definition ReasonInvalidEnvelope : string := "invalid_envelope".
Definition ReasonUnsupportedEventType : string := "unsupported_event_type".

Definition ErrInvalidQuarantine : leaf := errors_New "quarantine repository: invalid argument".

(** The type [Record]; the value is a slice, [None] when it is nil, as the client
    gives it for a record without a value. *)
Record PoisonRecord := mkPoisonRecord {
  ConsumerName : string;
  Topic : string;
  Partition : Z;
  Offset : Z;
  ReasonCode : string;
  RecordValue : option string
}.

(** The grammar is that of the inbox, character by character. *)
Definition quarantine_validConsumerName (value : string) : bool :=
  if bool_decide (value = "") || (maxConsumerNameBytes <? len value) then false
  else consumer_name_from true value.

Definition validateRecord (record : PoisonRecord) : Result unit :=
  if negb (quarantine_validConsumerName (ConsumerName record)) then Err [ErrInvalidQuarantine]
  else if bool_decide (Topic record = "") || (maxTopicBytes <? len (Topic record)) then Err [ErrInvalidQuarantine]
  else if (Partition record <? 0) || (Offset record <? 0) then Err [ErrInvalidQuarantine]
  else if negb (bool_decide (ReasonCode record = ReasonInvalidEnvelope)) &&
          negb (bool_decide (ReasonCode record = ReasonUnsupportedEventType))
  then Err [ErrInvalidQuarantine]
  else Ok tt.

Section Quarantine.
Context `{Pg}.

Definition position_of (record : PoisonRecord) : string * string * Z * Z :=
  (ConsumerName record, Topic record, Partition record, Offset record).

(** The excerpt [bytes.Clone] makes: of a nil slice it is nil, which the driver
    writes as NULL. *)
Definition value_excerpt (value : option string) : option string :=
  (fun v => take_bytes (Z.to_nat (Z.min (len v) maxValueExcerptBytes)) v) <$> value.

Definition not_null_violation : error := [Postgres (mkPgError "23502" "")].

(** The bytes of a slice. *)
Definition slice_bytes (value : option string) : string := default "" value.

(** [insertQuarantineQuery] with the checks of [consumer_quarantine], whose
    [value_excerpt] is NOT NULL; the primary key's conflict does nothing. *)
Definition insertQuarantineQuery (record : PoisonRecord) (excerpt : option string) (hash : list Z) (size : Z) (truncated : bool)
    (now : Time) (d : DB) : Result (unit * DB) :=
  match excerpt with
  | None => Err not_null_violation
  | Some excerpt =>
  if negb (quarantine_validConsumerName (ConsumerName record))
  then Err (check_violation "consumer_quarantine_consumer_name_check")
  else if negb ((1 <=? len (Topic record)) && (len (Topic record) <=? 249))
  then Err (check_violation "consumer_quarantine_topic_check")
  else if Partition record <? 0 then Err (check_violation "consumer_quarantine_partition_check")
  else if Offset record <? 0 then Err (check_violation "consumer_quarantine_offset_check")
  else if negb (bool_decide (ReasonCode record = "invalid_envelope") || bool_decide (ReasonCode record = "unsupported_event_type"))
  then Err (check_violation "consumer_quarantine_reason_check")
  else if 65536 <? len excerpt then Err (check_violation "consumer_quarantine_value_excerpt_check")
  else if negb (bool_decide (length hash = 32%nat)) then Err (check_violation "consumer_quarantine_value_sha256_check")
  else if size <? 0 then Err (check_violation "consumer_quarantine_value_size_check")
  else if negb (Bool.eqb truncated (len excerpt <? size)) then Err (check_violation "consumer_quarantine_value_shape_check")
  else match t_quarantine d !! position_of record with
  | Some _ => Ok (tt, d)
  | None =>
      Ok (tt, set_quarantine (insert (position_of record)
                (mkQuarantineRow (ReasonCode record) excerpt hash size truncated now)) d)
  end
  end.

(** [Store]. *)
Definition quarantine_Store (record : PoisonRecord) (s : Service) (w : World) : Result unit * World :=
  match validateRecord record with
  | Err e => (Err e, w)
  | Ok _ =>
      let value := slice_bytes (RecordValue record) in
      let valueExcerpt := value_excerpt (RecordValue record) in
      run_stmt (insertQuarantineQuery record valueExcerpt (Sum256 value) (len value)
                  (len (slice_bytes valueExcerpt) <? len value)) s w
  end.

(** ** What it does *)

(** The row of a record. *)
Definition quarantined (record : PoisonRecord) (d : DB) : Prop := is_Some (t_quarantine d !! position_of record).

Definition quarantine_row (record : PoisonRecord) (now : Time) : QuarantineRow :=
  let value := slice_bytes (RecordValue record) in
  mkQuarantineRow (ReasonCode record) (take_bytes (Z.to_nat (Z.min (len value) maxValueExcerptBytes)) value)
    (Sum256 value) (len value) (maxValueExcerptBytes <? len value) now.

(** The record is there now, as it was stored first; only one with a value can be. *)
Definition quarantine_added (record : PoisonRecord) (now : Time) (d d' : DB) : Prop :=
  is_Some (RecordValue record) /\
  match t_quarantine d !! position_of record with
  | Some _ => d' = d
  | None => d' = set_quarantine (insert (position_of record) (quarantine_row record now)) d
  end.

Lemma validateRecord_Ok record :
  validateRecord record = Ok tt <->
  quarantine_validConsumerName (ConsumerName record) = true /\ 1 <= len (Topic record) <= maxTopicBytes /\
  0 <= Partition record /\ 0 <= Offset record /\
  (ReasonCode record = ReasonInvalidEnvelope \/ ReasonCode record = ReasonUnsupportedEventType).
Proof.
  unfold validateRecord. destruct (quarantine_validConsumerName _); cbn [negb]; [|split; [done|by intros [? _]]].
  pose proof (len_nonneg (Topic record)) as Hn. pose proof (proj1 (len_0 (Topic record))) as H0.
  case_bool_decide as E1; cbn [orb].
  { split; [done|]. rewrite E1. cbn. lia. }
  destruct (Z.ltb_spec maxTopicBytes (len (Topic record))); [split; [done|]; lia|].
  destruct (Z.ltb_spec (Partition record) 0); cbn [orb]; [split; [done|]; lia|].
  destruct (Z.ltb_spec (Offset record) 0); [split; [done|]; lia|].
  assert (len (Topic record) <> 0) by (intros E; by apply H0 in E).
  case_bool_decide as Ea; [|case_bool_decide as Eb]; cbn [negb andb].
  - split; [intros _; split_and!; [done|lia|lia|lia|lia|by left]|done].
  - split; [intros _; split_and!; [done|lia|lia|lia|lia|by right]|done].
  - split; [done|]. by intros (_ & _ & _ & _ & [?|?]).
Qed.

Lemma len_excerpt value :
  len (take_bytes (Z.to_nat (Z.min (len value) maxValueExcerptBytes)) value) = Z.min (len value) maxValueExcerptBytes.
Proof.
  pose proof (len_nonneg value). pose proof (len_length value). rewrite len_length.
  rewrite length_take_bytes; unfold maxValueExcerptBytes; lia.
Qed.

(** Validated records with a value meet every constraint of the table. *)
Lemma insertQuarantine_Ok record value now d :
  validateRecord record = Ok tt -> RecordValue record = Some value ->
  let excerpt := value_excerpt (Some value) in
  exists d', insertQuarantineQuery record excerpt (Sum256 value) (len value) (len (slice_bytes excerpt) <? len value) now d = Ok (tt, d') /\
    quarantine_added record now d d'.
Proof.
  intros (Hn & [Ht1 Ht2] & Hp & Ho & Hr)%validateRecord_Ok Hv. cbn zeta.
  unfold insertQuarantineQuery, quarantine_added, quarantine_row, slice_bytes, value_excerpt. rewrite Hv. cbn [fmap option_fmap option_map default].
  pose proof (len_nonneg value) as Hl. unfold id. rewrite len_excerpt, length_Sum256, Hn.
  rewrite !(proj2 (Z.leb_le _ _)) by (unfold maxTopicBytes in *; lia).
  rewrite !(proj2 (Z.ltb_ge _ _)) by (unfold maxValueExcerptBytes; lia).
  rewrite Bool.eqb_reflx. rewrite (bool_decide_eq_true_2 (32%nat = 32%nat)) by done. cbn [negb andb].
  assert (bool_decide (ReasonCode record = "invalid_envelope") || bool_decide (ReasonCode record = "unsupported_event_type") = true) as ->.
  { rewrite orb_true_iff, !bool_decide_eq_true. exact Hr. }
  cbn [negb]. destruct (t_quarantine d !! position_of record); [eexists; split_and!; eauto|]. eexists. split; [done|]. split; [eauto|].
  f_equal. f_equal. unfold maxValueExcerptBytes. f_equal.
  destruct (Z.ltb_spec 65536 (len value)); [apply Z.ltb_lt|apply Z.ltb_ge]; lia.
Qed.

(** A record without a value is refused by the table, whatever the service. *)
Lemma quarantine_Store_null record s w :
  RecordValue record = None -> exists e w', quarantine_Store record s w = (Err e, w') /\ committed w' = committed w.
Proof.
  intros Hv. unfold quarantine_Store. destruct (validateRecord record); [|eauto]. rewrite Hv. unfold run_stmt.
  destruct (faults s (tick w)); [eauto|]. cbn. eauto.
Qed.

Lemma quarantine_Store_outcome record s w r w' :
  quarantine_Store record s w = (r, w') ->
  match r with
  | Ok _ => quarantine_added record (now_at s (tick w)) (committed w) (committed w')
  | Err e => committed w' = committed w \/
      e = [Other "connection"] /\ quarantine_added record (now_at s (tick w)) (committed w) (committed w')
  end.
Proof.
  destruct (RecordValue record) as [value|] eqn:Hv.
  2:{ destruct (quarantine_Store_null record s w Hv) as (e & w1 & -> & Hc). intros [= <- <-]. by left. }
  unfold quarantine_Store. destruct (validateRecord record) as [[]|e] eqn:Ev; [|intros [= <- <-]; by left].
  rewrite Hv. intros HR%run_stmt_outcome.
  destruct (insertQuarantine_Ok record value (now_at s (tick w)) (committed w) Ev Hv) as (d & Hd & Ha). cbn zeta in Hd.
  destruct r as [u|e].
  - destruct HR as (d' & E & ->). cbn [slice_bytes default] in E. unfold id in E. rewrite Hd in E. by injection E as _ <-.
  - destruct HR as [?|(-> & u & d' & E & ->)]; [by left|right]. cbn [slice_bytes default] in E. unfold id in E. rewrite Hd in E. by injection E as _ <-.
Qed.

Lemma quarantine_Store_healthy record s w :
  healthy s -> validateRecord record = Ok tt -> is_Some (RecordValue record) -> exists w', quarantine_Store record s w = (Ok tt, w').
Proof.
  intros Hs Hv [value Hr]. unfold quarantine_Store. rewrite Hv, Hr.
  destruct (insertQuarantine_Ok record value (now_at s (tick w)) (committed w) Hv Hr) as (d & Hd & _).
  eexists. by apply run_stmt_healthy.
Qed.

Lemma quarantine_added_quarantined record now d d' : quarantine_added record now d d' -> quarantined record d'.
Proof.
  unfold quarantine_added, quarantined. intros [_ HQ]. destruct (t_quarantine d !! position_of record) eqn:E; rewrite HQ; [by rewrite E|].
  cbn. rewrite lookup_insert_eq. eauto.
Qed.

Lemma quarantine_added_grows record now d d' : quarantine_added record now d d' -> t_quarantine d ⊆ t_quarantine d'.
Proof.
  unfold quarantine_added. intros [_ HQ]. destruct (t_quarantine d !! position_of record) eqn:E; rewrite HQ; [done|].
  cbn. by apply insert_subseteq.
Qed.

End Quarantine.
