(* ===== verification/TransferRepo.v ===== *)
(** * The transfer repository

    [internal/transfer/postgres/repository.go] and [risk_assessment.go]: creating
    transfers exactly once per requester and idempotency key, accepting pending
    ones, and persisting lifecycle transitions inside the workers' transactions.
    The constraints are those of [migrations/000003], [000005], [000007],
    [000008] and [000009]. *)

From stdpp Require Import base list gmap strings numbers sorting.
From Stdlib Require Import ZArith Lia.
From S2P Require Import Prelude GoText Money Journal TransferDomain RiskPolicy Json GoTime Event.
From S2P Require Import TransferEvents Database LedgerRepo Outbox.

Open Scope string_scope.
Open Scope Z_scope.

Definition maxTransactionAttempts : nat := 3.

Definition ErrInvalidArgument : leaf := errors_New "transfer repository: invalid argument".
Definition ErrNotFound : leaf := errors_New "transfer repository: not found".
Definition ErrUnauthorized : leaf := errors_New "transfer repository: source account is not owned by requester".
Definition ErrInactiveAccount : leaf := errors_New "transfer repository: account is not active".
Definition ErrNonCustomerAccount : leaf := errors_New "transfer repository: account is not a customer account".
Definition ErrCurrencyMismatch : leaf := errors_New "transfer repository: account currency mismatch".
Definition ErrIdempotencyConflict : leaf := errors_New "transfer repository: idempotency conflict".
Definition ErrAlreadyExists : leaf := errors_New "transfer repository: transfer already exists".
Definition ErrInsufficientFunds : leaf := errors_New "transfer repository: insufficient funds".
Definition ErrAmountOverflow : leaf := errors_New "transfer repository: amount overflow".
Definition ErrCorruptData : leaf := errors_New "transfer repository: corrupt data".
Definition ErrSerializationFailure : leaf := errors_New "transfer repository: serialization retries exhausted".
Definition ErrStateConflict : leaf := errors_New "transfer repository: lifecycle state conflict".

(** [retryableReplayError{}], recognized by its type. *)
Definition retryableReplayError : leaf := errors_New "transfer replay is not visible in transaction snapshot".

(** ** Pure helpers *)

Definition sameIntent (left right : Transfer) : bool :=
  bool_decide (requesterID left = requesterID right) &&
  bool_decide (sourceAccountID left = sourceAccountID right) &&
  bool_decide (destinationAccountID left = destinationAccountID right) &&
  bool_decide (transfer_amount left = transfer_amount right).

Definition mapLedgerError (err : error) : error :=
  if errors_Is err LedgerRepo.ErrInsufficientFunds then ErrInsufficientFunds :: err
  else if errors_Is err LedgerRepo.ErrAmountOverflow then ErrAmountOverflow :: err
  else if errors_Is err LedgerRepo.ErrAlreadyExists then ErrAlreadyExists :: err
  else if errors_Is err LedgerRepo.ErrCurrencyMismatch then ErrCurrencyMismatch :: err
  else if errors_Is err LedgerRepo.ErrNotFound then ErrNotFound :: err
  else err.

Definition classifyCreateError (err : error) : error :=
  match errors_AsPg err with
  | None => err
  | Some e =>
      if bool_decide (Code e = "23505") && bool_decide (ConstraintName e = "transfers_pkey")
      then ErrAlreadyExists :: err else err
  end.

Definition isRetryableTransaction (err : error) : bool :=
  if errors_Is err retryableReplayError then true
  else match errors_AsPg err with
  | None => false
  | Some e => bool_decide (Code e = "40001") || bool_decide (Code e = "40P01")
  end.

Definition lifecycleStatus (value : string) : Status * bool :=
  if bool_decide (value = status_String StatusPendingRisk) then (StatusPendingRisk, true)
  else if bool_decide (value = status_String StatusApproved) then (StatusApproved, true)
  else if bool_decide (value = status_String StatusReviewRequired) then (StatusReviewRequired, true)
  else if bool_decide (value = status_String StatusDeclined) then (StatusDeclined, true)
  else if bool_decide (value = status_String StatusCompleted) then (StatusCompleted, true)
  else if bool_decide (value = status_String StatusFailed) then (StatusFailed, true)
  else (StatusUnknown, false).

Definition nullableValue (value : option string) : string := default "" value.

Section Repository.
Context `{Pg}.

Record preparedTransfer := mkPreparedTransfer {
  pt_transfer : Transfer;
  pt_id : UUID;
  pt_requesterID : UUID;
  pt_sourceID : UUID;
  pt_destinationID : UUID;
  pt_entry : JournalEntry;
  completedEvent : Draft
}.

Record preparedPendingTransfer := mkPreparedPending {
  pq_lifecycle : Lifecycle;
  pq_id : UUID;
  pq_requesterID : UUID;
  pq_sourceID : UUID;
  pq_destinationID : UUID;
  requestedEvent : Draft
}.

Record accountRecord := mkAccountRecord {
  ar_id : string;
  ar_ownerID : string;
  ar_status : string;
  ar_accountType : string;
  ar_currency : string
}.

Record lifecycleRecord := mkLifecycleRecord {
  lr_id : string;
  lr_requesterID : string;
  lr_idempotencyKey : string;
  lr_sourceAccountID : string;
  lr_destinationAccountID : string;
  lr_currencyCode : string;
  lr_amountMinor : Z;
  lr_requestedAt : Time;
  lr_status : string;
  lr_version : Z;
  lr_riskPolicyVersion : option string;
  lr_journalEntryID : option string;
  lr_failureReason : option string
}.

Definition prepareTransfer (transfer : Transfer) : Result preparedTransfer :=
  validated ← wrap_err [ErrInvalidArgument] (NewTransfer (params_of transfer));
  id ← wrap_err [ErrInvalidArgument] (parseUUID (transfer_id validated));
  requesterID ← wrap_err [ErrInvalidArgument] (parseUUID (requesterID validated));
  sourceID ← wrap_err [ErrInvalidArgument] (parseUUID (sourceAccountID validated));
  destinationID ← wrap_err [ErrInvalidArgument] (parseUUID (destinationAccountID validated));
  entry ← wrap_err [ErrInvalidArgument] (transfer_JournalEntry validated);
  completedEvent ← wrap_err [ErrInvalidArgument] (Completed validated);
  mret (mkPreparedTransfer validated id requesterID sourceID destinationID entry completedEvent).

Definition preparePendingTransfer (lifecycle : Lifecycle) : Result preparedPendingTransfer :=
  validated ← wrap_err [ErrInvalidArgument]
    (NewLifecycle (mkLifecycleParams (lc_transfer lifecycle) (lc_status lifecycle) (lc_version lifecycle)
       (riskPolicyVersion lifecycle) (journalEntryID lifecycle) (failureReason lifecycle)));
  _ ← fail_if (negb (bool_decide (lc_status validated = StatusPendingRisk))) [ErrInvalidArgument];
  let transfer := lc_transfer validated in
  id ← wrap_err [ErrInvalidArgument] (parseUUID (transfer_id transfer));
  requesterID ← wrap_err [ErrInvalidArgument] (parseUUID (requesterID transfer));
  sourceID ← wrap_err [ErrInvalidArgument] (parseUUID (sourceAccountID transfer));
  destinationID ← wrap_err [ErrInvalidArgument] (parseUUID (destinationAccountID transfer));
  requestedEvent ← wrap_err [ErrInvalidArgument] (Requested validated);
  mret (mkPreparedPending validated id requesterID sourceID destinationID requestedEvent).

(** ** SQL statements *)

(** [octet_length BETWEEN 1 AND n AND ~ '^[!-~]+$']. *)
Definition visible_check (limit : Z) (v : string) : bool :=
  (1 <=? len v) && (len v <=? limit) && all_bytes is_visible v.

(** [octet_length BETWEEN 1 AND 64 AND ~ '^[a-z0-9_-]+$']. *)
Definition code_check (v : string) : bool :=
  (1 <=? len v) && (len v <=? 64) && all_bytes lifecycle_code_rune v.

(** [transfers_lifecycle_shape_check]. *)
Definition lifecycle_shape_check (id : UUID) (r : TransferRow) : bool :=
  let has {A} (o : option A) := match o with Some _ => true | None => false end in
  bool_decide (tr_status r = "pending_risk") && (tr_version r =? 1) && has (tr_policy r) &&
    negb (has (tr_journal r)) && negb (has (tr_failure r)) ||
  (bool_decide (tr_status r = "approved") || bool_decide (tr_status r = "review_required") ||
   bool_decide (tr_status r = "declined")) && (2 <=? tr_version r) && has (tr_policy r) &&
    negb (has (tr_journal r)) && negb (has (tr_failure r)) ||
  bool_decide (tr_status r = "completed") && bool_decide (tr_journal r = Some id) &&
    negb (has (tr_failure r)) && ((tr_version r =? 1) || has (tr_policy r)) ||
  bool_decide (tr_status r = "failed") && (2 <=? tr_version r) && has (tr_policy r) &&
    negb (has (tr_journal r)) && has (tr_failure r).

(** The CHECK constraints of [transfers]; the name is that of the first one
    that fails. *)
Definition transfer_checks (id : UUID) (r : TransferRow) : Result unit :=
  _ ← fail_if (tr_amount r <=? 0) (check_violation "transfers_amount_positive_check");
  _ ← fail_if (negb (currency_check (tr_currency r))) (check_violation "transfers_currency_check");
  _ ← fail_if (bool_decide (tr_source r = tr_destination r)) (check_violation "transfers_distinct_accounts_check");
  _ ← fail_if (match tr_failure r with Some v => negb (code_check v) | None => false end)
        (check_violation "transfers_failure_reason_check");
  _ ← fail_if (negb (visible_check 128 (tr_key r))) (check_violation "transfers_idempotency_key_check");
  _ ← fail_if (negb (lifecycle_shape_check id r)) (check_violation "transfers_lifecycle_shape_check");
  _ ← fail_if (match tr_policy r with Some v => negb (visible_check 64 v) | None => false end)
        (check_violation "transfers_risk_policy_version_check");
  fail_if (tr_version r <=? 0) (check_violation "transfers_state_version_check").

(** The row with a requester's key. *)
Definition transfer_by_key (requester : UUID) (key : string) (d : DB) : option (UUID * TransferRow) :=
  head (filter (fun '(_, r) => tr_requester r = requester /\ tr_key r = key) (map_to_list (t_transfers d))).

(** The INSERT ... ON CONFLICT (requester_id, idempotency_key) DO NOTHING of
    both creation statements: whether a row was inserted. *)
Definition insert_transfer_row (id : UUID) (r : TransferRow) (_ : Time) (d : DB) : Result (bool * DB) :=
  match transfer_checks id r with
  | Err e => Err e
  | Ok _ =>
      match transfer_by_key (tr_requester r) (tr_key r) d with
      | Some _ => Ok (false, d)
      | None =>
          if negb (bool_decide (t_transfers d !! id = None)) then Err (unique_violation "transfers_pkey")
          else Ok (true, set_transfers (insert id r) d)
      end
  end.

(** [insertTransferQuery]: the status and version are the column defaults. *)
Definition insertTransferQuery (p : preparedTransfer) : Time -> DB -> Result (bool * DB) :=
  let t := pt_transfer p in
  insert_transfer_row (pt_id p)
    (mkTransferRow (pt_requesterID p) (idempotencyKey t) (pt_sourceID p) (pt_destinationID p)
       (currency_String (currency (transfer_amount t))) (minorUnits (transfer_amount t))
       (stored_time (requestedAt t)) "completed" 1 None (Some (pt_id p)) None).

(** [insertPendingTransferQuery]. *)
Definition insertPendingTransferQuery (p : preparedPendingTransfer) : Time -> DB -> Result (bool * DB) :=
  let t := lc_transfer (pq_lifecycle p) in
  insert_transfer_row (pq_id p)
    (mkTransferRow (pq_requesterID p) (idempotencyKey t) (pq_sourceID p) (pq_destinationID p)
       (currency_String (currency (transfer_amount t))) (minorUnits (transfer_amount t))
       (stored_time (requestedAt t)) "pending_risk" 1 (Some (riskPolicyVersion (pq_lifecycle p))) None None).

(** A row as the driver scans it. *)
Definition scan_lifecycle (id : UUID) (r : TransferRow) : lifecycleRecord :=
  mkLifecycleRecord (uuid_text id) (uuid_text (tr_requester r)) (tr_key r) (uuid_text (tr_source r))
    (uuid_text (tr_destination r)) (tr_currency r) (tr_amount r) (tr_requested_at r) (tr_status r) (tr_version r)
    (tr_policy r) (uuid_text <$> tr_journal r) (tr_failure r).

(** [selectAccountsQuery]: accounts joined with their wallets, in the order of
    the accounts. *)
Definition selectAccountsQuery (accountIDs : list UUID) (d : DB) : list accountRecord :=
  omap (fun '(a, acc) =>
    match t_wallets d !! acc_wallet acc with
    | Some wal => Some (mkAccountRecord (uuid_text a) (uuid_text (wal_owner wal)) (acc_status acc) (acc_type acc)
                          (acc_currency acc))
    | None => None
    end)
    (merge_sort uuid_row_le (filter (fun '(a, _) => a ∈ accountIDs) (map_to_list (t_accounts d)))).

(** ** Transaction bodies *)

Definition reserveTransfer (p : preparedTransfer) : Tx bool := exec (insertTransferQuery p).

Definition reservePendingTransfer (p : preparedPendingTransfer) : Tx bool := exec (insertPendingTransferQuery p).

Definition selectTransferByKey (p : preparedTransfer) : Tx Transfer :=
  found ← query (fun d => Ok (transfer_by_key (pt_requesterID p) (idempotencyKey (pt_transfer p)) d));
  lift (match found with
        | None => Err [retryableReplayError]
        | Some (id, r) =>
            currency ← wrap_err [ErrCorruptData] (ParseCurrency (tr_currency r));
            amount ← wrap_err [ErrCorruptData] (NewMoney (tr_amount r) currency);
            wrap_err [ErrCorruptData]
              (NewTransfer (mkTransferParams (uuid_text id) (tr_key r) (uuid_text (tr_requester r))
                 (uuid_text (tr_source r)) (uuid_text (tr_destination r)) amount (tr_requested_at r)))
        end).

(** [lifecycleRecord.lifecycle]. *)
Definition record_lifecycle (r : lifecycleRecord) : Result Lifecycle :=
  currency ← wrap_err [ErrCorruptData] (ParseCurrency (lr_currencyCode r));
  amount ← wrap_err [ErrCorruptData] (NewMoney (lr_amountMinor r) currency);
  transfer ← wrap_err [ErrCorruptData]
    (NewTransfer (mkTransferParams (lr_id r) (lr_idempotencyKey r) (lr_requesterID r) (lr_sourceAccountID r)
       (lr_destinationAccountID r) amount (lr_requestedAt r)));
  let '(status, ok) := lifecycleStatus (lr_status r) in
  _ ← fail_if (negb ok) [ErrCorruptData];
  wrap_err [ErrCorruptData]
    (NewLifecycle (mkLifecycleParams transfer status (lr_version r) (nullableValue (lr_riskPolicyVersion r))
       (nullableValue (lr_journalEntryID r)) (nullableValue (lr_failureReason r)))).

Definition selectLifecycleByKey (p : preparedPendingTransfer) : Tx Lifecycle :=
  found ← query (fun d => Ok (transfer_by_key (pq_requesterID p) (idempotencyKey (lc_transfer (pq_lifecycle p))) d));
  lift (match found with
        | None => Err [retryableReplayError]
        | Some (id, r) => record_lifecycle (scan_lifecycle id r)
        end).

(** The checks of one account in the loop over source and destination. *)
Definition check_account (t : Transfer) (record : accountRecord) : Result unit :=
  if negb (bool_decide (ar_status record = "active")) then Err [ErrInactiveAccount]
  else if negb (bool_decide (ar_accountType record = "customer")) then Err [ErrNonCustomerAccount]
  else if negb (bool_decide (ar_currency record = currency_String (currency (transfer_amount t))))
  then Err [ErrCurrencyMismatch]
  else Ok tt.

Definition authorizeTransferAccounts (t : Transfer) (sourceID destinationID : UUID) : Tx unit :=
  rows ← query (fun d => Ok (selectAccountsQuery [sourceID; destinationID] d));
  let records : gmap string accountRecord := foldl (fun m r => <[ar_id r := r]> m) ∅ rows in
  lift (match records !! sourceAccountID t with
        | None => Err [ErrUnauthorized]
        | Some source =>
            if negb (bool_decide (ar_ownerID source = requesterID t)) then Err [ErrUnauthorized]
            else match records !! destinationAccountID t with
            | None => Err [ErrNotFound]
            | Some destination =>
                _ ← check_account t source;
                check_account t destination
            end
        end).

Definition authorizeAccounts (p : preparedTransfer) : Tx unit :=
  authorizeTransferAccounts (pt_transfer p) (pt_sourceID p) (pt_destinationID p).

Definition authorizePendingAccounts (p : preparedPendingTransfer) : Tx unit :=
  authorizeTransferAccounts (lc_transfer (pq_lifecycle p)) (pq_sourceID p) (pq_destinationID p).

Definition create_body (p : preparedTransfer) : Tx Transfer :=
  inserted ← reserveTransfer p;
  if negb inserted then
    stored ← selectTransferByKey p;
    _ ← lift (fail_if (negb (sameIntent stored (pt_transfer p))) [ErrIdempotencyConflict]);
    _ ← commit;
    mret stored
  else
    _ ← authorizeAccounts p;
    _ ← map_err mapLedgerError (PostTx (pt_entry p));
    _ ← AddTx (completedEvent p);
    _ ← commit;
    mret (pt_transfer p).

Definition createOnce (p : preparedTransfer) : Service -> World -> Result Transfer * World :=
  run_tx true (create_body p).

Definition create_pending_body (p : preparedPendingTransfer) : Tx Lifecycle :=
  inserted ← reservePendingTransfer p;
  if negb inserted then
    stored ← selectLifecycleByKey p;
    _ ← lift (fail_if (negb (sameIntent (lc_transfer stored) (lc_transfer (pq_lifecycle p)))) [ErrIdempotencyConflict]);
    _ ← commit;
    mret stored
  else
    _ ← authorizePendingAccounts p;
    _ ← AddTx (requestedEvent p);
    _ ← commit;
    mret (pq_lifecycle p).

Definition createPendingOnce (p : preparedPendingTransfer) : Service -> World -> Result Lifecycle * World :=
  run_tx true (create_pending_body p).

(** The retry loop that [Create] and [CreatePending] share. *)
Fixpoint create_attempts {A} (left : nat) (once : Service -> World -> Result A * World) (lastErr : error)
    (s : Service) (w : World) : Result A * World :=
  match left with
  | O => (Err (ErrSerializationFailure :: lastErr), w)
  | S left' =>
      if cancelled s (tick w) then (Err [ContextCanceled], w)
      else
        let '(r, w') := once s w in
        match r with
        | Ok created => (Ok created, w')
        | Err e =>
            if isRetryableTransaction e then create_attempts left' once e s w'
            else (Err (classifyCreateError e), w')
        end
  end.

Definition Create (transfer : Transfer) (s : Service) (w : World) : Result Transfer * World :=
  match prepareTransfer transfer with
  | Err e => (Err e, w)
  | Ok prepared => create_attempts maxTransactionAttempts (createOnce prepared) [] s w
  end.

Definition CreatePending (lifecycle : Lifecycle) (s : Service) (w : World) : Result Lifecycle * World :=
  match preparePendingTransfer lifecycle with
  | Err e => (Err e, w)
  | Ok prepared => create_attempts maxTransactionAttempts (createPendingOnce prepared) [] s w
  end.

End Repository.
