(* ===== verification/TransferSpec.v ===== *)
(** * What creating a transfer does to the tables

    The relational specification of [create_body] and [create_pending_body]
    ([created], [accepted]), the authorization of the two accounts, and the
    parts of the tables that transfers share with the ledger. *)

From stdpp Require Import base list gmap strings numbers sorting.
From Stdlib Require Import ZArith Lia.
From S2P Require Import Prelude GoText Money Journal TransferDomain RiskPolicy Json GoTime Event.
From S2P Require Import TransferEvents Database LedgerRepo LedgerSpec LedgerCorrect Outbox TransferRepo.

Open Scope string_scope.
Open Scope Z_scope.

Section Spec.
Context `{PgLaws}.

(** ** Frames *)

(** Two states with the same books. *)
Record same_ledger (d d' : DB) : Prop := {
  sl_accounts : t_accounts d' = t_accounts d;
  sl_balances : t_balances d' = t_balances d;
  sl_entries : t_entries d' = t_entries d;
  sl_postings : t_postings d' = t_postings d
}.

#[export] Instance same_ledger_preorder : PreOrder same_ledger.
Proof.
  split; [by intros d|]. intros d1 d2 d3 [] []. split; etrans; done.
Qed.

Lemma ledger_inv_frame d d' : same_ledger d d' -> ledger_inv d -> ledger_inv d'.
Proof.
  destruct d, d'. intros [Ha Hb He Hp]. cbn in Ha, Hb, He, Hp. subst.
  intros [H1 [H2 H2'] H3 H4 H5 H6 H7 H8]. split; try assumption. by split.
Qed.

(** ** Events *)

(** One more event, with the identity and payload of a validated draft. *)
Definition event_added (e : Draft) (d d' : DB) : Prop :=
  exists v id row stored now,
    validateDraft e = Ok v /\
    stored_json (payload v) = Some stored /\
    outbox_row (t_outbox_sequence d + 1) now stored v = Some row /\
    t_outbox d !! id = None /\
    (forall i r, t_outbox d !! i = Some r -> same_event r row = false) /\
    d' = set_outbox_sequence (fun q => q + 1) (set_outbox (insert id row) d).

Lemma AddTx_adds e s st env st' :
  AddTx e s st = (Ok env, st') ->
  event_added e (tx_db st) (tx_db st') /\ tx_open st' /\ tx_now st' = tx_now st.
Proof.
  intros HR. apply AddTx_Ok in HR as (v & id & row & stored & ? & ? & ? & ? & ? & -> & _).
  split; [|done]. exists v, id, row, stored, (tx_now st). done.
Qed.

Lemma event_added_ledger e d d' : event_added e d d' -> same_ledger d d'.
Proof. intros (v & id & row & stored & now & _ & _ & _ & _ & _ & ->). done. Qed.

Lemma event_added_frame e d d' :
  event_added e d d' ->
  t_wallets d' = t_wallets d /\ t_transfers d' = t_transfers d /\ t_inbox d' = t_inbox d /\
  t_assessments d' = t_assessments d /\ t_reviews d' = t_reviews d /\ t_audit d' = t_audit d.
Proof. intros (v & id & row & stored & now & _ & _ & _ & _ & _ & ->). done. Qed.

(** ** Transfer rows *)

(** The row of a transfer created as completed. *)
Definition created_row (p : preparedTransfer) : TransferRow :=
  let t := pt_transfer p in
  mkTransferRow (pt_requesterID p) (idempotencyKey t) (pt_sourceID p) (pt_destinationID p)
    (currency_String (currency (transfer_amount t))) (minorUnits (transfer_amount t))
    (stored_time (requestedAt t)) "completed" 1 None (Some (pt_id p)) None.

(** The row of a transfer accepted for assessment. *)
Definition pending_row (p : preparedPendingTransfer) : TransferRow :=
  let t := lc_transfer (pq_lifecycle p) in
  mkTransferRow (pq_requesterID p) (idempotencyKey t) (pq_sourceID p) (pq_destinationID p)
    (currency_String (currency (transfer_amount t))) (minorUnits (transfer_amount t))
    (stored_time (requestedAt t)) "pending_risk" 1 (Some (riskPolicyVersion (pq_lifecycle p))) None None.

(** No row of the requester has the key. *)
Definition key_free (requester : UUID) (key : string) (d : DB) : Prop :=
  forall id r, t_transfers d !! id = Some r -> ~ (tr_requester r = requester /\ tr_key r = key).

Lemma transfer_by_key_None requester key d : transfer_by_key requester key d = None <-> key_free requester key d.
Proof.
  unfold transfer_by_key, key_free. rewrite head_None. split.
  - intros E id r Hr Hk. assert (Hin : (id, r) ∈ ([] : list (UUID * TransferRow))); [|set_solver].
    rewrite <- E. apply list_elem_of_filter. split; [done|by apply elem_of_map_to_list].
  - intros Hf. apply elem_of_nil_inv. intros [id r] [Hk Hr%elem_of_map_to_list]%list_elem_of_filter. by eapply Hf.
Qed.

Lemma transfer_by_key_Some requester key d id r :
  transfer_by_key requester key d = Some (id, r) ->
  t_transfers d !! id = Some r /\ tr_requester r = requester /\ tr_key r = key.
Proof.
  unfold transfer_by_key. intros E. apply head_Some_elem_of, list_elem_of_filter in E as [[? ?] Hr].
  by apply elem_of_map_to_list in Hr.
Qed.

Lemma insert_transfer_row_Ok id r now d b d' :
  insert_transfer_row id r now d = Ok (b, d') ->
  transfer_checks id r = Ok tt /\
  if b then key_free (tr_requester r) (tr_key r) d /\ t_transfers d !! id = None /\
            d' = set_transfers (insert id r) d
  else is_Some (transfer_by_key (tr_requester r) (tr_key r) d) /\ d' = d.
Proof.
  unfold insert_transfer_row. destruct (transfer_checks id r) as [[]|]; [|done].
  destruct (transfer_by_key _ _ d) eqn:Ek; [intros [= <- <-]; split; eauto|].
  case_bool_decide; [|done]. intros [= <- <-]. rewrite <- transfer_by_key_None. done.
Qed.

(** ** Authorization *)

Definition account_ready (d : DB) (t : Transfer) (a : UUID) (owner : option string) : Prop :=
  exists acc wal, t_accounts d !! a = Some acc /\ t_wallets d !! acc_wallet acc = Some wal /\
    acc_status acc = "active" /\ acc_type acc = "customer" /\
    acc_currency acc = currency_String (currency (transfer_amount t)) /\
    match owner with Some o => uuid_text (wal_owner wal) = o | None => True end.

(** The source belongs to the requester, and both accounts are active customer
    accounts in the currency of the transfer. *)
Definition authorized (d : DB) (t : Transfer) (source destination : UUID) : Prop :=
  account_ready d t source (Some (requesterID t)) /\ account_ready d t destination None.

Definition index_records (rows : list accountRecord) (m : gmap string accountRecord) : gmap string accountRecord :=
  foldl (fun m r => <[ar_id r := r]> m) m rows.

Lemma index_records_lookup rows m k r :
  index_records rows m !! k = Some r -> (r ∈ rows /\ ar_id r = k) \/ m !! k = Some r.
Proof.
  revert m. induction rows as [|x rows IH]; intros m; cbn; [by right|].
  intros [[Hin E]|Hm]%IH; [left; split; [by right|done]|].
  destruct (decide (ar_id x = k)) as [<-|Hne].
  - rewrite lookup_insert_eq in Hm. injection Hm as <-. left. split; [by left|done].
  - rewrite lookup_insert_ne in Hm by done. by right.
Qed.

Lemma select_accounts_elem ids d r :
  r ∈ selectAccountsQuery ids d ->
  exists a acc wal, a ∈ ids /\ t_accounts d !! a = Some acc /\ t_wallets d !! acc_wallet acc = Some wal /\
    r = mkAccountRecord (uuid_text a) (uuid_text (wal_owner wal)) (acc_status acc) (acc_type acc) (acc_currency acc).
Proof.
  unfold selectAccountsQuery. intros ([a acc] & Hin & E)%list_elem_of_omap.
  rewrite merge_sort_Permutation, list_elem_of_filter, elem_of_map_to_list in Hin. destruct Hin as [Ha Hacc].
  destruct (t_wallets d !! acc_wallet acc) as [wal|] eqn:Ew; [|done]. injection E as <-. eauto 10.
Qed.

Lemma check_account_Ok t r : check_account t r = Ok tt <->
  ar_status r = "active" /\ ar_accountType r = "customer" /\
  ar_currency r = currency_String (currency (transfer_amount t)).
Proof. unfold check_account. repeat case_bool_decide; cbn; naive_solver. Qed.

Lemma authorize_Ok t source destination s st st' :
  uuid_text source = sourceAccountID t -> uuid_text destination = destinationAccountID t ->
  authorizeTransferAccounts t source destination s st = (Ok tt, st') ->
  authorized (tx_db st) t source destination /\ st' = advance st (tx_db st).
Proof.
  intros Hsrc Hdst. unfold authorizeTransferAccounts. intros HR. apply mbind_Ok in HR as (rows & st1 & HQ & HR).
  apply query_Ok in HQ as (_ & [= <-] & ->). cbv zeta in HR. apply lift_Ok in HR as [HR ->]. split; [|done].
  fold (index_records (selectAccountsQuery [source; destination] (tx_db st)) ∅) in HR.
  assert (Hrec : forall k a r, uuid_text a = k ->
    index_records (selectAccountsQuery [source; destination] (tx_db st)) ∅ !! k = Some r ->
    exists acc wal, t_accounts (tx_db st) !! a = Some acc /\ t_wallets (tx_db st) !! acc_wallet acc = Some wal /\
      r = mkAccountRecord (uuid_text a) (uuid_text (wal_owner wal)) (acc_status acc) (acc_type acc) (acc_currency acc)).
  { intros k a r Hk [[Hin E]|Hm]%index_records_lookup; [|by rewrite lookup_empty in Hm].
    apply select_accounts_elem in Hin as (a' & acc & wal & _ & Hacc & Hwal & ->). cbn in E. subst k.
    apply (inj uuid_text) in E as ->. eauto. }
  destruct (_ !! sourceAccountID t) as [rs|] eqn:Es; [|done]. case_bool_decide as Ho; [|done]. cbn [negb] in HR.
  destruct (_ !! destinationAccountID t) as [rd|] eqn:Ed; [|done].
  destruct (check_account t rs) as [[]|] eqn:E1; [|done]. cbn in HR.
  apply check_account_Ok in E1 as (? & ? & ?), HR as (? & ? & ?).
  apply (Hrec _ source) in Es as (acc & wal & ? & ? & ->); [|done].
  apply (Hrec _ destination) in Ed as (acc' & wal' & ? & ? & ->); [|done].
  cbn in *. split; [exists acc, wal|exists acc', wal']; by split_and!.
Qed.

(** ** Preparation *)

Definition transfer_typed (t : Transfer) : Prop := in_int64 (minorUnits (transfer_amount t)).

Lemma NewTransfer_wf p t : in_int64 (minorUnits (tp_Amount p)) -> NewTransfer p = Ok t -> transfer_wf t.
Proof. intros Hi (-> & Hv)%NewTransfer_Ok. by split_and!. Qed.

(** The identifiers of a prepared transfer are those of its texts. *)
Definition ids_of (t : Transfer) (id requester source destination : UUID) : Prop :=
  uuid_text id = transfer_id t /\ uuid_text requester = requesterID t /\
  uuid_text source = sourceAccountID t /\ uuid_text destination = destinationAccountID t.

Lemma parseUUID_Ok_text v u : isCanonicalUUID v = true -> parseUUID v = Ok u -> uuid_text u = v.
Proof. intros (u' & E & Ht)%uuid_scan_canonical. unfold parseUUID. rewrite E. by intros [= <-]. Qed.

Lemma prepareTransfer_Ok t p :
  transfer_typed t -> prepareTransfer t = Ok p ->
  NewTransfer (params_of t) = Ok (pt_transfer p) /\ transfer_wf (pt_transfer p) /\
  ids_of (pt_transfer p) (pt_id p) (pt_requesterID p) (pt_sourceID p) (pt_destinationID p) /\
  pt_entry p = transfer_entry (pt_transfer p) (requestedAt (pt_transfer p)) /\
  Completed (pt_transfer p) = Ok (completedEvent p).
Proof.
  intros Hi. unfold prepareTransfer. destruct (NewTransfer (params_of t)) as [v|] eqn:Ev; [|done]. cbn.
  pose proof (NewTransfer_wf (params_of t) _ Hi Ev) as Hw. pose proof Hw as ((? & _ & ? & ? & ? & _)%transfer_validate_Ok & _).
  destruct (parseUUID (transfer_id v)) eqn:E1; [|done]. cbn. destruct (parseUUID (requesterID v)) eqn:E2; [|done]. cbn.
  destruct (parseUUID (sourceAccountID v)) eqn:E3; [|done]. cbn.
  destruct (parseUUID (destinationAccountID v)) eqn:E4; [|done]. cbn.
  rewrite transfer_entry_ok by done. cbn. destruct (Completed v) eqn:E5; [|done]. cbn. intros [= <-]. cbn.
  split_and!; try done. split_and!; by apply parseUUID_Ok_text.
Qed.

Lemma preparePending_Ok l p :
  transfer_typed (lc_transfer l) -> UTC (requestedAt (lc_transfer l)) = requestedAt (lc_transfer l) ->
  in_int64 (lc_version l) -> preparePendingTransfer l = Ok p ->
  lifecycle_wf (pq_lifecycle p) /\ lc_transfer (pq_lifecycle p) = lc_transfer l /\
  lc_status (pq_lifecycle p) = StatusPendingRisk /\
  ids_of (lc_transfer l) (pq_id p) (pq_requesterID p) (pq_sourceID p) (pq_destinationID p) /\
  Requested (pq_lifecycle p) = Ok (requestedEvent p).
Proof.
  intros Hi Hu Hv. unfold preparePendingTransfer, NewLifecycle.
  cbn [lp_Transfer lp_Status lp_Version lp_RiskPolicyVersion lp_JournalEntryID lp_FailureReason].
  set (v := mkLifecycle _ _ _ _ _ _). destruct (lifecycle_validate v) as [[]|] eqn:Ev; [|done]. cbn [wrap_err mbind Result_bind].
  pose proof Ev as (Ht & _)%lifecycle_validate_Ok.
  pose proof Ht as (? & _ & ? & ? & ? & _)%transfer_validate_Ok. cbn in *.
  case_bool_decide as Hs; [|done]. cbn.
  destruct (parseUUID (transfer_id _)) eqn:E1; [|done]. cbn. destruct (parseUUID (requesterID _)) eqn:E2; [|done]. cbn.
  destruct (parseUUID (sourceAccountID _)) eqn:E3; [|done]. cbn.
  destruct (parseUUID (destinationAccountID _)) eqn:E4; [|done]. cbn.
  destruct (Requested v) eqn:E5; [|done]. cbn. intros [= <-]. cbn.
  split_and!; try done. split_and!; by apply parseUUID_Ok_text.
Qed.

(** ** The entry of a transfer *)

Definition transfer_postings (t : Transfer) (source destination : UUID) : list preparedPosting :=
  [mkPrepared source (currency (transfer_amount t)) (- minorUnits (transfer_amount t));
   mkPrepared destination (currency (transfer_amount t)) (minorUnits (transfer_amount t))].

Lemma transfer_entry_typed t at_ : transfer_wf t -> entry_typed (transfer_entry t at_).
Proof.
  intros ((_ & _ & _ & _ & _ & _ & _ & Hp & _)%transfer_validate_Ok & Hi & _).
  apply Forall_cons_2; [cbn; int64_lia|]. by apply Forall_cons_2.
Qed.

Lemma transfer_prepared t at_ id requester source destination prepared :
  transfer_wf t -> ids_of t id requester source destination -> prepareEntry (transfer_entry t at_) = Ok prepared ->
  prepared_wf prepared /\ pe_id prepared = id /\ reversesID prepared = None /\
  pe_postings prepared = transfer_postings t source destination /\ pe_entry prepared = transfer_entry t at_.
Proof.
  intros Hw (Hid & _ & Hsrc & Hdst) Hp. pose proof Hp as (Hpw & He & Hparse & HF)%prepareEntry_Ok; [|by apply transfer_entry_typed].
  split_and!; [done| | | |done].
  - cbn in Hparse. rewrite <- Hid, parseUUID_text in Hparse. congruence.
  - unfold prepareEntry in Hp. cbn in Hp. destruct (parseUUID _); [|done]. destruct (NewJournalEntry _); [|done].
    destruct (preparePostings _) as [[]|]; [|done]. by injection Hp as <-.
  - cbn in HF. inversion HF as [|x p1 l l1 (Ha1 & Hc1 & Hm1) HF1]; subst.
    inversion HF1 as [|x p2 l l2 (Ha2 & Hc2 & Hm2) HF2]; subst. inversion HF2; subst.
    cbn in *. rewrite <- Hsrc, parseUUID_text in Ha1. rewrite <- Hdst, parseUUID_text in Ha2.
    destruct p1, p2. cbn in *. unfold transfer_postings. congruence.
Qed.

Lemma collect_changes_total (m : gmap string accountAccumulator) keys :
  (forall k, k ∈ keys -> exists v, m !! k = Some v /\ in_int64 (total v)) -> exists cs, collect_changes m keys = Ok cs.
Proof.
  induction keys as [|k keys IH]; intros Hk; cbn; [by eexists|]. destruct (Hk k) as (v & -> & Hv); [by left|].
  rewrite bool_decide_eq_true_2 by done. cbn. destruct IH as [cs ->]; [|by eexists]. intros k' Hk'. apply Hk. by right.
Qed.

(** The entry of a transfer can always be prepared. *)
Lemma transfer_prepares t at_ id requester source destination :
  transfer_wf t -> IsZero at_ = false -> ids_of t id requester source destination ->
  exists prepared, prepareEntry (transfer_entry t at_) = Ok prepared.
Proof.
  intros Hw Hat (Hid & _ & Hsrc & Hdst). pose proof (transfer_entry_wf t at_ Hw Hat) as He.
  pose proof Hw as ((Hc & _ & _ & _ & _ & Hne & _ & Hpos & _)%transfer_validate_Ok & Hi & _).
  unfold prepareEntry.
  assert (parseUUID (entry_id (transfer_entry t at_)) = Ok id) as -> by (cbn; rewrite <- Hid; apply parseUUID_text).
  unfold transfer_entry, NewJournalEntry in *. cbn [Journal.entry_id Journal.postings Journal.recordedAt entryType reversesEntryID] in *.
  rewrite newJournalEntry_complete; cbn [param_ID param_Postings param_RecordedAt]; [|rewrite canonical_trim by done; exact He].
  cbn [negb bool_decide]. rewrite bool_decide_eq_true_2 by done. cbn [negb].
  unfold preparePostings. cbn [accumulate accountID amount]. rewrite <- Hsrc, <- Hdst, !parseUUID_text.
  rewrite lookup_empty. cbn [default ac_currency ac_accountID total currency minorUnits].
  rewrite bool_decide_eq_true_2 by done. cbn [negb].
  rewrite lookup_insert_ne by (rewrite Hsrc, Hdst; done). rewrite lookup_empty. cbn [default ac_currency ac_accountID total].
  rewrite bool_decide_eq_true_2 by done. cbn [negb].
  set (m := <[_ := _]> (<[_ := _]> ∅)). destruct (collect_changes_total m (sort_strings (map_to_list m).*1)) as [cs ->]; [|by eexists].
  intros k Hk. unfold sort_strings in Hk. rewrite merge_sort_Permutation in Hk. apply list_elem_of_fmap in Hk as ([k' v] & -> & Hin%elem_of_map_to_list).
  exists v. split; [done|]. cbn in Hin. unfold m in Hin. rewrite lookup_insert_Some in Hin.
  destruct Hin as [[_ <-]|[_ Hin]]; [cbn; int64_lia|]. rewrite lookup_insert_Some, lookup_empty in Hin.
  destruct Hin as [[_ <-]|[_ Hin]]; [cbn; int64_lia|done].
Qed.

(** What a transfer moves on each account. *)
Lemma transfer_account_sum t source destination a :
  source <> destination ->
  account_sum a (transfer_postings t source destination) =
    (if decide (a = source) then - minorUnits (transfer_amount t) else 0) +
    (if decide (a = destination) then minorUnits (transfer_amount t) else 0).
Proof.
  intros Hne. unfold account_sum, transfer_postings. cbn [foldr pp_accountID pp_amount].
  repeat case_decide; subst; try congruence; lia.
Qed.

Lemma ids_distinct t id requester source destination :
  transfer_wf t -> ids_of t id requester source destination -> source <> destination.
Proof.
  intros ((_ & _ & _ & _ & _ & Hne & _)%transfer_validate_Ok & _) (_ & _ & Hs & Hd) ->. congruence.
Qed.

(** The stored trace of a completed transfer: its entry, a debit of the source
    and a credit of the destination. *)
Definition moved_once (d : DB) (id : UUID) (r : TransferRow) : Prop :=
  is_Some (t_entries d !! id) /\
  filter (fun p => po_entry p = id) (t_postings d) =
    [mkPostingRow id 0 (tr_source r) (tr_currency r) (- tr_amount r);
     mkPostingRow id 1 (tr_destination r) (tr_currency r) (tr_amount r)].

Lemma posted_moved_once now prepared d id t source destination r :
  ledger_keys d -> t_entries d !! id = None -> pe_id prepared = id ->
  pe_postings prepared = transfer_postings t source destination ->
  tr_source r = source -> tr_destination r = destination ->
  tr_currency r = currency_String (currency (transfer_amount t)) -> tr_amount r = minorUnits (transfer_amount t) ->
  moved_once (posted now prepared d) id r.
Proof.
  intros Hk Hf <- Hps <- <- Hc Ha. split; [cbn; by rewrite lookup_insert_eq|].
  rewrite posted_postings, filter_app, filter_fresh, filter_rows_same, Hps by done. cbn. by rewrite Hc, Ha.
Qed.

Lemma posted_keeps_moved now prepared d id r :
  pe_id prepared <> id -> moved_once d id r -> moved_once (posted now prepared d) id r.
Proof.
  intros Hne [Hs Hf]. split; [cbn; by rewrite lookup_insert_ne|].
  rewrite posted_postings, filter_app, filter_rows_other, Hf by done. done.
Qed.

Lemma moved_once_frame d d' id r : same_ledger d d' -> moved_once d id r -> moved_once d' id r.
Proof. intros [_ _ He Hp] [? ?]. split; congruence. Qed.

(** ** Creation *)

(** The transfer a row is read back as. *)
Definition restore_transfer (id : UUID) (r : TransferRow) : Result Transfer :=
  currency ← wrap_err [ErrCorruptData] (ParseCurrency (tr_currency r));
  amount ← wrap_err [ErrCorruptData] (NewMoney (tr_amount r) currency);
  wrap_err [ErrCorruptData]
    (NewTransfer (mkTransferParams (uuid_text id) (tr_key r) (uuid_text (tr_requester r))
       (uuid_text (tr_source r)) (uuid_text (tr_destination r)) amount (tr_requested_at r))).

(** The work of the bodies, before their commits. *)
Definition create_work (p : preparedTransfer) : Tx Transfer :=
  inserted ← reserveTransfer p;
  if negb inserted then
    stored ← selectTransferByKey p;
    _ ← lift (fail_if (negb (sameIntent stored (pt_transfer p))) [ErrIdempotencyConflict]);
    mret stored
  else
    _ ← authorizeAccounts p;
    _ ← map_err mapLedgerError (PostTx (pt_entry p));
    _ ← AddTx (completedEvent p);
    mret (pt_transfer p).

Definition create_pending_work (p : preparedPendingTransfer) : Tx Lifecycle :=
  inserted ← reservePendingTransfer p;
  if negb inserted then
    stored ← selectLifecycleByKey p;
    _ ← lift (fail_if (negb (sameIntent (lc_transfer stored) (lc_transfer (pq_lifecycle p)))) [ErrIdempotencyConflict]);
    mret stored
  else
    _ ← authorizePendingAccounts p;
    _ ← AddTx (requestedEvent p);
    mret (pq_lifecycle p).

Lemma create_ends p : ends (create_work p) (create_body p).
Proof. unfold create_work, create_body. ends. Qed.

Lemma create_pending_ends p : ends (create_pending_work p) (create_pending_body p).
Proof. unfold create_pending_work, create_pending_body. ends. Qed.

Lemma quiet_PostTx e : quiet (PostTx e).
Proof. unfold PostTx. pose proof quiet_postPrepared. quiet. Qed.

Lemma quiet_authorize t source destination : quiet (authorizeTransferAccounts t source destination).
Proof. unfold authorizeTransferAccounts. quiet. Qed.

Hint Resolve quiet_PostTx quiet_authorize : wallet.

Lemma quiet_create_work p : quiet (create_work p).
Proof. unfold create_work, reserveTransfer, selectTransferByKey, authorizeAccounts. quiet. Qed.

Lemma quiet_create_pending_work p : quiet (create_pending_work p).
Proof. unfold create_pending_work, reservePendingTransfer, selectLifecycleByKey, authorizePendingAccounts. quiet. Qed.

(** A transfer that is created: the key and the identifier are new, the
    accounts authorize it, and its row, its entry and its event are added. *)
Record created (p : preparedTransfer) (d d' : DB) : Prop := {
  cr_key : key_free (pt_requesterID p) (idempotencyKey (pt_transfer p)) d;
  cr_id : t_transfers d !! pt_id p = None;
  cr_checks : transfer_checks (pt_id p) (created_row p) = Ok tt;
  cr_authorized : authorized d (pt_transfer p) (pt_sourceID p) (pt_destinationID p);
  cr_posted : exists prepared now, prepareEntry (pt_entry p) = Ok prepared /\ postable d prepared /\
    event_added (completedEvent p) (posted now prepared (set_transfers (insert (pt_id p) (created_row p)) d)) d'
}.

(** A request that repeats a stored one. *)
Definition replayed (p : preparedTransfer) (d : DB) (t : Transfer) : Prop :=
  exists id r, transfer_by_key (pt_requesterID p) (idempotencyKey (pt_transfer p)) d = Some (id, r) /\
    restore_transfer id r = Ok t /\ sameIntent t (pt_transfer p) = true.

(** A transfer that is accepted for assessment: its row and its event are added
    and no money moves. *)
Record accepted (p : preparedPendingTransfer) (d d' : DB) : Prop := {
  ac_key : key_free (pq_requesterID p) (idempotencyKey (lc_transfer (pq_lifecycle p))) d;
  ac_id : t_transfers d !! pq_id p = None;
  ac_checks : transfer_checks (pq_id p) (pending_row p) = Ok tt;
  ac_authorized : authorized d (lc_transfer (pq_lifecycle p)) (pq_sourceID p) (pq_destinationID p);
  ac_event : event_added (requestedEvent p) (set_transfers (insert (pq_id p) (pending_row p)) d) d'
}.

Definition replayed_pending (p : preparedPendingTransfer) (d : DB) (l : Lifecycle) : Prop :=
  exists id r, transfer_by_key (pq_requesterID p) (idempotencyKey (lc_transfer (pq_lifecycle p))) d = Some (id, r) /\
    record_lifecycle (scan_lifecycle id r) = Ok l /\ sameIntent (lc_transfer l) (lc_transfer (pq_lifecycle p)) = true.

Lemma PostTx_Ok e s st st' :
  entry_typed e -> balances_typed (tx_db st) -> tx_open st -> PostTx e s st = (Ok tt, st') ->
  exists prepared, prepareEntry e = Ok prepared /\ postable (tx_db st) prepared /\ tx_open st' /\
    tx_now st' = tx_now st /\ tx_db st' = posted (tx_now st) prepared (tx_db st).
Proof.
  intros He Ht Ho HR. unfold PostTx in HR. apply mbind_Ok in HR as (prepared & st1 & HL & HP).
  apply lift_Ok in HL as [Hp ->]. apply map_err_Ok in HP.
  apply postPrepared_Ok in HP as (? & ? & ? & ?); [|by apply prepareEntry_Ok in Hp as [? _]|done|done].
  exists prepared. done.
Qed.

Lemma create_work_Ok p t s st st' :
  ids_of (pt_transfer p) (pt_id p) (pt_requesterID p) (pt_sourceID p) (pt_destinationID p) ->
  entry_typed (pt_entry p) -> balances_typed (tx_db st) -> create_work p s st = (Ok t, st') ->
  replayed p (tx_db st) t /\ tx_db st' = tx_db st \/ t = pt_transfer p /\ created p (tx_db st) (tx_db st').
Proof.
  intros (_ & _ & Hsrc & Hdst) He Ht HR. unfold create_work, reserveTransfer in HR.
  apply mbind_Ok in HR as (b & st1 & HI & HR). apply exec_Ok in HI as (d1 & Ho & HI & ->).
  apply (insert_transfer_row_Ok (pt_id p) (created_row p) (tx_now st)) in HI as [Hck HI].
  destruct b; cbn [negb] in HR.
  - right. destruct HI as (Hkey & Hid & ->). apply mbind_Ok in HR as ([] & st2 & HA & HR).
    apply authorize_Ok in HA as [HA ->]; [|done..]. cbn [tx_db advance] in HA.
    apply mbind_Ok in HR as ([] & st3 & HP & HR). apply map_err_Ok in HP.
    apply PostTx_Ok in HP as (prepared & Hp & Hpost & Ho3 & Hn3 & Hd3); [|done..].
    apply mbind_Ok in HR as (env & st4 & HE & HR). apply AddTx_adds in HE as (HE & _ & _).
    injection HR as <- <-. split; [done|]. split; try done. exists prepared, (tx_now st). split_and!; [done| |].
    + destruct Hpost. by split.
    + by rewrite Hd3 in HE.
  - left. destruct HI as [Hk ->]. unfold selectTransferByKey in HR. apply mbind_Ok in HR as (t0 & st2 & HS & HR).
    apply mbind_Ok in HS as (found & st3 & HQ & HS). apply query_Ok in HQ as (_ & [= <-] & ->).
    apply lift_Ok in HS as [HS ->]. cbn [tx_db advance] in HS.
    apply mbind_Ok in HR as (u & st4 & HF & HR). apply lift_Ok in HF as [HF ->]. injection HR as <- <-.
    split; [|done]. destruct (transfer_by_key _ _ _) as [[id r]|] eqn:Ek; [|done].
    exists id, r. split_and!; [done|exact HS|]. by destruct (sameIntent _ _).
Qed.

Lemma create_pending_work_Ok p l s st st' :
  ids_of (lc_transfer (pq_lifecycle p)) (pq_id p) (pq_requesterID p) (pq_sourceID p) (pq_destinationID p) ->
  create_pending_work p s st = (Ok l, st') ->
  replayed_pending p (tx_db st) l /\ tx_db st' = tx_db st \/ l = pq_lifecycle p /\ accepted p (tx_db st) (tx_db st').
Proof.
  intros (_ & _ & Hsrc & Hdst) HR. unfold create_pending_work, reservePendingTransfer in HR.
  apply mbind_Ok in HR as (b & st1 & HI & HR). apply exec_Ok in HI as (d1 & Ho & HI & ->).
  apply (insert_transfer_row_Ok (pq_id p) (pending_row p) (tx_now st)) in HI as [Hck HI].
  destruct b; cbn [negb] in HR.
  - right. destruct HI as (Hkey & Hid & ->). apply mbind_Ok in HR as ([] & st2 & HA & HR).
    apply authorize_Ok in HA as [HA ->]; [|done..]. cbn [tx_db advance] in HA.
    apply mbind_Ok in HR as (env & st4 & HE & HR). apply AddTx_adds in HE as (HE & _ & _).
    injection HR as <- <-. split; [done|]. by split.
  - left. destruct HI as [Hk ->]. unfold selectLifecycleByKey in HR. apply mbind_Ok in HR as (t0 & st2 & HS & HR).
    apply mbind_Ok in HS as (found & st3 & HQ & HS). apply query_Ok in HQ as (_ & [= <-] & ->).
    apply lift_Ok in HS as [HS ->]. cbn [tx_db advance] in HS.
    apply mbind_Ok in HR as (u & st4 & HF & HR). apply lift_Ok in HF as [HF ->]. injection HR as <- <-.
    split; [|done]. destruct (transfer_by_key _ _ _) as [[id r]|] eqn:Ek; [|done].
    exists id, r. split_and!; [done|exact HS|]. by destruct (sameIntent _ _).
Qed.

(** ** The retry loop *)

(** A predicate on (result, tables before, tables after) that one attempt
    establishes is established by the loop, with the failures of the loop that
    leave the tables alone. *)
Lemma create_attempts_spec {A} (once : Service -> World -> Result A * World)
    (P : DB -> A -> DB -> Prop) left lastErr s w r w' :
  (forall w1 r1 w2, once s w1 = (r1, w2) ->
     match r1 with
     | Ok a => P (committed w1) a (committed w2)
     | Err e => committed w2 = committed w1 \/ e = [Other "connection"] /\ exists a, P (committed w1) a (committed w2)
     end) ->
  create_attempts left once lastErr s w = (r, w') ->
  match r with
  | Ok a => P (committed w) a (committed w')
  | Err e => committed w' = committed w \/ e = [Other "connection"] /\ exists a, P (committed w) a (committed w')
  end.
Proof.
  intros Honce. revert lastErr w. induction left as [|left IH]; intros lastErr w; cbn [create_attempts].
  - intros [= <- <-]. by left.
  - destruct (cancelled s (tick w)); [intros [= <- <-]; by left|].
    destruct (once s w) as [r1 w1] eqn:E1. apply Honce in E1. destruct r1 as [a|e]; [by intros [= <- <-]|].
    destruct (isRetryableTransaction e) eqn:Er.
    + intros HR. apply IH in HR. destruct E1 as [E1|(-> & _)]; [by rewrite E1 in HR|discriminate Er].
    + intros [= <- <-]. destruct E1 as [->|(-> & Ha)]; [by left|by right].
Qed.

End Spec.

#[export] Hint Resolve quiet_postPrepared quiet_PostTx quiet_authorize : wallet.
