(* ===== verification/TransferStore.v ===== *)
(** * Lifecycle transitions in the database

    [internal/transfer/postgres/risk_assessment.go]: loading a lifecycle under
    its row lock, storing a risk assessment with the transition it causes,
    deciding a review case, and storing the terminal transitions. *)

From stdpp Require Import base list gmap strings numbers sorting.
From Stdlib Require Import ZArith Lia.
From S2P Require Import Prelude GoText Money Journal TransferDomain RiskPolicy Json GoTime Event.
From S2P Require Import TransferEvents Database LedgerRepo Outbox TransferRepo.

Open Scope string_scope.
Open Scope Z_scope.

Section Store.
Context `{Pg}.

(** ** SQL statements *)

(** The row with a textual identifier, as the server reads it. *)
Definition select_by_id (transferID : string) (d : DB) : Result (option (UUID * TransferRow)) :=
  match uuid_scan transferID with
  | None => Err invalid_text
  | Some id => Ok ((fun r => (id, r)) <$> t_transfers d !! id)
  end.

(** An UPDATE of one transfer guarded by its status and version: the number of
    affected rows. *)
Definition update_transfer (transferID : string) (fromStatus : string) (fromVersion : Z)
    (change : TransferRow -> TransferRow) (_ : Time) (d : DB) : Result (Z * DB) :=
  match uuid_scan transferID with
  | None => Err invalid_text
  | Some id =>
      match t_transfers d !! id with
      | None => Ok (0, d)
      | Some r =>
          if negb (bool_decide (tr_status r = fromStatus) && (tr_version r =? fromVersion)) then Ok (0, d)
          else match transfer_checks id (change r) with
          | Err e => Err e
          | Ok _ => Ok (1, set_transfers (insert id (change r)) d)
          end
      end
  end.

Definition with_status (status : string) (version : Z) (r : TransferRow) : TransferRow :=
  mkTransferRow (tr_requester r) (tr_key r) (tr_source r) (tr_destination r) (tr_currency r) (tr_amount r)
    (tr_requested_at r) status version (tr_policy r) (tr_journal r) (tr_failure r).

Definition with_outcome (status : string) (version : Z) (journal : option UUID) (failure : option string)
    (r : TransferRow) : TransferRow :=
  mkTransferRow (tr_requester r) (tr_key r) (tr_source r) (tr_destination r) (tr_currency r) (tr_amount r)
    (tr_requested_at r) status version (tr_policy r) journal failure.

(** [insertRiskAssessmentQuery] with the constraints of
    [transfer_risk_assessments]. *)
Definition insertRiskAssessmentQuery (transferID : string) (version : Z) (causation : UUID) (policy input : string)
    (score : Z) (decision signals : string) (at_ : Time) (_ : Time) (d : DB) : Result (unit * DB) :=
  match uuid_scan transferID, stored_json input, stored_json signals with
  | Some id, Some input', Some signals' =>
      if negb (bool_decide (decision ∈ ["approve"; "review"; "decline"]))
      then Err (check_violation "transfer_risk_assessments_decision_check")
      else if 65536 <? len input' then Err (check_violation "transfer_risk_assessments_input_check")
      else if version <? 2 then Err (check_violation "transfer_risk_assessments_lifecycle_version_check")
      else if negb (visible_check 64 policy) then Err (check_violation "transfer_risk_assessments_policy_version_check")
      else if negb ((0 <=? score) && (score <=? 1000)) then Err (check_violation "transfer_risk_assessments_score_check")
      else if 65536 <? len signals' then Err (check_violation "transfer_risk_assessments_signals_check")
      else if existsb (fun a => bool_decide (as_causation a = causation)) (t_assessments d)
      then Err (unique_violation "transfer_risk_assessments_causation_event_key")
      else if existsb (fun a => bool_decide (as_transfer a = id) && (as_version a =? version)) (t_assessments d)
      then Err (unique_violation "transfer_risk_assessments_transfer_lifecycle_key")
      else if bool_decide (t_transfers d !! id = None)
      then Err (foreign_key_violation "transfer_risk_assessments_transfer_fkey")
      else Ok (tt, set_assessments (fun l => l ++
        [mkAssessmentRow id version causation policy input' score decision signals' (stored_time at_)])%list d)
  | None, _, _ => Err invalid_text
  | _, _, _ => Err [Postgres (mkPgError "22P05" "")]
  end.

(** [insertReviewCaseQuery] with the constraints of [transfer_review_cases]. *)
Definition insertReviewCaseQuery (transferID : string) (version : Z) (at_ : Time) (_ : Time) (d : DB)
    : Result (unit * DB) :=
  match uuid_scan transferID with
  | None => Err invalid_text
  | Some id =>
      if version <? 2 then Err (check_violation "transfer_review_cases_assessment_version_check")
      else if negb (bool_decide (t_reviews d !! id = None))
      then Err (unique_violation "transfer_review_cases_transfer_key")
      else if negb (existsb (fun a => bool_decide (as_transfer a = id) && (as_version a =? version)) (t_assessments d))
      then Err (foreign_key_violation "transfer_review_cases_assessment_fkey")
      else Ok (tt, set_reviews (insert id (mkReviewRow version "open" (stored_time at_) None None None)) d)
  end.

(** [decideReviewCaseQuery]: the number of affected rows. *)
Definition decideReviewCaseQuery (transferID decision subject : string) (at_ : Time) (_ : Time) (d : DB)
    : Result (Z * DB) :=
  match uuid_scan transferID with
  | None => Err invalid_text
  | Some id =>
      match t_reviews d !! id with
      | None => Ok (0, d)
      | Some r =>
          if negb (bool_decide (rv_status r = "open")) then Ok (0, d)
          else if negb ((bool_decide (decision = "approved") || bool_decide (decision = "declined")) &&
                        visible_check 128 subject)
          then Err (check_violation "transfer_review_cases_decision_check")
          else Ok (1, set_reviews (insert id
                 (mkReviewRow (rv_version r) decision (rv_opened_at r) (Some decision) (Some subject)
                    (Some (stored_time at_)))) d)
      end
  end.

(** ** Operations *)

Definition LoadLifecycleForUpdateTx (transferID : string) : Tx Lifecycle :=
  _ ← lift (wrap_err [ErrInvalidArgument] (parseUUID transferID));
  found ← query (select_by_id transferID);
  lift (match found with
        | None => Err [ErrNotFound]
        | Some (id, r) => record_lifecycle (scan_lifecycle id r)
        end).

Definition DecideReviewCaseTx (transferID decision subject : string) (decidedAt : Time) : Tx unit :=
  _ ← lift (wrap_err [ErrInvalidArgument] (parseUUID transferID));
  _ ← lift (fail_if ((negb (bool_decide (decision = "approved")) && negb (bool_decide (decision = "declined"))) ||
                     bool_decide (subject = "")) [ErrInvalidArgument]);
  affected ← exec (decideReviewCaseQuery transferID decision subject (UTC decidedAt));
  lift (fail_if (negb (affected =? 1)) [ErrStateConflict]).

(** The input and the signals as they are stored. *)
Definition input_json (input : Input) : string :=
  marshal (VObject [("amount_minor", VInt (minorUnits (in_Amount input)));
                    ("currency", VString (currency_String (currency (in_Amount input))));
                    ("velocity_transfer_count", VInt (VelocityTransferCount input));
                    ("velocity_degraded", VBool (VelocityDegraded input))]).

Definition signals_json (evaluation : Evaluation) : string :=
  marshal (VArray (signal_value <$> signals evaluation)).

Definition prepareRiskAssessment (previous next : Lifecycle) (input : Input) (evaluation : Evaluation)
    (causationEventID : string) (assessedAt : Time) : Result (string * string * UUID) :=
  match parseUUID causationEventID with
  | Err e => Err (ErrInvalidArgument :: e)
  | Ok causationID =>
      if IsZero assessedAt || negb (bool_decide (lc_status previous = StatusPendingRisk)) ||
         negb (bool_decide (transfer_id (lc_transfer previous) = transfer_id (lc_transfer next))) ||
         negb (bool_decide (in_Amount input = transfer_amount (lc_transfer previous))) ||
         (VelocityTransferCount input <? 0) ||
         negb (bool_decide (riskPolicyVersion previous = riskPolicyVersion next)) ||
         negb (lc_version next =? i64_add (lc_version previous) 1) ||
         negb (bool_decide (eval_policyVersion evaluation = riskPolicyVersion previous)) ||
         negb (matchesRiskDecision (lc_status next) (decision evaluation))
      then Err [ErrInvalidArgument]
      else Ok (input_json input, signals_json evaluation, causationID)
  end.

Definition StoreRiskAssessmentTx (previous next : Lifecycle) (input : Input) (evaluation : Evaluation)
    (causationEventID : string) (assessedAt : Time) : Tx unit :=
  prepared ← lift (prepareRiskAssessment previous next input evaluation causationEventID assessedAt);
  let '(encodedInput, signals, causationID) := prepared in
  let id := transfer_id (lc_transfer previous) in
  affected ← exec (update_transfer id (status_String (lc_status previous)) (lc_version previous)
                     (with_status (status_String (lc_status next)) (lc_version next)));
  _ ← lift (fail_if (negb (affected =? 1)) [ErrStateConflict]);
  _ ← exec (insertRiskAssessmentQuery id (lc_version next) causationID (eval_policyVersion evaluation) encodedInput
              (score evaluation) (decision_String (decision evaluation)) signals (UTC assessedAt));
  if bool_decide (lc_status next = StatusReviewRequired)
  then exec (insertReviewCaseQuery id (lc_version next) (UTC assessedAt))
  else mret tt.

(** [NULLIF(value, '')]. *)
Definition nullif_empty (value : string) : option string :=
  if bool_decide (value = "") then None else Some value.

(** The journal reference of the transition as the server reads it. *)
Definition StoreLifecycleTransitionTx (previous next : Lifecycle) : Tx unit :=
  affected ← exec (fun now d =>
    match scan_optional (nullif_empty (journalEntryID next)) with
    | None => Err invalid_text
    | Some journal =>
        update_transfer (transfer_id (lc_transfer previous)) (status_String (lc_status previous))
          (lc_version previous)
          (with_outcome (status_String (lc_status next)) (lc_version next) journal (nullif_empty (failureReason next)))
          now d
    end);
  lift (fail_if (negb (affected =? 1)) [ErrStateConflict]).

End Store.
