(* ===== verification/StoreSpec.v ===== *)
(** * What the lifecycle statements do to the tables

    Loading a stored lifecycle and writing its transitions: the rows that
    [LoadLifecycleForUpdateTx], [StoreRiskAssessmentTx], [DecideReviewCaseTx] and
    [StoreLifecycleTransitionTx] read and leave, when they succeed. *)

From stdpp Require Import base list gmap strings numbers sorting.
From Stdlib Require Import ZArith Lia.
From S2P Require Import Prelude GoText Money Journal TransferDomain RiskPolicy Json GoTime Event.
From S2P Require Import TransferEvents Database LedgerRepo LedgerSpec LedgerCorrect Outbox TransferRepo.
From S2P Require Import TransferSpec TransferStore.

Open Scope string_scope.
Open Scope Z_scope.

Section Store.
Context `{PgLaws}.

(** ** Loading *)

(** A row and the lifecycle it is read as. *)
Record represents (id : UUID) (r : TransferRow) (l : Lifecycle) : Prop := {
  rp_id : transfer_id (lc_transfer l) = uuid_text id;
  rp_requester : requesterID (lc_transfer l) = uuid_text (tr_requester r);
  rp_source : sourceAccountID (lc_transfer l) = uuid_text (tr_source r);
  rp_destination : destinationAccountID (lc_transfer l) = uuid_text (tr_destination r);
  rp_currency : currency_String (currency (transfer_amount (lc_transfer l))) = tr_currency r;
  rp_amount : minorUnits (transfer_amount (lc_transfer l)) = tr_amount r;
  rp_time : requestedAt (lc_transfer l) = UTC (tr_requested_at r);
  rp_status : status_String (lc_status l) = tr_status r;
  rp_version : lc_version l = tr_version r;
  rp_policy : riskPolicyVersion l = TrimSpace (nullableValue (tr_policy r));
  rp_valid : lifecycle_validate l = Ok tt
}.

Lemma lifecycleStatus_String value st : lifecycleStatus value = (st, true) -> status_String st = value.
Proof. unfold lifecycleStatus. repeat case_bool_decide; intros [= <-]; done. Qed.

Lemma lifecycleStatus_inverse st : st <> StatusUnknown -> lifecycleStatus (status_String st) = (st, true).
Proof. by destruct st. Qed.

Lemma record_lifecycle_Ok id r l :
  record_lifecycle (scan_lifecycle id r) = Ok l -> represents id r l.
Proof.
  unfold record_lifecycle, scan_lifecycle. cbn [lr_currencyCode lr_amountMinor lr_id lr_idempotencyKey lr_requesterID
    lr_sourceAccountID lr_destinationAccountID lr_requestedAt lr_status lr_version lr_riskPolicyVersion
    lr_journalEntryID lr_failureReason].
  destruct (ParseCurrency _) as [cur|] eqn:Ec; [|done]. cbn [wrap_err mbind Result_bind].
  destruct (NewMoney _ _) as [amount|] eqn:Em; [|done]. cbn [wrap_err mbind Result_bind].
  destruct (NewTransfer _) as [t|] eqn:Et; [|done]. cbn [wrap_err mbind Result_bind].
  destruct (lifecycleStatus _) as [st ok] eqn:Es. destruct ok; [|done]. cbn [negb fail_if mbind Result_bind].
  unfold NewLifecycle. cbn [lp_Transfer lp_Status lp_Version lp_RiskPolicyVersion lp_JournalEntryID lp_FailureReason].
  destruct (lifecycle_validate _) as [[]|] eqn:Ev; [|done]. cbn. intros [= <-].
  apply ParseCurrency_valid in Ec as [_ Ec]. apply NewMoney_Ok in Em as [_ ->]. apply NewTransfer_Ok in Et as [-> _].
  cbn [tp_ID tp_IdempotencyKey tp_RequesterID tp_SourceAccountID tp_DestinationAccountID tp_Amount tp_RequestedAt] in *.
  rewrite !canonical_normalize in Ev |- * by apply uuid_text_canonical.
  apply lifecycleStatus_String in Es. by split.
Qed.

Lemma represents_wf id r l :
  in_int64 (tr_amount r) -> in_int64 (tr_version r) -> represents id r l -> lifecycle_wf l.
Proof.
  intros Ha Hv [? ? ? ? ? Ham Ht ? Hver ? Hval]. pose proof Hval as (? & _)%lifecycle_validate_Ok.
  split; [done|]. split; [split; [done|split; [by rewrite Ham|by rewrite Ht]]|by rewrite Hver].
Qed.

Lemma represents_ids id r l :
  represents id r l -> ids_of (lc_transfer l) id (tr_requester r) (tr_source r) (tr_destination r).
Proof. intros [H1 H2 H3 H4 _ _ _ _ _ _ _]. by split_and!. Qed.

Lemma LoadLifecycle_Ok transferID s st l st' :
  LoadLifecycleForUpdateTx transferID s st = (Ok l, st') ->
  exists id r, uuid_scan transferID = Some id /\ t_transfers (tx_db st) !! id = Some r /\ represents id r l /\
    tx_open st /\ st' = advance st (tx_db st).
Proof.
  unfold LoadLifecycleForUpdateTx. intros HR. apply mbind_Ok in HR as (u & st1 & [_ ->]%lift_Ok & HR).
  apply mbind_Ok in HR as (found & st2 & HQ & HR). apply query_Ok in HQ as (Ho & HQ & ->).
  apply lift_Ok in HR as [HR ->]. unfold select_by_id in HQ. destruct (uuid_scan transferID) as [id|]; [|done].
  injection HQ as <-. destruct (t_transfers _ !! id) as [r|] eqn:Er; [|done]. cbn in HR.
  apply record_lifecycle_Ok in HR. exists id, r. done.
Qed.

(** ** Transitions *)

Lemma update_transfer_Ok transferID status version change now d n d' :
  update_transfer transferID status version change now d = Ok (n, d') -> n = 1 ->
  exists id r, uuid_scan transferID = Some id /\ t_transfers d !! id = Some r /\ tr_status r = status /\
    tr_version r = version /\ transfer_checks id (change r) = Ok tt /\ d' = set_transfers (insert id (change r)) d.
Proof.
  unfold update_transfer. destruct (uuid_scan transferID) as [id|]; [|done].
  destruct (t_transfers d !! id) as [r|] eqn:Er; [|by intros [= <-]].
  case_bool_decide as Hs; [|by intros [= <-]]. destruct (Z.eqb_spec (tr_version r) version); [|by intros [= <-]]. cbn [andb negb].
  destruct (transfer_checks id (change r)) as [[]|] eqn:Ec; [|done]. intros [= <- <-] _. exists id, r. done.
Qed.

Definition journal_of (l : Lifecycle) : option (option UUID) := scan_optional (nullif_empty (journalEntryID l)).

Lemma StoreTransition_Ok prev next s st st' :
  StoreLifecycleTransitionTx prev next s st = (Ok tt, st') ->
  exists id r journal, uuid_scan (transfer_id (lc_transfer prev)) = Some id /\ t_transfers (tx_db st) !! id = Some r /\
    tr_status r = status_String (lc_status prev) /\ tr_version r = lc_version prev /\ journal_of next = Some journal /\
    let r' := with_outcome (status_String (lc_status next)) (lc_version next) journal (nullif_empty (failureReason next)) r in
    transfer_checks id r' = Ok tt /\ st' = advance st (set_transfers (insert id r') (tx_db st)).
Proof.
  unfold StoreLifecycleTransitionTx. intros HR. apply mbind_Ok in HR as (n & st1 & HU & HR).
  apply exec_Ok in HU as (d & _ & HU & ->). apply lift_Ok in HR as [HR ->].
  fold (journal_of next) in HU. destruct (journal_of next) as [journal|] eqn:Ej; [|done].
  destruct (Z.eqb_spec n 1) as [E|]; [|done]. apply update_transfer_Ok in HU as (id & r & ? & ? & ? & ? & ? & ->); [|done].
  exists id, r, journal. done.
Qed.

Definition assessment_row (id : UUID) (next : Lifecycle) (causation : UUID) (ev : Evaluation)
    (input signals : string) (at_ : Time) : AssessmentRow :=
  mkAssessmentRow id (lc_version next) causation (eval_policyVersion ev) input (score ev)
    (decision_String (decision ev)) signals (stored_time (UTC at_)).

Definition review_row (next : Lifecycle) (at_ : Time) : ReviewRow :=
  mkReviewRow (lc_version next) "open" (stored_time (UTC at_)) None None None.

(** The tables after a stored assessment. *)
Definition assessed (id : UUID) (r : TransferRow) (next : Lifecycle) (row : AssessmentRow) (at_ : Time) (d : DB) : DB :=
  let d1 := set_assessments (fun l => l ++ [row])%list
    (set_transfers (insert id (with_status (status_String (lc_status next)) (lc_version next) r)) d) in
  if decide (lc_status next = StatusReviewRequired) then set_reviews (insert id (review_row next at_)) d1 else d1.

Lemma StoreAssessment_Ok prev next input ev causation at_ s st st' :
  StoreRiskAssessmentTx prev next input ev causation at_ s st = (Ok tt, st') ->
  exists id r cause row, uuid_scan (transfer_id (lc_transfer prev)) = Some id /\ uuid_scan causation = Some cause /\
    t_transfers (tx_db st) !! id = Some r /\ tr_status r = "pending_risk" /\ tr_version r = lc_version prev /\
    transfer_checks id (with_status (status_String (lc_status next)) (lc_version next) r) = Ok tt /\
    (exists i sg, row = assessment_row id next cause ev i sg at_) /\ 2 <= lc_version next /\
    Forall (fun a => ~ (as_transfer a = id /\ as_version a = lc_version next)) (t_assessments (tx_db st)) /\
    (lc_status next = StatusReviewRequired -> t_reviews (tx_db st) !! id = None) /\
    tx_open st' /\ tx_now st' = tx_now st /\ tx_db st' = assessed id r next row at_ (tx_db st).
Proof.
  unfold StoreRiskAssessmentTx. intros HR. apply mbind_Ok in HR as ([[inj sgj] cause] & st1 & HP & HR).
  apply lift_Ok in HP as [HP ->]. apply mbind_Ok in HR as (n & st2 & HU & HR). apply exec_Ok in HU as (d & _ & HU & ->).
  apply mbind_Ok in HR as (u & st3 & HF & HR). apply lift_Ok in HF as [HF ->].
  destruct (Z.eqb_spec n 1) as [E|]; [|done]. apply update_transfer_Ok in HU as (id & r & Hid & Hr & Hs & Hv & Hck & ->); [|done].
  apply mbind_Ok in HR as ([] & st4 & HI & HR). apply exec_Ok in HI as (d2 & _ & HI & ->).
  unfold prepareRiskAssessment, parseUUID in HP. destruct (uuid_scan causation) as [c|] eqn:Ec; [|done].
  destruct (_ || _) eqn:Eg in HP; [done|]. injection HP as <- <- <-. rewrite !orb_false_iff in Eg.
  destruct Eg as ((((((((_ & Hpend) & _) & _) & _) & _) & _) & _) & _). bool_simpl.
  rewrite Hpend in Hs. cbn in Hs.
  unfold insertRiskAssessmentQuery in HI. rewrite Hid in HI.
  destruct (stored_json _) as [i|]; [|done]. destruct (stored_json _) as [sg|]; [|done].
  repeat match type of HI with (if ?b then _ else _) = _ => destruct b eqn:?; [done|] end.
  injection HI as <-. cbn [t_assessments set_transfers tx_db advance] in *.
  exists id, r, c, (assessment_row id next c ev i sg at_).
  assert (Hver : 2 <= lc_version next) by (destruct (Z.ltb_spec (lc_version next) 2); done).
  assert (Hnew : Forall (fun a => ~ (as_transfer a = id /\ as_version a = lc_version next)) (t_assessments (tx_db st))).
  { apply Forall_forall. intros a Ha [Ht Hav].
    match goal with H : existsb (fun a => bool_decide (as_transfer a = id) && _) _ = false |- _ => rename H into Hex end.
    apply not_true_iff_false in Hex. apply Hex, existsb_exists. exists a.
    split; [by apply list_elem_of_In|]. rewrite bool_decide_eq_true_2 by done. cbn. by apply Z.eqb_eq. }
  assert (Hrest : (lc_status next = StatusReviewRequired -> t_reviews (tx_db st) !! id = None) /\ tx_open st' /\
    tx_now st' = tx_now st /\ tx_db st' = assessed id r next (assessment_row id next c ev i sg at_) at_ (tx_db st)).
  { unfold assessed. destruct (decide (lc_status next = StatusReviewRequired)) as [Hrv|Hrv].
    - rewrite bool_decide_eq_true_2 in HR by done. apply exec_Ok in HR as (d3 & _ & HR & ->). unfold insertReviewCaseQuery in HR. rewrite Hid in HR.
      repeat match type of HR with (if ?b then _ else _) = _ => destruct b eqn:?; [done|] end. injection HR as <-.
      split_and!; try done. intros _.
      match goal with H : negb (bool_decide (_ = None)) = false |- _ => apply negb_false_iff, bool_decide_eq_true in H; exact H end.
    - rewrite bool_decide_eq_false_2 in HR by done. injection HR as <-. done. }
  destruct Hrest as (? & ? & ? & ?). split_and!; try done. by exists i, sg.
Qed.

(** A decided case. *)
Definition decided_row (decision subject : string) (at_ : Time) (rv : ReviewRow) : ReviewRow :=
  mkReviewRow (rv_version rv) decision (rv_opened_at rv) (Some decision) (Some subject) (Some (stored_time (UTC at_))).

Lemma DecideReview_Ok transferID decision subject at_ s st st' :
  DecideReviewCaseTx transferID decision subject at_ s st = (Ok tt, st') ->
  exists id rv, uuid_scan transferID = Some id /\ t_reviews (tx_db st) !! id = Some rv /\ rv_status rv = "open" /\
    (decision = "approved" \/ decision = "declined") /\ visible_check 128 subject = true /\
    st' = advance st (set_reviews (insert id (decided_row decision subject at_ rv)) (tx_db st)).
Proof.
  unfold DecideReviewCaseTx. intros HR. apply mbind_Ok in HR as (u & st1 & [_ ->]%lift_Ok & HR).
  apply mbind_Ok in HR as (u' & st1 & [HF ->]%lift_Ok & HR). apply mbind_Ok in HR as (n & st2 & HU & HR).
  apply exec_Ok in HU as (d & _ & HU & ->). apply lift_Ok in HR as [HR ->].
  destruct (Z.eqb_spec n 1) as [E|]; [|done]. subst n.
  unfold decideReviewCaseQuery in HU. destruct (uuid_scan transferID) as [id|]; [|done].
  destruct (t_reviews _ !! id) as [rv|] eqn:Erv; [|done]. destruct (decide (rv_status rv = "open")) as [Ho|Ho];
    [rewrite bool_decide_eq_true_2 in HU by done|by rewrite bool_decide_eq_false_2 in HU by done]. cbn [negb] in HU.
  destruct (negb _) eqn:Ec in HU; [done|]. apply negb_false_iff, andb_true_iff in Ec as [_ Hvis].
  injection HU as <-. exists id, rv. split_and!; try done.
  destruct (_ || _) eqn:Eg in HF; [done|]. apply orb_false_iff in Eg as [Eg _]. apply andb_false_iff in Eg.
  destruct Eg; bool_simpl; auto.
Qed.

Lemma quiet_LoadLifecycle transferID : quiet (LoadLifecycleForUpdateTx transferID).
Proof. unfold LoadLifecycleForUpdateTx. quiet. Qed.

Lemma quiet_StoreAssessment prev next input ev causation at_ :
  quiet (StoreRiskAssessmentTx prev next input ev causation at_).
Proof. unfold StoreRiskAssessmentTx. quiet. Qed.

Lemma quiet_StoreTransition prev next : quiet (StoreLifecycleTransitionTx prev next).
Proof. unfold StoreLifecycleTransitionTx. quiet. Qed.

Lemma quiet_DecideReview transferID decision subject at_ : quiet (DecideReviewCaseTx transferID decision subject at_).
Proof. unfold DecideReviewCaseTx. quiet. Qed.

End Store.

#[export] Hint Resolve quiet_LoadLifecycle quiet_StoreAssessment quiet_StoreTransition quiet_DecideReview : wallet.
