(* ===== verification/JsonDecode.v ===== *)
(** * JSON decoding: what the sources use of [json.Decoder]

    [Decode] into a struct with [DisallowUnknownFields]: the tree of a document
    ([parse_value], which follows the scanner of Json.v), the unquoting of string
    literals, the matching of keys to fields, and the conformance of values to
    the types of the fields.  What [json.Marshal] writes is decoded to the value
    that was marshalled. *)

From stdpp Require Import base list strings numbers pretty.
From Stdlib Require Import ZArith Lia Ascii String.
From S2P Require Import Prelude GoText Json.

Open Scope string_scope.
Open Scope Z_scope.

(** ** String literals *)

Definition utf8 (bytes : list Z) : string := foldr (fun b s => String (byte_of b) s) "" bytes.

(** [utf8.AppendRune]. *)
Definition encode_rune (r : Z) : string :=
  if (r <? 0) || (0x10FFFF <? r) || (0xD800 <=? r) && (r <=? 0xDFFF) then utf8 [0xEF; 0xBF; 0xBD]
  else if r <? 0x80 then utf8 [r]
  else if r <? 0x800 then utf8 [0xC0 + r / 64; 0x80 + r mod 64]
  else if r <? 0x10000 then utf8 [0xE0 + r / 4096; 0x80 + r / 64 mod 64; 0x80 + r mod 64]
  else utf8 [0xF0 + r / 262144; 0x80 + r / 4096 mod 64; 0x80 + r / 64 mod 64; 0x80 + r mod 64].

Definition hex_val (c : ascii) : Z :=
  let b := byte_val c in
  if is_digit b then b - 48 else if is_lower b then b - 87 else b - 55.

Definition hex4 (a b c d : ascii) : Z := ((hex_val a * 16 + hex_val b) * 16 + hex_val c) * 16 + hex_val d.

Definition is_surrogate (r : Z) : bool := (0xD800 <=? r) && (r <=? 0xDFFF).

(** [utf16.DecodeRune]. *)
Definition decode_surrogates (r1 r2 : Z) : Z :=
  if (0xD800 <=? r1) && (r1 <? 0xDC00) && (0xDC00 <=? r2) && (r2 <? 0xE000)
  then (r1 - 0xD800) * 1024 + (r2 - 0xDC00) + 0x10000
  else RuneError.

(** The byte a simple escape stands for. *)
Definition unescape (e : ascii) : ascii :=
  if eqc e "b" then byte_of 8
  else if eqc e "f" then byte_of 12
  else if eqc e "n" then byte_of 10
  else if eqc e "r" then byte_of 13
  else if eqc e "t" then byte_of 9
  else e.

(** [unquote] on the body of a scanned literal; [skip] counts the bytes of a
    copied rune that are still to be passed over. *)
Fixpoint unquote (skip : nat) (s : string) : string :=
  match s with
  | EmptyString => EmptyString
  | String c t =>
      match skip with
      | S k => unquote k t
      | O =>
          if eqc c backslash then
            match t with
            | String e t1 =>
                if eqc e "u" then
                  match t1 with
                  | String a1 (String b1 (String c1 (String d1 t2))) =>
                      let r := hex4 a1 b1 c1 d1 in
                      if is_surrogate r then
                        match t2 with
                        | String x (String y (String a2 (String b2 (String c2 (String d2 t3))))) =>
                            if eqc x backslash && eqc y "u" && negb (decode_surrogates r (hex4 a2 b2 c2 d2) =? RuneError)
                            then encode_rune (decode_surrogates r (hex4 a2 b2 c2 d2)) ++ unquote 0 t3
                            else encode_rune RuneError ++ unquote 0 t2
                        | _ => encode_rune RuneError ++ unquote 0 t2
                        end
                      else encode_rune r ++ unquote 0 t2
                  | _ => EmptyString
                  end
                else String (unescape e) (unquote 0 t1)
            | EmptyString => EmptyString
            end
          else if byte_val c <? RuneSelf then String c (unquote 0 t)
          else
            let '(r, size) := decode_rune s in
            if (r =? RuneError) && (size =? 1)%nat then encode_rune RuneError ++ unquote 0 t
            else take_bytes size s ++ unquote (pred size) t
      end
  end.

(** The bytes of [s] before its suffix [rest]. *)
Definition before (s rest : string) : string := take_bytes (String.length s - String.length rest) s.

(** The string whose literal, from inside its opening quote, ends at [rest]. *)
Definition literal (s rest : string) : string := unquote 0 (before s (String quote rest)).

(** ** Documents *)

#[local] Unset Elimination Schemes.
Inductive jvalue :=
| JNull
| JBool (b : bool)
| JNumber (text : string)
| JString (s : string)
| JArray (items : list jvalue)
| JObject (members : list (string * jvalue)).
#[local] Set Elimination Schemes.

(** [scan_value] with the tree of the value. *)
Fixpoint parse_value (fuel : nat) (depth : Z) (s : string) : option (jvalue * string) :=
  match fuel with
  | O => None
  | S fuel' =>
      match skip_ws s with
      | EmptyString => None
      | String c t =>
          if eqc c quote then
            match scan_string t with Some r => Some (JString (literal t r), r) | None => None end
          else if eqc c "-" || digit c then
            match scan_number (String c t) with
            | Some r => Some (JNumber (before (String c t) r), r)
            | None => None
            end
          else if eqc c "{" then
            if depth <=? 0 then None
            else match skip_ws t with
            | String e r => if eqc e "}" then Some (JObject [], r) else parse_members fuel' (depth - 1) t []
            | EmptyString => None
            end
          else if eqc c "[" then
            if depth <=? 0 then None
            else match skip_ws t with
            | String e r => if eqc e "]" then Some (JArray [], r) else parse_elements fuel' (depth - 1) t []
            | EmptyString => None
            end
          else if eqc c "t" then match scan_literal "rue" t with Some r => Some (JBool true, r) | None => None end
          else if eqc c "f" then match scan_literal "alse" t with Some r => Some (JBool false, r) | None => None end
          else if eqc c "n" then match scan_literal "ull" t with Some r => Some (JNull, r) | None => None end
          else None
      end
  end
with parse_members (fuel : nat) (depth : Z) (s : string) (acc : list (string * jvalue)) : option (jvalue * string) :=
  match fuel with
  | O => None
  | S fuel' =>
      match skip_ws s with
      | String c t =>
          if negb (eqc c quote) then None
          else match scan_string t with
          | None => None
          | Some r =>
              match skip_ws r with
              | String d r' =>
                  if negb (eqc d ":") then None
                  else match parse_value fuel' depth r' with
                  | None => None
                  | Some (v, q) =>
                      let acc' := (acc ++ [(literal t r, v)])%list in
                      match skip_ws q with
                      | String e q' =>
                          if eqc e "," then parse_members fuel' depth q' acc'
                          else if eqc e "}" then Some (JObject acc', q')
                          else None
                      | EmptyString => None
                      end
                  end
              | EmptyString => None
              end
          end
      | EmptyString => None
      end
  end
with parse_elements (fuel : nat) (depth : Z) (s : string) (acc : list jvalue) : option (jvalue * string) :=
  match fuel with
  | O => None
  | S fuel' =>
      match parse_value fuel' depth s with
      | None => None
      | Some (v, q) =>
          let acc' := (acc ++ [v])%list in
          match skip_ws q with
          | String e q' =>
              if eqc e "," then parse_elements fuel' depth q' acc'
              else if eqc e "]" then Some (JArray acc', q')
              else None
          | EmptyString => None
          end
      end
  end.

(** A document with nothing but white space after it: the first [Decode]
    succeeds and the second reports [io.EOF]. *)
Definition parse_document (s : string) : option jvalue :=
  match parse_value (2 * String.length s) maxNestingDepth s with
  | Some (v, rest) => if bool_decide (skip_ws rest = "") then Some v else None
  | None => None
  end.

(** ** Structs *)

(** [strconv.ParseInt(text, 10, 64)] on the text of a number. *)
Fixpoint parse_digits (acc : Z) (s : string) : option Z :=
  match s with
  | EmptyString => Some acc
  | String c t => if digit c then parse_digits (acc * 10 + (byte_val c - 48)) t else None
  end.

Definition parse_int (text : string) : option Z :=
  let magnitude :=
    match text with
    | String c t => if eqc c "-" then Z.opp <$> parse_digits 0 t else parse_digits 0 text
    | EmptyString => None
    end in
  match magnitude with
  | Some z => if bool_decide (in_int64 z) then Some z else None
  | None => None
  end.

(** The types of the fields the sources decode into. *)
#[local] Unset Elimination Schemes.
Inductive ftype :=
| FString
| FInt
| FSlice (element : ftype)
| FStruct (fields : list (string * ftype)).
#[local] Set Elimination Schemes.

(** [foldName], as far as the comparison with an ASCII name goes: the two other
    runes that fold to an ASCII letter are the long s and the Kelvin sign. *)
Fixpoint fold_name (s : string) : string :=
  match s with
  | EmptyString => EmptyString
  | String c t =>
      let b := byte_val c in
      if is_lower b then String (byte_of (b - 32)) (fold_name t)
      else match t with
      | String c1 t1 =>
          if (b =? 0xC5) && (byte_val c1 =? 0xBF) then String "S" (fold_name t1)
          else match t1 with
          | String c2 t2 =>
              if (b =? 0xE2) && (byte_val c1 =? 0x84) && (byte_val c2 =? 0xAA) then String "K" (fold_name t2)
              else String c (fold_name t)
          | EmptyString => String c (fold_name t)
          end
      | EmptyString => String c (fold_name t)
      end
  end.

(** The field a key selects: by its exact name, else by its folded name. *)
Definition find_field {A} (fields : list (string * A)) (key : string) : option (string * A) :=
  match find (fun '(name, _) => bool_decide (name = key)) fields with
  | Some f => Some f
  | None => find (fun '(name, _) => bool_decide (fold_name name = fold_name key)) fields
  end.

(** No error is saved while a value is stored into a field of the type: [null]
    leaves any field alone, and unknown keys are errors. *)
Fixpoint conforms (t : ftype) (v : jvalue) : bool :=
  match v, t with
  | JNull, _ => true
  | JString _, FString => true
  | JNumber text, FInt => match parse_int text with Some _ => true | None => false end
  | JArray items, FSlice element => forallb (conforms element) items
  | JObject members, FStruct fields =>
      forallb (fun '(key, w) => match find_field fields key with
                                | Some (_, t') => conforms t' w
                                | None => false
                                end) members
  | _, _ => false
  end.

(** The value a field ends up with: the last one stored into it. *)
Definition field_value (fields : list (string * ftype)) (members : list (string * jvalue)) (name : string)
    : option jvalue :=
  foldl (fun acc '(key, w) =>
    match find_field fields key, w with
    | Some (n, _), JNull => acc
    | Some (n, _), _ => if bool_decide (n = name) then Some w else acc
    | None, _ => acc
    end) None members.

(** A decoded struct: the members of its object. *)
Record Decoded := mkDecoded {
  dec_fields : list (string * ftype);
  dec_members : list (string * jvalue)
}.

(** Two calls of [Decode]: a struct, then the end of the input. *)
Definition decode_struct (fields : list (string * ftype)) (s : string) : option Decoded :=
  match parse_document s with
  | Some JNull => Some (mkDecoded fields [])
  | Some (JObject members) =>
      if conforms (FStruct fields) (JObject members) then Some (mkDecoded fields members) else None
  | _ => None
  end.

Definition get_string (d : Decoded) (name : string) : string :=
  match field_value (dec_fields d) (dec_members d) name with
  | Some (JString s) => s
  | _ => ""
  end.

Definition get_int (d : Decoded) (name : string) : Z :=
  match field_value (dec_fields d) (dec_members d) name with
  | Some (JNumber text) => default 0 (parse_int text)
  | _ => 0
  end.

(** ** Round trips *)

#[local] Arguments String.append : simpl nomatch.

Lemma take_bytes_app a b : take_bytes (String.length a) (a ++ b) = a.
Proof. induction a as [|c a IH]; cbn; [by destruct b|]. by rewrite IH. Qed.

Lemma before_app a b : before (a ++ b) b = a.
Proof.
  unfold before. rewrite length_append. replace (String.length a + String.length b - String.length b)%nat
    with (String.length a) by lia. apply take_bytes_app.
Qed.

Lemma unquote_escape_byte c t :
  is_ascii (byte_val c) = true -> unquote 0 (escape_byte c ++ t) = String c (unquote 0 t).
Proof. destruct c as [[] [] [] [] [] [] [] []]; intros H; reflexivity || discriminate H. Qed.

Lemma unquote_escape s : ascii_text s = true -> unquote 0 (escape 0 s) = s.
Proof.
  induction s as [|c s IH]; intros H; [done|]. rewrite escape_ascii_cons by done.
  pose proof H as [Hc _]%andb_true_iff. rewrite unquote_escape_byte by done. f_equal. eauto using ascii_text_tail.
Qed.

Lemma literal_escape s rest : ascii_text s = true -> literal (escape 0 s ++ String quote rest) rest = s.
Proof. intros H. unfold literal. rewrite before_app. by apply unquote_escape. Qed.

Lemma pretty_N_char_val n : (n < 10)%N -> byte_val (pretty_N_char n) - 48 = Z.of_N n.
Proof.
  intros H. assert (Hn : n ∈ [0; 1; 2; 3; 4; 5; 6; 7; 8; 9]%N) by (rewrite !elem_of_cons; lia).
  rewrite !elem_of_cons, elem_of_nil in Hn. destruct_or! Hn; try (subst n; by vm_compute); done.
Qed.

(** The digits of a number in front of a text are read before it. *)
Lemma parse_digits_go n text :
  parse_digits 0 (pretty_N_go n text) = parse_digits (Z.of_N n) text.
Proof.
  revert text. induction (N.lt_wf_0 n) as [n _ IH]. intros text.
  destruct (decide (n = 0%N)) as [->|Hn]; [by rewrite pretty_N_go_0|].
  rewrite pretty_N_go_step by lia. rewrite IH by (apply N.div_lt; lia). cbn [parse_digits].
  assert (Hmod : (n mod 10 < 10)%N) by by apply N.mod_lt.
  rewrite (proj1 (pretty_N_char_digit _ Hmod)), pretty_N_char_val by done. f_equal.
  pose proof (N.div_mod n 10). lia.
Qed.

Lemma parse_int_pretty (z : Z) : in_int64 z -> parse_int (pretty z) = Some z.
Proof.
  intros Hz. assert (Hpos : forall p, parse_digits 0 (pretty (Z.pos p)) = Some (Z.pos p)).
  { intros p. change (pretty (Z.pos p)) with (pretty_N_go (N.pos p) ""). by rewrite parse_digits_go. }
  destruct z as [|p|p]; [done| |].
  - specialize (Hpos p). unfold parse_int. destruct (pretty_pos_digits p) as (c & ds & E & Hc & _). rewrite E in *.
    rewrite digit_not_minus, Hpos by done. by rewrite bool_decide_eq_true_2.
  - change (pretty (Z.neg p)) with (String "-" (pretty (Z.pos p))). unfold parse_int.
    change (eqc "-" "-") with true. cbn iota. rewrite Hpos. cbn. by rewrite bool_decide_eq_true_2.
Qed.

(** The tree of a marshalled value. *)
Fixpoint tree (v : value) : jvalue :=
  match v with
  | VString s => JString s
  | VInt z => JNumber (pretty z)
  | VBool b => JBool b
  | VArray items => JArray (tree <$> items)
  | VObject fields => JObject ((fun '(k, w) => (k, tree w)) <$> fields)
  end.

Definition parses (v : value) : Prop := forall fuel depth rest,
  (String.length (marshal v) <= fuel)%nat -> depth_of v <= depth -> delimited rest = true ->
  parse_value fuel depth (marshal v ++ rest) = Some (tree v, rest).

Lemma parse_member fuel depth k r acc :
  ascii_text k = true ->
  parse_members (S fuel) depth (marshal_string k ++ String ":" r) acc =
    match parse_value fuel depth r with
    | None => None
    | Some (v, q) =>
        match skip_ws q with
        | String e q' =>
            if eqc e "," then parse_members fuel depth q' (acc ++ [(k, v)])%list
            else if eqc e "}" then Some (JObject (acc ++ [(k, v)])%list, q') else None
        | EmptyString => None
        end
    end.
Proof.
  intros Hk. rewrite marshal_string_app. cbn [parse_members]. rewrite skip_ws_head by done.
  change (negb (eqc quote quote)) with false. cbn iota. rewrite scan_escape by done.
  change (scan_string (String quote (String ":" r))) with (Some (String ":" r)). cbn iota.
  rewrite literal_escape by done. rewrite skip_ws_head by done. done.
Qed.

Lemma parse_members_join fields fuel depth rest acc :
  fields <> [] -> Forall (fun kv => ascii_text kv.1 = true /\ parses kv.2 /\ depth_of kv.2 <= depth) fields ->
  (String.length (comma_join (member_text <$> fields)) <= fuel)%nat ->
  parse_members fuel depth (comma_join (member_text <$> fields) ++ String "}" rest) acc =
    Some (JObject (acc ++ ((fun '(k, w) => (k, tree w)) <$> fields))%list, rest).
Proof.
  intros Hne HF. revert fuel Hne acc. induction HF as [|[k w] fields (Hk & Hs & Hd) HF IH]; intros fuel Hne acc Hlen; [done|].
  cbn [fst snd] in *. clear Hne. pose proof (marshal_nonempty w) as Hw.
  destruct fields as [|kv fields].
  - cbn [fmap list_fmap comma_join] in *. unfold member_text in *. rewrite length_append in Hlen. cbn in Hlen.
    destruct fuel as [|fuel]; [lia|]. rewrite append_assoc. cbn [String.append].
    rewrite parse_member by done. rewrite Hs; [done|lia|done|done].
  - assert (Htail : member_text <$> kv :: fields <> []) by done.
    change (member_text <$> (k, w) :: kv :: fields) with (member_text (k, w) :: (member_text <$> kv :: fields)) in *.
    rewrite comma_join_cons in * by done. rewrite length_append in Hlen. cbn [String.length] in Hlen.
    unfold member_text at 1 in Hlen. rewrite length_append in Hlen. cbn [String.length] in Hlen.
    destruct fuel as [|fuel]; [lia|]. unfold member_text at 1. rewrite !append_assoc. cbn [String.append].
    rewrite parse_member by done.
    rewrite Hs; [|lia|done|done]. rewrite skip_ws_head by done. cbn iota.
    change (eqc "," ",") with true. cbn iota. rewrite IH; [|done|lia]. by rewrite <- app_assoc.
Qed.

Lemma parse_elements_join items fuel depth rest acc :
  items <> [] -> Forall (fun w => parses w /\ depth_of w <= depth) items ->
  (String.length (comma_join (marshal <$> items)) < fuel)%nat ->
  parse_elements fuel depth (comma_join (marshal <$> items) ++ String "]" rest) acc =
    Some (JArray (acc ++ (tree <$> items))%list, rest).
Proof.
  intros Hne HF. revert fuel Hne acc. induction HF as [|w items (Hs & Hd) HF IH]; intros fuel Hne acc Hlen; [done|].
  clear Hne. destruct fuel as [|fuel]; [lia|]. destruct items as [|x items].
  - cbn [fmap list_fmap comma_join] in *. cbn [parse_elements]. rewrite Hs; [done|lia|done|done].
  - assert (Htail : marshal <$> x :: items <> []) by done.
    change (marshal <$> w :: x :: items) with (marshal w :: (marshal <$> x :: items)) in *.
    rewrite comma_join_cons in * by done. rewrite length_append in Hlen. cbn [String.length] in Hlen.
    rewrite append_assoc. cbn [String.append parse_elements]. rewrite Hs; [|lia|done|done].
    cbn [skip_ws]. change (is_ws ",") with false. change (eqc "," ",") with true. cbn iota.
    pose proof (marshal_nonempty w). rewrite IH; [|done|lia]. by rewrite <- app_assoc.
Qed.

Lemma parse_open_object fuel depth e t :
  0 < depth -> is_ws e = false -> eqc e "}" = false ->
  parse_value (S fuel) depth (String "{" (String e t)) = parse_members fuel (depth - 1) (String e t) [].
Proof.
  intros Hd Hws He. cbn [parse_value]. rewrite skip_ws_head by done. cbn iota.
  change (eqc "{" quote) with false. change (eqc "{" "-" || digit "{") with false. change (eqc "{" "{") with true.
  cbn iota. rewrite (proj2 (Z.leb_gt depth 0)) by lia. rewrite skip_ws_head by done. by rewrite He.
Qed.

Lemma parse_open_array fuel depth e t :
  0 < depth -> is_ws e = false -> eqc e "]" = false ->
  parse_value (S fuel) depth (String "[" (String e t)) = parse_elements fuel (depth - 1) (String e t) [].
Proof.
  intros Hd Hws He. cbn [parse_value]. rewrite skip_ws_head by done. cbn iota.
  change (eqc "[" quote) with false. change (eqc "[" "-" || digit "[") with false. change (eqc "[" "{") with false.
  change (eqc "[" "[") with true. cbn iota. rewrite (proj2 (Z.leb_gt depth 0)) by lia.
  rewrite skip_ws_head by done. by rewrite He.
Qed.

Lemma parse_array items fuel depth rest :
  Forall (fun w => parses w /\ depth_of w <= depth - 1) items -> 0 < depth ->
  (String.length (marshal (VArray items)) <= fuel)%nat ->
  parse_value fuel depth (marshal (VArray items) ++ rest) = Some (tree (VArray items), rest).
Proof.
  intros HF Hd Hf. cbn in Hf. rewrite length_append in Hf. cbn in Hf. destruct fuel as [|fuel]; [lia|].
  cbn [marshal String.append]. rewrite append_assoc. cbn [String.append].
  destruct items as [|x items].
  { cbn. by rewrite (proj2 (Z.leb_gt depth 0)) by lia. }
  destruct (marshal_head x) as (c & t & Ex & Hws & Hc & _).
  assert (Hhead : exists t', comma_join (marshal <$> x :: items) = String c t').
  { destruct items; [by exists t|]. cbn [fmap list_fmap]. rewrite comma_join_cons by done. rewrite Ex. by eexists. }
  destruct Hhead as [t' Et]. rewrite Et. cbn [String.append]. rewrite parse_open_array by done.
  change (String c (t' ++ String "]" rest)) with (String c t' ++ String "]" rest)%string. rewrite <- Et.
  rewrite parse_elements_join; [done|done|done|lia].
Qed.

Lemma parse_object fields fuel depth rest :
  Forall (fun kv => ascii_text kv.1 = true /\ parses kv.2 /\ depth_of kv.2 <= depth - 1) fields -> 0 < depth ->
  (String.length (marshal (VObject fields)) <= fuel)%nat ->
  parse_value fuel depth (marshal (VObject fields) ++ rest) = Some (tree (VObject fields), rest).
Proof.
  intros HF Hd. change (marshal (VObject fields)) with (String "{" (comma_join (member_text <$> fields) ++ "}")).
  intros Hf. cbn [String.length] in Hf. rewrite length_append in Hf. cbn [String.length] in Hf.
  destruct fuel as [|fuel]; [lia|]. cbn [String.append]. rewrite append_assoc. cbn [String.append].
  destruct fields as [|[k x] fields].
  { cbn. by rewrite (proj2 (Z.leb_gt depth 0)) by lia. }
  assert (Hhead : exists t', comma_join (member_text <$> (k, x) :: fields) = String quote t').
  { destruct fields; [by eexists|]. cbn [fmap list_fmap]. rewrite comma_join_cons by done. by eexists. }
  destruct Hhead as [t' Et]. rewrite Et. cbn [String.append]. rewrite parse_open_object by done.
  change (String quote (t' ++ String "}" rest)) with (String quote t' ++ String "}" rest)%string. rewrite <- Et.
  rewrite parse_members_join; [done|done|done|lia].
Qed.

Lemma parse_number fuel depth (z : Z) rest :
  (0 < fuel)%nat -> delimited rest = true -> parse_value fuel depth (pretty z ++ rest) = Some (JNumber (pretty z), rest).
Proof.
  intros Hf Hr. destruct fuel as [|fuel]; [lia|].
  pose proof (scan_number_pretty z rest Hr) as Hn. pose proof (before_app (pretty z) rest) as Hb.
  destruct (pretty_head z) as (c & t & E & Hc).
  rewrite E in *. destruct (number_start_bytes c Hc) as (Hws & Hq & _). cbn [String.append] in Hn, Hb |- *.
  cbn [parse_value]. rewrite skip_ws_head by done. cbn iota. rewrite Hq. unfold number_start in Hc. rewrite Hc, Hn, Hb. done.
Qed.

Lemma parse_marshal v : ascii_value v = true -> parses v.
Proof.
  induction v as [s|z|b|items IH|fields IH] using value_ind'; intros Ha fuel depth rest Hf Hd Hr.
  - cbn [marshal] in *. rewrite marshal_string_app. destruct fuel as [|fuel]; [cbn in Hf; lia|].
    cbn [parse_value]. rewrite skip_ws_head by done. cbn iota. change (eqc quote quote) with true. cbn iota.
    rewrite scan_escape by done. change (scan_string (String quote rest)) with (Some rest). cbn iota.
    by rewrite literal_escape.
  - cbn [marshal] in *. apply parse_number; [|done]. destruct (pretty_head z) as (c & t & E & _).
    rewrite E in Hf. cbn in Hf. lia.
  - destruct fuel as [|fuel]; [destruct b; cbn in Hf; lia|]. by destruct b.
  - cbn in Hd, Ha. pose proof (foldr_max_nonneg (depth_of <$> items)). apply parse_array; [|lia|done].
    rewrite forallb_forall in Ha. rewrite Forall_forall in IH. apply Forall_forall. intros w Hw. split.
    + apply IH; [done|]. apply Ha. by apply list_elem_of_In.
    + assert (depth_of w <= foldr Z.max 0 (depth_of <$> items)); [|lia].
      apply foldr_max_ge. by apply list_elem_of_fmap_2.
  - cbn in Hd, Ha. pose proof (foldr_max_nonneg ((fun '(_, w) => depth_of w) <$> fields)).
    apply parse_object; [|lia|done].
    rewrite forallb_forall in Ha. rewrite Forall_forall in IH. apply Forall_forall. intros [k' w] Hw. cbn [fst snd].
    specialize (Ha (k', w)). rewrite <- list_elem_of_In in Ha. specialize (Ha Hw). cbn in Ha. bool_simpl.
    split_and!; [done|by apply (IH (k', w))|].
    assert (depth_of w <= foldr Z.max 0 ((fun '(_, w) => depth_of w) <$> fields)); [|lia].
    apply foldr_max_ge. apply list_elem_of_fmap. by exists (k', w).
Qed.

(** A marshalled document is parsed to its tree. *)
Lemma parse_document_marshal v :
  ascii_value v = true -> depth_of v <= maxNestingDepth -> parse_document (marshal v) = Some (tree v).
Proof.
  intros Ha Hd. unfold parse_document. rewrite <- (append_nil_r (marshal v)) at 2.
  rewrite (parse_marshal v Ha); [done|lia|done|done].
Qed.

(** A marshalled struct whose fields conform is decoded to its members. *)
Lemma decode_struct_marshal spec fields :
  ascii_value (VObject fields) = true -> depth_of (VObject fields) <= maxNestingDepth ->
  conforms (FStruct spec) (tree (VObject fields)) = true ->
  decode_struct spec (marshal (VObject fields)) = Some (mkDecoded spec ((fun '(k, w) => (k, tree w)) <$> fields)).
Proof.
  intros Ha Hd Hc. unfold decode_struct. rewrite parse_document_marshal by done. cbn [tree] in *. by rewrite Hc.
Qed.
