(* ===== verification/Strconv.v ===== *)
(** * Numbers and durations in text

    What the configurations use of [strconv] and [time]: [ParseInt] in base 10 for
    64 bits (and [Atoi], the same on a 64-bit platform), [ParseBool] and
    [ParseDuration], whose fractions are computed in binary64, modelled with the
    executable specification of floating point ([SpecFloat]). *)

From stdpp Require Import base list strings numbers.
From Stdlib Require Import ZArith Lia Ascii String SpecFloat.
From S2P Require Import Prelude GoText Json JsonDecode.

Open Scope string_scope.
Open Scope Z_scope.

(** ** [strconv] *)

(** The digits behind an optional sign; [parse_digits] is exact, the range is
    checked at the end. *)
Definition unsigned_text (s : string) : option Z := if bool_decide (s = "") then None else parse_digits 0 s.

Definition ParseInt (s : string) : option Z :=
  let magnitude :=
    match s with
    | String c t => if eqc c "-" then Z.opp <$> unsigned_text t else if eqc c "+" then unsigned_text t else unsigned_text s
    | EmptyString => None
    end in
  match magnitude with
  | Some z => if bool_decide (in_int64 z) then Some z else None
  | None => None
  end.

Definition Atoi (s : string) : option Z := ParseInt s.

Definition ParseBool (s : string) : option bool :=
  if bool_decide (s ∈ ["1"; "t"; "T"; "TRUE"; "true"; "True"]) then Some true
  else if bool_decide (s ∈ ["0"; "f"; "F"; "FALSE"; "false"; "False"]) then Some false
  else None.

Lemma ParseInt_range s z : ParseInt s = Some z -> in_int64 z.
Proof. unfold ParseInt. destruct (match s with EmptyString => _ | _ => _ end) as [x|]; [|done]. case_bool_decide; congruence. Qed.

(** ** [time.ParseDuration] *)

Definition two63 : Z := 2 ^ 63.

(** [leadingInt]: the value and the rest, or an overflow. *)
Fixpoint leadingInt (x : Z) (s : string) : option (Z * string) :=
  match s with
  | String c t =>
      if digit c then
        if two63 / 10 <? x then None
        else let x := x * 10 + (byte_val c - 48) in if two63 <? x then None else leadingInt x t
      else Some (x, s)
  | EmptyString => Some (x, s)
  end.

(** [leadingFraction]: the value, the power of ten it is scaled by, and the rest. *)
Fixpoint leadingFraction (overflow : bool) (x scale : Z) (s : string) : Z * Z * string :=
  match s with
  | String c t =>
      if digit c then
        if overflow || ((two63 - 1) / 10 <? x) then leadingFraction true x scale t
        else let y := x * 10 + (byte_val c - 48) in
             if two63 <? y then leadingFraction true x scale t else leadingFraction false y (scale * 10) t
      else (x, scale, s)
  | EmptyString => (x, scale, s)
  end.

(** [float64(n)] and [uint64(x)] of a finite non-negative [x]. *)
Definition float64 (n : Z) : spec_float := binary_normalize 53 1024 n 0 false.
Definition truncated (x : spec_float) : Z :=
  match x with S754_finite false m e => if 0 <=? e then Z.pos m * 2 ^ e else Z.pos m / 2 ^ (- e) | _ => 0 end.

(** [uint64(float64(f) * (float64(unit) / scale))]; powers of ten up to 10^19 are exact. *)
Definition fraction (f unit scale : Z) : Z :=
  truncated (SFmul 53 1024 (float64 f) (SFdiv 53 1024 (float64 unit) (float64 scale))).

(** The unit: the bytes before the next period or digit. *)
Fixpoint unit_text (s : string) : string * string :=
  match s with
  | String c t => if eqc c "." || digit c then ("", s) else let '(u, rest) := unit_text t in (String c u, rest)
  | EmptyString => ("", "")
  end.

Definition micro (b1 b2 : Z) : string := String (byte_of b1) (String (byte_of b2) "s").

Definition unitMap (u : string) : option Z :=
  if bool_decide (u = "ns") then Some 1
  else if bool_decide (u = "us") || bool_decide (u = micro 0xC2 0xB5) || bool_decide (u = micro 0xCE 0xBC) then Some 1000
  else if bool_decide (u = "ms") then Some 1000000
  else if bool_decide (u = "s") then Some Second
  else if bool_decide (u = "m") then Some (60 * Second)
  else if bool_decide (u = "h") then Some (3600 * Second)
  else None.

(** One round of the loop: a number with its unit, in nanoseconds. *)
Definition leadingTerm (s : string) : option (Z * string) :=
  match leadingInt 0 s with
  | None => None
  | Some (v, s1) =>
      let pre := negb (bool_decide (len s = len s1)) in
      let '(f, scale, s2, post) :=
        match s1 with
        | String c t => if eqc c "." then let '(f, scale, r) := leadingFraction false 0 1 t in
                                          (f, scale, r, negb (bool_decide (len t = len r)))
                        else (0, 1, s1, false)
        | EmptyString => (0, 1, s1, false)
        end in
      if negb pre && negb post then None
      else
        let '(u, s3) := unit_text s2 in
        match unitMap u with
        | None => None
        | Some unit =>
            if two63 / unit <? v then None
            else
              let v := v * unit + (if 0 <? f then fraction f unit scale else 0) in
              if two63 <? v then None else Some (v, s3)
        end
  end.

(** The loop, over [uint64]; each round reads at least a unit. *)
Fixpoint durationTerms (fuel : nat) (d : Z) (s : string) : option Z :=
  if bool_decide (s = "") then Some d
  else match fuel with
  | O => None
  | S fuel' =>
      match leadingTerm s with
      | None => None
      | Some (v, s') =>
          let d := (d + v) mod 2 ^ 64 in
          if two63 <? d then None else durationTerms fuel' d s'
      end
  end.

Definition ParseDuration (s : string) : option Z :=
  let '(neg, s) :=
    match s with
    | String c t => if eqc c "-" || eqc c "+" then (eqc c "-", t) else (false, s)
    | EmptyString => (false, s)
    end in
  if bool_decide (s = "0") then Some 0
  else if bool_decide (s = "") then None
  else match durationTerms (String.length s) 0 s with
  | None => None
  | Some d => if neg then Some (wrap64 (- d)) else if MaxInt64 <? d then None else Some d
  end.

(** Go's own test cases. *)
Lemma ParseDuration_examples :
  map ParseDuration ["0"; "5s"; "1.0s"; "5.s"; ".5s"; "-.5s"; "10.5s4m"; "1h2m3s4ms5us6ns"; "39h9m14.425s";
                     "0.3333333333333333333h"; "0.100000000000000000000h"; "0.830103483285477580700h";
                     "9223372036854775807ns"; "-9223372036854775808ns"] =
  map Some [0; 5 * Second; Second; 5 * Second; 500000000; -500000000; 250500000000; 3723004005006; 140954425000000;
            1200 * Second; 360 * Second; 2988 * Second + 372539827; 9223372036854775807; -9223372036854775808] /\
  map ParseDuration [""; "3"; "-"; "s"; "."; "-."; ".s"; "+.s"; "1d"; "9223372036854775808ns"; "-9223372036854775809ns"] =
  repeat None 11.
Proof. vm_compute. split; reflexivity. Qed.
