(* ===== verification/TimeParse.v ===== *)
(** * Times from text

    [time.Parse] with the layout [time.RFC3339Nano], and that it reads back what
    [Format] writes for a UTC time of a four-digit year. *)

From stdpp Require Import base list strings numbers.
From Stdlib Require Import ZArith Lia Ascii String.
From S2P Require Import Prelude GoText Json GoTime.

Open Scope string_scope.
Open Scope Z_scope.

Definition leap (year : Z) : bool :=
  (year mod 4 =? 0) && (negb (year mod 100 =? 0) || (year mod 400 =? 0)).

Definition daysIn (month year : Z) : Z :=
  if month =? 2 then if leap year then 29 else 28
  else if (month =? 4) || (month =? 6) || (month =? 9) || (month =? 11) then 30
  else 31.

Definition digit_val (c : ascii) : Z := byte_val c - 48.

(** [getnum]: two digits, or one when the field is not of fixed width. *)
Definition getnum (fixed : bool) (s : string) : option (Z * string) :=
  match s with
  | String a t =>
      if negb (digit a) then None
      else match t with
      | String b r =>
          if digit b then Some (digit_val a * 10 + digit_val b, r)
          else if fixed then None else Some (digit_val a, t)
      | EmptyString => if fixed then None else Some (digit_val a, t)
      end
  | EmptyString => None
  end.

(** Four digits. *)
Definition get_year (s : string) : option (Z * string) :=
  match s with
  | String a (String b (String c (String d r))) =>
      if digit a && digit b && digit c && digit d
      then Some (((digit_val a * 10 + digit_val b) * 10 + digit_val c) * 10 + digit_val d, r)
      else None
  | _ => None
  end.

(** [skip] of a one-byte prefix. *)
Definition skip_byte (c : ascii) (s : string) : option string :=
  match s with
  | String d r => if eqc c d then Some r else None
  | EmptyString => None
  end.

(** The digits of a fraction, at most nine of which count, and what follows. *)
Fixpoint fraction_nanos (width : nat) (s : string) : Z * string :=
  match s with
  | String c t =>
      if digit c then
        match width with
        | S w => let '(n, r) := fraction_nanos w t in (digit_val c * 10 ^ Z.of_nat w + n, r)
        | O => fraction_nanos O t
        end
      else (0, s)
  | EmptyString => (0, s)
  end.

(** [stdFracSecond9]: an optional fraction after a period or a comma. *)
Definition get_fraction (s : string) : Z * string :=
  match s with
  | String p (String d r) =>
      if (eqc p "." || eqc p ",") && digit d then fraction_nanos 9 (String d r) else (0, s)
  | _ => (0, s)
  end.

(** [stdISO8601ColonTZ]: Z or a signed offset in hours and minutes. *)
Definition get_zone (s : string) : option (Z * string) :=
  match s with
  | String c r =>
      if eqc c "Z" then Some (0, r)
      else match r with
      | String h1 (String h2 (String k (String m1 (String m2 r')))) =>
          if eqc k ":" && digit h1 && digit h2 && digit m1 && digit m2 && (eqc c "+" || eqc c "-") then
            let hours := digit_val h1 * 10 + digit_val h2 in
            let minutes := digit_val m1 * 10 + digit_val m2 in
            if (24 <? hours) || (60 <? minutes) then None
            else Some ((if eqc c "-" then -1 else 1) * (hours * 60 + minutes) * 60, r')
          else None
      | _ => None
      end
  | EmptyString => None
  end.

(** [time.Parse(time.RFC3339Nano, s)]. *)
Definition parse_rfc3339nano (s : string) : option Time :=
  '(year, s) ← get_year s;
  s ← skip_byte "-" s;
  '(month, s) ← getnum true s;
  s ← skip_byte "-" s;
  '(day, s) ← getnum true s;
  s ← skip_byte "T" s;
  '(hour, s) ← getnum false s;
  s ← skip_byte ":" s;
  '(minute, s) ← getnum true s;
  s ← skip_byte ":" s;
  '(second, s) ← getnum true s;
  let '(nanos, s) := get_fraction s in
  '(zone_offset, s) ← get_zone s;
  if negb (bool_decide (s = "")) then None
  else if (month <? 1) || (12 <? month) || (24 <=? hour) || (60 <=? minute) || (60 <=? second) ||
          (day <? 1) || (daysIn month year <? day) then None
  else Some (mkTime (days_of year month day * Day + hour * Hour + minute * Minute + second * Second + nanos
                     - zone_offset * Second) zone_offset).

(** ** The calendar *)

Lemma yoe_range doe : 0 <= doe < 146097 ->
  let yoe := (doe - doe / 1460 + doe / 36524 - doe / 146096) / 365 in
  let doy := doe - (365 * yoe + yoe / 4 - yoe / 100) in
  0 <= yoe < 400 /\ 0 <= doy <= 365 /\
  (doy = 365 -> (yoe + 1) mod 4 = 0 /\ ((yoe + 1) mod 100 <> 0 \/ yoe = 399)).
Proof. intros H yoe doy. subst yoe doy. Z.to_euclidean_division_equations. lia. Qed.

(** Month and day of a day of the year counted from March 1. *)
Lemma month_range doy : 0 <= doy <= 365 ->
  let mp := (5 * doy + 2) / 153 in
  let day := doy - (153 * mp + 2) / 5 + 1 in
  0 <= mp <= 11 /\ 1 <= day /\
  day <= (if mp =? 11 then if doy =? 365 then 29 else 28
          else if (mp =? 1) || (mp =? 3) || (mp =? 6) || (mp =? 8) then 30 else 31).
Proof.
  intros H mp day. assert (Hmp : 0 <= mp <= 11) by (subst mp; Z.to_euclidean_division_equations; lia).
  split; [done|]. subst day. assert (Hm : mp = (5 * doy + 2) / 153) by done. clearbody mp.
  assert (mp ∈ [0; 1; 2; 3; 4; 5; 6; 7; 8; 9; 10; 11]) as Hin by (rewrite !elem_of_cons; lia).
  rewrite !elem_of_cons, elem_of_nil in Hin.
  destruct_or! Hin; try done; rewrite Hin in Hm |- *; cbn -[Z.div Z.mul Z.add Z.le Z.sub];
    try (destruct (Z.eqb_spec doy 365)); Z.to_euclidean_division_equations; lia.
Qed.

Lemma civil_correct days :
  let '(year, month, day) := civil days in
  1 <= month <= 12 /\ 1 <= day <= daysIn month year /\ days_of year month day = days.
Proof.
  unfold civil. set (z := days + 306). set (era := z / 146097). set (doe := z mod 146097).
  assert (Hdoe : 0 <= doe < 146097) by (apply Z.mod_pos_bound; lia).
  assert (Hz : z = 146097 * era + doe) by (apply Z.div_mod; lia).
  destruct (yoe_range doe Hdoe) as (Hy & Hdoy & Hleap).
  set (yoe := (doe - doe / 1460 + doe / 36524 - doe / 146096) / 365) in *.
  set (doy := doe - (365 * yoe + yoe / 4 - yoe / 100)) in *.
  destruct (month_range doy Hdoy) as (Hmp & Hd1 & Hd2).
  set (mp := (5 * doy + 2) / 153) in *. set (day := doy - (153 * mp + 2) / 5 + 1) in *.
  assert (Hdoe2 : doe = 365 * yoe + yoe / 4 - yoe / 100 + doy) by (subst doy; lia).
  assert (Hdoy2 : doy = (153 * mp + 2) / 5 + day - 1) by (subst day; lia).
  assert (Hmo : exists month, (if mp <? 10 then mp + 3 else mp - 9) = month /\ 1 <= month <= 12 /\
    (if 2 <? month then month - 3 else month + 9) = mp /\ (month <=? 2) = (10 <=? mp)).
  { eexists. split; [reflexivity|]. destruct (Z.ltb_spec mp 10); repeat case_match; lia. }
  destruct Hmo as (month & -> & Hm & Hback & Hle). split; [done|]. rewrite Hle.
  assert (Hyear : forall y, y = yoe + 400 * era -> y / 400 = era /\ y mod 400 = yoe).
  { intros y ->. rewrite (Z.mul_comm 400), Z.div_add, Z.mod_add by lia.
    rewrite Z.div_small, Z.mod_small by lia. lia. }
  split.
  - split; [done|]. etrans; [exact Hd2|]. unfold daysIn.
    assert (month = if 2 <? month then mp + 3 else mp - 9) as Hmonth by (destruct (2 <? month); lia).
    destruct (Z.leb_spec 10 mp).
    + destruct (Z.eqb_spec mp 11) as [E|E].
      * assert (month = 2) as -> by (destruct (2 <? month) eqn:?; lia). cbn [Z.eqb Pos.eqb].
        destruct (Z.eqb_spec doy 365) as [E'|E']; [|by destruct (leap _)].
        destruct (Hleap E') as [H4 H100]. unfold leap.
        replace ((yoe + 400 * era + 1) mod 4) with 0; [|rewrite <- H4; Z.to_euclidean_division_equations; lia].
        assert (((yoe + 400 * era + 1) mod 100 =? 0) = false \/ ((yoe + 400 * era + 1) mod 400 =? 0) = true) as Hor.
        { destruct H100; [left; apply Z.eqb_neq|right; apply Z.eqb_eq]; Z.to_euclidean_division_equations; lia. }
        destruct Hor as [-> | ->]; cbn; by rewrite ?orb_true_r.
      * assert (mp = 10) as -> by lia. assert (month = 1) as -> by (destruct (2 <? month) eqn:?; lia). done.
    + assert (month = mp + 3) as -> by (destruct (2 <? month) eqn:?; lia).
      assert (mp ∈ [0; 1; 2; 3; 4; 5; 6; 7; 8; 9]) as Hin by (rewrite !elem_of_cons; lia).
      rewrite !elem_of_cons, elem_of_nil in Hin. destruct_or! Hin; try done; rewrite Hin; done.
  - unfold days_of. rewrite Hle, Hback.
    assert (Hy' : (if 10 <=? mp then yoe + 400 * era + (if 10 <=? mp then 1 else 0) - 1
                   else yoe + 400 * era + (if 10 <=? mp then 1 else 0)) = yoe + 400 * era) by (destruct (10 <=? mp); lia).
    rewrite Hy'. destruct (Hyear _ eq_refl) as [-> ->]. subst z. lia.
Qed.

(** ** Round trip *)

#[local] Arguments String.append : simpl nomatch.

Lemma dig_digit n : digit (dig n) = true /\ digit_val (dig n) = n mod 10.
Proof.
  pose proof (Z.mod_pos_bound n 10 ltac:(lia)). unfold digit, digit_val, dig, is_digit.
  rewrite byte_val_of by lia. split; [|lia]. lia.
Qed.

Lemma getnum_pad2 fixed n rest : 0 <= n < 100 -> getnum fixed (pad2 n ++ rest) = Some (n, rest).
Proof.
  intros Hn. destruct (dig_digit (n / 10)) as [D1 V1], (dig_digit n) as [D2 V2]. unfold pad2. cbn [String.append getnum].
  rewrite D1, D2, V1, V2. cbn [negb]. do 2 f_equal. Z.to_euclidean_division_equations. lia.
Qed.

Lemma get_year_pad y rest : 0 <= y < 10000 -> get_year (pad_year y ++ rest) = Some (y, rest).
Proof.
  intros Hy. unfold pad_year. rewrite (proj2 (Z.leb_le 0 y)), (proj2 (Z.ltb_lt y 10000)) by lia.
  destruct (dig_digit (y / 1000)) as [D1 V1], (dig_digit (y / 100)) as [D2 V2], (dig_digit (y / 10)) as [D3 V3],
    (dig_digit y) as [D4 V4]. cbn [andb String.append get_year]. rewrite D1, D2, D3, D4, V1, V2, V3, V4. cbn [andb].
  do 2 f_equal. Z.to_euclidean_division_equations. lia.
Qed.

Lemma skip_byte_eq c rest : skip_byte c (String c rest) = Some rest.
Proof. unfold skip_byte, eqc. by rewrite Ascii.eqb_refl. Qed.

Lemma fraction_nanos_digits w n rest :
  0 <= n < 10 ^ Z.of_nat w -> (forall k, fraction_nanos k rest = (0, rest)) ->
  fraction_nanos w (fraction_digits w n ++ rest) = (n, rest).
Proof.
  revert n. induction w as [|w IH]; intros n Hn Hr; cbn [fraction_digits].
  - cbn in Hn. cbn [String.append]. rewrite Hr. f_equal. lia.
  - destruct (Z.eqb_spec n 0) as [->|Hz]; [apply Hr|]. cbn [String.append fraction_nanos].
    set (u := 10 ^ Z.of_nat w) in *. assert (0 < u) by (apply Z.pow_pos_nonneg; lia).
    assert (Hp : 10 ^ Z.of_nat (S w) = 10 * u) by (unfold u; rewrite Nat2Z.inj_succ, Z.pow_succ_r; lia).
    destruct (dig_digit (n / u)) as [-> ->]. rewrite IH; [|apply Z.mod_pos_bound; lia|done].
    assert (0 <= n / u < 10) by (split; [apply Z.div_pos; lia|apply Z.div_lt_upper_bound; lia]).
    rewrite Z.mod_small by done. f_equal. pose proof (Z.div_mod n u). lia.
Qed.

Lemma fraction_digits_head w n : 0 < n -> exists r, fraction_digits (S w) n = String (dig (n / 10 ^ Z.of_nat w)) r.
Proof. intros Hn. cbn [fraction_digits]. rewrite (proj2 (Z.eqb_neq n 0)) by lia. by eexists. Qed.

Lemma get_fraction_Z n : 0 <= n < 10 ^ 9 -> get_fraction (fraction n ++ "Z") = (n, "Z").
Proof.
  intros Hn. unfold fraction. destruct (Z.eqb_spec n 0) as [->|Hz]; [done|].
  destruct (fraction_digits_head 8 n) as [r Hr]; [lia|].
  pose proof (fraction_nanos_digits 9 n "Z") as HF. rewrite Hr in *. cbn [String.append] in *.
  unfold get_fraction. change (eqc "." "." || eqc "." ",") with true. rewrite (proj1 (dig_digit _)). cbn [andb].
  apply HF; [done|by intros []].
Qed.

(** Pass a result to the continuation. *)
Ltac take_some := match goal with |- (Some ?x ≫= ?f) = _ => change (Some x ≫= f) with (f x); cbv beta iota end.

(** What [Format] writes of a UTC time, [Parse] reads back. *)
Lemma parse_format t :
  offset t = 0 -> 0 <= year_of t < 10000 -> parse_rfc3339nano (format_rfc3339nano t) = Some (mkTime (instant t) 0).
Proof.
  intros Ho Hy. unfold year_of, format_rfc3339nano in *. rewrite Ho in *. rewrite Z.mul_0_l, Z.add_0_r in *.
  pose proof (civil_correct (instant t / Day)) as Hc. destruct (civil _) as [[y m] d]. cbn [fst] in Hy.
  destruct Hc as (Hm & Hd & Hdays). set (clock := instant t mod Day).
  assert (Hclock : 0 <= clock < Day) by (apply Z.mod_pos_bound; done). unfold Day, Hour, Minute in Hclock.
  assert (Hd31 : daysIn m y <= 31) by (unfold daysIn; repeat case_match; lia).
  assert (Hh : 0 <= clock / Hour < 24) by (unfold Hour, Minute, Second in *; Z.to_euclidean_division_equations; lia).
  assert (Hmi : 0 <= clock / Minute mod 60 < 60) by (apply Z.mod_pos_bound; done).
  assert (Hse : 0 <= clock / Second mod 60 < 60) by (apply Z.mod_pos_bound; done).
  assert (Hna : 0 <= clock mod Second < 10 ^ 9) by (apply Z.mod_pos_bound; done).
  unfold parse_rfc3339nano. change (zone 0) with "Z".
  rewrite get_year_pad by done. take_some. do 2 (rewrite skip_byte_eq; take_some; rewrite getnum_pad2 by lia; take_some).
  do 3 (rewrite skip_byte_eq; take_some; rewrite getnum_pad2 by lia; take_some).
  rewrite get_fraction_Z by done. cbv iota beta.
  change (get_zone "Z") with (Some (0, "")). take_some.
  rewrite bool_decide_eq_true_2 by done. cbn [negb].
  rewrite (proj2 (Z.ltb_ge m 1)), (proj2 (Z.ltb_ge 12 m)), (proj2 (Z.leb_gt 24 (clock / Hour))),
    (proj2 (Z.leb_gt 60 (clock / Minute mod 60))), (proj2 (Z.leb_gt 60 (clock / Second mod 60))),
    (proj2 (Z.ltb_ge d 1)), (proj2 (Z.ltb_ge (daysIn m y) d)) by lia. cbn [orb].
  rewrite Hdays. do 2 f_equal. subst clock. pose proof (Z.div_mod (instant t) Day ltac:(done)) as Hdm.
  set (c := instant t mod Day) in *. unfold Hour, Minute, Second in *. rewrite Hdm at 2.
  Z.to_euclidean_division_equations. lia.
Qed.
