(* ===== verification/EventParse.v ===== *)
(** * Reading transfer events

    The consumers' side of [internal/transfer/events/]: [ParseRequested],
    [ParseRiskAssessed] and [ParseReviewDecided], and that each reads back the
    event its constructor wrote. *)

From stdpp Require Import base list strings numbers pretty.
From Stdlib Require Import ZArith Lia Ascii String.
From S2P Require Import Prelude GoText Money Journal TransferDomain RiskPolicy Json GoTime JsonDecode.
From S2P Require Import TimeParse Event TransferEvents.

Open Scope string_scope.
Open Scope Z_scope.

Definition requested_fields : list (string * ftype) :=
  [("transfer_id", FString); ("requester_id", FString); ("source_account_id", FString);
   ("destination_account_id", FString); ("currency", FString); ("amount_minor", FInt);
   ("requested_at", FString); ("risk_policy_version", FString)].

Definition ParseRequested (envelope : Envelope) : Result Lifecycle :=
  let d := draft envelope in
  if negb (bool_decide (eventType d = RequestedType)) || negb (eventVersion d =? RequestedVersion) ||
     negb (bool_decide (aggregateType d = "transfer")) || negb (aggregateVersion d =? 1) ||
     negb (bool_decide (causationID d = ""))
  then Err [ErrInvalidEnvelope]
  else match decode_struct requested_fields (payload d) with
  | None => Err [ErrInvalidEnvelope]
  | Some p =>
      if negb (bool_decide (get_string p "transfer_id" = aggregateID d)) ||
         negb (bool_decide (correlationID d = get_string p "transfer_id"))
      then Err [ErrInvalidEnvelope]
      else match ParseCurrency (get_string p "currency") with
      | Err _ => Err [ErrInvalidEnvelope]
      | Ok currency =>
          match NewMoney (get_int p "amount_minor") currency with
          | Err _ => Err [ErrInvalidEnvelope]
          | Ok amount =>
              match parse_rfc3339nano (get_string p "requested_at") with
              | None => Err [ErrInvalidEnvelope]
              | Some requestedAt =>
                  match NewTransfer (mkTransferParams (get_string p "transfer_id") "event-request"
                          (get_string p "requester_id") (get_string p "source_account_id")
                          (get_string p "destination_account_id") amount requestedAt) with
                  | Err _ => Err [ErrInvalidEnvelope]
                  | Ok transfer =>
                      match NewPendingLifecycle transfer (get_string p "risk_policy_version") with
                      | Err _ => Err [ErrInvalidEnvelope]
                      | Ok lifecycle => Ok lifecycle
                      end
                  end
              end
          end
      end
  end.

Record RiskAssessment := mkRiskAssessment {
  ra_transferID : string;
  ra_riskPolicyVersion : string;
  ra_decision : RiskDecision
}.

Definition riskDecision (value : string) : RiskDecision * bool :=
  if bool_decide (value = decision_String DecisionApprove) then (DecisionApprove, true)
  else if bool_decide (value = decision_String DecisionReview) then (DecisionReview, true)
  else if bool_decide (value = decision_String DecisionDecline) then (DecisionDecline, true)
  else (DecisionUnknown, false).

Definition assessed_fields : list (string * ftype) :=
  [("transfer_id", FString); ("risk_policy_version", FString); ("score", FInt); ("decision", FString);
   ("signals", FSlice (FStruct [("code", FString); ("contribution", FInt)]))].

Definition ParseRiskAssessed (envelope : Envelope) : Result RiskAssessment :=
  let d := draft envelope in
  if negb (bool_decide (eventType d = RiskAssessedType)) || negb (eventVersion d =? RiskAssessedVersion) ||
     negb (bool_decide (aggregateType d = "transfer")) || negb (aggregateVersion d =? 2) ||
     bool_decide (causationID d = "")
  then Err [ErrInvalidEnvelope]
  else match decode_struct assessed_fields (payload d) with
  | None => Err [ErrInvalidEnvelope]
  | Some p =>
      if negb (bool_decide (get_string p "transfer_id" = aggregateID d)) ||
         negb (bool_decide (correlationID d = get_string p "transfer_id")) ||
         bool_decide (get_string p "risk_policy_version" = "") || (get_int p "score" <? 0) || (1000 <? get_int p "score")
      then Err [ErrInvalidEnvelope]
      else
        let '(decision, ok) := riskDecision (get_string p "decision") in
        if negb ok then Err [ErrInvalidEnvelope]
        else Ok (mkRiskAssessment (get_string p "transfer_id") (get_string p "risk_policy_version") decision)
  end.

Record ReviewDecision := mkReviewDecision {
  rd_transferID : string;
  rd_decision : string
}.

Definition decided_fields : list (string * ftype) :=
  [("transfer_id", FString); ("decision", FString); ("decided_by", FString)].

Definition ParseReviewDecided (envelope : Envelope) : Result ReviewDecision :=
  let d := draft envelope in
  if negb (bool_decide (eventType d = ReviewDecidedType)) || negb (eventVersion d =? ReviewDecidedVersion) ||
     negb (bool_decide (aggregateType d = "transfer")) || (aggregateVersion d <? 3)
  then Err [ErrInvalidEnvelope]
  else match decode_struct decided_fields (payload d) with
  | None => Err [ErrInvalidEnvelope]
  | Some p =>
      if negb (bool_decide (get_string p "transfer_id" = aggregateID d)) ||
         negb (bool_decide (correlationID d = get_string p "transfer_id")) ||
         bool_decide (get_string p "decided_by" = "") ||
         (negb (bool_decide (get_string p "decision" = "approved")) &&
          negb (bool_decide (get_string p "decision" = "declined")))
      then Err [ErrInvalidEnvelope]
      else Ok (mkReviewDecision (get_string p "transfer_id") (get_string p "decision"))
  end.

(** ** Round trips *)

(** The lifecycle a consumer reconstructs: the idempotency key is not part of
    the event. *)
Definition observed (l : Lifecycle) : Lifecycle :=
  let t := lc_transfer l in
  mkLifecycle (mkTransfer (transfer_id t) "event-request" (requesterID t) (sourceAccountID t)
                 (destinationAccountID t) (transfer_amount t) (requestedAt t))
    (lc_status l) (lc_version l) (riskPolicyVersion l) (journalEntryID l) (failureReason l).

Lemma observed_transfer_wf t :
  transfer_wf t ->
  transfer_wf (mkTransfer (transfer_id t) "event-request" (requesterID t) (sourceAccountID t)
                 (destinationAccountID t) (transfer_amount t) (requestedAt t)).
Proof.
  intros ((? & _ & ? & ? & ? & ? & ? & ? & ?)%transfer_validate_Ok & ? & ?). split_and!; [|done..].
  apply transfer_validate_Ok. by split_and!.
Qed.

Lemma UTC_offset t : UTC t = t -> offset t = 0.
Proof. intros E. rewrite <- E. done. Qed.

Lemma parse_requested_at t :
  UTC t = t -> printable_time t -> parse_rfc3339nano (format_rfc3339nano t) = Some t.
Proof.
  intros Hu Hp. pose proof (UTC_offset t Hu) as Ho. rewrite parse_format by done. destruct t. cbn in *. by subst.
Qed.

Lemma NewPendingLifecycle_wf t v :
  transfer_wf t -> validPolicyVersion v = true ->
  NewPendingLifecycle t v = Ok (mkLifecycle t StatusPendingRisk 1 v "" "").
Proof.
  intros (Ht & _) Hv. unfold NewPendingLifecycle, NewLifecycle.
  cbn [lp_Transfer lp_Status lp_Version lp_RiskPolicyVersion lp_JournalEntryID lp_FailureReason].
  rewrite policy_trim by done. change (TrimSpace "") with "". unfold pendingRiskVersion.
  assert (lifecycle_validate (mkLifecycle t StatusPendingRisk 1 v "" "") = Ok tt) as ->; [|done].
  apply lifecycle_validate_Ok. by split_and!.
Qed.

(** [ParseRequested] reads back what [Requested] wrote. *)
Lemma ParseRequested_Requested id l :
  lifecycle_wf l -> lc_status l = StatusPendingRisk -> printable_time (requestedAt (lc_transfer l)) ->
  ParseRequested (mkEnvelope id (requested_draft l)) = Ok (observed l).
Proof.
  intros Hw Hs Hp. pose proof Hw as ((_ & _ & Hsh)%lifecycle_validate_Ok & Ht & _).
  unfold status_shape in Hsh. rewrite Hs in Hsh. destruct Hsh as (Hv & Hj & Hf & Hpol).
  pose proof Ht as (Htv & Hi & Hu). pose proof Htv as (_ & _ & _ & _ & _ & _ & Hc & _)%transfer_validate_Ok.
  destruct (intent_fields_ok _ Ht Hp) as (Ha & _ & Hd). destruct (policy_text _ Hpol) as [Hpa _].
  unfold ParseRequested. cbn [draft requested_draft eventType eventVersion aggregateType aggregateVersion causationID
    payload aggregateID correlationID]. rewrite Hv. rewrite bool_decide_eq_true_2 by done. cbn [negb orb Z.eqb Pos.eqb].
  rewrite decode_struct_marshal.
  2:{ cbn [ascii_value]. rewrite forallb_app, Ha. cbn. by rewrite Hpa. }
  2:{ cbn [depth_of]. rewrite fmap_app, foldr_app. change (1 + foldr Z.max 0 ((fun '(_, w) => depth_of w) <$> intent_fields (lc_transfer l)) <= maxNestingDepth).
      by rewrite Hd. }
  2:{ change (match parse_int (pretty (minorUnits (transfer_amount (lc_transfer l)))) with Some _ => true | None => false end
        && true = true). by rewrite parse_int_pretty. }
  set (p := mkDecoded _ _).
  assert (get_string p "transfer_id" = transfer_id (lc_transfer l)) as -> by reflexivity.
  assert (get_string p "requester_id" = requesterID (lc_transfer l)) as -> by reflexivity.
  assert (get_string p "source_account_id" = sourceAccountID (lc_transfer l)) as -> by reflexivity.
  assert (get_string p "destination_account_id" = destinationAccountID (lc_transfer l)) as -> by reflexivity.
  assert (get_string p "currency" = currency_String (currency (transfer_amount (lc_transfer l)))) as -> by reflexivity.
  assert (get_string p "requested_at" = format_rfc3339nano (requestedAt (lc_transfer l))) as -> by reflexivity.
  assert (get_string p "risk_policy_version" = riskPolicyVersion l) as -> by reflexivity.
  assert (get_int p "amount_minor" = minorUnits (transfer_amount (lc_transfer l))) as ->.
  { change (default 0 (parse_int (pretty (minorUnits (transfer_amount (lc_transfer l))))) = minorUnits (transfer_amount (lc_transfer l))).
    by rewrite parse_int_pretty. }
  rewrite (bool_decide_eq_true_2 (transfer_id (lc_transfer l) = transfer_id (lc_transfer l))) by done.
  cbn [negb orb]. rewrite ParseCurrency_String by done.
  unfold NewMoney. rewrite Hc. cbn [negb]. rewrite parse_requested_at by done.
  replace (mkMoney _ _) with (transfer_amount (lc_transfer l)) by by destruct (transfer_amount _).
  pose proof (observed_transfer_wf _ Ht) as Hot. pose proof (NewTransfer_params_of _ (proj1 Hot) Hu) as Hn.
  unfold params_of in Hn. cbn [transfer_id idempotencyKey requesterID sourceAccountID destinationAccountID
    transfer_amount requestedAt] in Hn. rewrite Hn. rewrite NewPendingLifecycle_wf by done.
  unfold observed. by rewrite Hs, Hv, Hj, Hf.
Qed.

(** [ParseRiskAssessed] reads back what [RiskAssessed] wrote at version 2. *)
Lemma ParseRiskAssessed_RiskAssessed id l ev at_ ca :
  lifecycle_wf l -> lc_version l = 2 -> evaluation_wf ev ->
  matchesRiskDecision (lc_status l) (decision ev) = true ->
  eval_policyVersion ev = riskPolicyVersion l -> isCanonicalUUID ca = true ->
  ParseRiskAssessed (mkEnvelope id (assessed_draft l ev at_ ca)) =
    Ok (mkRiskAssessment (transfer_id (lc_transfer l)) (riskPolicyVersion l) (decision ev)).
Proof.
  intros Hw Hver (Hsc & _ & HF) Hm Hpv Hca.
  assert (Hst : lc_status l <> StatusCompleted) by (intros E; rewrite E in Hm; by destruct (decision ev)).
  pose proof (lifecycle_policy l Hw Hst) as Hpol. destruct (policy_text _ Hpol) as [Hpa _].
  destruct Hw as (_ & ((Hid & _)%transfer_validate_Ok & _) & _). destruct (signals_bound _ HF) as (Hsa & Hsd & _).
  assert (Hsi : in_int64 (score ev)) by int64_lia.
  assert (Hda : ascii_text (decision_String (decision ev)) = true) by by destruct (decision ev).
  unfold ParseRiskAssessed, assessed_draft. cbn [draft eventType eventVersion aggregateType aggregateVersion causationID
    payload aggregateID correlationID]. rewrite Hver, Hpv.
  rewrite (bool_decide_eq_false_2 (ca = "")) by by apply canonical_nonempty.
  rewrite decode_struct_marshal.
  2:{ cbn [ascii_value forallb]. by rewrite (canonical_ascii _ Hid), Hpa, Hda, Hsa. }
  2:{ cbn [depth_of fmap list_fmap foldr]. unfold maxNestingDepth. cbn [fmap list_fmap] in Hsd. lia. }
  2:{ change (match parse_int (pretty (score ev)) with Some _ => true | None => false end &&
        (forallb (conforms (FStruct [("code", FString); ("contribution", FInt)])) (tree <$> (signal_value <$> signals ev)) && true) = true).
      rewrite parse_int_pretty by done. cbn [andb]. rewrite andb_true_r. apply forallb_forall. intros j Hj%list_elem_of_In.
      apply list_elem_of_fmap in Hj as (v & -> & Hv). apply list_elem_of_fmap in Hv as (sg & -> & Hsg).
      rewrite Forall_forall in HF. destruct (HF _ Hsg) as (_ & _ & Hi).
      change (match parse_int (pretty (contribution sg)) with Some _ => true | None => false end && true = true).
      by rewrite parse_int_pretty. }
  set (p := mkDecoded _ _).
  assert (get_string p "transfer_id" = transfer_id (lc_transfer l)) as -> by reflexivity.
  assert (get_string p "risk_policy_version" = riskPolicyVersion l) as -> by reflexivity.
  assert (get_string p "decision" = decision_String (decision ev)) as -> by reflexivity.
  assert (get_int p "score" = score ev) as ->.
  { change (default 0 (parse_int (pretty (score ev))) = score ev). by rewrite parse_int_pretty. }
  rewrite (bool_decide_eq_true_2 (transfer_id (lc_transfer l) = transfer_id (lc_transfer l))) by done.
  rewrite (bool_decide_eq_false_2 (riskPolicyVersion l = "")) by (intros E; rewrite E in Hpol; done).
  rewrite (proj2 (Z.ltb_ge (score ev) 0)), (proj2 (Z.ltb_ge 1000 (score ev))) by lia.
  by destruct (decision ev), (lc_status l).
Qed.

(** [ParseReviewDecided] reads back what [ReviewDecided] wrote. *)
Lemma ParseReviewDecided_ReviewDecided id l subject at_ :
  lifecycle_wf l -> 3 <= lc_version l -> lc_status l = StatusApproved \/ lc_status l = StatusDeclined ->
  subject <> "" -> ascii_text subject = true ->
  ParseReviewDecided (mkEnvelope id (decided_draft l subject at_)) =
    Ok (mkReviewDecision (transfer_id (lc_transfer l)) (status_String (lc_status l))).
Proof.
  intros Hw Hver Hs Hne Ha. destruct Hw as (_ & ((Hid & _)%transfer_validate_Ok & _) & _).
  assert (Hsa : ascii_text (status_String (lc_status l)) = true) by by destruct (lc_status l).
  unfold ParseReviewDecided, decided_draft. cbn [draft eventType eventVersion aggregateType aggregateVersion causationID
    payload aggregateID correlationID]. rewrite (proj2 (Z.ltb_ge (lc_version l) 3)) by lia.
  rewrite decode_struct_marshal; [|cbn; by rewrite (canonical_ascii _ Hid), Hsa, Ha|done|done].
  set (p := mkDecoded _ _).
  assert (get_string p "transfer_id" = transfer_id (lc_transfer l)) as -> by reflexivity.
  assert (get_string p "decision" = status_String (lc_status l)) as -> by reflexivity.
  assert (get_string p "decided_by" = subject) as -> by reflexivity.
  rewrite (bool_decide_eq_true_2 (transfer_id (lc_transfer l) = transfer_id (lc_transfer l))) by done.
  rewrite (bool_decide_eq_false_2 (subject = "")) by done.
  by destruct Hs as [-> | ->].
Qed.

(** ** Properties *)

(** C24: every pending lifecycle whose request time has a four-digit year can be
    published, and its consumer reads back the same transfer, policy version and
    state; only the idempotency key stays with the producer. *)
Theorem requested_roundtrip (id : string) (l : Lifecycle) :
  lifecycle_wf l -> lc_status l = StatusPendingRisk -> printable_time (requestedAt (lc_transfer l)) ->
  exists e, Requested l = Ok e /\ draft_validate e = Ok tt /\ ParseRequested (mkEnvelope id e) = Ok (observed l).
Proof.
  intros Hw Hs Hp. destruct (Requested_ok l Hw Hs Hp) as [He Hd]. exists (requested_draft l).
  split; [exact He|]. split; [apply Hd|]. by apply ParseRequested_Requested.
Qed.

Lemma requested_roundtrip_witness :
  exists e, Requested sample_pending = Ok e /\
    ParseRequested (mkEnvelope "00000000-0000-4000-8000-000000000001" e) = Ok (observed sample_pending).
Proof.
  destruct (requested_roundtrip "00000000-0000-4000-8000-000000000001" sample_pending) as (e & He & _ & HP).
  - apply sample_pending_wf.
  - reflexivity.
  - vm_compute. split; [discriminate|reflexivity].
  - exists e. split; [exact He|exact HP].
Defined.

(** The outcome of an assessment and of a review survives its event: for every
    evaluation that fits the stored lifecycle, and for every decision by a
    non-empty visible subject, the event can be built and its consumer reads back
    the transfer and the decision (and the policy version of an assessment). *)
Theorem decisions_roundtrip (id : string) (l : Lifecycle) (at_ : Time) :
  lifecycle_wf l -> IsZero at_ = false ->
  (forall ev cause, lc_version l = 2 -> evaluation_wf ev -> matchesRiskDecision (lc_status l) (decision ev) = true ->
     eval_policyVersion ev = riskPolicyVersion l -> isCanonicalUUID cause = true ->
     exists e, RiskAssessed l ev at_ cause = Ok e /\ draft_validate e = Ok tt /\
       ParseRiskAssessed (mkEnvelope id e) =
         Ok (mkRiskAssessment (transfer_id (lc_transfer l)) (riskPolicyVersion l) (decision ev))) /\
  (forall subject, 3 <= lc_version l -> lc_status l = StatusApproved \/ lc_status l = StatusDeclined ->
     subject <> "" -> ascii_text subject = true -> len subject <= 128 ->
     exists e, ReviewDecided l subject at_ = Ok e /\ draft_validate e = Ok tt /\
       ParseReviewDecided (mkEnvelope id e) =
         Ok (mkReviewDecision (transfer_id (lc_transfer l)) (status_String (lc_status l)))).
Proof.
  intros Hw Hat. split.
  - intros ev cause Hv Hev Hm Hp Hc. destruct (RiskAssessed_ok l ev at_ cause Hw Hev Hm Hp Hat Hc) as [He Hd].
    exists (assessed_draft l ev at_ cause). split; [exact He|]. split; [apply Hd|].
    by apply ParseRiskAssessed_RiskAssessed.
  - intros subject Hv Hs Hne Ha Hl. destruct (ReviewDecided_ok l subject at_ Hw Hs Hne Ha Hl Hat) as [He Hd].
    exists (decided_draft l subject at_). split; [exact He|]. split; [apply Hd|].
    by apply ParseReviewDecided_ReviewDecided.
Qed.

Lemma decisions_roundtrip_witness :
  exists e, ReviewDecided (mkLifecycle sample_transfer StatusApproved 3 "risk-v1" "" "") "analyst-1" (mkTime 5000 0) = Ok e /\
    ParseReviewDecided (mkEnvelope "00000000-0000-4000-8000-000000000001" e) =
      Ok (mkReviewDecision "11111111-2222-3333-4444-aaaaaaaaaaaa" "approved").
Proof.
  destruct (proj2 (decisions_roundtrip "00000000-0000-4000-8000-000000000001"
    (mkLifecycle sample_transfer StatusApproved 3 "risk-v1" "" "") (mkTime 5000 0)
    ltac:(split_and!; [vm_compute; reflexivity|apply sample_transfer_wf|cbn; int64_lia]) eq_refl) "analyst-1")
    as (e & He & _ & HP).
  - cbn. lia.
  - left. reflexivity.
  - discriminate.
  - reflexivity.
  - vm_compute. discriminate.
  - exists e. split; [exact He|exact HP].
Defined.
