(* ===== verification/EnvelopeJson.v ===== *)
(** * The transport form of an envelope

    [internal/event/envelope.go]: [Envelope.MarshalJSON], [ParseEnvelope] and the
    struct [envelopeJSON] between them.  [json.Marshal] passes a raw message
    through [compact] with HTML escaping, and the decoder hands the raw text of a
    member to [json.RawMessage] and [time.Time]. *)

From stdpp Require Import base list gmap strings numbers pretty.
From Stdlib Require Import ZArith Lia Ascii String.
From S2P Require Import Prelude GoText Money TransferDomain Json JsonDecode GoTime TimeParse Event TransferEvents.

Open Scope string_scope.
Open Scope Z_scope.

#[local] Arguments String.append : simpl nomatch.

(** ** Encoding *)

(** The HTML escaping of [compact], on text without white space. *)
Fixpoint html_escape (s : string) : string :=
  match s with
  | EmptyString => EmptyString
  | String c t =>
      let b := byte_val c in
      if eqc c "<" || eqc c ">" || eqc c "&"
      then "\u00" ++ String (hex_char (b / 16)) (String (hex_char (b mod 16)) (html_escape t))
      else match t with
      | String c1 (String c2 t2) =>
          if (b =? 0xE2) && (byte_val c1 =? 0x80) && (Z.land (byte_val c2) 0xFE =? 0xA8)
          then "\u202" ++ String (hex_char (byte_val c2 mod 16)) (html_escape t2)
          else String c (html_escape t)
      | _ => String c (html_escape t)
      end
  end.

(** [compact] with escaping, as [json.Marshal] applies it to raw messages and to
    what a [MarshalJSON] method returns. *)
Definition compact_html (s : string) : option string := html_escape <$> json_Compact s.

(** The fields of [envelopeJSON] before the payload; an empty causation is
    omitted. *)
Definition envelope_members (e : Envelope) : list (string * value) :=
  let d := draft e in
  ([("event_id", VString (eventID e)); ("event_type", VString (eventType d)); ("event_version", VInt (eventVersion d));
    ("aggregate_type", VString (aggregateType d)); ("aggregate_id", VString (aggregateID d));
    ("aggregate_version", VInt (aggregateVersion d)); ("correlation_id", VString (correlationID d))] ++
   (if bool_decide (causationID d = "") then [] else [("causation_id", VString (causationID d))]) ++
   [("occurred_at", VString (format_rfc3339nano (occurredAt d)))])%list.

(** [Envelope.MarshalJSON].  [time.Time] is marshalled only in the years 0 to
    9999 (its location is UTC in every draft). *)
Definition MarshalJSON (e : Envelope) : Result string :=
  if negb (isCanonicalUUID (eventID e)) || negb (is_ok (draft_validate (draft e))) then Err [ErrInvalidEnvelope]
  else if negb ((0 <=? year_of (occurredAt (draft e))) && (year_of (occurredAt (draft e)) <? 10000))
  then Err [Other "json"]
  else match compact_html (payload (draft e)) with
  | None => Err [Other "json"]
  | Some raw =>
      Ok (String "{" (comma_join ((member_text <$> envelope_members e) ++ [(marshal_string "payload" ++ String ":" raw)%string])%list ++ "}"))
  end.

(** [json.Marshal] of an envelope. *)
Definition encode_envelope (e : Envelope) : Result string :=
  match MarshalJSON e with
  | Err err => Err err
  | Ok text => match compact_html text with Some t => Ok t | None => Err [Other "json"] end
  end.

(** ** Decoding *)

(** The types of the fields of [envelopeJSON]. *)
Inductive FieldKind := KString | KInt16 | KInt64 | KTime | KRaw.

Definition envelope_fields : list (string * FieldKind) :=
  [("event_id", KString); ("event_type", KString); ("event_version", KInt16); ("aggregate_type", KString);
   ("aggregate_id", KString); ("aggregate_version", KInt64); ("correlation_id", KString); ("causation_id", KString);
   ("occurred_at", KTime); ("payload", KRaw)].

(** A member with the tree and the text of its value. *)
Definition RawMember : Type := string * (jvalue * string).

(** [parse_members] at the top of a document, keeping the texts. *)
Fixpoint raw_members (fuel : nat) (s : string) (acc : list RawMember) : option (list RawMember * string) :=
  match fuel with
  | O => None
  | S fuel' =>
      match skip_ws s with
      | String c t =>
          if negb (eqc c quote) then None
          else match scan_string t with
          | None => None
          | Some r =>
              match skip_ws r with
              | String d r' =>
                  if negb (eqc d ":") then None
                  else match parse_value (2 * String.length r') (maxNestingDepth - 1) r' with
                  | None => None
                  | Some (v, q) =>
                      let acc' := (acc ++ [(literal t r, (v, before (skip_ws r') q))])%list in
                      match skip_ws q with
                      | String e q' =>
                          if eqc e "," then raw_members fuel' q' acc'
                          else if eqc e "}" then Some (acc', q')
                          else None
                      | EmptyString => None
                      end
                  end
              | EmptyString => None
              end
          end
      | EmptyString => None
      end
  end.

(** The first call of [Decode]: the members of an object, or none for [null],
    and what follows. *)
Definition raw_document (s : string) : option (list RawMember * string) :=
  match skip_ws s with
  | String c t =>
      if eqc c "{" then
        match skip_ws t with
        | String e r => if eqc e "}" then Some ([], r) else raw_members (String.length s) t []
        | EmptyString => None
        end
      else if eqc c "n" then match scan_literal "ull" t with Some r => Some ([], r) | None => None end
      else None
  | EmptyString => None
  end.

(** [time.Time.UnmarshalJSON] on the text of a value other than [null]. *)
Definition parse_json_time (raw : string) : option Time :=
  match raw with
  | String c t =>
      let body := take_bytes (String.length t - 1) t in
      if eqc c quote && bool_decide (t = body ++ String quote "") then parse_rfc3339nano body else None
  | EmptyString => None
  end.

Definition in_int16 (z : Z) : bool := (-32768 <=? z) && (z <=? 32767).

(** No error is reported while the value is stored. *)
Definition stores (kind : FieldKind) (v : jvalue) (raw : string) : bool :=
  match kind, v with
  | KRaw, _ | _, JNull => true
  | KString, JString _ => true
  | KInt64, JNumber text => bool_decide (is_Some (parse_int text))
  | KInt16, JNumber text => match parse_int text with Some z => in_int16 z | None => false end
  | KTime, _ => bool_decide (is_Some (parse_json_time raw))
  | _, _ => false
  end.

(** The last value stored into a field; [null] leaves it alone unless it is raw. *)
Definition stored_member (name : string) (members : list RawMember) : option (jvalue * string) :=
  foldl (fun acc '(key, (v, raw)) =>
    match find_field envelope_fields key with
    | Some (n, kind) =>
        if bool_decide (n = name) then
          match v, kind with
          | JNull, KRaw => Some (v, raw)
          | JNull, _ => acc
          | _, _ => Some (v, raw)
          end
        else acc
    | None => acc
    end) None members.

Definition stored_string (name : string) (members : list RawMember) : string :=
  match stored_member name members with Some (JString s, _) => s | _ => "" end.

Definition stored_int (name : string) (members : list RawMember) : Z :=
  match stored_member name members with Some (JNumber text, _) => default 0 (parse_int text) | _ => 0 end.

Definition stored_time_field (name : string) (members : list RawMember) : Time :=
  match stored_member name members with Some (_, raw) => default zeroTime (parse_json_time raw) | None => zeroTime end.

Definition stored_raw (name : string) (members : list RawMember) : string :=
  match stored_member name members with Some (_, raw) => raw | None => "" end.

Definition ParseEnvelope (encoded : string) : Result Envelope :=
  match raw_document encoded with
  | None => Err [ErrInvalidEnvelope; Other "json"]
  | Some (l, rest) =>
      if negb (forallb (fun '(key, (v, raw)) =>
            match find_field envelope_fields key with Some (_, kind) => stores kind v raw | None => false end) l)
      then Err [ErrInvalidEnvelope; Other "json"]
      else if negb (bool_decide (skip_ws rest = "")) then Err [ErrInvalidEnvelope]
      else match NewDraft (mkDraftParams (stored_string "event_type" l) (stored_int "event_version" l)
               (stored_string "aggregate_type" l) (stored_string "aggregate_id" l) (stored_int "aggregate_version" l)
               (stored_string "correlation_id" l) (stored_string "causation_id" l) (stored_time_field "occurred_at" l)
               (stored_raw "payload" l)) with
      | Err e => Err e
      | Ok d => NewEnvelope (stored_string "event_id" l) d
      end
  end.

(** ** Round trip *)

Definition html_safe (c : Z) : bool :=
  negb (c =? 60) && negb (c =? 62) && negb (c =? 38) && negb (c =? 0xE2).

Lemma html_escape_safe s : all_bytes html_safe s = true -> html_escape s = s.
Proof.
  induction s as [|c s IH]; [done|]. cbn [all_bytes]. intros [Hc Hs]%andb_true_iff.
  assert (Hno : eqc c "<" || eqc c ">" || eqc c "&" = false /\ (byte_val c =? 0xE2) = false).
  { unfold html_safe in Hc. rewrite !andb_true_iff, !negb_true_iff in Hc. destruct Hc as [[[H1 H2] H3] H4]. split; [|done].
    unfold eqc. rewrite !orb_false_iff. split_and!; apply Ascii.eqb_neq; intros ->; done. }
  destruct Hno as [H1 H2]. cbn [html_escape]. rewrite H1, H2, IH by done. by destruct s as [|c1 [|c2 s]].
Qed.

Lemma escape_byte_safe c : is_ascii (byte_val c) = true -> all_bytes html_safe (escape_byte c) = true.
Proof. destruct c as [[] [] [] [] [] [] [] []]; intros H; reflexivity || discriminate H. Qed.

Lemma escape_safe s : ascii_text s = true -> all_bytes html_safe (escape 0 s) = true.
Proof.
  induction s as [|c s IH]; intros H; [done|]. rewrite escape_ascii_cons by done. pose proof H as [Hc _]%andb_true_iff.
  rewrite all_bytes_app, escape_byte_safe by done. cbn. eauto using ascii_text_tail.
Qed.

Lemma marshal_string_safe s : ascii_text s = true -> all_bytes html_safe (marshal_string s) = true.
Proof. intros H. unfold marshal_string. cbn [all_bytes]. rewrite all_bytes_app, escape_safe by done. done. Qed.

Lemma comma_join_safe texts :
  Forall (fun t => all_bytes html_safe t = true) texts -> all_bytes html_safe (comma_join texts) = true.
Proof.
  induction 1 as [|t texts Ht _ IH]; [done|]. destruct texts; [done|]. rewrite comma_join_cons by done.
  rewrite all_bytes_app, Ht. cbn [all_bytes andb]. by rewrite IH.
Qed.

Lemma digit_safe c : is_digit c = true -> html_safe c = true.
Proof. unfold is_digit, html_safe. rewrite !andb_true_iff, !negb_true_iff, !Z.eqb_neq. lia. Qed.

Lemma pretty_safe (z : Z) : all_bytes html_safe (pretty z) = true.
Proof. apply pretty_bytes; [apply digit_safe|done]. Qed.

Lemma marshal_safe v : ascii_value v = true -> all_bytes html_safe (marshal v) = true.
Proof.
  induction v as [s|z|b|items IH|fields IH] using value_ind'; intros Ha.
  - by apply marshal_string_safe.
  - apply pretty_safe.
  - by destruct b.
  - cbn [marshal all_bytes]. rewrite all_bytes_app. cbn [all_bytes]. rewrite comma_join_safe; [done|].
    cbn in Ha. rewrite forallb_forall in Ha. apply Forall_fmap. rewrite Forall_forall in *. intros w Hw. cbn beta. apply IH; [done|].
    by apply Ha, list_elem_of_In.
  - change (marshal (VObject fields)) with (String "{" (comma_join (member_text <$> fields) ++ "}")).
    cbn [all_bytes]. rewrite all_bytes_app. rewrite comma_join_safe; [done|]. cbn in Ha. rewrite forallb_forall in Ha.
    apply Forall_fmap. rewrite Forall_forall in *. intros [k w] Hw. cbn beta. specialize (Ha (k, w)).
    rewrite <- list_elem_of_In in Ha. specialize (Ha Hw). cbn in Ha. apply andb_true_iff in Ha as [Hk Ha].
    change (all_bytes html_safe (marshal_string k ++ String ":" (marshal w)) = true).
    rewrite all_bytes_app, marshal_string_safe by done. cbn [all_bytes]. pose proof (IH (k, w) Hw Ha) as Hm. cbn [snd] in Hm. by rewrite Hm.
Qed.

(** What a marshalled member leaves: its tree and its text. *)
Definition raw_of (kv : string * value) : RawMember := (kv.1, (tree kv.2, marshal kv.2)).

Lemma raw_members_join fields fuel rest acc :
  fields <> [] ->
  Forall (fun kv => ascii_text kv.1 = true /\ ascii_value kv.2 = true /\ depth_of kv.2 <= maxNestingDepth - 1) fields ->
  (List.length fields <= fuel)%nat ->
  raw_members fuel (comma_join (member_text <$> fields) ++ String "}" rest) acc = Some ((acc ++ (raw_of <$> fields))%list, rest).
Proof.
  intros Hne HF. revert fuel Hne acc. induction HF as [|[k w] fields (Hk & Ha & Hd) HF IH]; intros fuel Hne acc Hlen; [done|].
  cbn [fst snd] in *. clear Hne. destruct fuel as [|fuel]; [cbn in Hlen; lia|].
  assert (Hone : forall e r, eqc e "," || eqc e "}" = true ->
    raw_members (S fuel) (member_text (k, w) ++ String e r) acc =
      if eqc e "," then raw_members fuel r (acc ++ [raw_of (k, w)])%list else Some ((acc ++ [raw_of (k, w)])%list, r)).
  { intros e r He. assert (Hws : is_ws e = false /\ delimited (String e r) = true).
    { revert He. clear. by destruct e as [[] [] [] [] [] [] [] []]. }
    destruct Hws as [Hws Hdel]. unfold member_text. rewrite append_assoc. cbn [String.append].
    rewrite marshal_string_app. cbn [raw_members]. rewrite skip_ws_head by done.
    change (negb (eqc quote quote)) with false. cbn iota. rewrite scan_escape by done.
    change (scan_string (String quote (String ":" (marshal w ++ String e r)))) with (Some (String ":" (marshal w ++ String e r))).
    cbn iota. rewrite literal_escape by done. rewrite skip_ws_head by done. change (negb (eqc ":" ":")) with false. cbn iota.
    rewrite (parse_marshal w Ha); [|rewrite length_append; lia|done|done].
    destruct (marshal_head w) as (c & t & Ew & Hc & _).
    assert (skip_ws (marshal w ++ String e r) = marshal w ++ String e r) as ->.
    { rewrite Ew. cbn [String.append]. by apply skip_ws_head. }
    rewrite before_app, skip_ws_head by done. apply orb_true_iff in He. unfold raw_of. cbn [fst snd].
    destruct (eqc e ","); [done|]. destruct He as [?|E]; [done|by rewrite E]. }
  destruct fields as [|kv fields].
  - cbn [fmap list_fmap comma_join] in *. by rewrite Hone.
  - change (member_text <$> (k, w) :: kv :: fields) with (member_text (k, w) :: (member_text <$> kv :: fields)).
    rewrite comma_join_cons by done. rewrite append_assoc. cbn [String.append]. rewrite Hone by done.
    change (eqc "," ",") with true. cbn iota. rewrite IH; [|done|cbn in Hlen |- *; lia].
    rewrite <- app_assoc. done.
Qed.

Lemma raw_document_marshal fields :
  fields <> [] ->
  Forall (fun kv => ascii_text kv.1 = true /\ ascii_value kv.2 = true /\ depth_of kv.2 <= maxNestingDepth - 1) fields ->
  raw_document (marshal (VObject fields)) = Some (raw_of <$> fields, "").
Proof.
  intros Hne HF. change (marshal (VObject fields)) with (String "{" (comma_join (member_text <$> fields) ++ "}")).
  unfold raw_document. rewrite skip_ws_head by done. change (eqc "{" "{") with true. cbn iota.
  destruct fields as [|[k w] fields]; [done|].
  assert (Hhead : exists t', comma_join (member_text <$> (k, w) :: fields) = String quote t').
  { destruct fields; [by eexists|]. cbn [fmap list_fmap]. rewrite comma_join_cons by done. by eexists. }
  destruct Hhead as [t' Et]. rewrite Et. cbn [String.append]. rewrite skip_ws_head by done.
  change (eqc quote "}") with false. cbn iota.
  change (String quote (t' ++ "}")) with (String quote t' ++ "}")%string. rewrite <- Et.
  rewrite (raw_members_join ((k, w) :: fields) _ "" []); [done|done|done|].
  assert (Hl : forall l : list (string * value), (List.length l <= String.length (comma_join (member_text <$> l)))%nat).
  { clear. induction l as [|[k w] l IH]; [done|]. destruct l as [|x l].
    - cbn [fmap list_fmap comma_join]. unfold member_text. rewrite length_append. cbn. lia.
    - change (member_text <$> (k, w) :: x :: l) with (member_text (k, w) :: (member_text <$> x :: l)).
      rewrite comma_join_cons by done. rewrite length_append. cbn [String.length List.length] in *. lia. }
  cbn [String.length]. rewrite length_append. cbn [String.length]. specialize (Hl ((k, w) :: fields)). lia.
Qed.

(** Valid type names are ASCII. *)
Lemma event_part_ascii first s : event_part_from first s = true -> ascii_text s = true.
Proof.
  revert first. induction s as [|c s IH]; intros first; [done|]. cbn [event_part_from].
  destruct (_ || _) eqn:E; [|done]. intros Hs. rewrite ascii_text_cons, (IH false Hs), andb_true_r.
  unfold is_ascii, RuneSelf, is_lower, is_digit in *. apply Z.ltb_lt. rewrite !orb_true_iff, !andb_true_iff in E. lia.
Qed.

Lemma split_dots_ascii value part :
  forallb validEventPart (split_dots part value) = true -> ascii_text part = true /\ ascii_text value = true.
Proof.
  revert part. induction value as [|c value IH]; intros part; cbn [split_dots].
  - cbn. rewrite andb_true_r. intros [Hp _]%andb_true_iff. split; [by eapply event_part_ascii|done].
  - destruct (byte_val c =? 46) eqn:E.
    + cbn [forallb]. intros [[Hp _]%andb_true_iff Hv]%andb_true_iff. apply IH in Hv as [_ Hv].
      split; [by eapply event_part_ascii|]. apply Z.eqb_eq in E. rewrite ascii_text_cons, Hv, E. done.
    + intros [Hp Hv]%IH. rewrite ascii_text_app in Hp. apply andb_true_iff in Hp as [Hp Hc].
      rewrite ascii_text_cons in *. apply andb_true_iff in Hc as [Hc _]. by rewrite Hc, Hv.
Qed.

Lemma validEventType_ascii s : validEventType s = true -> ascii_text s = true.
Proof. unfold validEventType. destruct (_ || _); [done|]. by intros [_ ?]%split_dots_ascii. Qed.

Lemma lower_name_ascii first sep s : lower_name_from first sep s = true -> ascii_text s = true.
Proof.
  revert first. induction s as [|c s IH]; intros first; [done|]. cbn [lower_name_from].
  rewrite ascii_text_cons. unfold is_ascii, RuneSelf.
  destruct (is_lower (byte_val c) || _) eqn:E; [|destruct (sep && _ && _) eqn:E2; [|done]];
    intros Hs; rewrite (IH _ Hs), andb_true_r; apply Z.ltb_lt; unfold is_lower, is_digit in *;
    rewrite ?orb_true_iff, ?andb_true_iff in *; try (rewrite ?orb_true_iff, ?andb_true_iff in E2); lia.
Qed.

Lemma validAggregateType_ascii s : validAggregateType s = true -> ascii_text s = true.
Proof.
  unfold validAggregateType, validLowerName. intros [_ [Hl _]%andb_true_iff]%andb_true_iff. by eapply lower_name_ascii.
Qed.

(** The envelopes the system sends: a stored draft whose payload was marshalled. *)
Record sendable (e : Envelope) (fields : list (string * value)) : Prop := {
  se_id : isCanonicalUUID (eventID e) = true;
  se_draft : draft_wf (draft e);
  se_payload : payload (draft e) = marshal (VObject fields);
  se_ascii : ascii_value (VObject fields) = true;
  se_depth : depth_of (VObject fields) <= maxNestingDepth - 1;
  se_year : printable_time (occurredAt (draft e));
  se_version : eventVersion (draft e) <= 32767;
  se_aggregate_version : aggregateVersion (draft e) <= MaxInt64
}.

Definition envelope_value (e : Envelope) (fields : list (string * value)) : list (string * value) :=
  (envelope_members e ++ [("payload", VObject fields)])%list.

Lemma envelope_value_ok e fields :
  sendable e fields ->
  Forall (fun kv => ascii_text kv.1 = true /\ ascii_value kv.2 = true /\ depth_of kv.2 <= maxNestingDepth - 1)
    (envelope_value e fields).
Proof.
  intros [Hid [Hv _ _] _ Ha Hd _ _ _]. apply draft_validate_Ok in Hv as (Hty & _ & Hat & Hai & _ & Hco & Hca & _).
  assert (H0 : 0 <= maxNestingDepth - 1) by (unfold maxNestingDepth; lia).
  pose proof (canonical_ascii _ Hid). pose proof (validEventType_ascii _ Hty). pose proof (validAggregateType_ascii _ Hat).
  pose proof (canonical_ascii _ Hai). pose proof (canonical_ascii _ Hco). pose proof (format_ascii (occurredAt (draft e))).
  unfold envelope_value, envelope_members. apply Forall_app. split; [apply Forall_app; split; [|apply Forall_app; split]|].
  - repeat (constructor; [by split_and!|]). constructor.
  - case_bool_decide as E; [constructor|]. destruct Hca as [?|Hca]; [done|]. constructor; [|constructor].
    pose proof (canonical_ascii _ Hca). by split_and!.
  - constructor; [by split_and!|constructor].
  - constructor; [by split_and!|constructor].
Qed.

Lemma envelope_value_marshals e fields :
  sendable e fields -> ascii_value (VObject (envelope_value e fields)) = true /\
  depth_of (VObject (envelope_value e fields)) <= maxNestingDepth.
Proof.
  intros HF%envelope_value_ok. rewrite Forall_forall in HF. split.
  - cbn [ascii_value]. apply forallb_forall. intros [k w] Hin%list_elem_of_In. destruct (HF _ Hin) as (Hk & Hw & _).
    cbn [fst snd] in *. by rewrite Hk, Hw.
  - cbn [depth_of]. assert (foldr Z.max 0 ((fun '(_, w) => depth_of w) <$> envelope_value e fields) <= maxNestingDepth - 1); [|lia].
    revert HF. generalize (envelope_value e fields). induction l as [|[k w] l IH]; intros HF; [cbn; unfold maxNestingDepth; lia|].
    cbn [fmap list_fmap foldr]. apply Z.max_lub.
    + apply (HF (k, w)). by left.
    + apply IH. intros x Hx. apply HF. by right.
Qed.

Lemma MarshalJSON_sendable e fields :
  sendable e fields -> MarshalJSON e = Ok (marshal (VObject (envelope_value e fields))).
Proof.
  intros Hs. pose proof Hs as [Hid [Hv _ _] Hp Ha Hd [Hy1 Hy2] _ _]. unfold MarshalJSON. rewrite Hid, Hv. cbn [negb orb is_ok].
  rewrite (proj2 (Z.leb_le 0 _)), (proj2 (Z.ltb_lt _ 10000)) by done. cbn [negb andb].
  unfold compact_html. rewrite Hp, json_Compact_marshal by (done || lia). cbn [fmap option_fmap option_map].
  rewrite html_escape_safe by by apply marshal_safe.
  f_equal. change (marshal (VObject (envelope_value e fields))) with
    (String "{" (comma_join (member_text <$> envelope_value e fields) ++ "}")).
  unfold envelope_value. by rewrite fmap_app.
Qed.

Lemma encode_sendable e fields :
  sendable e fields -> encode_envelope e = Ok (marshal (VObject (envelope_value e fields))).
Proof.
  intros Hs. destruct (envelope_value_marshals _ _ Hs) as [Ha Hd]. unfold encode_envelope.
  rewrite (MarshalJSON_sendable e fields) by done. unfold compact_html. rewrite json_Compact_marshal by done.
  cbn [fmap option_fmap option_map]. by rewrite html_escape_safe by by apply marshal_safe.
Qed.

(** Bytes a string literal holds as they are. *)
Definition plain_byte (c : Z) : bool := (35 <=? c) && (c <? 92) && html_safe c.

Lemma escape_plain s : all_bytes plain_byte s = true -> escape 0 s = s.
Proof.
  induction s as [|c s IH]; [done|]. cbn [all_bytes]. intros [Hc Hs]%andb_true_iff.
  assert (Hone : is_ascii (byte_val c) = true /\ escape_byte c = String c "").
  { revert Hc. by destruct c as [[] [] [] [] [] [] [] []]. }
  destruct Hone as [Ha He]. cbn [escape]. unfold is_ascii in Ha. by rewrite Ha, He, IH.
Qed.

Lemma digit_plain c : is_digit c = true -> plain_byte c = true.
Proof.
  intros Hd. unfold plain_byte. rewrite digit_safe by done. unfold is_digit in Hd. rewrite andb_true_r. lia.
Qed.

(** The text of a time literal. *)
Lemma parse_json_time_format t :
  UTC t = t -> printable_time t -> parse_json_time (marshal (VString (format_rfc3339nano t))) = Some t.
Proof.
  intros Hu Hy. assert (Ho : offset t = 0) by (rewrite <- Hu; done).
  change (marshal (VString (format_rfc3339nano t))) with (String quote (escape 0 (format_rfc3339nano t) ++ String quote "")).
  rewrite escape_plain by (apply format_bytes; [apply digit_plain|done..]). unfold parse_json_time.
  rewrite length_append. cbn [String.length]. replace (String.length (format_rfc3339nano t) + 1 - 1)%nat
    with (String.length (format_rfc3339nano t)) by lia. rewrite take_bytes_app.
  rewrite bool_decide_eq_true_2 by done. change (eqc quote quote && true) with true. cbn iota.
  rewrite parse_format by done. destruct t. cbn in *. by subst.
Qed.

(** What the decoder stores for each field. *)
Lemma stored_fields e fields :
  let l := raw_of <$> envelope_value e fields in
  stored_string "event_id" l = eventID e /\ stored_string "event_type" l = eventType (draft e) /\
  stored_string "aggregate_type" l = aggregateType (draft e) /\ stored_string "aggregate_id" l = aggregateID (draft e) /\
  stored_string "correlation_id" l = correlationID (draft e) /\ stored_string "causation_id" l = causationID (draft e) /\
  stored_int "event_version" l = default 0 (parse_int (pretty (eventVersion (draft e)))) /\
  stored_int "aggregate_version" l = default 0 (parse_int (pretty (aggregateVersion (draft e)))) /\
  stored_time_field "occurred_at" l =
    default zeroTime (parse_json_time (marshal (VString (format_rfc3339nano (occurredAt (draft e)))))) /\
  stored_raw "payload" l = marshal (VObject fields).
Proof.
  unfold envelope_value, envelope_members. generalize (format_rfc3339nano (occurredAt (draft e))). intros text.
  destruct (bool_decide (causationID (draft e) = "")) eqn:E; cbv zeta; split_and!; try reflexivity.
  apply bool_decide_eq_true in E. rewrite E. reflexivity.
Qed.

Lemma members_store e fields :
  sendable e fields ->
  forallb (fun '(key, (v, raw)) =>
    match find_field envelope_fields key with Some (_, kind) => stores kind v raw | None => false end)
    (raw_of <$> envelope_value e fields) = true.
Proof.
  intros [Hid [Hv _ Ht] _ _ _ Hy Hev Hav]. apply draft_validate_Ok in Hv as (_ & Hev0 & _ & _ & Hav0 & _).
  pose proof (parse_json_time_format _ Ht Hy) as Htime. pose proof (parse_int_pretty (eventVersion (draft e))) as H1.
  pose proof (parse_int_pretty (aggregateVersion (draft e))) as H2.
  specialize (H1 ltac:(int64_lia)). specialize (H2 ltac:(int64_lia)).
  apply forallb_forall. intros [key [v raw]] Hin%list_elem_of_In. apply list_elem_of_fmap in Hin as ([k w] & E & Hin).
  injection E as -> -> ->. cbn [fst snd].
  unfold envelope_value, envelope_members in Hin. rewrite !elem_of_app in Hin. destruct Hin as [[Hin|[Hin|Hin]]|Hin].
  - repeat (apply elem_of_cons in Hin as [[= -> ->]|Hin]; [try reflexivity|]); [..|by apply elem_of_nil in Hin].
    + change (match parse_int (pretty (eventVersion (draft e))) with Some z => in_int16 z | None => false end = true).
      rewrite H1. unfold in_int16. apply andb_true_iff. lia.
    + change (bool_decide (is_Some (parse_int (pretty (aggregateVersion (draft e))))) = true). rewrite H2. reflexivity.
  - destruct (bool_decide _); [by apply elem_of_nil in Hin|]. apply list_elem_of_singleton in Hin as [= -> ->]. reflexivity.
  - apply list_elem_of_singleton in Hin as [= -> ->].
    change (bool_decide (is_Some (parse_json_time (marshal (VString (format_rfc3339nano (occurredAt (draft e))))))) = true).
    rewrite Htime. reflexivity.
  - apply list_elem_of_singleton in Hin as [= -> ->]. reflexivity.
Qed.

(** ** Properties *)

(** The encoding of an envelope and its parsing. *)
Lemma encode_parse (e : Envelope) (fields : list (string * value)) :
  sendable e fields -> exists text, encode_envelope e = Ok text /\ ParseEnvelope text = Ok e.
Proof.
  intros Hs. eexists. split; [by apply encode_sendable|]. pose proof Hs as [Hid Hd Hp _ _ Hy Hev Hav].
  pose proof Hd as [Hv _ Ht]. apply draft_validate_Ok in Hv as (_ & Hev0 & _ & _ & Hav0 & _).
  unfold ParseEnvelope. rewrite raw_document_marshal; [|by destruct (bool_decide (causationID (draft e) = "")) eqn:E;
    unfold envelope_value, envelope_members; rewrite E|by apply envelope_value_ok].
  rewrite members_store by done. cbn [negb]. rewrite bool_decide_eq_true_2 by done. cbn [negb].
  destruct (stored_fields e fields) as (-> & -> & -> & -> & -> & -> & -> & -> & -> & ->).
  rewrite parse_json_time_format, !parse_int_pretty by (done || int64_lia). cbn [default from_option id].
  rewrite <- Hp. change (mkDraftParams _ _ _ _ _ _ _ _ _) with (draft_params (draft e)).
  rewrite NewDraft_fixed by done. rewrite NewEnvelope_wf by done. by destruct e.
Qed.


