(* ===== verification/Documents.v ===== *)
(** * Documents through a JSONB column

    PostgreSQL keeps a document, not its text: what is read back may have white
    space and another order of the members.  Under the law [JsonbText] an event
    that was stored and read again is still read by its consumer as the same
    transfer, decision or assessment. *)

From stdpp Require Import base list strings numbers pretty relations.
From Stdlib Require Import ZArith Lia Ascii String.
From S2P Require Import OutboxRepo.
From S2P Require Import Prelude GoText Money Journal TransferDomain RiskPolicy Json GoTime JsonDecode.
From S2P Require Import TimeParse Event TransferEvents EventParse EnvelopeJson Database PgInstance Outbox.

Open Scope string_scope.
Open Scope Z_scope.

(** ** The same document *)

(** Two neighbours among the members of an object change places, here or inside. *)
Inductive reorder1 : value -> value -> Prop :=
| SwapMembers a x y b : reorder1 (VObject (a ++ x :: y :: b)%list) (VObject (a ++ y :: x :: b)%list)
| InMember a k w w' b : reorder1 w w' -> reorder1 (VObject (a ++ (k, w) :: b)%list) (VObject (a ++ (k, w') :: b)%list)
| InElement a w w' b : reorder1 w w' -> reorder1 (VArray (a ++ w :: b)%list) (VArray (a ++ w' :: b)%list).

Definition reordered : value -> value -> Prop := rtc reorder1.

(** A function that only sees the document. *)
Definition sees_document {A} (f : value -> A) : Prop := forall v v', reorder1 v v' -> f v = f v'.

Lemma sees_reordered {A} (f : value -> A) v v' : sees_document f -> reordered v v' -> f v = f v'.
Proof. intros Hf. induction 1 as [|v1 v2 v3 H1 _ IH]; [done|]. by rewrite (Hf _ _ H1). Qed.

Lemma ascii_sees : sees_document ascii_value.
Proof.
  intros v v' HR. induction HR as [a [k x] [k' y] b|a k w w' b _ IH|a w w' b _ IH]; cbn; rewrite !forallb_app; cbn; [|by rewrite IH..].
  f_equal. by destruct (ascii_text k), (ascii_value x), (ascii_text k'), (ascii_value y).
Qed.

Lemma foldr_max_app (l1 l2 : list Z) : foldr Z.max 0 (l1 ++ l2) = Z.max (foldr Z.max 0 l1) (foldr Z.max 0 l2).
Proof.
  induction l1 as [|x l1 IH]; cbn; [|rewrite IH; lia].
  induction l2 as [|y l2 IH2]; cbn; [done|]. lia.
Qed.

Lemma depth_sees : sees_document depth_of.
Proof.
  intros v v' HR. induction HR as [a [k x] [k' y] b|a k w w' b _ IH|a w w' b _ IH]; cbn [depth_of];
    rewrite !fmap_app, !foldr_max_app; cbn; [lia|by rewrite IH..].
Qed.

(** The length of joined texts depends on the lengths only. *)
Lemma len_comma_join_exact texts :
  len (comma_join texts) = foldr Z.add 0 (len <$> texts) + Z.max 0 (Z.of_nat (List.length texts) - 1).
Proof.
  induction texts as [|t texts IH]; [done|]. destruct texts as [|u texts]; [cbn; lia|].
  rewrite comma_join_cons by done. rewrite len_append. cbn [len fmap list_fmap foldr List.length] in *. rewrite IH. lia.
Qed.

Lemma foldr_add_app (l1 l2 : list Z) : foldr Z.add 0 (l1 ++ l2) = foldr Z.add 0 l1 + foldr Z.add 0 l2.
Proof. induction l1 as [|x l1 IH]; cbn; [done|]. rewrite IH. lia. Qed.

Lemma len_sees : sees_document (fun v => len (marshal v)).
Proof.
  assert (Hobj : forall fields, len (marshal (VObject fields)) =
    2 + (foldr Z.add 0 (len <$> (member_text <$> fields)) + Z.max 0 (Z.of_nat (List.length (member_text <$> fields)) - 1))).
  { intros fields. change (marshal (VObject fields)) with (String "{" (comma_join (member_text <$> fields) ++ "}")).
    cbn [len]. rewrite len_append, len_comma_join_exact. cbn [len]. lia. }
  assert (Harr : forall items, len (marshal (VArray items)) =
    2 + (foldr Z.add 0 (len <$> (marshal <$> items)) + Z.max 0 (Z.of_nat (List.length (marshal <$> items)) - 1))).
  { intros items. change (marshal (VArray items)) with (String "[" (comma_join (marshal <$> items) ++ "]")).
    cbn [len]. rewrite len_append, len_comma_join_exact. cbn [len]. lia. }
  intros v v' HR. induction HR as [a x y b|a k w w' b _ IH|a w w' b _ IH]; rewrite ?Hobj, ?Harr.
  all: rewrite !fmap_app, !foldr_add_app, !length_app, !fmap_cons; cbn [foldr List.length].
  - lia.
  - assert (len (member_text (k, w)) = len (member_text (k, w'))) as ->; [|done].
    unfold member_text. rewrite !len_append. cbn [len]. by rewrite IH.
  - by rewrite IH.
Qed.

Lemma conforms_sees t : sees_document (fun v => conforms t (tree v)).
Proof.
  intros v v' HR. revert t. induction HR as [a [k x] [k' y] b|a k w w' b _ IH|a w w' b _ IH]; intros t; cbn [tree]; rewrite !fmap_app;
    destruct t as [| |t|fields]; cbn [conforms]; try done; rewrite !forallb_app; cbn [fmap list_fmap forallb].
  - by destruct (match find_field fields k with Some _ => _ | None => _ end), (match find_field fields k' with Some _ => _ | None => _ end).
  - destruct (find_field fields k) as [[n t]|]; [by rewrite IH|done].
  - by rewrite IH.
Qed.

(** ** Reading it *)

(** The text of a string or a number. *)
Definition scalar (j : jvalue) : option (string + string) :=
  match j with JString s => Some (inl s) | JNumber t => Some (inr t) | _ => None end.

Lemma scalar_sees : sees_document (fun v => scalar (tree v)).
Proof. by intros v v' []. Qed.

Lemma tree_not_null v : tree v <> JNull.
Proof. by destruct v. Qed.

Definition read_scalar (spec : list (string * ftype)) (members : list (string * jvalue)) (name : string) : option (string + string) :=
  field_value spec members name ≫= scalar.

Lemma get_string_scalar p name :
  get_string p name = match read_scalar (dec_fields p) (dec_members p) name with Some (inl s) => s | _ => "" end.
Proof. unfold get_string, read_scalar. by destruct (field_value _ _ _) as [[]|]. Qed.

Lemma get_int_scalar p name :
  get_int p name = match read_scalar (dec_fields p) (dec_members p) name with Some (inr t) => default 0 (parse_int t) | _ => 0 end.
Proof. unfold get_int, read_scalar. by destruct (field_value _ _ _) as [[]|]. Qed.

Section Read.
Variable spec : list (string * ftype).

Definition selected (key : string) : option string := fst <$> find_field spec key.

(** No field is selected by two members. *)
Definition distinct (fields : list (string * value)) : Prop := NoDup (omap (fun kw => selected kw.1) fields).

(** The step of [field_value]. *)
Definition field_step (name : string) (acc : option jvalue) (kw : string * jvalue) : option jvalue :=
  match find_field spec kw.1, kw.2 with
  | Some (n, _), JNull => acc
  | Some (n, _), _ => if bool_decide (n = name) then Some kw.2 else acc
  | None, _ => acc
  end.

Lemma field_value_steps members name : field_value spec members name = foldl (field_step name) None members.
Proof.
  unfold field_value. generalize (@None jvalue) as acc. induction members as [|[k w] members IH]; intros acc; [done|].
  cbn [foldl]. rewrite IH. f_equal.
Qed.

Lemma field_step_tree name acc k v : field_step name acc (k, tree v) =
  if bool_decide (selected k = Some name) then Some (tree v) else acc.
Proof.
  unfold field_step, selected. cbn [fst snd]. destruct (find_field spec k) as [[n t]|]; cbn; [|by rewrite bool_decide_eq_false_2].
  rewrite (bool_decide_ext (Some n = Some name) (n = name)) by naive_solver. by destruct v.
Qed.

Lemma foldl_scalar name members acc acc' :
  acc ≫= scalar = acc' ≫= scalar ->
  foldl (field_step name) acc members ≫= scalar = foldl (field_step name) acc' members ≫= scalar.
Proof.
  revert acc acc'. induction members as [|[k w] members IH]; intros acc acc' E; [done|]. cbn [foldl]. apply IH.
  unfold field_step. cbn [fst snd]. destruct (find_field spec k) as [[n t]|]; [|done]. destruct w; try done; by case_bool_decide.
Qed.

Definition trees (fields : list (string * value)) : list (string * jvalue) := (fun '(k, w) => (k, tree w)) <$> fields.

Lemma read_reordered1 fields v' :
  reorder1 (VObject fields) v' -> distinct fields ->
  exists fields', v' = VObject fields' /\ distinct fields' /\
    forall name, read_scalar spec (trees fields) name = read_scalar spec (trees fields') name.
Proof.
  intros HR Hd. inversion HR as [a x y b E|a k w w' b Hw E|]; subst; (eexists; split; [reflexivity|]).
  - assert (Hp : (a ++ x :: y :: b)%list ≡ₚ (a ++ y :: x :: b)%list) by (by rewrite Permutation_swap).
    split; [by unfold distinct; rewrite <- Hp|]. intros name. unfold read_scalar. rewrite !field_value_steps. unfold trees.
    rewrite !fmap_app, !foldl_app, !fmap_cons. destruct x as [kx x], y as [ky y]. cbn [foldl]. rewrite !field_step_tree.
    do 2 f_equal. case_bool_decide as Hx; case_bool_decide as Hy; try done. exfalso.
    unfold distinct in Hd. rewrite omap_app in Hd. cbn in Hd. rewrite Hx, Hy in Hd. apply NoDup_app in Hd as (_ & _ & Hd).
    apply NoDup_cons in Hd as [Hn _]. apply Hn. left.
  - split; [unfold distinct in *; by rewrite omap_app in Hd |- *|]. intros name. unfold read_scalar. rewrite !field_value_steps. unfold trees.
    rewrite !fmap_app, !foldl_app, !fmap_cons. cbn [foldl]. apply foldl_scalar. rewrite !field_step_tree.
    case_bool_decide; [|done]. cbn. by apply scalar_sees.
Qed.

Lemma read_reordered fields v' :
  reordered (VObject fields) v' -> distinct fields ->
  exists fields', v' = VObject fields' /\ forall name, read_scalar spec (trees fields) name = read_scalar spec (trees fields') name.
Proof.
  intros HR. remember (VObject fields) as v eqn:Ev. revert fields Ev.
  induction HR as [v|v1 v2 v3 H1 _ IH]; intros fields -> Hd; [by exists fields|].
  destruct (read_reordered1 _ _ H1 Hd) as (f2 & -> & Hd2 & E2). destruct (IH f2 eq_refl Hd2) as (f3 & -> & E3).
  exists f3. split; [done|]. intros name. by rewrite E2.
Qed.

(** What a consumer decodes does not depend on the order of the members. *)
Lemma decode_reordered fields v' p :
  reordered (VObject fields) v' -> distinct fields ->
  ascii_value (VObject fields) = true -> depth_of (VObject fields) <= maxNestingDepth ->
  decode_struct spec (marshal (VObject fields)) = Some p ->
  exists p', decode_struct spec (marshal v') = Some p' /\
    (forall name, get_string p' name = get_string p name) /\ (forall name, get_int p' name = get_int p name).
Proof.
  intros HR Hd Ha Hdp HD. destruct (read_reordered _ _ HR Hd) as (fields' & -> & E).
  assert (Hc : conforms (FStruct spec) (tree (VObject fields)) = true).
  { unfold decode_struct in HD. rewrite parse_document_marshal in HD by done. cbn [tree] in *. by destruct (conforms _ _). }
  rewrite decode_struct_marshal in HD by done. injection HD as <-. eexists. split.
  - apply decode_struct_marshal.
    + by rewrite <- (sees_reordered _ _ _ ascii_sees HR).
    + by rewrite <- (sees_reordered _ _ _ depth_sees HR).
    + by rewrite <- (sees_reordered _ _ _ (conforms_sees (FStruct spec)) HR).
  - split; intros name; rewrite ?get_string_scalar, ?get_int_scalar; cbn [dec_fields dec_members]; fold (trees fields) (trees fields');
      by rewrite E.
Qed.

End Read.

(** ** Consumers of a reordered document *)

Definition with_document (e : Draft) (v : value) (at_ : Time) : Draft :=
  mkDraft (eventType e) (eventVersion e) (aggregateType e) (aggregateID e) (aggregateVersion e) (correlationID e) (causationID e)
    at_ (marshal v).

(** A draft of a document that a consumer's struct can decode. *)
Record document (e : Draft) (fields : list (string * value)) (spec : list (string * ftype)) : Prop := {
  do_payload : payload e = marshal (VObject fields);
  do_distinct : distinct spec fields;
  do_ascii : ascii_value (VObject fields) = true;
  do_depth : depth_of (VObject fields) <= maxNestingDepth
}.

Lemma ParseRequested_reordered id e fields v' at_ l :
  document e fields requested_fields -> reordered (VObject fields) v' ->
  ParseRequested (mkEnvelope id e) = Ok l -> ParseRequested (mkEnvelope id (with_document e v' at_)) = Ok l.
Proof.
  intros [Hp Hd Ha Hdp] HR. unfold ParseRequested, with_document. cbn [draft eventType eventVersion aggregateType aggregateVersion
    causationID correlationID aggregateID payload]. destruct (_ || _); [done|].
  destruct (decode_struct requested_fields (payload e)) as [p|] eqn:HD; [|done]. rewrite Hp in HD.
  destruct (decode_reordered _ _ _ p HR Hd Ha Hdp HD) as (p' & -> & Es & Ei). by rewrite ?Es, ?Ei.
Qed.

Lemma ParseRiskAssessed_reordered id e fields v' at_ a :
  document e fields assessed_fields -> reordered (VObject fields) v' ->
  ParseRiskAssessed (mkEnvelope id e) = Ok a -> ParseRiskAssessed (mkEnvelope id (with_document e v' at_)) = Ok a.
Proof.
  intros [Hp Hd Ha Hdp] HR. unfold ParseRiskAssessed, with_document. cbn [draft eventType eventVersion aggregateType aggregateVersion
    causationID correlationID aggregateID payload]. destruct (_ || _); [done|].
  destruct (decode_struct assessed_fields (payload e)) as [p|] eqn:HD; [|done]. rewrite Hp in HD.
  destruct (decode_reordered _ _ _ p HR Hd Ha Hdp HD) as (p' & -> & Es & Ei). by rewrite ?Es, ?Ei.
Qed.

Lemma ParseReviewDecided_reordered id e fields v' at_ rd :
  document e fields decided_fields -> reordered (VObject fields) v' ->
  ParseReviewDecided (mkEnvelope id e) = Ok rd -> ParseReviewDecided (mkEnvelope id (with_document e v' at_)) = Ok rd.
Proof.
  intros [Hp Hd Ha Hdp] HR. unfold ParseReviewDecided, with_document. cbn [draft eventType eventVersion aggregateType aggregateVersion
    causationID correlationID aggregateID payload]. destruct (_ || _); [done|].
  destruct (decode_struct decided_fields (payload e)) as [p|] eqn:HD; [|done]. rewrite Hp in HD.
  destruct (decode_reordered _ _ _ p HR Hd Ha Hdp HD) as (p' & -> & Es & Ei). by rewrite ?Es, ?Ei.
Qed.

(** ** Documents the server keeps as they are *)

(** Visible characters that are neither escaped by [json.Marshal] nor by the server. *)
Definition kept_byte (c : Z) : bool := is_visible c && negb (c =? 34) && negb (c =? 92) && html_safe c.

Fixpoint kept_value (v : value) : bool :=
  match v with
  | VString s => all_bytes kept_byte s
  | VArray items => forallb kept_value items
  | VObject fields => forallb (fun '(k, w) => all_bytes kept_byte k && kept_value w) fields
  | _ => true
  end.

Lemma kept_ascii s : all_bytes kept_byte s = true -> ascii_text s = true.
Proof.
  intros Hs. apply visible_ascii. revert Hs. apply all_bytes_impl. intros c _. unfold kept_byte. rewrite !andb_true_iff. tauto.
Qed.

Lemma kept_value_ascii v : kept_value v = true -> ascii_value v = true.
Proof.
  induction v as [s|z|b|items IH|fields IH] using value_ind'; cbn; try done.
  - apply kept_ascii.
  - rewrite !forallb_forall. intros Hv w Hw. rewrite list.Forall_forall in IH. apply IH; [by apply list_elem_of_In|auto].
  - rewrite !forallb_forall. intros Hv [k w] Hw. rewrite list.Forall_forall in IH. specialize (Hv _ Hw). cbn in Hv.
    apply andb_true_iff in Hv as [Hk Hv]. rewrite (kept_ascii _ Hk). cbn. apply (IH (k, w)); [by apply list_elem_of_In|done].
Qed.

(** Documented behaviour of JSONB: an object is written with its members in an
    order of the server's and white space between the tokens. *)
Class JsonbText `{Pg} : Prop := stored_json_text fields stored :
  kept_value (VObject fields) = true -> depth_of (VObject fields) <= maxNestingDepth ->
  stored_json (marshal (VObject fields)) = Some stored ->
  (exists body, stored = String "{" (body ++ "}")) /\
  exists v', reordered (VObject fields) v' /\ json_Compact stored = Some (marshal v').

#[export] Instance concreteJsonbText : JsonbText.
Proof.
  intros fields stored Hp Hd [= <-]. split; [by eexists|]. exists (VObject fields). split; [constructor|].
  change (json_Compact (marshal (VObject fields)) = Some (marshal (VObject fields))).
  apply json_Compact_marshal; [by apply kept_value_ascii|done].
Qed.

(** ** An event, stored and read again *)

Section Stored.
Context `{PgLaws} `{!JsonbText}.

(** The columns of an event's row that a publisher reads. *)
Definition event_columns (r : OutboxRow) :=
  (ob_type r, ob_version r, ob_aggregate_type r, ob_aggregate_id r, ob_aggregate_version r, ob_correlation r, ob_causation r,
   ob_occurred_at r, ob_payload r).

(** The row holds the event. *)
Definition holds_event (e : Draft) (r : OutboxRow) : Prop :=
  exists seq now stored r0, stored_json (payload e) = Some stored /\ outbox_row seq now stored e = Some r0 /\
    event_columns r = event_columns r0.

(** A document the server keeps, of at most half the limit. *)
Definition kept_document (e : Draft) (fields : list (string * value)) : Prop :=
  payload e = marshal (VObject fields) /\ kept_value (VObject fields) = true /\
  depth_of (VObject fields) <= maxNestingDepth - 1 /\ len (marshal (VObject fields)) <= 32768.

Lemma normalize_stored fields stored :
  kept_value (VObject fields) = true -> depth_of (VObject fields) <= maxNestingDepth - 1 -> len (marshal (VObject fields)) <= 32768 ->
  stored_json (marshal (VObject fields)) = Some stored ->
  exists fields', reordered (VObject fields) (VObject fields') /\ normalizePayload stored = Ok (marshal (VObject fields')).
Proof.
  intros Hk Hd Hl Hs. destruct (stored_json_text _ _ Hk ltac:(lia) Hs) as [[body ->] (v' & HR & HC)].
  assert (exists fields', v' = VObject fields') as [fields' ->].
  { clear -HR. remember (VObject fields) as v eqn:Ev. revert fields Ev.
    induction HR as [v|v1 v2 v3 H1 _ IH]; intros fields ->; [by exists fields|]. inversion H1; subst; by eapply IH. }
  exists fields'. split; [done|].
  pose proof (kept_value_ascii _ Hk) as Ha. rewrite (sees_reordered _ _ _ ascii_sees HR) in Ha.
  rewrite (sees_reordered _ _ _ depth_sees HR) in Hd. rewrite (sees_reordered _ _ _ len_sees HR) in Hl.
  pose proof (normalizePayload_marshal fields' Ha ltac:(lia) Hl) as HN. unfold normalizePayload in HN |- *.
  rewrite (TrimSpace_delimited "{" body "}") by done. rewrite HC.
  change (starts_object (String "{" (body ++ "}"))) with true.
  rewrite (proj2 (Z.ltb_ge (len (String "{" (body ++ "}"))) 2)) by (cbn [len]; rewrite len_append; cbn [len]; pose proof (len_nonneg body); lia).
  cbn [negb orb]. destruct (_ || _) eqn:E in HN; [done|]. clear E.
  change (marshal (VObject fields')) with (String "{" (comma_join (member_text <$> fields') ++ "}")) in HN |- *.
  rewrite (TrimSpace_delimited "{" _ "}") in HN by done.
  change (String "{" (comma_join (member_text <$> fields') ++ "}")) with (marshal (VObject fields')) in HN |- *.
  rewrite json_Compact_marshal in HN by (done || lia). exact HN.
Qed.

(** What a publisher reads: the same draft around the same document. *)
Lemma read_back e fields r dr :
  draft_wf e -> kept_document e fields -> holds_event e r -> NewDraft (row_params r) = Ok dr ->
  exists fields' at_, reordered (VObject fields) (VObject fields') /\ dr = with_document e (VObject fields') at_.
Proof.
  intros Hw (Hp & Hk & Hd & Hl) (seq & now & stored & r0 & Hs & Hr0 & Hc) HN. rewrite Hp in Hs.
  destruct (normalize_stored fields stored Hk Hd Hl Hs) as (fields' & HR & Hn). exists fields'.
  pose proof (dw_valid _ Hw) as (_ & _ & _ & Ha & _ & Hco & Hca & _)%draft_validate_Ok.
  destruct (uuid_scan_canonical _ Ha) as (a & Ea & Ea'). destruct (uuid_scan_canonical _ Hco) as (c & Ec & Ec').
  unfold outbox_row in Hr0. rewrite Ea, Ec in Hr0.
  assert (exists ca, scan_optional (nullableString (causationID e)) = Some ca /\
    match ca with Some u => uuid_text u | None => "" end = causationID e) as (ca & Eca & Eca').
  { unfold nullableString. case_bool_decide as E; [by exists None|]. destruct Hca as [?|Hca]; [done|].
    destruct (uuid_scan_canonical _ Hca) as (u & Eu & Eu'). cbn. rewrite Eu. by exists (Some u). }
  rewrite Eca in Hr0. injection Hr0 as <-. unfold event_columns in Hc. cbn in Hc. injection Hc as E1 E2 E3 E4 E5 E6 E7 E8 E9.
  unfold row_params in HN. rewrite E1, E2, E3, E4, E5, E6, E7, E8, E9, Ea', Ec', Eca' in HN. unfold NewDraft in HN.
  cbn [param_Payload param_AggregateID param_CorrelationID param_CausationID param_EventType param_EventVersion param_AggregateType
    param_AggregateVersion param_OccurredAt] in HN.
  rewrite Hn, (canonical_normalize _ Ha), (canonical_normalize _ Hco) in HN. cbn [fst] in HN.
  exists (UTC (stored_time (occurredAt e))). split; [done|]. unfold with_document. case_bool_decide as Ecz.
  - rewrite <- Ecz in HN. destruct (draft_validate _); [|done]. by injection HN as <-.
  - destruct Hca as [?|Hca]; [done|]. rewrite (canonical_normalize _ Hca) in HN. destruct (draft_validate _); [|done].
    by injection HN as <-.
Qed.

Lemma NewDraft_wf p d fields : NewDraft p = Ok d -> payload d = marshal (VObject fields) ->
  ascii_value (VObject fields) = true -> depth_of (VObject fields) <= maxNestingDepth -> len (marshal (VObject fields)) <= 32768 ->
  draft_wf d.
Proof.
  intros HN Hp Ha Hd Hl. split.
  - unfold NewDraft in HN. destruct (normalizePayload _); [|done]. destruct (if bool_decide _ then _ else _); [|done].
    destruct (draft_validate _) as [[]|] eqn:E; [|done]. by injection HN as <-.
  - rewrite Hp. by apply normalizePayload_marshal.
  - unfold NewDraft in HN. destruct (normalizePayload _); [|done]. destruct (if bool_decide _ then _ else _); [|done].
    destruct (draft_validate _) as [[]|]; [|done]. by injection HN as <-.
Qed.

(** The message of a stored event: its text is read as an envelope around the
    same document. *)
Lemma message_read e fields r dr id text :
  draft_wf e -> kept_document e fields -> holds_event e r -> eventVersion e <= 32767 -> aggregateVersion e <= MaxInt64 ->
  NewDraft (row_params r) = Ok dr -> isCanonicalUUID id = true -> encode_envelope (mkEnvelope id dr) = Ok text ->
  ParseEnvelope text = Ok (mkEnvelope id dr) /\
  exists fields' at_, reordered (VObject fields) (VObject fields') /\ dr = with_document e (VObject fields') at_.
Proof.
  intros Hw Hk Hh Hev Hav HN Hid He. destruct (read_back e fields r dr Hw Hk Hh HN) as (fields' & at_ & HR & ->).
  split; [|by exists fields', at_]. destruct Hk as (_ & Hk & Hd & Hl). apply kept_value_ascii in Hk.
  rewrite (sees_reordered _ _ _ ascii_sees HR) in Hk. rewrite (sees_reordered _ _ _ depth_sees HR) in Hd.
  rewrite (sees_reordered _ _ _ len_sees HR) in Hl.
  destruct (encode_parse (mkEnvelope id (with_document e (VObject fields') at_)) fields') as (text' & He' & HP); [|congruence].
  split; try done.
  - eapply NewDraft_wf; [exact HN|done|done|lia|done].
  - unfold encode_envelope, MarshalJSON in He. unfold printable_time. cbn [draft] in *. destruct (_ || _); [done|].
    destruct (negb _) eqn:E in He; [done|]. apply negb_false_iff, andb_true_iff in E as [?%Z.leb_le ?%Z.ltb_lt]. done.
Qed.

End Stored.

(** ** The documents of the transfer events *)

Lemma uuid_kept s : isCanonicalUUID s = true -> all_bytes kept_byte s = true.
Proof.
  intros [Hs _]%isCanonicalUUID_spec. eapply all_bytes_impl; [|apply uuid_shape_bytes, Hs].
  intros c _ Hc. unfold kept_byte, html_safe, is_visible, is_uuid_byte, is_hex, is_digit, is_lower, is_upper in *. lia.
Qed.

Lemma time_kept t : all_bytes kept_byte (format_rfc3339nano t) = true.
Proof. apply format_bytes; [|done..]. unfold is_digit, kept_byte, html_safe, is_visible. intros. lia. Qed.

Lemma currency_kept c : currency_valid c = true -> all_bytes kept_byte (currency_String c) = true.
Proof.
  intros H. unfold currency_String. rewrite H. unfold currency_valid in H. bool_simpl.
  assert (Hl : forall a, letter a = true -> kept_byte (byte_val a) = true).
  { intros a. unfold letter, is_upper, kept_byte, html_safe, is_visible. lia. }
  cbn [negb all_bytes]. by rewrite !Hl.
Qed.

Lemma object_bound_app a b : object_bound (a ++ b) = object_bound a + object_bound b - 2.
Proof. unfold object_bound. induction a as [|[k w] a IH]; cbn [app foldr]; lia. Qed.

Lemma kept_document_bound e fields :
  payload e = marshal (VObject fields) -> kept_value (VObject fields) = true -> depth_of (VObject fields) <= maxNestingDepth - 1 ->
  object_bound fields <= 32768 -> kept_document e fields.
Proof.
  intros Hp Hk Hd Hb. split_and!; try done. etrans; [apply len_marshal_object_le|done].
  cbn in Hk. rewrite forallb_forall in Hk. apply list.Forall_forall. intros [k w] Hin%list_elem_of_In.
  specialize (Hk _ Hin). cbn in Hk. apply kept_ascii. by bool_simpl.
Qed.

Lemma kept_decodable e fields spec : kept_document e fields -> distinct spec fields -> document e fields spec.
Proof. intros (Hp & Hk & Hd & _) Hn. split; [done|done|by apply kept_value_ascii|lia]. Qed.

(** Each event, with the fields its consumer decodes. *)
Definition consumable (e : Draft) (spec : list (string * ftype)) : Prop :=
  exists fields, kept_document e fields /\ distinct spec fields.

Lemma requested_consumable l :
  lifecycle_wf l -> lc_status l = StatusPendingRisk -> printable_time (requestedAt (lc_transfer l)) ->
  all_bytes kept_byte (riskPolicyVersion l) = true -> consumable (requested_draft l) requested_fields.
Proof.
  intros Hw Hs Hp Hk. pose proof Hw as (_ & Ht & _). destruct (intent_fields_ok _ Ht Hp) as (_ & Hb & Hd).
  destruct (policy_text (riskPolicyVersion l)) as [_ Hl]; [apply lifecycle_policy; [done|congruence]|].
  destruct Ht as ((Hid & _ & Hr & Hsrc & Hdst & _ & Hc & _ & _)%transfer_validate_Ok & _).
  exists (intent_fields (lc_transfer l) ++ [("risk_policy_version", VString (riskPolicyVersion l))])%list. split.
  - apply kept_document_bound; [done| | |].
    + unfold intent_fields. cbn [app kept_value forallb].
      by rewrite (uuid_kept _ Hid), (uuid_kept _ Hr), (uuid_kept _ Hsrc), (uuid_kept _ Hdst), (currency_kept _ Hc), time_kept, Hk.
    + done.
    + rewrite object_bound_app. unfold object_bound at 2. cbn [foldr marshal]. cbn [len]. lia.
  - apply (bool_decide_eq_true_1 _). vm_compute. reflexivity.
Qed.

Lemma assessed_consumable l ev at_ ca :
  lifecycle_wf l -> evaluation_wf ev -> lc_status l <> StatusCompleted -> eval_policyVersion ev = riskPolicyVersion l ->
  all_bytes kept_byte (riskPolicyVersion l) = true -> Forall (fun sg => all_bytes kept_byte (signal_code sg) = true) (signals ev) ->
  consumable (assessed_draft l ev at_ ca) assessed_fields.
Proof.
  intros Hw Hev Hst Hpv Hk Hcodes. destruct (assessed_members_ok l ev Hw Hev Hst Hpv) as (_ & Hd & Hb).
  destruct Hw as (_ & ((Hid & _)%transfer_validate_Ok & _) & _). exists (assessed_members l ev). split.
  - apply kept_document_bound; [done| |unfold maxNestingDepth; lia|done].
    unfold assessed_members. cbn [kept_value forallb]. rewrite (uuid_kept _ Hid), Hpv, Hk.
    assert (forallb kept_value (signal_value <$> signals ev) = true) as ->; [|by destruct (decision ev)].
    apply forallb_forall. intros v (sg & -> & Hsg)%list_elem_of_In%list_elem_of_fmap. cbn.
    rewrite list.Forall_forall in Hcodes. by rewrite Hcodes.
  - apply (bool_decide_eq_true_1 _). vm_compute. reflexivity.
Qed.

Lemma decided_consumable l subject at_ :
  lifecycle_wf l -> all_bytes kept_byte subject = true -> len subject <= 128 -> consumable (decided_draft l subject at_) decided_fields.
Proof.
  intros Hw Hk Hl. destruct (decided_members_ok l subject Hw (kept_ascii _ Hk) Hl) as (_ & Hd & Hb).
  destruct Hw as (_ & ((Hid & _)%transfer_validate_Ok & _) & _). exists (decided_members l subject). split.
  - apply kept_document_bound; [done| |unfold maxNestingDepth; lia|done].
    unfold decided_members. cbn [kept_value forallb]. rewrite (uuid_kept _ Hid), Hk. by destruct (lc_status l).
  - apply (bool_decide_eq_true_1 _). vm_compute. reflexivity.
Qed.
