(* ===== verification/Publisher.v ===== *)
(** * The outbox publisher

    [internal/outbox/publisher.go] and the interfaces of [internal/outbox/outbox.go]:
    batches are claimed from a [Store], sent through a [Producer], and completed or
    released.  The interfaces are type classes over the state [W] both act on; what
    the publisher relies on of them is [PublicationLaws], and its properties are
    proved against these laws. *)

From stdpp Require Import base list gmap strings numbers.
From Stdlib Require Import ZArith Lia.
From S2P Require Import Prelude GoText Json GoTime Event EnvelopeJson OutboxRepo.

Open Scope string_scope.
Open Scope Z_scope.

(** ** Configuration *)

Definition maxBatchSize : Z := 100.

Record PublisherConfig := mkPublisherConfig {
  BatchSize : Z;
  ClaimLease : Z;
  PollInterval : Z;
  BaseRetryDelay : Z;
  MaxRetryDelay : Z
}.

Record BatchResult := mkBatchResult {
  Claimed : Z;
  Published : Z;
  Failed : Z
}.

Definition validatePublisherConfig (config : PublisherConfig) : Result unit :=
  if (BatchSize config <=? 0) || (maxBatchSize <? BatchSize config) then Err [Other "outbox batch size"]
  else if (ClaimLease config <? Second) || (maxClaimLease <? ClaimLease config) || negb (Z.rem (ClaimLease config) Second =? 0)
  then Err [Other "outbox claim lease"]
  else if PollInterval config <=? 0 then Err [Other "outbox poll interval"]
  else if (BaseRetryDelay config <? Second) || (maxRetryDelay <? BaseRetryDelay config) ||
          negb (Z.rem (BaseRetryDelay config) Second =? 0)
  then Err [Other "outbox base retry delay"]
  else if (MaxRetryDelay config <? BaseRetryDelay config) || (maxRetryDelay <? MaxRetryDelay config) ||
          negb (Z.rem (MaxRetryDelay config) Second =? 0)
  then Err [Other "outbox maximum retry delay"]
  else Ok tt.

(** [NewPublisher] with a store, a producer and a logger. *)
Definition NewPublisher (config : PublisherConfig) : Result PublisherConfig :=
  _ ← validatePublisherConfig config;
  mret config.

(** The loop of [retryDelay]. *)
Fixpoint double_delay (n : nat) (delay maximum : Z) : Z :=
  match n with
  | O => Z.min delay maximum
  | S n' => if Z.quot maximum 2 <=? delay then maximum else double_delay n' (i64_mul delay 2) maximum
  end.

Definition retryDelay (config : PublisherConfig) (previousFailures : Z) : Z :=
  double_delay (Z.to_nat (Z.min previousFailures 62)) (BaseRetryDelay config) (MaxRetryDelay config).

(** ** Interfaces *)

Record Message := mkMessage {
  Key : string;
  Value : string
}.

Class Store (W : Type) := {
  store_Claim : Z -> Z -> W -> Result (list ClaimedEvent) * W;
  store_MarkPublished : string -> string -> W -> Result unit * W;
  store_MarkFailed : string -> string -> Z -> string -> W -> Result unit * W
}.

(** [Publish] answers [None] for an accepted message and else the text of the
    error; while it waits for the broker, the state may change. *)
Class Producer (W : Type) := {
  Publish : Message -> W -> option string * W
}.

Section Publisher.
Context {W : Type} `{Store W} `{Producer W}.

(** The message of a claimed event. *)
Definition message_of (e : Envelope) : Result Message :=
  match encode_envelope e with
  | Err err => Err err
  | Ok encoded => Ok (mkMessage (aggregateType (draft e) ++ ":" ++ aggregateID (draft e)) encoded)
  end.

(** The loop of [PublishBatch]: the counts so far, the error, the state. *)
Fixpoint publish_each (config : PublisherConfig) (claimed : list ClaimedEvent) (result : BatchResult) (w : W)
    : BatchResult * Result unit * W :=
  match claimed with
  | [] => (result, Ok tt, w)
  | stored :: rest =>
      match message_of (ce_Envelope stored) with
      | Err err => (result, Err err, w)
      | Ok message =>
          match Publish message w with
          | (Some text, w1) =>
              let retryAfter := retryDelay config (ce_PublishAttempts stored) in
              match store_MarkFailed (eventID (ce_Envelope stored)) (ce_ClaimToken stored) retryAfter text w1 with
              | (Err markErr, w2) => (result, Err (Other text :: markErr), w2)
              | (Ok _, w2) =>
                  publish_each config rest (mkBatchResult (Claimed result) (Published result) (Failed result + 1)) w2
              end
          | (None, w1) =>
              match store_MarkPublished (eventID (ce_Envelope stored)) (ce_ClaimToken stored) w1 with
              | (Err err, w2) => (result, Err err, w2)
              | (Ok _, w2) =>
                  publish_each config rest (mkBatchResult (Claimed result) (Published result + 1) (Failed result)) w2
              end
          end
      end
  end.

Definition PublishBatch (config : PublisherConfig) (w : W) : BatchResult * Result unit * W :=
  match store_Claim (BatchSize config) (ClaimLease config) w with
  | (Err e, w1) => (mkBatchResult 0 0 0, Err e, w1)
  | (Ok claimed, w1) => publish_each config claimed (mkBatchResult (Z.of_nat (length claimed)) 0 0) w1
  end.

(** The loop of [Run], for [fuel] iterations: [done n] tells whether the context
    has ended at its [n]-th look at it, and [None] that it still runs. *)
Fixpoint publisher_Run (fuel : nat) (config : PublisherConfig) (done : nat -> bool) (n : nat) (w : W)
    : option (Result unit) * W :=
  match fuel with
  | O => (None, w)
  | S fuel' =>
      if done n then (Some (Ok tt), w)
      else match PublishBatch config w with
      | (_, Err e, w1) => (Some (Err e), w1)
      | (result, Ok _, w1) =>
          if 0 <? Claimed result then publisher_Run fuel' config done (S n) w1
          else if done (S n) then (Some (Ok tt), w1)
          else publisher_Run fuel' config done (S (S n)) w1
      end
  end.

End Publisher.

(** ** What the publisher relies on *)

(** [published w id]: the event is marked as published; [accepted w m]: the
    broker has taken the message; [carries w id m]: [m] is the message of the
    stored event.  Others may claim, publish and complete events while the broker
    is waited for, under the same rule. *)
Class PublicationLaws (W : Type) `{Store W} `{Producer W} := {
  published : W -> string -> Prop;
  accepted : W -> Message -> Prop;
  carries : W -> string -> Message -> Prop;
  evolves : W -> W -> Prop;
  evolves_preorder :: PreOrder evolves;
  evolves_accepted w w' m : evolves w w' -> accepted w m -> accepted w' m;
  evolves_carries w w' id m : evolves w w' -> carries w id m -> carries w' id m;
  claim_law n lease w r w' : store_Claim n lease w = (r, w') ->
    evolves w w' /\ (forall id, published w' id -> published w id) /\
    (forall claimed c m, r = Ok claimed -> c ∈ claimed -> message_of (ce_Envelope c) = Ok m ->
       carries w' (eventID (ce_Envelope c)) m);
  failed_law eid token delay text w r w' : store_MarkFailed eid token delay text w = (r, w') ->
    evolves w w' /\ (forall id, published w' id -> published w id);
  marked_law eid token w r w' : store_MarkPublished eid token w = (r, w') ->
    evolves w w' /\ (forall id m, carries w eid m -> published w' id -> published w id \/ id = eid);
  publish_law m w o w' : Publish m w = (o, w') ->
    evolves w w' /\ (o = None -> accepted w' m) /\
    (forall id, published w' id -> published w id \/ exists m', carries w' id m' /\ accepted w' m')
}.

Section Correct.
Context {W : Type} `{PublicationLaws W}.

(** No event counts as published before the broker has its message. *)
Definition sent (w : W) (id : string) : Prop := exists m, carries w id m /\ accepted w m.
Definition all_sent (w : W) : Prop := forall id, published w id -> sent w id.

Lemma evolves_sent w w' id : evolves w w' -> sent w id -> sent w' id.
Proof. intros He (m & Hc & Ha). exists m. split; [by eapply evolves_carries|by eapply evolves_accepted]. Qed.

Lemma all_sent_evolves w w' :
  evolves w w' -> (forall id, published w' id -> published w id \/ sent w' id) -> all_sent w -> all_sent w'.
Proof. intros He Hp Hs id [Hid|Hid]%Hp; [|done]. by eapply evolves_sent, Hs. Qed.

Lemma publish_each_sent config claimed result w result' r w' :
  publish_each config claimed result w = (result', r, w') ->
  (forall c m, c ∈ claimed -> message_of (ce_Envelope c) = Ok m -> carries w (eventID (ce_Envelope c)) m) ->
  all_sent w -> all_sent w' /\ evolves w w'.
Proof.
  revert result w. induction claimed as [|c claimed IH]; intros result w; cbn [publish_each]; [intros [= <- <- <-]; done|].
  intros HR Hcar Hs. destruct (message_of (ce_Envelope c)) as [m|e] eqn:Em; [|by injection HR as <- <- <-].
  destruct (Publish m w) as [o w1] eqn:EP. destruct (publish_law _ _ _ _ EP) as (He1 & Ha & Hp1).
  assert (Hs1 : all_sent w1) by (eapply all_sent_evolves; [done| |done]; exact Hp1).
  assert (Hstep : forall w2 result2, evolves w1 w2 -> all_sent w2 -> publish_each config claimed result2 w2 = (result', r, w') ->
    all_sent w' /\ evolves w w').
  { intros w2 result2 He2 Hs2 HR2. destruct (IH _ _ HR2) as [HI HE]; [|done|].
    - intros c' m' Hc' Hm'. eapply evolves_carries; [|by apply Hcar; [right|]]. by etrans.
    - split; [done|]. etrans; [exact He1|]. by etrans. }
  destruct o as [text|].
  - destruct (store_MarkFailed _ _ _ _ w1) as [rm w2] eqn:EM. destruct (failed_law _ _ _ _ _ _ _ EM) as [He2 Hp2].
    assert (Hs2 : all_sent w2) by (eapply all_sent_evolves; [exact He2| |done]; auto).
    destruct rm; [by eapply Hstep|]. injection HR as <- <- <-. split; [done|]. by etrans.
  - destruct (store_MarkPublished _ _ w1) as [rm w2] eqn:EM. destruct (marked_law _ _ _ _ _ EM) as [He2 Hp2].
    assert (Hs2 : all_sent w2).
    { assert (Hc1 : carries w1 (eventID (ce_Envelope c)) m) by (eapply evolves_carries; [exact He1|by apply Hcar; [left|]]).
      eapply all_sent_evolves; [exact He2| |done]. intros id [Hid| ->]%(Hp2 _ m Hc1); [by left|right]. exists m. split.
      - by eapply evolves_carries.
      - eapply evolves_accepted; [exact He2|]. by apply Ha. }
    destruct rm; [by eapply Hstep|]. injection HR as <- <- <-. split; [done|]. by etrans.
Qed.

Lemma PublishBatch_sent config w result r w' :
  PublishBatch config w = (result, r, w') -> all_sent w -> all_sent w' /\ evolves w w'.
Proof.
  unfold PublishBatch. destruct (store_Claim _ _ w) as [[claimed|e] w1] eqn:EC; intros HR Hs;
    destruct (claim_law _ _ _ _ _ EC) as (He & Hp & Hc);
    (assert (Hs1 : all_sent w1) by (eapply all_sent_evolves; [exact He| |done]; auto)).
  - apply publish_each_sent in HR as [? ?]; [split; [done|by etrans]| |done]. eauto.
  - by injection HR as <- <- <-.
Qed.

Lemma publish_each_counts config claimed result w result' r w' :
  publish_each config claimed result w = (result', r, w') ->
  Claimed result' = Claimed result /\ Published result <= Published result' /\ Failed result <= Failed result' /\
  let handled := Published result' + Failed result' - (Published result + Failed result) in
  match r with
  | Ok _ => handled = Z.of_nat (length claimed)
  | Err _ => handled < Z.of_nat (length claimed)
  end.
Proof.
  revert result w. induction claimed as [|c claimed IH]; intros result w; cbn [publish_each].
  { intros [= <- <- <-]. cbn. lia. }
  destruct (message_of _); [|intros [= <- <- <-]; cbn [length]; lia].
  destruct (Publish _ _) as [[text|] w1].
  - destruct (store_MarkFailed _ _ _ _ _) as [[] w2]; [|intros [= <- <- <-]; cbn [length]; lia].
    intros (E & ? & ? & Hr)%IH. cbn [Claimed Published Failed] in *. split_and!; [done|lia|lia|].
    destruct r; cbn [length]; lia.
  - destruct (store_MarkPublished _ _ _) as [[] w2]; [|intros [= <- <- <-]; cbn [length]; lia].
    intros (E & ? & ? & Hr)%IH. cbn [Claimed Published Failed] in *. split_and!; [done|lia|lia|].
    destruct r; cbn [length]; lia.
Qed.

(** ** Properties *)

(** At-least-once delivery: whatever fails on the way, a batch, and any number
    of iterations of the publisher, keep every event that is marked as published
    one whose message the broker has accepted. *)
Theorem publisher_sends_first (config : PublisherConfig) (w : W) :
  all_sent w ->
  (forall result r w', PublishBatch config w = (result, r, w') -> all_sent w') /\
  (forall fuel done n r w', publisher_Run fuel config done n w = (r, w') -> all_sent w').
Proof.
  intros Hs. split; [intros result r w' HR; by apply PublishBatch_sent in HR as [? _]|].
  intros fuel. revert w Hs. induction fuel as [|fuel IH]; intros w Hs done n r w'; cbn [publisher_Run]; [by intros [= <- <-]|].
  destruct (done n); [by intros [= <- <-]|]. destruct (PublishBatch config w) as [[result [[]|e]] w1] eqn:EB.
  - apply PublishBatch_sent in EB as [Hs1 _]; [|done]. destruct (0 <? Claimed result); [by apply IH|].
    destruct (done (S n)); [by intros [= <- <-]|by apply IH].
  - apply PublishBatch_sent in EB as [Hs1 _]; [|done]. by intros [= <- <-].
Qed.

(** The counts of a batch are exact: after a successful batch every claimed
    event is either published or scheduled for retry, and a batch that stops with
    an error has handled fewer. *)
Theorem PublishBatch_counts (config : PublisherConfig) (w w' : W) (result : BatchResult) (r : Result unit) :
  PublishBatch config w = (result, r, w') ->
  0 <= Published result /\ 0 <= Failed result /\
  match r with
  | Ok _ => Published result + Failed result = Claimed result
  | Err _ => Published result + Failed result <= Claimed result
  end.
Proof.
  unfold PublishBatch. destruct (store_Claim _ _ w) as [[claimed|e] w1]; [|intros [= <- <- <-]; cbn; lia].
  intros (E & ? & ? & Hr)%publish_each_counts. cbn [Claimed Published Failed] in *. split_and!; [lia|lia|].
  destruct r; lia.
Qed.

End Correct.

(** ** Retry delays *)

Lemma double_delay_spec n delay maximum :
  0 < delay -> delay <= maximum -> maximum <= maxRetryDelay -> Z.rem maximum 2 = 0 ->
  double_delay n delay maximum = Z.min (delay * 2 ^ Z.of_nat n) maximum.
Proof.
  intros Hd Hm Hb He. revert delay Hd Hm. induction n as [|n IH]; intros delay Hd Hm; cbn [double_delay].
  { by rewrite Z.mul_1_r. }
  pose proof (Z.quot_rem' maximum 2) as Hq. rewrite He in Hq.
  assert (Hpow : 2 ^ Z.of_nat (S n) = 2 * 2 ^ Z.of_nat n) by (rewrite Nat2Z.inj_succ, Z.pow_succ_r by lia; done).
  assert (1 <= 2 ^ Z.of_nat n) by (pose proof (Z.pow_pos_nonneg 2 (Z.of_nat n)); lia).
  unfold maxRetryDelay, Hour, Minute, Second in Hb. destruct (Z.leb_spec (Z.quot maximum 2) delay).
  - rewrite Hpow. nia.
  - unfold i64_mul. rewrite wrap64_id by int64_lia. rewrite IH by lia. rewrite Hpow. f_equal. lia.
Qed.

Lemma validate_Ok config :
  validatePublisherConfig config = Ok tt ->
  0 < BatchSize config <= maxBatchSize /\ Second <= ClaimLease config <= maxClaimLease /\ Z.rem (ClaimLease config) Second = 0 /\
  Second <= BaseRetryDelay config <= MaxRetryDelay config /\ MaxRetryDelay config <= maxRetryDelay /\
  (Second | BaseRetryDelay config) /\ (Second | MaxRetryDelay config).
Proof.
  unfold validatePublisherConfig. intros HR.
  repeat match type of HR with (if ?b then _ else _) = _ => let E := fresh "E" in destruct b eqn:E; [done|] end.
  rewrite !orb_false_iff, ?negb_false_iff, ?Z.leb_gt, ?Z.ltb_ge, ?Z.eqb_eq in *.
  destruct_and!. split_and!; solve [lia|apply Z.rem_divide; done|done].
Qed.

Lemma retryDelay_spec config k :
  validatePublisherConfig config = Ok tt -> 0 <= k ->
  retryDelay config k = Z.min (BaseRetryDelay config * 2 ^ k) (MaxRetryDelay config).
Proof.
  intros (_ & _ & _ & Hb & Hm & _ & [q Hq])%validate_Ok Hk. unfold retryDelay. unfold Second in *.
  rewrite double_delay_spec; [|lia|lia|done|].
  - rewrite Z2Nat.id by lia. destruct (Z.le_ge_cases k 62) as [Hle|Hge]; [by rewrite (Z.min_l k 62)|].
    rewrite (Z.min_r k 62) by done. assert (2 ^ 62 <= 2 ^ k) by (apply Z.pow_le_mono_r; lia).
    unfold maxRetryDelay, Hour, Minute, Second in Hm. change (2 ^ 62) with 4611686018427387904 in *. rewrite !Z.min_r by nia. done.
  - apply Z.rem_divide; [done|]. rewrite Hq. exists (q * 500000000). lia.
Qed.

(** The exponential back-off is exact and bounded: with a validated
    configuration the delay after [k] failures is [base * 2 ^ k] cut at the
    maximum, for every count the database can hold, without overflow; it lies
    between the two delays, is a whole number of seconds within what [MarkFailed]
    accepts, and never shrinks with more failures. *)
Theorem retryDelay_exact (config : PublisherConfig) (k : Z) :
  validatePublisherConfig config = Ok tt -> 0 <= k <= MaxInt32 ->
  retryDelay config k = Z.min (BaseRetryDelay config * 2 ^ k) (MaxRetryDelay config) /\
  BaseRetryDelay config <= retryDelay config k <= MaxRetryDelay config /\
  0 <= retryDelay config k <= maxRetryDelay /\ Z.rem (retryDelay config k) Second = 0 /\
  forall k', 0 <= k' <= k -> retryDelay config k' <= retryDelay config k.
Proof.
  intros Hv Hk. pose proof (validate_Ok _ Hv) as (_ & _ & _ & Hb & Hm & Db & Dm).
  assert (Hp : 1 <= 2 ^ k) by (pose proof (Z.pow_pos_nonneg 2 k); lia).
  assert (Hk0 : 0 <= k) by lia. rewrite (retryDelay_spec config k Hv Hk0). split; [done|]. unfold Second in *.
  split_and!; [nia|lia|nia|lia|..].
  - apply Z.rem_divide; [done|]. destruct (Z.min_spec (BaseRetryDelay config * 2 ^ k) (MaxRetryDelay config)) as [[_ ->]|[_ ->]]; [|done].
    by apply Z.divide_mul_l.
  - intros k' Hk'. rewrite retryDelay_spec by (exact Hv || lia). assert (2 ^ k' <= 2 ^ k) by (apply Z.pow_le_mono_r; lia). nia.
Qed.

Definition sample_config : PublisherConfig := mkPublisherConfig 10 (60 * Second) 1 (2 * Second) (45 * Second).

Lemma retryDelay_exact_witness : retryDelay sample_config 3 = 16 * Second /\ retryDelay sample_config 2147483647 = 45 * Second.
Proof.
  assert (Hv : validatePublisherConfig sample_config = Ok tt) by (vm_compute; reflexivity). split.
  - rewrite (proj1 (retryDelay_exact sample_config 3 Hv ltac:(unfold MaxInt32; lia))). reflexivity.
  - assert (H2 := proj1 (proj2 (retryDelay_exact sample_config 2147483647 Hv ltac:(unfold MaxInt32; lia)))).
    vm_compute. reflexivity.
Defined.
