(* ===== verification/AuditWriter.v ===== *)
(** * Audit records of review decisions

    [internal/audit/postgres/writer.go] with the constraints of
    [migrations/000010_create_transfer_review_audit_records.up.sql]. *)

From stdpp Require Import base list gmap strings numbers.
From Stdlib Require Import ZArith Lia.
From S2P Require Import Prelude GoText TransferDomain Database TransferRepo.

Open Scope string_scope.
Open Scope Z_scope.

Definition ErrInvalidArgument : leaf := errors_New "audit repository: invalid argument".

Record ReviewDecision := mkReviewDecision {
  TransferID : string;
  LifecycleVersion : Z;
  review_Decision : string;
  ActorSubject : string;
  OccurredAt : Time
}.

Definition validSubject (value : string) : bool :=
  if (len value =? 0) || (128 <? len value) then false else visible_runes value.

Section AuditWriter.
Context `{Pg}.

Definition validateReviewDecision (record : ReviewDecision) : Result unit :=
  _ ← wrap_err [ErrInvalidArgument] (parseUUID (TransferID record));
  _ ← fail_if (LifecycleVersion record <? 3) [ErrInvalidArgument];
  _ ← fail_if (negb (bool_decide (review_Decision record = "approved")) &&
               negb (bool_decide (review_Decision record = "declined"))) [ErrInvalidArgument];
  _ ← fail_if (negb (validSubject (ActorSubject record))) [ErrInvalidArgument];
  fail_if (IsZero (OccurredAt record)) [ErrInvalidArgument].

(** [insertReviewDecisionQuery] with the constraints of
    [transfer_review_audit_records]. *)
Definition insertReviewDecisionQuery (transferID : string) (version : Z) (decision subject : string) (at_ : Time)
    (_ : Time) (d : DB) : Result (unit * DB) :=
  match uuid_scan transferID with
  | None => Err invalid_text
  | Some id =>
      if negb (visible_check 128 subject) then Err (check_violation "transfer_review_audit_records_actor_subject_check")
      else if negb (bool_decide (decision ∈ ["approved"; "declined"]))
      then Err (check_violation "transfer_review_audit_records_decision_check")
      else if version <? 3 then Err (check_violation "transfer_review_audit_records_version_check")
      else if existsb (fun a => bool_decide (au_transfer a = id) && (au_version a =? version)) (t_audit d)
      then Err (unique_violation "transfer_review_audit_records_transfer_version_key")
      else if bool_decide (t_transfers d !! id = None)
      then Err (foreign_key_violation "transfer_review_audit_records_transfer_fkey")
      else Ok (tt, set_audit (fun l => l ++ [mkAuditRow id version decision subject (stored_time at_)])%list d)
  end.

Definition AppendReviewDecisionTx (record : ReviewDecision) : Tx unit :=
  _ ← lift (validateReviewDecision record);
  exec (insertReviewDecisionQuery (TransferID record) (LifecycleVersion record) (review_Decision record)
          (ActorSubject record) (UTC (OccurredAt record))).

Lemma quiet_AppendReviewDecisionTx record : quiet (AppendReviewDecisionTx record).
Proof. unfold AppendReviewDecisionTx. quiet. Qed.

Lemma AppendReviewDecisionTx_Ok record s st st' :
  AppendReviewDecisionTx record s st = (Ok tt, st') ->
  exists id, uuid_scan (TransferID record) = Some id /\ 3 <= LifecycleVersion record /\
    visible_check 128 (ActorSubject record) = true /\
    st' = advance st (set_audit (fun l => l ++ [mkAuditRow id (LifecycleVersion record) (review_Decision record)
            (ActorSubject record) (stored_time (UTC (OccurredAt record)))])%list (tx_db st)).
Proof.
  unfold AppendReviewDecisionTx. intros HR. apply mbind_Ok in HR as (u & st1 & [_ ->]%lift_Ok & HR).
  apply exec_Ok in HR as (d & _ & HI & ->).
  unfold insertReviewDecisionQuery in HI. destruct (uuid_scan _) as [id|]; [|done].
  repeat match type of HI with (if ?b then _ else _) = _ => destruct b eqn:?; [done|] end.
  injection HI as <-. exists id. split_and!; [done|lia|by destruct (visible_check _ _)|done].
Qed.

End AuditWriter.

#[export] Hint Resolve quiet_AppendReviewDecisionTx : wallet.
