(* ===== verification/RiskWorker.v ===== *)
(** * The risk worker

    [internal/app/riskworker/handler.go]: one consumed transfer.requested event is
    assessed and its outcome stored with the outgoing event in one transaction.
    The velocity observer and the clock are arguments. *)

From stdpp Require Import base list gmap strings numbers.
From Stdlib Require Import ZArith Lia.
From S2P Require Import Prelude GoText Money Journal TransferDomain RiskPolicy Event TransferEvents.
From S2P Require Import EventParse Database Outbox Inbox TransferRepo TransferStore.

Open Scope string_scope.
Open Scope Z_scope.

Definition consumerName : string := "risk-worker.v1".

Definition ErrInvalidArgument : leaf := errors_New "risk worker: invalid argument".
Definition ErrUnknownPolicy : leaf := errors_New "risk worker: unknown policy version".

(** [VelocityObserver]: source account, transfer and time to a count. *)
Definition VelocityObserver : Type := string -> string -> Time -> Result Z.

Record Handler := mkHandler {
  policies : gmap string Policy;
  velocity : VelocityObserver;
  (** What the clock returns. *)
  now : Time
}.

(** The loop that indexes the policies by version. *)
Fixpoint index_policies (l : list Policy) (byVersion : gmap string Policy) : Result (gmap string Policy) :=
  match l with
  | [] => Ok byVersion
  | policy :: rest =>
      if bool_decide (policy_version policy = "") then Err [ErrInvalidArgument]
      else if negb (bool_decide (byVersion !! policy_version policy = None)) then Err [ErrInvalidArgument]
      else index_policies rest (<[policy_version policy := policy]> byVersion)
  end.

(** [NewHandlerWithPoliciesAndVelocity] with a pool, an observer and a clock. *)
Definition NewHandlerWithPoliciesAndVelocity (l : list Policy) (observer : VelocityObserver) (clock : Time)
    : Result Handler :=
  match l with
  | [] => Err [ErrInvalidArgument]
  | _ :: _ =>
      byVersion ← index_policies l ∅;
      mret (mkHandler byVersion observer clock)
  end.

Definition noopVelocityObserver : VelocityObserver := fun _ _ _ => Ok 0.

Definition NewHandlerWithPolicies (l : list Policy) (clock : Time) : Result Handler :=
  NewHandlerWithPoliciesAndVelocity l noopVelocityObserver clock.

Definition NewHandler (policy : Policy) (clock : Time) : Result Handler := NewHandlerWithPolicies [policy] clock.

Definition captureInput (h : Handler) (current : Lifecycle) (assessedAt : Time) : Input :=
  let transfer := lc_transfer current in
  match velocity h (sourceAccountID transfer) (transfer_id transfer) assessedAt with
  | Err _ => mkInput (transfer_amount transfer) 0 true
  | Ok count => mkInput (transfer_amount transfer) count false
  end.

Definition transition (lifecycle : Lifecycle) (decision : RiskDecision) : Result Lifecycle :=
  match decision with
  | DecisionApprove => Approve lifecycle
  | DecisionReview => RequireReview lifecycle
  | DecisionDecline => Decline lifecycle
  | DecisionUnknown => Err [ErrInvalidArgument]
  end.

(** The stored lifecycle is the requested one, still pending. *)
Definition conflicts (current requested : Lifecycle) : bool :=
  let c := lc_transfer current in
  let r := lc_transfer requested in
  negb (bool_decide (lc_status current = StatusPendingRisk)) ||
  negb (bool_decide (transfer_id c = transfer_id r)) ||
  negb (bool_decide (requesterID c = requesterID r)) ||
  negb (bool_decide (sourceAccountID c = sourceAccountID r)) ||
  negb (bool_decide (destinationAccountID c = destinationAccountID r)) ||
  negb (bool_decide (transfer_amount c = transfer_amount r)) ||
  negb (TimeEqual (requestedAt c) (requestedAt r)) ||
  negb (bool_decide (riskPolicyVersion current = riskPolicyVersion requested)).

Section Worker.
Context `{Pg}.

Definition handle_body (h : Handler) (envelope : Envelope) (requested : Lifecycle) (policy : Policy) : Tx unit :=
  reserved ← ReserveTx consumerName envelope;
  if negb reserved then commit
  else
    current ← LoadLifecycleForUpdateTx (transfer_id (lc_transfer requested));
    if conflicts current requested then lift (Err [ErrStateConflict])
    else
      let assessedAt := UTC (now h) in
      let input := captureInput h current assessedAt in
      evaluation ← lift (Evaluate policy input);
      next ← lift (transition current (decision evaluation));
      _ ← StoreRiskAssessmentTx current next input evaluation (eventID envelope) assessedAt;
      draft ← lift (RiskAssessed next evaluation assessedAt (eventID envelope));
      _ ← AddTx draft;
      commit.

Definition Handle (h : Handler) (envelope : Envelope) (s : Service) (w : World) : Result unit * World :=
  match ParseRequested envelope with
  | Err e => (Err e, w)
  | Ok requested =>
      match policies h !! riskPolicyVersion requested with
      | None => (Err [ErrUnknownPolicy], w)
      | Some policy => run_tx false (handle_body h envelope requested policy) s w
      end
  end.

End Worker.
