(* ===== verification/TransactionWorker.v ===== *)
(** * The transaction worker

    [internal/app/transactionworker/handler.go]: one consumed risk assessment or
    review decision; an approved transfer is posted and completed, or failed for
    insufficient funds, in one transaction with the outgoing event. *)

From stdpp Require Import base list gmap strings numbers.
From Stdlib Require Import ZArith Lia.
From S2P Require Import Prelude GoText Money Journal TransferDomain RiskPolicy Event TransferEvents.
From S2P Require Import EventParse Database LedgerRepo Outbox Inbox TransferRepo TransferStore.

Open Scope string_scope.
Open Scope Z_scope.

Definition consumerName : string := "transaction-worker.v1".
Definition insufficientFundsReason : string := "insufficient_funds".

Definition ErrInvalidArgument : leaf := errors_New "transaction worker: invalid argument".

Definition statusForDecision (decision : RiskDecision) : Status :=
  match decision with
  | DecisionApprove => StatusApproved
  | DecisionReview => StatusReviewRequired
  | DecisionDecline => StatusDeclined
  | DecisionUnknown => StatusUnknown
  end.

Definition journalEntry (lifecycle : Lifecycle) (recordedAt : Time) : Result JournalEntry :=
  if negb (bool_decide (lc_status lifecycle = StatusApproved)) then Err [ErrInvalidArgument]
  else
    let transfer := lc_transfer lifecycle in
    debit ← Negate (transfer_amount transfer);
    sourcePosting ← NewPosting (sourceAccountID transfer) debit;
    destinationPosting ← NewPosting (destinationAccountID transfer) (transfer_amount transfer);
    NewJournalEntry (mkEntryParams (transfer_id transfer) [sourcePosting; destinationPosting] recordedAt).

Section Worker.
Context `{Pg}.

(** Code that handles the error of a call inside the same transaction. *)
Definition catch {A B} (m : Tx A) (failed : error -> Tx B) (succeeded : A -> Tx B) : Tx B := fun s st =>
  match m s st with
  | (Ok a, st') => succeeded a s st'
  | (Err e, st') => failed e s st'
  end.

Definition fail (current : Lifecycle) (causationID : string) (failedAt : Time) : Tx unit :=
  next ← lift (lifecycle_Fail current insufficientFundsReason);
  _ ← StoreLifecycleTransitionTx current next;
  draft ← lift (Failed next failedAt causationID);
  _ ← AddTx draft;
  commit.

Definition post (current : Lifecycle) (causationID : string) (postedAt : Time) : Tx unit :=
  entry ← lift (journalEntry current postedAt);
  catch (PostTx entry)
    (fun err =>
       if negb (errors_Is err LedgerRepo.ErrInsufficientFunds) then lift (Err err)
       else fail current causationID postedAt)
    (fun _ =>
       next ← lift (Complete current);
       _ ← StoreLifecycleTransitionTx current next;
       draft ← lift (CompletedLifecycle next postedAt causationID);
       _ ← AddTx draft;
       commit).

Definition assessment_body (now : Time) (envelope : Envelope) (assessment : RiskAssessment) : Tx unit :=
  reserved ← ReserveTx consumerName envelope;
  if negb reserved then commit
  else
    current ← LoadLifecycleForUpdateTx (ra_transferID assessment);
    if negb (lc_version current =? aggregateVersion (draft envelope)) ||
       negb (bool_decide (riskPolicyVersion current = ra_riskPolicyVersion assessment)) ||
       negb (bool_decide (lc_status current = statusForDecision (ra_decision assessment)))
    then lift (Err [ErrStateConflict])
    else if negb (bool_decide (ra_decision assessment = DecisionApprove)) then commit
    else post current (eventID envelope) (UTC now).

Definition review_body (now : Time) (envelope : Envelope) (decision : ReviewDecision) : Tx unit :=
  reserved ← ReserveTx consumerName envelope;
  if negb reserved then commit
  else
    current ← LoadLifecycleForUpdateTx (rd_transferID decision);
    if negb (lc_version current =? aggregateVersion (draft envelope)) ||
       negb (bool_decide (status_String (lc_status current) = rd_decision decision))
    then lift (Err [ErrStateConflict])
    else if bool_decide (rd_decision decision = "declined") then commit
    else post current (eventID envelope) (UTC now).

Definition handleReviewDecision (now : Time) (envelope : Envelope) (s : Service) (w : World) : Result unit * World :=
  match ParseReviewDecided envelope with
  | Err e => (Err e, w)
  | Ok decision => run_tx false (review_body now envelope decision) s w
  end.

Definition Handle (now : Time) (envelope : Envelope) (s : Service) (w : World) : Result unit * World :=
  if bool_decide (eventType (draft envelope) = ReviewDecidedType) then handleReviewDecision now envelope s w
  else match ParseRiskAssessed envelope with
  | Err e => (Err e, w)
  | Ok assessment => run_tx false (assessment_body now envelope assessment) s w
  end.

End Worker.
