(* ===== verification/Consumer.v ===== *)
(** * The consumers

    [consume], [handleRecord] and [quarantineReason] of
    [internal/app/riskworker/run.go] and [internal/app/transactionworker/run.go],
    which are the same loop around two handlers.  The Kafka client is a
    parameter: the list of the results of [PollFetches] and the answers of
    [CommitRecords]. *)

From stdpp Require Import base list gmap strings numbers.
From Stdlib Require Import ZArith Lia.
From S2P Require Import RiskWorker TransactionWorker.
From S2P Require Import Prelude GoText Json GoTime Event EnvelopeJson TransferEvents Database Quarantine.

Open Scope string_scope.
Open Scope Z_scope.

Definition knownEventType (eventType : string) : bool :=
  bool_decide (eventType = RequestedType) || bool_decide (eventType = RiskAssessedType) ||
  bool_decide (eventType = ReviewDecidedType) || bool_decide (eventType = CompletedType) ||
  bool_decide (eventType = FailedType).

(** What the loop uses of [kgo.Record]; the value is a slice, nil for a record
    without one. *)
Record KafkaRecord := mkKafkaRecord {
  kr_Topic : string;
  kr_Partition : Z;
  kr_Offset : Z;
  kr_Value : option string
}.

(** What [PollFetches] and the context say: the context has ended, the fetches
    hold an error, or they hold records. *)
Inductive Poll :=
| PollCancelled
| PollFailed (e : error)
| PollFetched (records : list KafkaRecord).

Section Consume.
Context `{Pg}.
Context (consumer : string) (unsupported : leaf) (owned : string -> bool).
Context (handle : Envelope -> World -> Result unit * World).
Context (store : PoisonRecord -> World -> Result unit * World).

Definition handleRecord (value : string) (w : World) : Result (Envelope * bool) * World :=
  match ParseEnvelope value with
  | Err e => (Err e, w)
  | Ok envelope =>
      if negb (knownEventType (eventType (draft envelope))) then (Err [unsupported], w)
      else if negb (owned (eventType (draft envelope))) then (Ok (envelope, false), w)
      else match handle envelope w with
      | (Err e, w') => (Err e, w')
      | (Ok _, w') => (Ok (envelope, true), w')
      end
  end.

Definition quarantineReason (err : error) : option string :=
  if errors_Is err ErrInvalidEnvelope then Some ReasonInvalidEnvelope
  else if errors_Is err unsupported then Some ReasonUnsupportedEventType
  else None.

Definition poison (reasonCode : string) (record : KafkaRecord) : PoisonRecord :=
  mkPoisonRecord consumer (kr_Topic record) (kr_Partition record) (kr_Offset record) reasonCode (kr_Value record).

(** The state of the loop: the database and the records whose offsets
    [CommitRecords] was asked to commit, in order. *)
Record Consuming := mkConsuming {
  con_world : World;
  con_commits : list KafkaRecord
}.

(** [CommitRecords]: [answers] gives its error, if any, by the number of calls before. *)
Definition CommitRecords (answers : nat -> option error) (record : KafkaRecord) (w : World) (commits : list KafkaRecord)
    : Result unit * Consuming :=
  (match answers (length commits) with None => Ok tt | Some e => Err e end, mkConsuming w (commits ++ [record])%list).

(** The body of the loop over the records. *)
Definition consume_record (answers : nat -> option error) (record : KafkaRecord) (c : Consuming) : Result unit * Consuming :=
  match handleRecord (slice_bytes (kr_Value record)) (con_world c) with
  | (Err e, w) =>
      match quarantineReason e with
      | Some reasonCode =>
          match store (poison reasonCode record) w with
          | (Err e', w') => (Err e', mkConsuming w' (con_commits c))
          | (Ok _, w') => CommitRecords answers record w' (con_commits c)
          end
      | None => (Err e, mkConsuming w (con_commits c))
      end
  | (Ok _, w) => CommitRecords answers record w (con_commits c)
  end.

Fixpoint consume_records (answers : nat -> option error) (records : list KafkaRecord) (c : Consuming)
    : Result unit * Consuming :=
  match records with
  | [] => (Ok tt, c)
  | record :: rest =>
      match consume_record answers record c with
      | (Err e, c') => (Err e, c')
      | (Ok _, c') => consume_records answers rest c'
      end
  end.

(** [consume], over the polls so far; [None]: it still runs. *)
Fixpoint consume (answers : nat -> option error) (polls : list Poll) (c : Consuming) : option (Result unit) * Consuming :=
  match polls with
  | [] => (None, c)
  | PollCancelled :: _ => (Some (Ok tt), c)
  | PollFailed e :: _ => (Some (Err e), c)
  | PollFetched records :: rest =>
      match consume_records answers records c with
      | (Err e, c') => (Some (Err e), c')
      | (Ok _, c') => consume answers rest c'
      end
  end.

(** The records of the polls before the context ends or a poll fails. *)
Fixpoint fetched (polls : list Poll) : list KafkaRecord :=
  match polls with
  | PollFetched records :: rest => (records ++ fetched rest)%list
  | _ => []
  end.

End Consume.

(** ** The two consumers *)

Section Workers.
Context `{Pg}.

(** [internal/app/riskworker/run.go]. *)
Definition risk_errUnsupportedEventType : leaf := errors_New "risk worker: unsupported event type".
Definition risk_owned (eventType : string) : bool := bool_decide (eventType = RequestedType).

Definition risk_handleRecord (handle : Envelope -> World -> Result unit * World) :=
  handleRecord risk_errUnsupportedEventType risk_owned handle.

(** The handler with the clock and the observer it reads at each world. *)
Definition risk_consume (h : World -> Handler) (s : Service) :=
  consume RiskWorker.consumerName risk_errUnsupportedEventType risk_owned
    (fun envelope w => RiskWorker.Handle (h w) envelope s w) (fun record w => quarantine_Store record s w).

(** [internal/app/transactionworker/run.go]. *)
Definition transaction_errUnsupportedEventType : leaf := errors_New "transaction worker: unsupported event type".
Definition transaction_owned (eventType : string) : bool :=
  bool_decide (eventType = RiskAssessedType) || bool_decide (eventType = ReviewDecidedType).

Definition transaction_handleRecord (handle : Envelope -> World -> Result unit * World) :=
  handleRecord transaction_errUnsupportedEventType transaction_owned handle.

Definition transaction_consume (now : World -> Time) (s : Service) :=
  consume TransactionWorker.consumerName transaction_errUnsupportedEventType transaction_owned
    (fun envelope w => TransactionWorker.Handle (now w) envelope s w) (fun record w => quarantine_Store record s w).

End Workers.
