(* ===== verification/ReviewCase.v ===== *)
(** * Review decisions

    [internal/app/reviewcase/handler.go]: an analyst's decision on an open review
    case, stored with the lifecycle transition, the audit record and the event in
    one transaction. *)

From stdpp Require Import base list gmap strings numbers.
From Stdlib Require Import ZArith Lia.
From S2P Require Import Prelude GoText TransferDomain Event TransferEvents Database Outbox TransferRepo.
From S2P Require Import TransferStore AuditWriter.

Open Scope string_scope.
Open Scope Z_scope.

Definition ErrInvalidArgument : leaf := errors_New "review case: invalid argument".
Definition ErrUnauthorized : leaf := errors_New "review case: principal is not an analyst".

Definition RoleAnalyst : string := "analyst".

Record TrustedPrincipal := mkPrincipal {
  Subject : string;
  Role : string
}.

Definition DecisionApprove : string := "approved".
Definition DecisionDecline : string := "declined".

Definition validSubject (value : string) : bool :=
  let value := TrimSpace value in
  if (len value =? 0) || (128 <? len value) then false else visible_runes value.

Section Review.
Context `{Pg}.

Definition decide_body (now : Time) (principal : TrustedPrincipal) (transferID decision : string) : Tx unit :=
  current ← LoadLifecycleForUpdateTx transferID;
  if negb (bool_decide (lc_status current = StatusReviewRequired)) then lift (Err [ErrStateConflict])
  else
    next ← lift (if bool_decide (decision = DecisionApprove) then Approve current else Decline current);
    let decidedAt := UTC now in
    _ ← StoreLifecycleTransitionTx current next;
    _ ← DecideReviewCaseTx transferID decision (Subject principal) decidedAt;
    _ ← AppendReviewDecisionTx
          (mkReviewDecision transferID (lc_version next) decision (Subject principal) decidedAt);
    draft ← lift (ReviewDecided next (Subject principal) decidedAt);
    _ ← AddTx draft;
    commit.

Definition Decide (now : Time) (principal : TrustedPrincipal) (transferID decision : string) (s : Service) (w : World)
    : Result unit * World :=
  if negb (bool_decide (Role principal = RoleAnalyst)) || negb (validSubject (Subject principal))
  then (Err [ErrUnauthorized], w)
  else if negb (bool_decide (decision = DecisionApprove)) && negb (bool_decide (decision = DecisionDecline))
  then (Err [ErrInvalidArgument], w)
  else run_tx false (decide_body now principal transferID decision) s w.

End Review.
