(* ===== verification/WorkerSpec.v ===== *)
(** * What the handlers do to the tables

    For each handler the tables it may leave behind: a consumed event that was
    consumed before changes nothing; a new one is recorded together with the
    transition it causes and the event that announces it. *)

From stdpp Require Import base list gmap strings numbers sorting.
From Stdlib Require Import ZArith Lia.
From S2P Require Import RiskWorker TransactionWorker ReviewCase.
From S2P Require Import Prelude GoText Money Journal TransferDomain RiskPolicy Json JsonDecode GoTime Event.
From S2P Require Import TransferEvents EventParse Database LedgerRepo LedgerSpec LedgerCorrect LedgerTheorems.
From S2P Require Import Outbox Inbox TransferRepo TransferSpec TransferStore StoreSpec AuditWriter.

Open Scope string_scope.
Open Scope Z_scope.

Section Spec.
Context `{PgLaws}.

(** ** A rejected posting leaves the transaction usable *)

(** Code that does not write. *)
Definition reads {A} (m : Tx A) : Prop := forall s st r st', m s st = (r, st') -> tx_db st' = tx_db st.

(** Code whose failures, unless they are told apart from insufficient funds,
    abort the transaction. *)
Definition loud {A} (m : Tx A) : Prop := forall s st e st',
  m s st = (Err e, st') ->
  tx_aborted st' = true \/ errors_Is (classifyPostError e) LedgerRepo.ErrInsufficientFunds = false.

Lemma reads_ret {A} (a : A) : reads (mret a).
Proof. by intros s st r st' [= <- <-]. Qed.

Lemma reads_lift {A} (r : Result A) : reads (lift r).
Proof. by intros s st r' st' [= <- <-]. Qed.

Lemma reads_query {A} (f : DB -> Result A) : reads (query f).
Proof.
  intros s st r st'. unfold query, stmt. destruct (tx_closed st); [by intros [= <- <-]|].
  destruct (tx_aborted st); [by intros [= <- <-]|]. destruct (faults _ _); [by intros [= <- <-]|].
  destruct (f _); by intros [= <- <-].
Qed.

Lemma reads_bind {A B} (m : Tx A) (f : A -> Tx B) : reads m -> (forall a, reads (f a)) -> reads (m ≫= f).
Proof.
  intros Hm Hf s st r st'. unfold mbind, Tx_bind. destruct (m s st) as [[a|e] st1] eqn:E.
  - intros E'. apply Hf in E'. apply Hm in E. congruence.
  - intros [= <- <-]. by apply Hm in E.
Qed.

Lemma loud_stmt {A} (f : Service -> nat -> Time -> DB -> Result (A * DB)) : loud (stmt f).
Proof.
  intros s st e st'. unfold stmt. destruct (tx_closed st); [intros [= <- <-]; by right|].
  destruct (tx_aborted st) eqn:Ea; [intros [= <- <-]; by left|].
  destruct (faults _ _); [intros [= <- <-]; by left|]. destruct (f _ _ _ _) as [[]|]; [done|]. intros [= <- <-]. by left.
Qed.

Lemma loud_ret {A} (a : A) : loud (mret a).
Proof. done. Qed.

Lemma loud_lift {A} (r : Result A) :
  (forall e, r = Err e -> errors_Is (classifyPostError e) LedgerRepo.ErrInsufficientFunds = false) -> loud (lift r).
Proof. intros Hr s st e st' [= -> <-]. right. by apply Hr. Qed.

Lemma loud_bind {A B} (m : Tx A) (f : A -> Tx B) : loud m -> (forall a, loud (f a)) -> loud (m ≫= f).
Proof.
  intros Hm Hf s st e st'. unfold mbind, Tx_bind. destruct (m s st) as [[a|e'] st1] eqn:E.
  - by intros ?%Hf.
  - intros [= <- <-]. by apply Hm in E.
Qed.

Lemma loud_insert_batch id i ps : loud (insert_batch id i ps).
Proof.
  revert i. induction ps as [|p ps IH]; intros i; cbn [insert_batch]; [apply loud_ret|].
  apply loud_bind; [|intros _; apply IH]. intros s st e st'. unfold map_err.
  destruct (exec _ s st) as [[]] eqn:E; [done|]. intros [= <- <-].
  assert (Hc : tx_closed st = true /\ e0 = [ErrTxClosed] \/ tx_aborted t = true).
  { revert E. unfold exec, stmt. destruct (tx_closed st); [intros [= <- <-]; by left|].
    destruct (tx_aborted st) eqn:Ea; [intros [= <- <-]; by right|].
    destruct (faults _ _); [intros [= <- <-]; by right|]. destruct (insertPostingQuery _ _ _ _ _ _ _) as [[]|]; [done|].
    intros [= <- <-]. by right. }
  destruct Hc as [[_ ->]|?]; [by right|by left].
Qed.

Lemma loud_updateBalances cs : loud (updateBalances cs).
Proof.
  induction cs as [|c cs IH]; cbn [updateBalances]; [apply loud_ret|].
  apply loud_bind; [apply loud_stmt|intros n]. apply loud_bind; [|intros _; apply IH].
  apply loud_lift. intros e. destruct (negb _); [by intros [= <-]|done].
Qed.

(** Slots that stand for the same change. *)
Definition same_change (c c' : accountChange) : Prop :=
  ch_accountID c' = ch_accountID c /\ ch_currency c' = ch_currency c /\ delta c' = delta c.

Lemma calculate_row_same c b c' : calculate_row c b = Ok c' -> same_change c c'.
Proof. unfold calculate_row. repeat case_match; intros [= <-]; done. Qed.

Lemma calculate_row_insufficient c b e :
  in_int64 (balance_minor b) -> in_int64 (delta c) -> calculate_row c b = Err e ->
  errors_Is (classifyPostError e) LedgerRepo.ErrInsufficientFunds = true ->
  bal_type b = "customer" /\ balance_minor b + delta c < 0.
Proof.
  intros Hb Hd. unfold calculate_row. rewrite checkedAdd_spec by done. case_bool_decide; cbn [negb]; [|by intros [= <-]].
  destruct (decide _); [|by intros [= <-]]. case_bool_decide as Hc; cbn [negb andb].
  - destruct (Z.ltb_spec (balance_minor b + delta c) 0); [done|]. destruct (_ =? _); [by intros [= <-]|done].
  - case_bool_decide; cbn [negb]; [|by intros [= <-]]. destruct (_ =? _); [by intros [= <-]|done].
Qed.

Lemma calculate_rows_insufficient m rows cs cs0 n e :
  Forall2 same_change cs0 cs -> Forall (fun c => in_int64 (delta c)) cs0 ->
  Forall (fun r => in_int64 (balance_minor r.2)) rows -> calculate_rows m rows cs n = Err e ->
  errors_Is (classifyPostError e) LedgerRepo.ErrInsufficientFunds = true ->
  exists k b i c, (k, b) ∈ rows /\ m !! k = Some i /\ cs0 !! i = Some c /\ bal_type b = "customer" /\
    balance_minor b + delta c < 0.
Proof.
  revert cs n. induction rows as [|[k b] rows IH]; intros cs n HS HD HB; [done|]. cbn [calculate_rows].
  apply Forall_cons in HB as [Hb HB]. destruct (m !! k) as [i|] eqn:Ek; [|by intros [= <-]].
  destruct (cs !! i) as [c'|] eqn:Ei; [|by intros [= <-]].
  destruct (Forall2_lookup_r _ _ _ _ _ HS Ei) as (c & Hc & Ha & Hcur & Hdel).
  destruct (calculate_row c' b) as [c''|e'] eqn:Ec; intros HR HI.
  - destruct (IH (<[i := c'']> cs) (S n)) as (k1 & b1 & i1 & c1 & ? & ?); [|done|done|done|done|].
    + rewrite <- (list_insert_id cs0 i c Hc). apply Forall2_insert; [done|].
      apply calculate_row_same in Ec as (? & ? & ?). split_and!; congruence.
    + exists k1, b1, i1, c1. split; [by right|done].
  - injection HR as ->. apply calculate_row_insufficient in Ec as [? ?]; [|done| |done].
    + exists k, b, i, c. split_and!; [by left|done|done|done|lia].
    + rewrite Hdel. rewrite Forall_forall in HD. apply HD. by eapply list_elem_of_lookup_2.
Qed.

Lemma stmt_not_insufficient {A} (f : DB -> Result A) s st e st' :
  (forall d, exists a, f d = Ok a) -> query f s st = (Err e, st') ->
  errors_Is (classifyPostError e) LedgerRepo.ErrInsufficientFunds = false.
Proof.
  intros Hf. unfold query, stmt. destruct (tx_closed st); [by intros [= <- <-]|].
  destruct (tx_aborted st); [by intros [= <- <-]|]. destruct (faults _ _) as [[]|]; [by intros [= <- <-]..|].
  destruct (Hf (tx_db st)) as [a ->]. done.
Qed.

Lemma lock_insufficient ps cs s st e st' :
  aggregates ps cs -> balances_typed (tx_db st) -> lockAndCalculateBalances cs s st = (Err e, st') ->
  errors_Is (classifyPostError e) LedgerRepo.ErrInsufficientFunds = true -> Exists (account_short (tx_db st) ps) ps.
Proof.
  intros HA Ht HR Hi. unfold lockAndCalculateBalances in HR. unfold mbind at 1, Tx_bind at 1 in HR.
  destruct (query _ s st) as [[rows|]] eqn:EQ.
  2:{ injection HR as <- <-. apply stmt_not_insufficient in EQ; [congruence|eauto]. }
  apply query_Ok in EQ as (_ & [= <-] & ->). unfold mbind, Tx_bind, lift in HR.
  destruct (calculate_rows _ _ _ _) as [[cs' n]|e'] eqn:EC.
  - destruct (negb _); [|done]. injection HR as <- <-. done.
  - injection HR as <- <-. change (lockBalancesQuery _ _) with (row_texts (locked_rows (ch_accountID <$> cs) (tx_db st))) in EC.
    eapply calculate_rows_insufficient in EC as (k & b & i & c & Hin & Hk & Hc & Hty & Hneg); [| | | |done].
    + unfold row_texts in Hin. apply list_elem_of_fmap in Hin as ([a b'] & [= -> ->] & Hin).
      apply elem_of_locked_rows in Hin as [_ Hb].
      assert (Ha : (ch_accountID <$> cs) !! i = Some a) by (by apply index_changes_indexes in Hk; [|apply HA]).
      rewrite list_lookup_fmap, Hc in Ha. injection Ha as <-. pose proof (list_elem_of_lookup_2 _ _ _ Hc) as Hcs.
      destruct (posting_of_change _ _ _ HA Hcs) as (p & Hp & Hpa). apply Exists_exists. exists p. split; [done|].
      exists b'. rewrite Hpa. destruct (ag_delta _ _ HA c Hcs) as [Hd _]. rewrite <- Hd. done.
    + clear. induction cs; constructor; done.
    + by eapply aggregates_typed.
    + apply Forall_forall. intros [k b] Hin. unfold row_texts in Hin. apply list_elem_of_fmap in Hin as ([a b'] & [= -> ->] & Hin).
      apply elem_of_locked_rows in Hin as [_ Hb]. by destruct (Ht _ _ Hb).
Qed.

(** A posting is refused for insufficient funds before anything is written, and
    only when a customer account would go below zero; when the server reports it
    instead, it has aborted the transaction. *)
Lemma PostTx_insufficient entry prepared s st e st' :
  prepareEntry entry = Ok prepared -> prepared_wf prepared -> reversesID prepared = None -> balances_typed (tx_db st) ->
  PostTx entry s st = (Err e, st') -> errors_Is e LedgerRepo.ErrInsufficientFunds = true ->
  tx_aborted st' = true \/
  tx_db st' = tx_db st /\ Exists (account_short (tx_db st) (pe_postings prepared)) (pe_postings prepared).
Proof.
  unfold PostTx. intros Hp Hw Hrev Ht HR Hi. unfold mbind, Tx_bind, lift in HR. rewrite Hp in HR.
  unfold map_err in HR. destruct (postPrepared prepared s st) as [[]] eqn:EP; [done|]. injection HR as <- <-.
  unfold postPrepared in EP. rewrite Hrev in EP. unfold mbind at 1, Tx_bind at 1, mret, Tx_ret in EP.
  unfold mbind at 1, Tx_bind at 1 in EP.
  assert (Hr2 : reads (lockAndCalculateBalances (changes prepared))).
  { unfold lockAndCalculateBalances. apply reads_bind; [apply reads_query|intros rows].
    apply reads_bind; [apply reads_lift|]. intros []. apply reads_lift. }
  destruct (lockAndCalculateBalances _ s _) as [[cs'|]] eqn:E2.
  2:{ injection EP as <- <-. right. split; [by apply Hr2 in E2|]. by eapply lock_insufficient; [apply Hw|..]. }
  assert (HL : loud (_ ← insertEntry prepared; _ ← insertPostings prepared; updateBalances cs')).
  { apply loud_bind; [unfold insertEntry; case_bool_decide; apply loud_stmt|intros _].
    apply loud_bind; [apply loud_insert_batch|intros _]. apply loud_updateBalances. }
  apply HL in EP as [?|E]; [by left|]. by rewrite E in Hi.
Qed.

(** ** The work of the handlers, before their commits *)

Definition risk_work (h : RiskWorker.Handler) (envelope : Envelope) (requested : Lifecycle) (policy : Policy) : Tx unit :=
  reserved ← ReserveTx RiskWorker.consumerName envelope;
  if negb reserved then mret tt
  else
    current ← LoadLifecycleForUpdateTx (transfer_id (lc_transfer requested));
    if RiskWorker.conflicts current requested then lift (Err [ErrStateConflict])
    else
      let assessedAt := UTC (RiskWorker.now h) in
      let input := RiskWorker.captureInput h current assessedAt in
      evaluation ← lift (Evaluate policy input);
      next ← lift (RiskWorker.transition current (decision evaluation));
      _ ← StoreRiskAssessmentTx current next input evaluation (eventID envelope) assessedAt;
      draft ← lift (RiskAssessed next evaluation assessedAt (eventID envelope));
      _ ← AddTx draft;
      mret tt.

(** Storing a terminal transition with the event that announces it. *)
Definition conclude (current : Lifecycle) (next : Result Lifecycle) (announce : Lifecycle -> Result Draft) : Tx unit :=
  next ← lift next;
  _ ← StoreLifecycleTransitionTx current next;
  draft ← lift (announce next);
  _ ← AddTx draft;
  mret tt.

Definition post_work (current : Lifecycle) (causationID : string) (postedAt : Time) : Tx unit :=
  entry ← lift (TransactionWorker.journalEntry current postedAt);
  TransactionWorker.catch (PostTx entry)
    (fun err =>
       if negb (errors_Is err LedgerRepo.ErrInsufficientFunds) then lift (Err err)
       else conclude current (lifecycle_Fail current TransactionWorker.insufficientFundsReason)
              (fun next => Failed next postedAt causationID))
    (fun _ => conclude current (Complete current) (fun next => CompletedLifecycle next postedAt causationID)).

Definition assessment_work (now : Time) (envelope : Envelope) (assessment : RiskAssessment) : Tx unit :=
  reserved ← ReserveTx TransactionWorker.consumerName envelope;
  if negb reserved then mret tt
  else
    current ← LoadLifecycleForUpdateTx (ra_transferID assessment);
    if negb (lc_version current =? aggregateVersion (draft envelope)) ||
       negb (bool_decide (riskPolicyVersion current = ra_riskPolicyVersion assessment)) ||
       negb (bool_decide (lc_status current = TransactionWorker.statusForDecision (ra_decision assessment)))
    then lift (Err [ErrStateConflict])
    else if negb (bool_decide (ra_decision assessment = DecisionApprove)) then mret tt
    else post_work current (eventID envelope) (UTC now).

Definition review_work (now : Time) (envelope : Envelope) (decision : EventParse.ReviewDecision) : Tx unit :=
  reserved ← ReserveTx TransactionWorker.consumerName envelope;
  if negb reserved then mret tt
  else
    current ← LoadLifecycleForUpdateTx (rd_transferID decision);
    if negb (lc_version current =? aggregateVersion (draft envelope)) ||
       negb (bool_decide (status_String (lc_status current) = rd_decision decision))
    then lift (Err [ErrStateConflict])
    else if bool_decide (rd_decision decision = "declined") then mret tt
    else post_work current (eventID envelope) (UTC now).

Definition decide_work (now : Time) (principal : ReviewCase.TrustedPrincipal) (transferID decision : string) : Tx unit :=
  current ← LoadLifecycleForUpdateTx transferID;
  if negb (bool_decide (lc_status current = StatusReviewRequired)) then lift (Err [ErrStateConflict])
  else
    next ← lift (if bool_decide (decision = ReviewCase.DecisionApprove) then Approve current else Decline current);
    let decidedAt := UTC now in
    _ ← StoreLifecycleTransitionTx current next;
    _ ← DecideReviewCaseTx transferID decision (ReviewCase.Subject principal) decidedAt;
    _ ← AppendReviewDecisionTx
          (AuditWriter.mkReviewDecision transferID (lc_version next) decision (ReviewCase.Subject principal) decidedAt);
    draft ← lift (ReviewDecided next (ReviewCase.Subject principal) decidedAt);
    _ ← AddTx draft;
    mret tt.

Lemma ends_catch {A B} (m : Tx A) (f f' : error -> Tx B) (g g' : A -> Tx B) :
  (forall e, ends (f e) (f' e)) -> (forall a, ends (g a) (g' a)) ->
  ends (TransactionWorker.catch m f g) (TransactionWorker.catch m f' g').
Proof.
  intros Hf Hg s st. unfold TransactionWorker.catch, mbind, Tx_bind in *. destruct (m s st) as [[a|e] st1]; [apply Hg|apply Hf].
Qed.

Lemma quiet_catch {A B} (m : Tx A) (f : error -> Tx B) (g : A -> Tx B) :
  quiet m -> (forall e, quiet (f e)) -> (forall a, quiet (g a)) -> quiet (TransactionWorker.catch m f g).
Proof.
  intros Hm Hf Hg s st r st'. unfold TransactionWorker.catch. destruct (m s st) as [[a|e] st1] eqn:E.
  - intros (-> & -> & ->)%Hg. by apply Hm in E.
  - intros (-> & -> & ->)%Hf. by apply Hm in E.
Qed.

Lemma risk_ends h env requested policy :
  ends (risk_work h env requested policy) (RiskWorker.handle_body h env requested policy).
Proof. unfold risk_work, RiskWorker.handle_body. ends. Qed.

Lemma post_ends current causation at_ :
  ends (post_work current causation at_) (TransactionWorker.post current causation at_).
Proof.
  unfold post_work, TransactionWorker.post, conclude, TransactionWorker.fail. apply ends_bind. intros entry.
  apply ends_catch; intros ?; ends.
Qed.

Hint Resolve post_ends : wallet.

Lemma assessment_ends now env a : ends (assessment_work now env a) (TransactionWorker.assessment_body now env a).
Proof. unfold assessment_work, TransactionWorker.assessment_body. ends. Qed.

Lemma review_ends now env d : ends (review_work now env d) (TransactionWorker.review_body now env d).
Proof. unfold review_work, TransactionWorker.review_body. ends. Qed.

Lemma decide_ends now p id d : ends (decide_work now p id d) (ReviewCase.decide_body now p id d).
Proof. unfold decide_work, ReviewCase.decide_body. apply ends_bind. intros l. cbv zeta. ends. Qed.

Lemma quiet_conclude current next announce : quiet (conclude current next announce).
Proof. unfold conclude. quiet. Qed.

Hint Resolve quiet_conclude quiet_AppendReviewDecisionTx : wallet.

Lemma quiet_post_work current causation at_ : quiet (post_work current causation at_).
Proof. unfold post_work. apply quiet_bind; [quiet|intros entry]. apply quiet_catch; intros; quiet. Qed.

Hint Resolve quiet_post_work : wallet.

Lemma quiet_risk_work h env requested policy : quiet (risk_work h env requested policy).
Proof. unfold risk_work. cbv zeta. quiet. Qed.

Lemma quiet_assessment_work now env a : quiet (assessment_work now env a).
Proof. unfold assessment_work. quiet. Qed.

Lemma quiet_review_work now env d : quiet (review_work now env d).
Proof. unfold review_work. quiet. Qed.

Lemma quiet_decide_work now p id d : quiet (decide_work now p id d).
Proof. unfold decide_work. cbv zeta. quiet. Qed.

(** ** Effects *)

(** The tables with an event recorded as consumed. *)
Definition recorded (name : string) (env : Envelope) (eid : UUID) (d : DB) : DB :=
  set_inbox (insert (name, eid) (mkInboxRow (eventType (draft env)) (eventVersion (draft env)))) d.

Definition consumed (name : string) (env : Envelope) (d : DB) : Prop :=
  exists eid, uuid_scan (eventID env) = Some eid /\ is_Some (t_inbox d !! (name, eid)).

Definition unconsumed (name : string) (env : Envelope) (eid : UUID) (d : DB) : Prop :=
  uuid_scan (eventID env) = Some eid /\ t_inbox d !! (name, eid) = None.

(** The row of a transfer after a transition. *)
Definition advanced (next : Lifecycle) (journal : option UUID) (r : TransferRow) : TransferRow :=
  with_outcome (status_String (lc_status next)) (lc_version next) journal (nullif_empty (failureReason next)) r.

(** The transfer is moved to its next state and the event is added. *)
Definition concluded (id : UUID) (r : TransferRow) (next : Lifecycle) (e : Draft) (d d' : DB) : Prop :=
  exists journal, journal_of next = Some journal /\ transfer_checks id (advanced next journal r) = Ok tt /\
    event_added e (set_transfers (insert id (advanced next journal r)) d) d'.

(** The source cannot pay the amount. *)
Definition source_short (d : DB) (r : TransferRow) : Prop :=
  exists b, t_balances d !! tr_source r = Some b /\ bal_type b = "customer" /\ balance_minor b < tr_amount r.

(** Posting an approved transfer: its entry is posted and it is completed, or
    the funds do not suffice and it is failed. *)
Inductive post_effect (current : Lifecycle) (id : UUID) (r : TransferRow) (causation : string) (at_ : Time)
    (d d' : DB) : Prop :=
| PostSettled entry prepared t next e :
    TransactionWorker.journalEntry current at_ = Ok entry -> prepareEntry entry = Ok prepared -> postable d prepared ->
    Complete current = Ok next -> CompletedLifecycle next at_ causation = Ok e ->
    concluded id r next e (posted t prepared d) d' -> post_effect current id r causation at_ d d'
| PostRejected next e :
    source_short d r -> lifecycle_Fail current TransactionWorker.insufficientFundsReason = Ok next -> Failed next at_ causation = Ok e ->
    concluded id r next e d d' -> post_effect current id r causation at_ d d'.

(** The tables the risk worker may leave. *)
Inductive risk_effect (h : RiskWorker.Handler) (env : Envelope) (requested : Lifecycle) (policy : Policy)
    (d d' : DB) : Prop :=
| RiskSkipped : consumed RiskWorker.consumerName env d -> d' = d -> risk_effect h env requested policy d d'
| RiskStored eid id r current ev next row e :
    unconsumed RiskWorker.consumerName env eid d -> t_transfers d !! id = Some r -> represents id r current ->
    RiskWorker.conflicts current requested = false ->
    Evaluate policy (RiskWorker.captureInput h current (UTC (RiskWorker.now h))) = Ok ev ->
    RiskWorker.transition current (decision ev) = Ok next ->
    transfer_checks id (with_status (status_String (lc_status next)) (lc_version next) r) = Ok tt ->
    (exists i sg, row = assessment_row id next eid ev i sg (UTC (RiskWorker.now h))) ->
    Forall (fun a => ~ (as_transfer a = id /\ as_version a = lc_version next)) (t_assessments d) ->
    (lc_status next = StatusReviewRequired -> t_reviews d !! id = None) ->
    RiskAssessed next ev (UTC (RiskWorker.now h)) (eventID env) = Ok e ->
    event_added e (assessed id r next row (UTC (RiskWorker.now h)) (recorded RiskWorker.consumerName env eid d)) d' ->
    risk_effect h env requested policy d d'.

(** The tables the transaction worker may leave. *)
Inductive transaction_effect (now : Time) (env : Envelope) (d d' : DB) : Prop :=
| TransactionSkipped : consumed TransactionWorker.consumerName env d -> d' = d -> transaction_effect now env d d'
| TransactionIgnored eid id r current :
    unconsumed TransactionWorker.consumerName env eid d -> t_transfers d !! id = Some r -> represents id r current ->
    lc_version current = aggregateVersion (draft env) -> lc_status current <> StatusApproved ->
    d' = recorded TransactionWorker.consumerName env eid d -> transaction_effect now env d d'
| TransactionPosted eid id r current :
    unconsumed TransactionWorker.consumerName env eid d -> t_transfers d !! id = Some r -> represents id r current ->
    lc_version current = aggregateVersion (draft env) -> lc_status current = StatusApproved ->
    post_effect current id r (eventID env) (UTC now) (recorded TransactionWorker.consumerName env eid d) d' ->
    transaction_effect now env d d'.

(** The tables a review decision leaves. *)
Inductive review_effect (now : Time) (principal : ReviewCase.TrustedPrincipal) (transferID decision : string)
    (d d' : DB) : Prop :=
| ReviewStored id r current next journal rv e :
    uuid_scan transferID = Some id -> t_transfers d !! id = Some r -> represents id r current ->
    lc_status current = StatusReviewRequired ->
    (if bool_decide (decision = ReviewCase.DecisionApprove) then Approve current else Decline current) = Ok next ->
    journal_of next = Some journal -> transfer_checks id (advanced next journal r) = Ok tt ->
    t_reviews d !! id = Some rv -> rv_status rv = "open" -> (decision = "approved" \/ decision = "declined") ->
    3 <= lc_version next -> visible_check 128 (ReviewCase.Subject principal) = true ->
    ReviewDecided next (ReviewCase.Subject principal) (UTC now) = Ok e ->
    event_added e
      (set_audit (fun l => l ++ [mkAuditRow id (lc_version next) decision (ReviewCase.Subject principal)
                                   (stored_time (UTC (UTC now)))])%list
        (set_reviews (insert id (decided_row decision (ReviewCase.Subject principal) (UTC now) rv))
          (set_transfers (insert id (advanced next journal r)) d))) d' ->
    review_effect now principal transferID decision d d'.

Lemma conclude_Ok id r current rnext announce s st st' :
  represents id r current -> t_transfers (tx_db st) !! id = Some r ->
  conclude current rnext announce s st = (Ok tt, st') ->
  exists next e, rnext = Ok next /\ announce next = Ok e /\ concluded id r next e (tx_db st) (tx_db st') /\ tx_open st.
Proof.
  intros Hrep Hr HR. unfold conclude in HR. apply mbind_Ok in HR as (next & st1 & [Hn ->]%lift_Ok & HR).
  apply mbind_Ok in HR as ([] & st2 & HS & HR). 
  assert (Ho : tx_open st).
  { unfold StoreLifecycleTransitionTx in HS. apply mbind_Ok in HS as (? & ? & HS & _). by apply exec_Ok in HS as (? & ? & _). }
  apply StoreTransition_Ok in HS as (id' & r' & journal & Hid & Hr' & _ & _ & Hj & Hck & ->).
  rewrite (rp_id _ _ _ Hrep), uuid_scan_text in Hid. injection Hid as <-. rewrite Hr in Hr'. injection Hr' as <-.
  apply mbind_Ok in HR as (e & st3 & [He ->]%lift_Ok & HR). apply mbind_Ok in HR as (env & st4 & HA & HR).
  injection HR as <-. apply AddTx_adds in HA as (HA & _ & _). exists next, e. split_and!; try done. by exists journal.
Qed.

Lemma journalEntry_Ok l at_ e :
  lifecycle_wf l -> TransactionWorker.journalEntry l at_ = Ok e ->
  lc_status l = StatusApproved /\ e = transfer_entry (lc_transfer l) at_.
Proof.
  intros (_ & Ht & _) HJ. unfold TransactionWorker.journalEntry in HJ. case_bool_decide as Hs; [|done]. split; [done|].
  cbn [negb] in HJ. destruct (IsZero at_) eqn:Ez.
  - exfalso. destruct (Negate _); [|done]. cbn [mbind Result_bind] in HJ. destruct (NewPosting (sourceAccountID _) _); [|done].
    cbn [mbind Result_bind] in HJ. destruct (NewPosting (destinationAccountID _) _); [|done]. cbn [mbind Result_bind] in HJ.
    apply NewJournalEntry_inv in HJ as (_ & _ & _ & _ & Hz). cbn in Hz. congruence.
  - rewrite build_transfer_entry in HJ by done. congruence.
Qed.

(** Of a transfer's two accounts only the source can run short. *)
Lemma transfer_short id r current d :
  lifecycle_wf current -> represents id r current -> ledger_inv d ->
  Exists (account_short d (transfer_postings (lc_transfer current) (tr_source r) (tr_destination r)))
    (transfer_postings (lc_transfer current) (tr_source r) (tr_destination r)) -> source_short d r.
Proof.
  intros (_ & Htw & _) Hrep Hinv Hex. pose proof (represents_ids _ _ _ Hrep) as Hids.
  pose proof (ids_distinct _ _ _ _ _ Htw Hids) as Hne. pose proof Htw as ((_ & _ & _ & _ & _ & _ & _ & Hpos & _)%transfer_validate_Ok & _).
  apply Exists_exists in Hex as (p & Hp & b & Hb & Hty & Hneg).
  unfold transfer_postings in Hp. rewrite !elem_of_cons, elem_of_nil in Hp. destruct Hp as [->|[->|[]]]; cbn [pp_accountID] in *.
  - exists b. split_and!; [done..|]. rewrite transfer_account_sum in Hneg by done. rewrite decide_True, decide_False in Hneg by done.
    rewrite <- (rp_amount _ _ _ Hrep). lia.
  - exfalso. rewrite transfer_account_sum in Hneg by done. rewrite decide_False, decide_True in Hneg by done.
    destruct (li_type _ Hinv _ _ Hb) as [[_ ?]|?]; [lia|congruence].
Qed.

Lemma post_work_Ok id r current causation at_ s st st' :
  lifecycle_wf current -> represents id r current -> t_transfers (tx_db st) !! id = Some r ->
  ledger_inv (tx_db st) -> tx_open st -> post_work current causation at_ s st = (Ok tt, st') ->
  post_effect current id r causation at_ (tx_db st) (tx_db st').
Proof.
  intros Hw Hrep Hr Ht Ho HR. unfold post_work in HR. apply mbind_Ok in HR as (entry & st1 & [He ->]%lift_Ok & HR).
  pose proof (journalEntry_Ok _ _ _ Hw He) as [_ Hentry].
  unfold TransactionWorker.catch in HR. destruct (PostTx entry s st) as [[[]|err] st1] eqn:EP.
  - apply PostTx_Ok in EP as (prepared & Hp & Hpost & Ho1 & _ & Hd1); [|subst entry; by apply transfer_entry_typed, Hw|apply Ht|done].
    apply (conclude_Ok id r) in HR as (next & e & Hn & He' & HC & _); [|done|by rewrite Hd1].
    rewrite Hd1 in HC. by eapply PostSettled.
  - destruct (errors_Is err LedgerRepo.ErrInsufficientFunds) eqn:Ei; [|done]. cbn [negb] in HR.
    assert (Hat : IsZero at_ = false).
    { unfold TransactionWorker.journalEntry in He. case_bool_decide; [|done]. cbn [negb] in He.
      destruct (Negate _); [|done]. cbn [mbind Result_bind] in He. destruct (NewPosting (sourceAccountID _) _); [|done].
      cbn [mbind Result_bind] in He. destruct (NewPosting (destinationAccountID _) _); [|done].
      cbn [mbind Result_bind] in He. by apply NewJournalEntry_inv in He as (_ & _ & _ & _ & Hz). }
    pose proof Hw as (_ & Htw & _). pose proof (represents_ids _ _ _ Hrep) as Hids.
    destruct (transfer_prepares _ _ _ _ _ _ Htw Hat Hids) as [prepared Hp]. rewrite <- Hentry in Hp.
    pose proof Hp as Hp'. rewrite Hentry in Hp'.
    destruct (transfer_prepared _ _ _ _ _ _ _ Htw Hids Hp') as (Hpw & _ & Hnr & Hps & _).
    pose proof EP as HE. apply (PostTx_insufficient _ prepared) in HE; [|done|done|done|apply Ht|done].
    assert (Ho1 : tx_open st1).
    { unfold conclude in HR. apply mbind_Ok in HR as (? & ? & [_ ->]%lift_Ok & HR).
      apply mbind_Ok in HR as (? & ? & HR & _). unfold StoreLifecycleTransitionTx in HR.
      apply mbind_Ok in HR as (? & ? & HR & _). by apply exec_Ok in HR as (? & ? & _). }
    destruct HE as [HE|[HE Hshort]]; [destruct Ho1; congruence|]. rewrite Hps in Hshort.
    apply (transfer_short id r) in Hshort; [|done..].
    apply (conclude_Ok id r) in HR as (next & e & Hn & He' & HC & _); [|done|by rewrite HE].
    rewrite HE in HC. by eapply PostRejected.
Qed.

(** The integer columns hold what fits them. *)
Definition rows_typed (d : DB) : Prop := forall id r, t_transfers d !! id = Some r ->
  in_int64 (tr_amount r) /\ in_int64 (tr_version r).

Lemma reserve_cases name env s st b st1 :
  ReserveTx name env s st = (Ok b, st1) ->
  if b then exists eid, unconsumed name env eid (tx_db st) /\ tx_db st1 = recorded name env eid (tx_db st) /\ tx_open st1
  else consumed name env (tx_db st) /\ tx_db st1 = tx_db st.
Proof.
  intros (eid & Heid & Ho & _ & HR)%ReserveTx_Ok. destruct b; destruct HR as [HR HD].
  - exists eid. done.
  - split; [by exists eid|done].
Qed.

Lemma risk_work_Ok h env requested policy s st st' :
  risk_work h env requested policy s st = (Ok tt, st') -> risk_effect h env requested policy (tx_db st) (tx_db st').
Proof.
  intros HR. unfold risk_work in HR. apply mbind_Ok in HR as (b & st1 & HV & HR). apply reserve_cases in HV.
  destruct b; cbn [negb] in HR.
  2:{ destruct HV as [HV HD]. injection HR as <-. by apply RiskSkipped. }
  destruct HV as (eid & Hu & HD & Ho). apply mbind_Ok in HR as (current & st2 & HL & HR).
  apply LoadLifecycle_Ok in HL as (id & r & Hid & Hr & Hrep & _ & ->). rewrite HD in Hr. cbn in Hr.
  destruct (RiskWorker.conflicts current requested) eqn:Ec; [done|]. cbv zeta in HR.
  apply mbind_Ok in HR as (ev & st3 & [Hev ->]%lift_Ok & HR). apply mbind_Ok in HR as (next & st4 & [Hn ->]%lift_Ok & HR).
  apply mbind_Ok in HR as ([] & st5 & HS & HR).
  apply StoreAssessment_Ok in HS as (id' & r' & cause & row & Hid' & Hc & Hr' & _ & _ & Hck & Hrow & _ & Hnew & Hrv & Ho5 & _ & HD5).
  rewrite (rp_id _ _ _ Hrep), uuid_scan_text in Hid'. injection Hid' as <-.
  cbn [tx_db advance] in Hr', Hnew, Hrv, HD5. rewrite HD in Hr', Hnew, Hrv, HD5. cbn in Hr', Hnew, Hrv.
  assert (r' = r) as -> by congruence. destruct Hu as [Heid Hin]. assert (cause = eid) as -> by congruence.
  apply mbind_Ok in HR as (e & st6 & [He ->]%lift_Ok & HR). apply mbind_Ok in HR as (env' & st7 & HA & HR).
  injection HR as <-. apply AddTx_adds in HA as (HA & _ & _). rewrite HD5 in HA.
  by eapply RiskStored.
Qed.

Lemma posting_cases now env id r current (b : bool) s st st' :
  rows_typed (tx_db st) -> ledger_inv (tx_db st) -> tx_open st -> represents id r current ->
  t_transfers (tx_db st) !! id = Some r ->
  (if b then mret tt else post_work current (eventID env) (UTC now)) s st = (Ok tt, st') ->
  if b then tx_db st' = tx_db st else post_effect current id r (eventID env) (UTC now) (tx_db st) (tx_db st').
Proof.
  intros Hty Hb Ho Hrep Hr HR. destruct b; [by injection HR as <-|].
  eapply post_work_Ok; try done. destruct (Hty _ _ Hr). by eapply represents_wf.
Qed.

Lemma assessment_work_Ok now env a s st st' :
  rows_typed (tx_db st) -> ledger_inv (tx_db st) ->
  assessment_work now env a s st = (Ok tt, st') -> transaction_effect now env (tx_db st) (tx_db st').
Proof.
  intros Hty Hb HR. unfold assessment_work in HR. apply mbind_Ok in HR as (b & st1 & HV & HR). apply reserve_cases in HV.
  destruct b; cbn [negb] in HR.
  2:{ destruct HV as [HV HD]. injection HR as <-. by apply TransactionSkipped. }
  destruct HV as (eid & Hu & HD & Ho). apply mbind_Ok in HR as (current & st2 & HL & HR).
  apply LoadLifecycle_Ok in HL as (id & r & _ & Hr & Hrep & _ & ->). rewrite HD in Hr. cbn in Hr.
  destruct (_ || _) eqn:Eg in HR; [done|]. rewrite !orb_false_iff in Eg. destruct Eg as ((Hver & _) & Hst). bool_simpl.
  apply (posting_cases now env id r current) in HR;
    [|by rewrite HD|rewrite HD; by apply (ledger_inv_frame (tx_db st))|done|done|by rewrite HD].
  cbn [tx_db advance] in HR. rewrite HD in HR. destruct (bool_decide (ra_decision a = DecisionApprove)) eqn:Ea; bool_simpl.
  - rewrite Ea in Hst. by eapply TransactionPosted.
  - eapply TransactionIgnored; try done. rewrite Hst. by destruct (ra_decision a).
Qed.

Lemma review_work_Ok now env rd s st st' :
  rows_typed (tx_db st) -> ledger_inv (tx_db st) -> rd_decision rd = "approved" \/ rd_decision rd = "declined" ->
  review_work now env rd s st = (Ok tt, st') -> transaction_effect now env (tx_db st) (tx_db st').
Proof.
  intros Hty Hb Hrd HR. unfold review_work in HR. apply mbind_Ok in HR as (b & st1 & HV & HR). apply reserve_cases in HV.
  destruct b; cbn [negb] in HR.
  2:{ destruct HV as [HV HD]. injection HR as <-. by apply TransactionSkipped. }
  destruct HV as (eid & Hu & HD & Ho). apply mbind_Ok in HR as (current & st2 & HL & HR).
  apply LoadLifecycle_Ok in HL as (id & r & _ & Hr & Hrep & _ & ->). rewrite HD in Hr. cbn in Hr.
  destruct (_ || _) eqn:Eg in HR; [done|]. rewrite !orb_false_iff in Eg. destruct Eg as (Hver & Hst). bool_simpl.
  apply (posting_cases now env id r current) in HR;
    [|by rewrite HD|rewrite HD; by apply (ledger_inv_frame (tx_db st))|done|done|by rewrite HD].
  cbn [tx_db advance] in HR. rewrite HD in HR. case_bool_decide as Ed.
  - eapply TransactionIgnored; try done. rewrite Ed in Hst. by destruct (lc_status current).
  - destruct Hrd as [E|E]; [|done]. rewrite E in Hst. eapply TransactionPosted; try done. by destruct (lc_status current).
Qed.

Lemma decide_work_Ok now p transferID decision s st st' :
  decide_work now p transferID decision s st = (Ok tt, st') ->
  review_effect now p transferID decision (tx_db st) (tx_db st').
Proof.
  intros HR. unfold decide_work in HR. apply mbind_Ok in HR as (current & st1 & HL & HR).
  apply LoadLifecycle_Ok in HL as (id & r & Hid & Hr & Hrep & _ & ->).
  case_bool_decide as Hs; [|done]. cbn [negb] in HR. apply mbind_Ok in HR as (next & st2 & [Hn ->]%lift_Ok & HR). cbv zeta in HR.
  apply mbind_Ok in HR as ([] & st3 & HS & HR).
  apply StoreTransition_Ok in HS as (id' & r' & journal & Hid' & Hr' & _ & _ & Hj & Hck & ->).
  rewrite (rp_id _ _ _ Hrep), uuid_scan_text in Hid'. injection Hid' as <-. cbn [tx_db advance] in *.
  assert (r' = r) as -> by congruence.
  apply mbind_Ok in HR as ([] & st4 & HD & HR). apply DecideReview_Ok in HD as (id' & rv & Hid' & Hrv & Ho & Hd & Hvis & ->).
  assert (id' = id) as -> by congruence. cbn [tx_db advance] in *.
  apply mbind_Ok in HR as ([] & st5 & HU & HR). apply AppendReviewDecisionTx_Ok in HU as (id' & Hid'' & H3 & _ & ->).
  cbn [AuditWriter.TransferID AuditWriter.LifecycleVersion AuditWriter.review_Decision AuditWriter.ActorSubject AuditWriter.OccurredAt] in *.
  assert (id' = id) as -> by congruence. cbn [tx_db advance] in *.
  apply mbind_Ok in HR as (e & st6 & [He ->]%lift_Ok & HR). apply mbind_Ok in HR as (env' & st7 & HA & HR).
  injection HR as <-. apply AddTx_adds in HA as (HA & _ & _). by eapply ReviewStored.
Qed.

(** ** Runs of the handlers *)

(** What a call may leave: the effect when it reports success; behind a failure
    nothing, unless the acknowledgement of the commit was lost. *)
Definition outcome {A} (r : Result A) (d d' : DB) (effect : Prop) : Prop :=
  match r with
  | Ok _ => effect
  | Err e => d' = d \/ e = [Other "connection"] /\ effect
  end.

Lemma run_outcome {A} join (work body : Tx A) s w r w' (P : DB -> Prop) :
  ends work body -> quiet work ->
  (forall a st', work s (begun s w) = (Ok a, st') -> P (tx_db st')) ->
  run_tx join body s w = (r, w') -> outcome r (committed w) (committed w') (P (committed w')).
Proof.
  intros He Hq HP HR. apply (run_tx_ends join work) in HR; [|done..]. destruct r as [a|e]; cbn.
  - destruct HR as (st & E & ->). by eapply HP.
  - destruct HR as [?|(-> & a & st & E & ->)]; [by left|right]. split; [done|]. by eapply HP.
Qed.

Lemma risk_Handle_outcome h env s w r w' :
  RiskWorker.Handle h env s w = (r, w') ->
  outcome r (committed w) (committed w')
    (exists requested policy, ParseRequested env = Ok requested /\
       RiskWorker.policies h !! riskPolicyVersion requested = Some policy /\
       risk_effect h env requested policy (committed w) (committed w')).
Proof.
  unfold RiskWorker.Handle. destruct (ParseRequested env) as [requested|]; [|intros [= <- <-]; by left].
  destruct (RiskWorker.policies h !! _) as [policy|] eqn:Ep; [|intros [= <- <-]; by left].
  intros HR. apply (run_outcome _ (risk_work h env requested policy) _ _ _ _ _
    (fun d' => exists requested0 policy0, Ok requested = Ok requested0 /\ RiskWorker.policies h !! riskPolicyVersion requested0 = Some policy0 /\
       risk_effect h env requested0 policy0 (committed w) d')) in HR; [exact HR|apply risk_ends|apply quiet_risk_work|].
  intros [] st' E. apply risk_work_Ok in E. by exists requested, policy.
Qed.

Lemma transaction_Handle_outcome now env s w r w' :
  rows_typed (committed w) -> ledger_inv (committed w) ->
  TransactionWorker.Handle now env s w = (r, w') ->
  outcome r (committed w) (committed w') (transaction_effect now env (committed w) (committed w')).
Proof.
  intros Hty Hb. unfold TransactionWorker.Handle, TransactionWorker.handleReviewDecision. case_bool_decide.
  - destruct (ParseReviewDecided env) as [rd|] eqn:Ep; [|intros [= <- <-]; by left].
    apply (run_outcome _ (review_work now env rd)); [apply review_ends|apply quiet_review_work|].
    intros [] st' E. eapply review_work_Ok in E; try done.
    unfold ParseReviewDecided in Ep. destruct (_ || _) in Ep; [done|]. destruct (decode_struct _ _); [|done].
    destruct (_ || _) eqn:Eg in Ep; [done|]. injection Ep as <-. cbn. apply orb_false_iff in Eg as [_ Eg].
    apply andb_false_iff in Eg as [Eg|Eg]; bool_simpl; auto.
  - destruct (ParseRiskAssessed env) as [a|] eqn:Ep; [|intros [= <- <-]; by left].
    apply (run_outcome _ (assessment_work now env a)); [apply assessment_ends|apply quiet_assessment_work|].
    intros [] st' E. by eapply assessment_work_Ok in E.
Qed.

Lemma Decide_outcome now p transferID decision s w r w' :
  ReviewCase.Decide now p transferID decision s w = (r, w') ->
  outcome r (committed w) (committed w')
    (ReviewCase.Role p = ReviewCase.RoleAnalyst /\
     review_effect now p transferID decision (committed w) (committed w')).
Proof.
  unfold ReviewCase.Decide. destruct (_ || _) eqn:Ea; [intros [= <- <-]; by left|].
  apply orb_false_iff in Ea as [Ea _]. destruct (_ && _); [intros [= <- <-]; by left|].
  intros HR. apply (run_outcome _ (decide_work now p transferID decision) _ _ _ _ _
    (fun d' => ReviewCase.Role p = ReviewCase.RoleAnalyst /\ review_effect now p transferID decision (committed w) d')) in HR;
    [exact HR|apply decide_ends|apply quiet_decide_work|].
  intros [] st' E. apply decide_work_Ok in E. bool_simpl. done.
Qed.

Lemma Create_outcome t s w r w' :
  transfer_typed t -> ledger_inv (committed w) -> Create t s w = (r, w') ->
  match r with
  | Ok t' => exists p, prepareTransfer t = Ok p /\
      (replayed p (committed w) t' /\ committed w' = committed w \/
       t' = pt_transfer p /\ created p (committed w) (committed w'))
  | Err e => committed w' = committed w \/
      e = [Other "connection"] /\ exists p, prepareTransfer t = Ok p /\ created p (committed w) (committed w')
  end.
Proof.
  intros Ht Hinv. unfold Create. destruct (prepareTransfer t) as [p|e] eqn:Ep; [|intros [= <- <-]; by left].
  pose proof (prepareTransfer_Ok _ _ Ht Ep) as (_ & Hw & Hids & Hentry & _).
  assert (He : entry_typed (pt_entry p)) by (rewrite Hentry; by apply transfer_entry_typed).
  set (P := fun (d : DB) (t' : Transfer) (d' : DB) => ledger_inv d ->
    replayed p d t' /\ d' = d \/ t' = pt_transfer p /\ created p d d').
  intros HR. apply (create_attempts_spec _ P) in HR.
  - destruct r as [t'|e]; [exists p; split; [done|by apply HR]|].
    destruct HR as [?|(-> & t' & HP)]; [by left|]. destruct (HP Hinv) as [[_ ?]|[_ ?]]; [by left|right; eauto].
  - intros w1 r1 w2 H1. unfold createOnce in H1. apply (run_tx_ends _ (create_work p)) in H1; [|apply create_ends|apply quiet_create_work].
    assert (HP : forall t' st, create_work p s (begun s w1) = (Ok t', st) -> P (committed w1) t' (tx_db st)).
    { intros t' st E Hi. eapply create_work_Ok in E; try done. apply Hi. }
    destruct r1 as [t'|e].
    + destruct H1 as (st & E & ->). by apply HP.
    + destruct H1 as [?|(-> & t' & st & E & ->)]; [by left|right]. split; [done|]. exists t'. by apply HP.
Qed.

Lemma CreatePending_outcome l s w r w' :
  transfer_typed (lc_transfer l) -> UTC (requestedAt (lc_transfer l)) = requestedAt (lc_transfer l) ->
  in_int64 (lc_version l) -> CreatePending l s w = (r, w') ->
  match r with
  | Ok l' => exists p, preparePendingTransfer l = Ok p /\
      (replayed_pending p (committed w) l' /\ committed w' = committed w \/
       l' = pq_lifecycle p /\ accepted p (committed w) (committed w'))
  | Err e => committed w' = committed w \/
      e = [Other "connection"] /\ exists p, preparePendingTransfer l = Ok p /\ accepted p (committed w) (committed w')
  end.
Proof.
  intros Ht Hu Hv. unfold CreatePending. destruct (preparePendingTransfer l) as [p|e] eqn:Ep; [|intros [= <- <-]; by left].
  pose proof (preparePending_Ok _ _ Ht Hu Hv Ep) as (Hw & Htr & Hst & Hids & _). rewrite <- Htr in Hids.
  set (P := fun (d : DB) (l' : Lifecycle) (d' : DB) =>
    replayed_pending p d l' /\ d' = d \/ l' = pq_lifecycle p /\ accepted p d d').
  intros HR. apply (create_attempts_spec _ P) in HR.
  - destruct r as [l'|e]; [by exists p|].
    destruct HR as [?|(-> & l' & [[_ ?]|[_ ?]])]; [by left|by left|right; eauto].
  - intros w1 r1 w2 H1. unfold createPendingOnce in H1.
    apply (run_tx_ends _ (create_pending_work p)) in H1; [|apply create_pending_ends|apply quiet_create_pending_work].
    destruct r1 as [l'|e].
    + destruct H1 as (st & E & ->). by apply create_pending_work_Ok in E.
    + destruct H1 as [?|(-> & l' & st & E & ->)]; [by left|right]. split; [done|]. exists l'. by apply create_pending_work_Ok in E.
Qed.

End Spec.
