(* ===== verification/System.v ===== *)
(** * The whole system

    The operations of the program as steps on the shared tables, each under any
    behaviour of the database service, and the invariant of every state they can
    reach ([wallet_inv]): the books balance, completed transfers have moved their
    amount once, every transfer is announced by an event of its state, open
    review cases are those of transfers under review, and decided cases have
    their audit record. *)

From stdpp Require Import base list gmap strings numbers sorting.
From Stdlib Require Import ZArith Lia.
From S2P Require Import OutboxRepo OutboxTheorems WalletRepo WalletTheorems Quarantine.
From S2P Require Import RiskWorker TransactionWorker ReviewCase.
From S2P Require Import Prelude GoText Money Journal TransferDomain RiskPolicy Json JsonDecode GoTime Event.
From S2P Require Import TransferEvents EventParse Database LedgerRepo LedgerSpec LedgerCorrect LedgerTheorems.
From S2P Require Import Outbox Inbox TransferRepo TransferSpec TransferStore StoreSpec AuditWriter WorkerSpec.

Open Scope string_scope.
Open Scope Z_scope.

Section System.
Context `{PgLaws}.

(** ** The invariant *)

(** The type of the event that announces a state. *)
Definition announces (status type : string) : Prop :=
  (status = "pending_risk" /\ type = RequestedType) \/
  (status = "review_required" /\ type = RiskAssessedType) \/
  ((status = "approved" \/ status = "declined") /\ (type = RiskAssessedType \/ type = ReviewDecidedType)) \/
  (status = "completed" /\ type = CompletedType) \/
  (status = "failed" /\ type = FailedType).

(** The outbox holds the event of the transfer's present state. *)
Definition announced (d : DB) (id : UUID) (r : TransferRow) : Prop :=
  exists oid o, t_outbox d !! oid = Some o /\ ob_aggregate_type o = "transfer" /\ ob_aggregate_id o = id /\
    ob_aggregate_version o = tr_version r /\ announces (tr_status r) (ob_type o).

Definition under_review (d : DB) (id : UUID) : Prop :=
  exists r, t_transfers d !! id = Some r /\ tr_status r = "review_required".

Definition open_case (d : DB) (id : UUID) : Prop :=
  exists rv, t_reviews d !! id = Some rv /\ rv_status rv = "open".

(** The audit records of a transfer match its review case. *)
Definition audited (case : option ReviewRow) (records : list AuditRow) : Prop :=
  match case with
  | None => records = []
  | Some rv =>
      if decide (rv_status rv = "open") then records = []
      else exists a, records = [a] /\ rv_decision rv = Some (au_decision a) /\ rv_decided_by rv = Some (au_subject a)
  end.

Definition audit_of (d : DB) (id : UUID) : list AuditRow := filter (fun a => au_transfer a = id) (t_audit d).

Record wallet_inv (d : DB) : Prop := {
  wi_ledger : ledger_inv d;
  wi_row id r : t_transfers d !! id = Some r ->
    transfer_checks id r = Ok tt /\ in_int64 (tr_amount r) /\ in_int64 (tr_version r);
  wi_time id r : t_transfers d !! id = Some r -> instant (tr_requested_at r) mod 1000 = 0;
  wi_key id1 r1 id2 r2 : t_transfers d !! id1 = Some r1 -> t_transfers d !! id2 = Some r2 ->
    tr_requester r1 = tr_requester r2 -> tr_key r1 = tr_key r2 -> id1 = id2;
  wi_moved id r : t_transfers d !! id = Some r -> tr_status r = "completed" -> moved_once d id r;
  wi_announced id r : t_transfers d !! id = Some r -> announced d id r;
  wi_review id : open_case d id <-> under_review d id;
  wi_audit id : audited (t_reviews d !! id) (audit_of d id)
}.

(** ** How a transfer may change *)

(** The columns that fix what is transferred. *)
Definition same_order (r r' : TransferRow) : Prop :=
  tr_requester r' = tr_requester r /\ tr_key r' = tr_key r /\ tr_source r' = tr_source r /\
  tr_destination r' = tr_destination r /\ tr_currency r' = tr_currency r /\ tr_amount r' = tr_amount r /\
  tr_requested_at r' = tr_requested_at r /\ tr_policy r' = tr_policy r.

(** One transition along an allowed edge. *)
Definition moves (r r' : TransferRow) : Prop :=
  same_order r r' /\ tr_version r' = tr_version r + 1 /\
  exists st st', tr_status r = status_String st /\ tr_status r' = status_String st' /\ allowed st st' = true.

(** Every transfer is still there, unchanged or moved once. *)
Definition progress (d d' : DB) : Prop := forall id r, t_transfers d !! id = Some r ->
  exists r', t_transfers d' !! id = Some r' /\ (r' = r \/ moves r r').

(** ** Lemmas on the invariant *)

(** Every event is still there, with the same content. *)
Definition outbox_kept (d d' : DB) : Prop := forall oid o, t_outbox d !! oid = Some o ->
  exists o', t_outbox d' !! oid = Some o' /\ same_content o o'.

Lemma same_content_refl o : same_content o o.
Proof. by unfold same_content. Qed.

#[export] Instance outbox_kept_preorder : PreOrder outbox_kept.
Proof.
  split; [intros d oid o Ho; exists o; split; [done|apply same_content_refl]|].
  intros d1 d2 d3 H1 H2 oid o Ho. destruct (H1 _ _ Ho) as (o1 & Ho1 & E1). destruct (H2 _ _ Ho1) as (o2 & Ho2 & E2).
  exists o2. split; [done|]. unfold same_content in *. destruct_and!. split_and!; congruence.
Qed.

Lemma outbox_kept_grow d d' : t_outbox d ⊆ t_outbox d' -> outbox_kept d d'.
Proof. intros Hs oid o Ho. exists o. split; [by eapply lookup_weaken|apply same_content_refl]. Qed.

Lemma republished_kept d d' : republished d d' -> outbox_kept d d'.
Proof.
  intros [_ Hk _] oid o Ho. destruct (Hk _ _ Ho) as (o' & Ho' & [->|Hs]); [by eauto using same_content_refl|].
  eauto using pub_step_content.
Qed.

Lemma announced_grow d d' id r : outbox_kept d d' -> announced d id r -> announced d' id r.
Proof.
  intros Hs (oid & o & Ho & ?). destruct (Hs _ _ Ho) as (o' & Ho' & Hc). exists oid, o'. split; [done|].
  unfold same_content in Hc. destruct_and!. split_and!; congruence.
Qed.

Lemma event_added_grow e d d' : event_added e d d' -> outbox_kept d d'.
Proof. intros (v & id & row & stored & now & _ & _ & _ & Hf & _ & ->). apply outbox_kept_grow. cbn. by apply insert_subseteq. Qed.

Lemma event_added_about e d d' type id version :
  event_added e d d' -> about e type (uuid_text id) version ->
  exists oid o, t_outbox d' !! oid = Some o /\ ob_aggregate_type o = "transfer" /\ ob_aggregate_id o = id /\
    ob_aggregate_version o = version /\ ob_type o = type.
Proof.
  intros (v & oid & row & stored & now & Hv & _ & Hrow & _ & _ & ->) (Ht & Ha & Hid & Hver).
  destruct (validateDraft_identity _ _ Hv) as (E1 & _ & E2 & E3 & E4).
  rewrite Hid in E4. specialize (E4 (uuid_text_canonical id)).
  unfold outbox_row in Hrow. rewrite E4, uuid_scan_text in Hrow.
  destruct (uuid_scan (correlationID v)); [|done]. destruct (scan_optional _); [|done]. injection Hrow as <-.
  eexists oid, _. split; [cbn; apply lookup_insert_eq|]. cbn. split_and!; congruence.
Qed.

Lemma event_added_announced e d d' type id r :
  event_added e d d' -> about e type (uuid_text id) (tr_version r) -> announces (tr_status r) type -> announced d' id r.
Proof.
  intros HE Ha Hs. destruct (event_added_about _ _ _ _ _ _ HE Ha) as (oid & o & ? & ? & ? & ? & <-). by exists oid, o.
Qed.

(** Replacing or adding one transfer. *)
Lemma wallet_inv_update d d' id r' :
  wallet_inv d -> ledger_inv d' ->
  t_transfers d' = <[id := r']> (t_transfers d) ->
  transfer_checks id r' = Ok tt -> in_int64 (tr_amount r') -> in_int64 (tr_version r') ->
  instant (tr_requested_at r') mod 1000 = 0 ->
  (forall id1 r1, t_transfers d !! id1 = Some r1 -> tr_requester r1 = tr_requester r' -> tr_key r1 = tr_key r' -> id1 = id) ->
  (tr_status r' = "completed" -> moved_once d' id r') ->
  (forall id1 r1, id1 <> id -> t_transfers d !! id1 = Some r1 -> moved_once d id1 r1 -> moved_once d' id1 r1) ->
  outbox_kept d d' -> announced d' id r' ->
  (open_case d' id <-> tr_status r' = "review_required") ->
  (forall id1, id1 <> id -> t_reviews d' !! id1 = t_reviews d !! id1) ->
  audited (t_reviews d' !! id) (audit_of d' id) ->
  (forall id1, id1 <> id -> audit_of d' id1 = audit_of d id1) ->
  wallet_inv d'.
Proof.
  intros [HL HR HW HK HM HA HV HU] HL' HT Hck Ham Hver Htm Hkey Hmv Hkeep Hout Hann Hopen Hrev Haud Hauds.
  assert (Hlook : forall id1 r1, t_transfers d' !! id1 = Some r1 ->
    (id1 = id /\ r1 = r') \/ (id1 <> id /\ t_transfers d !! id1 = Some r1)).
  { intros id1 r1. rewrite HT. destruct (decide (id1 = id)) as [->|Hne].
    - rewrite lookup_insert_eq. intros [= <-]. by left.
    - rewrite lookup_insert_ne by done. by right. }
  split; [done|..].
  - intros id1 r1 [[-> ->]|[_ Hr]]%Hlook; [done|by apply HR].
  - intros id1 r1 [[-> ->]|[_ Hr]]%Hlook; [done|by eapply HW].
  - intros id1 r1 id2 r2 [[-> ->]|[Hn1 Hr1]]%Hlook [[-> ->]|[Hn2 Hr2]]%Hlook E1 E2; [done| | |by eapply HK].
    + symmetry. by eapply Hkey.
    + by eapply Hkey.
  - intros id1 r1 [[-> ->]|[Hn1 Hr1]]%Hlook; [done|]. intros Hc. by eapply Hkeep, HM.
  - intros id1 r1 [[-> ->]|[Hn1 Hr1]]%Hlook; [done|]. eapply announced_grow; [done|by apply HA].
  - intros id1. unfold under_review. destruct (decide (id1 = id)) as [->|Hne].
    + rewrite Hopen, HT, lookup_insert_eq. split; [intros E; by exists r'|by intros (r1 & [= <-] & ?)].
    + rewrite HT, lookup_insert_ne by done. unfold open_case. rewrite Hrev by done. apply HV.
  - intros id1. destruct (decide (id1 = id)) as [->|Hne]; [done|]. rewrite Hrev, Hauds by done. apply HU.
Qed.

(** Changes outside the transfers, their reviews and their audit records. *)
Lemma wallet_inv_frame d d' :
  wallet_inv d -> ledger_inv d' -> t_transfers d' = t_transfers d -> outbox_kept d d' ->
  t_reviews d' = t_reviews d -> t_audit d' = t_audit d ->
  (forall id r, t_transfers d !! id = Some r -> moved_once d id r -> moved_once d' id r) ->
  wallet_inv d'.
Proof.
  intros [HL HR HW HK HM HA HV HU] HL' HT Hout Hrev Haud Hkeep. split; [done|..].
  - intros id r. rewrite HT. apply HR.
  - intros id r. rewrite HT. apply HW.
  - intros id1 r1 id2 r2. rewrite HT. apply HK.
  - intros id r. rewrite HT. intros Hr Hc. by eapply Hkeep, HM.
  - intros id r. rewrite HT. intros Hr. eapply announced_grow; [done|by apply HA].
  - intros id. unfold open_case, under_review. rewrite HT, Hrev. apply HV.
  - intros id. unfold audit_of. rewrite Hrev, Haud. apply HU.
Qed.

Lemma recorded_inv name env eid d : wallet_inv d -> wallet_inv (recorded name env eid d).
Proof.
  intros Hinv. eapply wallet_inv_frame; try done; [eapply ledger_inv_frame; [|apply Hinv]; done|by apply outbox_kept_grow].
Qed.

Lemma key_new d requester key id : key_free requester key d ->
  forall id1 r1, t_transfers d !! id1 = Some r1 -> tr_requester r1 = requester -> tr_key r1 = key -> id1 = id.
Proof. intros Hf id1 r1 Hr E1 E2. exfalso. by eapply Hf. Qed.

Lemma no_case_new d id : wallet_inv d -> t_transfers d !! id = None -> ~ open_case d id.
Proof. intros Hinv Hn (r & Hr & _)%(wi_review _ Hinv). congruence. Qed.

(** ** Every effect keeps the invariant *)

Lemma set_transfers_ledger f d : same_ledger d (set_transfers f d).
Proof. done. Qed.

Lemma postable_frame d d' prepared : same_ledger d d' -> postable d prepared -> postable d' prepared.
Proof.
  intros [_ Hb He Hp] [Hf Ha Hr]. split.
  - by rewrite He.
  - eapply Forall_impl; [exact Ha|]. intros p (b & ? & ?). exists b. by rewrite Hb.
  - destruct (reversesID prepared); [|done]. destruct Hr as (? & ? & ?). unfold source_accepts, selectPostingsQuery in *.
    by rewrite He, Hp.
Qed.

(** The books after an entry was posted beside other changes. *)
Lemma posted_frame_inv now prepared d d1 d2 :
  ledger_inv d -> prepared_wf prepared -> postable d prepared -> same_ledger d d1 ->
  same_ledger (posted now prepared d1) d2 -> ledger_inv d2.
Proof.
  intros Hinv Hw Hp H1 H2. eapply ledger_inv_frame; [exact H2|]. apply posted_inv; [|done|by eapply postable_frame].
  by eapply ledger_inv_frame.
Qed.

Lemma created_inv t p d d' :
  transfer_typed t -> prepareTransfer t = Ok p -> wallet_inv d -> created p d d' -> wallet_inv d'.
Proof.
  intros Ht Hp Hinv [Hkey Hid Hck _ (prepared & now & Hpe & Hpost & HE)].
  destruct (prepareTransfer_Ok _ _ Ht Hp) as (_ & Hw & Hids & Hentry & Hev). rewrite Hentry in Hpe.
  destruct (transfer_prepared _ _ _ _ _ _ _ Hw Hids Hpe) as (Hpw & Hpid & _ & Hps & _).
  pose proof (event_added_ledger _ _ _ HE) as HL. destruct (event_added_frame _ _ _ HE) as (_ & HT & _ & _ & HV & HU).
  cbn in HT, HV, HU. pose proof (wi_ledger _ Hinv) as Hli.
  assert (Hmoved : moved_once d' (pt_id p) (created_row p)).
  { eapply moved_once_frame; [exact HL|].
    eapply posted_moved_once; [|rewrite <- Hpid; exact (fresh_id _ _ Hpost)|done|exact Hps|done..].
    apply (ledger_inv_frame d); [done|apply Hinv]. }
  eapply (wallet_inv_update d d' (pt_id p) (created_row p)); try done.
  - eapply posted_frame_inv; [exact Hli|done|exact Hpost| |exact HL]. done.
  - apply Hw.
  - apply stored_time_resolution.
  - by apply key_new.
  - intros id1 r1 Hne Hr1 Hm. eapply moved_once_frame; [exact HL|]. apply posted_keeps_moved; [congruence|]. done.
  - apply event_added_grow in HE. done.
  - eapply event_added_announced; [exact HE| |].
    + destruct Hids as [-> _]. by apply Completed_about.
    + right. right. right. by left.
  - split; [|done]. intros Hc. exfalso. eapply no_case_new; [exact Hinv|exact Hid|]. unfold open_case in *. by rewrite HV in Hc.
  - intros. by rewrite HV.
  - unfold audit_of. rewrite HV, HU. apply Hinv.
  - intros. unfold audit_of. by rewrite HU.
Qed.

Lemma accepted_inv l p d d' :
  transfer_typed (lc_transfer l) -> UTC (requestedAt (lc_transfer l)) = requestedAt (lc_transfer l) -> in_int64 (lc_version l) ->
  preparePendingTransfer l = Ok p -> wallet_inv d -> accepted p d d' -> wallet_inv d'.
Proof.
  intros Ht Hu Hv Hp Hinv [Hkey Hid Hck _ HE].
  destruct (preparePending_Ok _ _ Ht Hu Hv Hp) as (Hw & Htr & Hst & Hids & Hev). rewrite <- Htr in Hids.
  pose proof (event_added_ledger _ _ _ HE) as HL. destruct (event_added_frame _ _ _ HE) as (_ & HT & _ & _ & HV & HU).
  cbn in HT, HV, HU. pose proof Hw as (_ & Htw & _).
  eapply (wallet_inv_update d d' (pq_id p) (pending_row p)); try done.
  - eapply ledger_inv_frame; [exact HL|]. apply (ledger_inv_frame d); [done|apply Hinv].
  - cbn. apply Htw.
  - apply stored_time_resolution.
  - by apply key_new.
  - intros id1 r1 Hne Hr1 Hm. eapply moved_once_frame; [exact HL|]. done.
  - apply event_added_grow in HE. done.
  - eapply event_added_announced; [exact HE| |].
    + destruct Hids as [-> _]. apply Requested_about in Hev; [|done]. destruct Hw as ((_ & _ & Hsh)%lifecycle_validate_Ok & _).
      unfold status_shape in Hsh. rewrite Hst in Hsh. destruct Hsh as [E _]. rewrite E in Hev. exact Hev.
    + by left.
  - split; [|done]. intros Hc. exfalso. eapply no_case_new; [exact Hinv|exact Hid|]. unfold open_case in *. by rewrite HV in Hc.
  - intros. by rewrite HV.
  - unfold audit_of. rewrite HV, HU. apply Hinv.
  - intros. unfold audit_of. by rewrite HU.
Qed.

(** ** Transitions of a stored lifecycle *)

Lemma apply_op_Ok op l next :
  lifecycle_wf l -> apply_op op l = Ok next ->
  next = successor op l /\ allowed (lc_status l) (op_target op) = true /\ lifecycle_wf next.
Proof.
  intros Hw. rewrite apply_op_spec by done. destruct (_ && _) eqn:E; [|done]. intros [= <-].
  rewrite !andb_true_iff in E. destruct E as [[? ?] ?]. split_and!; [done..|]. apply transition_Ok; try done. lia.
Qed.

Lemma stored_wf d id r l : wallet_inv d -> t_transfers d !! id = Some r -> represents id r l -> lifecycle_wf l.
Proof. intros Hinv Hr Hrep. destruct (wi_row _ Hinv _ _ Hr) as (_ & ? & ?). by eapply represents_wf. Qed.

Lemma not_open d id r : wallet_inv d -> t_transfers d !! id = Some r -> tr_status r <> "review_required" -> ~ open_case d id.
Proof. intros Hinv Hr Hs (r' & Hr' & ?)%(wi_review _ Hinv). congruence. Qed.

Lemma key_same d id r : wallet_inv d -> t_transfers d !! id = Some r ->
  forall id1 r1, t_transfers d !! id1 = Some r1 -> tr_requester r1 = tr_requester r -> tr_key r1 = tr_key r -> id1 = id.
Proof. intros Hinv Hr id1 r1 Hr1 E1 E2. by eapply (wi_key _ Hinv). Qed.

(** The operation the risk worker applies. *)
Lemma risk_transition_op current dec next :
  RiskWorker.transition current dec = Ok next ->
  exists op, apply_op op current = Ok next /\
    (op_target op = StatusApproved \/ op_target op = StatusReviewRequired \/ op_target op = StatusDeclined).
Proof.
  destruct dec; cbn; intros E; [done|exists OpApprove|exists OpRequireReview|exists OpDecline]; cbn; auto.
Qed.

Lemma conflicts_pending current requested :
  RiskWorker.conflicts current requested = false -> lc_status current = StatusPendingRisk.
Proof. unfold RiskWorker.conflicts. rewrite !orb_false_iff. intros (((((((Hp & _) & _) & _) & _) & _) & _) & _). by bool_simpl. Qed.

Lemma assessed_ledger id r next row at_ d : same_ledger d (assessed id r next row at_ d).
Proof. unfold assessed. by case_decide. Qed.

Lemma assessed_frame id r next row at_ d :
  t_outbox (assessed id r next row at_ d) = t_outbox d /\ t_audit (assessed id r next row at_ d) = t_audit d /\
  t_transfers (assessed id r next row at_ d) =
    <[id := with_status (status_String (lc_status next)) (lc_version next) r]> (t_transfers d) /\
  t_reviews (assessed id r next row at_ d) =
    if decide (lc_status next = StatusReviewRequired) then <[id := review_row next at_]> (t_reviews d) else t_reviews d.
Proof. unfold assessed. by case_decide. Qed.

Lemma risk_effect_inv h env requested policy d d' :
  wallet_inv d -> risk_effect h env requested policy d d' -> wallet_inv d'.
Proof.
  intros Hinv [_ ->|eid id r current ev next row e Hu Hr Hrep Hcf _ Hn Hck _ _ Hnone He HE]; [done|].
  set (at_ := UTC (RiskWorker.now h)) in *. set (d1 := recorded RiskWorker.consumerName env eid d) in *.
  pose proof (stored_wf _ _ _ _ Hinv Hr Hrep) as Hw. pose proof (conflicts_pending _ _ Hcf) as Hpend.
  destruct (risk_transition_op _ _ _ Hn) as (op & Hop & Hto). destruct (apply_op_Ok _ _ _ Hw Hop) as (Hnext & _ & Hnw).
  assert (Hst : lc_status next = op_target op) by by rewrite Hnext.
  assert (Htid : transfer_id (lc_transfer next) = uuid_text id) by (rewrite Hnext; apply Hrep).
  destruct (assessed_frame id r next row at_ d1) as (HO & HUa & HTa & HVa).
  pose proof (event_added_ledger _ _ _ HE) as HL. destruct (event_added_frame _ _ _ HE) as (_ & HT & _ & _ & HV & HU).
  rewrite HTa in HT. rewrite HVa in HV. rewrite HUa in HU. cbn in HT, HV, HU.
  assert (Hsl : same_ledger d d').
  { etrans; [|exact HL]. etrans; [|apply assessed_ledger]. done. }
  assert (Hnot : ~ open_case d id).
  { eapply not_open; [done..|]. rewrite <- (rp_status _ _ _ Hrep), Hpend. done. }
  eapply (wallet_inv_update d d' id _ Hinv).
  - eapply ledger_inv_frame; [exact Hsl|apply Hinv].
  - exact HT.
  - exact Hck.
  - cbn. by destruct (wi_row _ Hinv _ _ Hr) as (_ & ? & _).
  - cbn. apply Hnw.
  - cbn. by eapply wi_time.
  - cbn. by eapply key_same.
  - cbn. rewrite Hst. by destruct_or! Hto; rewrite Hto.
  - intros id1 r1 _ _. by apply moved_once_frame.
  - apply event_added_grow in HE. etrans; [|exact HE]. apply outbox_kept_grow. by rewrite HO.
  - eapply event_added_announced; [exact HE| |].
    + cbn. rewrite <- Htid. eapply RiskAssessed_about; [apply Hnw|exact He].
    + cbn. rewrite Hst. unfold announces. destruct_or! Hto; rewrite Hto; cbn; tauto.
  - cbn. unfold open_case. rewrite HV. destruct (decide (lc_status next = StatusReviewRequired)) as [Hd|Hd].
    + rewrite Hd, lookup_insert_eq. split; [done|]. intros _. by eexists.
    + split; [done|]. by destruct (lc_status next).
  - intros id1 Hne. rewrite HV. case_decide; [by rewrite lookup_insert_ne|done].
  - unfold audit_of. rewrite HV, HU. pose proof (wi_audit _ Hinv id) as Ha. unfold audit_of in Ha. case_decide as Hd; [|done].
    rewrite lookup_insert_eq. cbn. rewrite (Hnone Hd) in Ha. done.
  - intros. unfold audit_of. by rewrite HU.
Qed.

(** A terminal transition of an approved transfer, after the books were changed
    to [dm]. *)
Lemma concluded_inv op current id r next e type d dm d' :
  wallet_inv d -> t_transfers d !! id = Some r -> represents id r current -> lc_status current = StatusApproved ->
  apply_op op current = Ok next -> concluded id r next e dm d' ->
  ledger_inv dm -> t_transfers dm = t_transfers d -> outbox_kept d dm -> t_reviews dm = t_reviews d ->
  t_audit dm = t_audit d ->
  (forall id1 r1, id1 <> id -> t_transfers d !! id1 = Some r1 -> moved_once d id1 r1 -> moved_once dm id1 r1) ->
  (op_target op = StatusCompleted -> moved_once dm id r) ->
  about e type (transfer_id (lc_transfer next)) (lc_version next) -> announces (status_String (op_target op)) type ->
  wallet_inv d'.
Proof.
  intros Hinv Hr Hrep Happ Hop (journal & _ & Hck & HE) Hlm HTm HOm HVm HUm Hkeep Hmv Hab Han.
  pose proof (stored_wf _ _ _ _ Hinv Hr Hrep) as Hw. destruct (apply_op_Ok _ _ _ Hw Hop) as (Hnext & Hal & Hnw).
  assert (Hst : lc_status next = op_target op) by by rewrite Hnext.
  pose proof (event_added_ledger _ _ _ HE) as HL. destruct (event_added_frame _ _ _ HE) as (_ & HT & _ & _ & HV & HU).
  cbn in HT, HV, HU. rewrite HTm in HT. rewrite HVm in HV. rewrite HUm in HU.
  assert (Hsl : same_ledger dm d') by (etrans; [|exact HL]; done).
  assert (Hnot : ~ open_case d id).
  { eapply not_open; [done..|]. rewrite <- (rp_status _ _ _ Hrep), Happ. done. }
  eapply (wallet_inv_update d d' id (advanced next journal r) Hinv); try done.
  - by eapply ledger_inv_frame.
  - cbn. by destruct (wi_row _ Hinv _ _ Hr) as (_ & ? & _).
  - cbn. apply Hnw.
  - cbn. by eapply wi_time.
  - cbn. by eapply key_same.
  - cbn. rewrite Hst. intros Hc. eapply moved_once_frame; [exact Hsl|]. apply Hmv. by destruct (op_target op).
  - intros id1 r1 Hne Hr1 Hm. eapply moved_once_frame; [exact Hsl|]. by eapply Hkeep.
  - etrans; [exact HOm|]. by apply event_added_grow in HE.
  - eapply event_added_announced; [exact HE| |].
    + cbn. assert (transfer_id (lc_transfer next) = uuid_text id) as <- by (rewrite Hnext; apply Hrep). exact Hab.
    + cbn. by rewrite Hst.
  - cbn. rewrite Hst. unfold open_case. rewrite HV. split; [done|]. rewrite Happ in Hal. by destruct (op_target op).
  - intros. by rewrite HV.
  - unfold audit_of. rewrite HV, HU. apply Hinv.
  - intros. unfold audit_of. by rewrite HU.
Qed.

Lemma post_effect_inv current id r causation at_ d d' :
  wallet_inv d -> t_transfers d !! id = Some r -> represents id r current -> lc_status current = StatusApproved ->
  post_effect current id r causation at_ d d' -> wallet_inv d'.
Proof.
  intros Hinv Hr Hrep Happ HP. pose proof (stored_wf _ _ _ _ Hinv Hr Hrep) as Hw.
  destruct HP as [entry prepared t next e He Hp Hpost Hn Hev HC|next e _ Hn Hev HC].
  - destruct (journalEntry_Ok _ _ _ Hw He) as [_ ->]. pose proof Hw as (_ & Htw & _).
    destruct (transfer_prepared _ _ _ _ _ _ _ Htw (represents_ids _ _ _ Hrep) Hp) as (Hpw & Hpid & _ & Hps & _).
    pose proof (apply_op_Ok OpComplete _ _ Hw Hn) as (_ & _ & (_ & Hnt & _)).
    eapply (concluded_inv OpComplete current id r next e CompletedType d (posted t prepared d) d'); try done.
    + apply posted_inv; [apply Hinv|done|done].
    + by apply outbox_kept_grow.
    + intros id1 r1 Hne _. apply posted_keeps_moved. congruence.
    + intros _. eapply posted_moved_once; [apply Hinv|rewrite <- Hpid; apply Hpost|done|exact Hps|done|done|..].
      * symmetry. apply Hrep.
      * symmetry. apply Hrep.
    + by eapply CompletedLifecycle_about.
    + right. right. right. by left.
  - pose proof (apply_op_Ok (OpFail TransactionWorker.insufficientFundsReason) _ _ Hw Hn) as (_ & _ & (_ & Hnt & _)).
    eapply (concluded_inv (OpFail TransactionWorker.insufficientFundsReason) current id r next e FailedType d d d'); try done.
    + apply Hinv.
    + by eapply Failed_about.
    + right. right. right. by right.
Qed.

Lemma transaction_effect_inv now env d d' :
  wallet_inv d -> transaction_effect now env d d' -> wallet_inv d'.
Proof.
  intros Hinv [_ ->|eid id r current _ _ _ _ _ ->|eid id r current _ Hr Hrep _ Happ HP]; [done|by apply recorded_inv|].
  eapply post_effect_inv; [by apply recorded_inv|exact Hr|exact Hrep|exact Happ|exact HP].
Qed.

Lemma review_effect_inv now p transferID decision d d' :
  wallet_inv d -> review_effect now p transferID decision d d' -> wallet_inv d'.
Proof.
  intros Hinv [id r current next journal rv e Hid Hr Hrep Hrev Hn Hj Hck Hrv Hopen Hdec Hver _ He HE].
  pose proof (stored_wf _ _ _ _ Hinv Hr Hrep) as Hw.
  assert (exists op, apply_op op current = Ok next /\ (op_target op = StatusApproved \/ op_target op = StatusDeclined)) as (op & Hop & Hto).
  { destruct (bool_decide _); [exists OpApprove|exists OpDecline]; cbn; auto. }
  destruct (apply_op_Ok _ _ _ Hw Hop) as (Hnext & _ & Hnw). assert (Hst : lc_status next = op_target op) by by rewrite Hnext.
  assert (Htid : transfer_id (lc_transfer next) = uuid_text id) by (rewrite Hnext; apply Hrep).
  pose proof (event_added_ledger _ _ _ HE) as HL. destruct (event_added_frame _ _ _ HE) as (_ & HT & _ & _ & HV & HU).
  cbn in HT, HV, HU. assert (Hsl : same_ledger d d') by (etrans; [|exact HL]; done).
  assert (Hold : audit_of d id = []).
  { pose proof (wi_audit _ Hinv id) as Ha. rewrite Hrv in Ha. cbn in Ha. by rewrite decide_True in Ha. }
  eapply (wallet_inv_update d d' id (advanced next journal r) Hinv); try done.
  - eapply ledger_inv_frame; [exact Hsl|apply Hinv].
  - cbn. by destruct (wi_row _ Hinv _ _ Hr) as (_ & ? & _).
  - cbn. apply Hnw.
  - cbn. by eapply wi_time.
  - cbn. by eapply key_same.
  - cbn. rewrite Hst. by destruct Hto as [-> | ->].
  - intros id1 r1 _ _. by apply moved_once_frame.
  - by apply event_added_grow in HE.
  - eapply event_added_announced; [exact HE| |].
    + cbn. rewrite <- Htid. eapply ReviewDecided_about; [apply Hnw|exact He].
    + cbn. rewrite Hst. unfold announces. destruct Hto as [-> | ->]; cbn; tauto.
  - cbn. rewrite Hst. unfold open_case. rewrite HV, lookup_insert_eq. split.
    + intros (rv' & [= <-] & E). cbn in E. by destruct Hdec as [-> | ->].
    + by destruct Hto as [-> | ->].
  - intros id1 Hne. rewrite HV. by rewrite lookup_insert_ne.
  - unfold audit_of in *. rewrite HV, HU, lookup_insert_eq, filter_app, Hold. cbn.
    rewrite decide_False by (by destruct Hdec as [-> | ->]). rewrite decide_True by done. by eexists.
  - intros id1 Hne. unfold audit_of. rewrite HU, filter_app. cbn. rewrite decide_False by done. by rewrite app_nil_r.
Qed.

(** ** Steps *)

(** One call of an operation, under any service. *)
Inductive app_step (w w' : World) : Prop :=
| StepPost e s r : entry_typed e -> Post e s w = (r, w') -> app_step w w'
| StepCreate t s r : transfer_typed t -> Create t s w = (r, w') -> app_step w w'
| StepCreatePending l s r :
    transfer_typed (lc_transfer l) -> UTC (requestedAt (lc_transfer l)) = requestedAt (lc_transfer l) ->
    in_int64 (lc_version l) -> CreatePending l s w = (r, w') -> app_step w w'
| StepAssess h env s r : RiskWorker.Handle h env s w = (r, w') -> app_step w w'
| StepTransact now env s r : TransactionWorker.Handle now env s w = (r, w') -> app_step w w'
| StepDecide now principal transferID decision s r :
    ReviewCase.Decide now principal transferID decision s w = (r, w') -> app_step w w'
| StepWallet ownerID currencies s r : WalletRepo.Create ownerID currencies s w = (r, w') -> app_step w w'
| StepQuarantine record s r : quarantine_Store record s w = (r, w') -> app_step w w'.

(** A step of the whole system: one of these, or an operation of a publisher. *)
Inductive step (w w' : World) : Prop :=
| Application : app_step w w' -> step w w'
| StepClaim random locked limit lease s r : Claim random locked limit lease s w = (r, w') -> step w w'
| StepPublished event_ID token s r : MarkPublished event_ID token s w = (r, w') -> step w w'
| StepReleased event_ID token delay diagnostic s r : MarkFailed event_ID token delay diagnostic s w = (r, w') -> step w w'.

Lemma opened_frame owner codes now id ids d d' :
  opened owner codes now id ids d d' ->
  t_transfers d' = t_transfers d /\ t_outbox d' = t_outbox d /\ t_inbox d' = t_inbox d /\ t_reviews d' = t_reviews d /\
  t_audit d' = t_audit d /\ t_entries d' = t_entries d /\ t_postings d' = t_postings d.
Proof. by intros [_ _ _ ->]. Qed.

Lemma opened_wallet_inv owner codes now id ids d d' :
  wallet_inv d -> opened owner codes now id ids d d' -> wallet_inv d'.
Proof.
  intros Hinv HO. destruct (opened_frame _ _ _ _ _ _ _ HO) as (HT & HOb & _ & HV & HU & HE & HP).
  eapply wallet_inv_frame; try done.
  - eapply opened_ledger; [done|apply Hinv].
  - apply outbox_kept_grow. by rewrite HOb.
  - unfold moved_once. by rewrite HE, HP.
Qed.

Lemma quarantine_frame record now d d' :
  quarantine_added record now d d' ->
  t_transfers d' = t_transfers d /\ t_outbox d' = t_outbox d /\ t_inbox d' = t_inbox d /\ t_reviews d' = t_reviews d /\
  t_audit d' = t_audit d /\ same_ledger d d'.
Proof. unfold quarantine_added. intros [_ HQ]. by destruct (_ !! _); rewrite HQ. Qed.

Lemma quarantine_wallet_inv record now d d' : wallet_inv d -> quarantine_added record now d d' -> wallet_inv d'.
Proof.
  intros Hinv HQ. destruct (quarantine_frame _ _ _ _ HQ) as (HT & HOb & _ & HV & HU & HL).
  eapply wallet_inv_frame; try done; [eapply ledger_inv_frame; [done|apply Hinv]|apply outbox_kept_grow; by rewrite HOb|].
  intros id r _. by apply moved_once_frame.
Qed.

Lemma republished_frame d d' :
  republished d d' ->
  t_transfers d' = t_transfers d /\ t_inbox d' = t_inbox d /\ t_reviews d' = t_reviews d /\ t_audit d' = t_audit d /\
  same_ledger d d'.
Proof. by intros [-> _ _]. Qed.

Lemma republished_wallet_inv d d' : wallet_inv d -> republished d d' -> wallet_inv d'.
Proof.
  intros Hinv HR. destruct (republished_frame _ _ HR) as (HT & _ & HV & HU & HL).
  eapply wallet_inv_frame; try done; [eapply ledger_inv_frame; [done|apply Hinv]|by apply republished_kept|].
  intros id r _. by apply moved_once_frame.
Qed.

(** What a step may do to the tables. *)
Inductive app_effect (d d' : DB) : Prop :=
| EffNone : d' = d -> app_effect d d'
| EffPost e prepared now : entry_typed e -> prepareEntry e = Ok prepared -> postable d prepared ->
    d' = posted now prepared d -> app_effect d d'
| EffCreate t p : transfer_typed t -> prepareTransfer t = Ok p -> created p d d' -> app_effect d d'
| EffAccept l p :
    transfer_typed (lc_transfer l) -> UTC (requestedAt (lc_transfer l)) = requestedAt (lc_transfer l) ->
    in_int64 (lc_version l) -> preparePendingTransfer l = Ok p -> accepted p d d' -> app_effect d d'
| EffAssess h env requested policy : risk_effect h env requested policy d d' -> app_effect d d'
| EffTransact now env : transaction_effect now env d d' -> app_effect d d'
| EffDecide now principal transferID decision :
    ReviewCase.Role principal = ReviewCase.RoleAnalyst -> review_effect now principal transferID decision d d' ->
    app_effect d d'
| EffWallet owner codes now id ids : opened owner codes now id ids d d' -> app_effect d d'
| EffQuarantine record now : quarantine_added record now d d' -> app_effect d d'.

Definition effect (d d' : DB) : Prop := app_effect d d' \/ republished d d'.

Lemma outcome_effect {A} (r : Result A) d d' (P : Prop) :
  (P -> app_effect d d') -> outcome r d d' P -> app_effect d d'.
Proof. intros HP. destruct r; cbn; [done|]. intros [->|[_ ?]]; [by apply EffNone|auto]. Qed.

Lemma inv_rows_typed d : wallet_inv d -> rows_typed d.
Proof. intros Hinv id r Hr. by destruct (wi_row _ Hinv _ _ Hr) as (_ & ? & ?). Qed.

Lemma app_step_effect w w' : wallet_inv (committed w) -> app_step w w' -> app_effect (committed w) (committed w').
Proof.
  intros Hinv [e s r Ht HR|t s r Ht HR|l s r Ht Hu Hv HR|h env s r HR|now env s r HR|now p id dec s r HR|
    ownerID currencies s r HR|record s r HR].
  - apply Post_spec in HR; [|done|apply Hinv]. destruct r.
    + destruct HR as (p & now & ? & ? & ?). by eapply EffPost.
    + destruct HR as [?|(_ & p & now & ? & ? & ?)]; [by apply EffNone|by eapply EffPost].
  - apply Create_outcome in HR; [|done|apply Hinv]. destruct r.
    + destruct HR as (p & ? & [[_ ?]|[_ ?]]); [by apply EffNone|by eapply EffCreate].
    + destruct HR as [?|(_ & p & ? & ?)]; [by apply EffNone|by eapply EffCreate].
  - apply CreatePending_outcome in HR; [|done..]. destruct r.
    + destruct HR as (p & ? & [[_ ?]|[_ ?]]); [by apply EffNone|by eapply EffAccept].
    + destruct HR as [?|(_ & p & ? & ?)]; [by apply EffNone|by eapply EffAccept].
  - apply risk_Handle_outcome in HR. eapply outcome_effect; [|exact HR]. intros (rq & pol & _ & _ & HE). by eapply EffAssess.
  - apply transaction_Handle_outcome in HR; [|by apply inv_rows_typed|apply Hinv].
    eapply outcome_effect; [|exact HR]. intros HE. by eapply EffTransact.
  - apply Decide_outcome in HR. eapply outcome_effect; [|exact HR]. intros [Ha HE]. by eapply EffDecide.
  - apply wallet_Create_outcome in HR. destruct r.
    + destruct HR as (owner & sorted & id & ids & _ & _ & _ & _ & _ & _ & HO & _). by eapply EffWallet.
    + destruct HR as [?|(_ & wallet & owner & sorted & id & ids & _ & _ & _ & _ & _ & _ & HO & _)]; [by apply EffNone|by eapply EffWallet].
  - apply quarantine_Store_outcome in HR. destruct r; [by eapply EffQuarantine|].
    destruct HR as [?|[_ ?]]; [by apply EffNone|by eapply EffQuarantine].
Qed.

Lemma step_effect w w' : wallet_inv (committed w) -> step w w' -> effect (committed w) (committed w').
Proof.
  intros Hinv [HS|random locked limit lease s r HR|eid token s r HR|eid token delay diagnostic s r HR];
    [left; by apply app_step_effect|right..].
  - by eapply Claim_republished.
  - exact (proj1 (Mark_republished _ _ _ _ _ _) HR).
  - exact (proj2 (Mark_republished _ _ _ _ _ _) _ _ HR).
Qed.

Lemma app_effect_inv d d' : wallet_inv d -> app_effect d d' -> wallet_inv d'.
Proof.
  intros Hinv [->|e prepared now Ht Hp Hpost ->|t p Ht Hp HC|l p Ht Hu Hv Hp HC|h env rq pol HE|now env HE|now p id dec _ HE|
    owner codes now id ids HO|record now HQ].
  - done.
  - apply prepareEntry_Ok in Hp as [Hw _]; [|done].
    eapply wallet_inv_frame; try done; [apply posted_inv; [apply Hinv|done..]|by apply outbox_kept_grow|].
    intros id r _ [[e' He'] Hm]. apply posted_keeps_moved; [|by split].
    intros E. pose proof (fresh_id _ _ Hpost). congruence.
  - by eapply created_inv.
  - by eapply accepted_inv.
  - by eapply risk_effect_inv.
  - by eapply transaction_effect_inv.
  - by eapply review_effect_inv.
  - by eapply opened_wallet_inv.
  - by eapply quarantine_wallet_inv.
Qed.

Lemma effect_inv d d' : wallet_inv d -> effect d d' -> wallet_inv d'.
Proof. intros Hinv [HE|HR]; [by eapply app_effect_inv|by eapply republished_wallet_inv]. Qed.

(** Runs of any length. *)
Definition run : World -> World -> Prop := rtc step.

Lemma run_inv w w' : wallet_inv (committed w) -> run w w' -> wallet_inv (committed w').
Proof. intros Hinv HR. induction HR as [|w1 w2 w3 HS _ IH]; [done|]. apply IH. eapply effect_inv, step_effect; done. Qed.

(** A system on which nothing has happened yet. *)
Record initial (d : DB) : Prop := {
  in_ledger : fresh_ledger d;
  in_transfers : t_transfers d = ∅;
  in_reviews : t_reviews d = ∅;
  in_audit : t_audit d = [];
  in_assessments : t_assessments d = [];
  in_outbox : t_outbox d = ∅
}.

Lemma initial_inv d : initial d -> wallet_inv d.
Proof.
  intros [Hl Ht Hv Hu _ _]. split.
  - by apply fresh_ledger_inv.
  - by rewrite Ht.
  - by rewrite Ht.
  - by rewrite Ht.
  - by rewrite Ht.
  - by rewrite Ht.
  - intros id. unfold open_case, under_review. rewrite Ht, Hv. naive_solver.
  - intros id. unfold audit_of. by rewrite Hv, Hu.
Qed.

(** The states the program can reach. *)
Definition reachable (w : World) : Prop := exists w0, initial (committed w0) /\ run w0 w.

Lemma reachable_inv w : reachable w -> wallet_inv (committed w).
Proof. intros (w0 & Hi & HR). eapply run_inv; [by apply initial_inv|done]. Qed.

Lemma reachable_step w w' : reachable w -> step w w' -> reachable w'.
Proof. intros (w0 & Hi & HR) HS. exists w0. split; [done|]. by eapply rtc_r. Qed.

(** ** Monotonicity *)

Lemma moves_with_status d id r current op next r' :
  wallet_inv d -> t_transfers d !! id = Some r -> represents id r current -> apply_op op current = Ok next ->
  same_order r r' -> tr_status r' = status_String (lc_status next) -> tr_version r' = lc_version next -> moves r r'.
Proof.
  intros Hinv Hr Hrep Hop Hso Hs Hv. pose proof (stored_wf _ _ _ _ Hinv Hr Hrep) as Hw.
  destruct (apply_op_Ok _ _ _ Hw Hop) as (-> & Hal & _). split; [done|]. split; [rewrite Hv; cbn; by rewrite (rp_version _ _ _ Hrep)|].
  exists (lc_status current), (op_target op). split_and!; [symmetry; apply Hrep|done|done].
Qed.

Lemma progress_insert d d' id r' :
  t_transfers d' = <[id := r']> (t_transfers d) ->
  (t_transfers d !! id = None \/ exists r, t_transfers d !! id = Some r /\ moves r r') -> progress d d'.
Proof.
  intros HT Hid id1 r1 Hr1. rewrite HT. destruct (decide (id1 = id)) as [->|Hne].
  - rewrite lookup_insert_eq. destruct Hid as [?|(r & Hr & Hm)]; [congruence|]. exists r'. split; [done|]. right. congruence.
  - rewrite lookup_insert_ne by done. eauto.
Qed.

Lemma progress_refl d d' : t_transfers d' = t_transfers d -> progress d d'.
Proof. intros E id r Hr. exists r. rewrite E. auto. Qed.

Lemma post_effect_progress current id r causation at_ d d' :
  wallet_inv d -> t_transfers d !! id = Some r -> represents id r current ->
  post_effect current id r causation at_ d d' -> progress d d'.
Proof.
  intros Hinv Hr Hrep HP.
  destruct HP as [entry prepared t next e _ _ _ Hn _ (journal & _ & _ & HE)|next e _ Hn _ (journal & _ & _ & HE)];
    destruct (event_added_frame _ _ _ HE) as (_ & HT & _); cbn in HT;
    (eapply progress_insert; [exact HT|]); right; exists r; (split; [done|]).
  - by eapply (moves_with_status d id r current OpComplete).
  - by eapply (moves_with_status d id r current (OpFail TransactionWorker.insufficientFundsReason)).
Qed.

Lemma app_effect_progress d d' : wallet_inv d -> app_effect d d' -> progress d d'.
Proof.
  intros Hinv [->|e prepared now _ _ _ ->|t p _ _ [_ Hid _ _ (prep & now & _ & _ & HE)]|l p _ _ _ _ [_ Hid _ _ HE]|
    h env rq pol HE|now env HE|now p id dec _ HE|owner codes now id ids HO|record now HQ].
  - by apply progress_refl.
  - by apply progress_refl.
  - destruct (event_added_frame _ _ _ HE) as (_ & HT & _). cbn in HT. eapply progress_insert; [exact HT|by left].
  - destruct (event_added_frame _ _ _ HE) as (_ & HT & _). cbn in HT. eapply progress_insert; [exact HT|by left].
  - destruct HE as [_ ->|eid id r current ev next row e Hu Hr Hrep Hcf _ Hn Hck _ _ Hnone He HE]; [by apply progress_refl|].
    destruct (event_added_frame _ _ _ HE) as (_ & HT & _).
    destruct (assessed_frame id r next row (UTC (RiskWorker.now h)) (recorded RiskWorker.consumerName env eid d)) as (_ & _ & HTa & _).
    rewrite HTa in HT. eapply progress_insert; [exact HT|]. right. exists r. split; [done|].
    destruct (risk_transition_op _ _ _ Hn) as (op & Hop & _). by eapply (moves_with_status d id r current op).
  - destruct HE as [_ ->|eid id r current _ _ _ _ _ ->|eid id r current _ Hr Hrep _ _ HP]; [by apply progress_refl..|].
    eapply (post_effect_progress current id r) in HP; [exact HP|by apply recorded_inv|done|done].
  - destruct HE as [id' r current next journal rv e Hid Hr Hrep Hrev Hn Hj Hck Hrv Hopen Hdec Hver _ He HE].
    destruct (event_added_frame _ _ _ HE) as (_ & HT & _). cbn in HT. eapply progress_insert; [exact HT|]. right. exists r. split; [done|].
    destruct (bool_decide _); [by eapply (moves_with_status d id' r current OpApprove)|by eapply (moves_with_status d id' r current OpDecline)].
  - apply progress_refl. by destruct (opened_frame _ _ _ _ _ _ _ HO) as (-> & _).
  - apply progress_refl. by destruct (quarantine_frame _ _ _ _ HQ) as (-> & _).
Qed.

Lemma effect_progress d d' : wallet_inv d -> effect d d' -> progress d d'.
Proof.
  intros Hinv [HE|HR]; [by apply app_effect_progress|]. apply progress_refl. by destruct (republished_frame _ _ HR) as (-> & _).
Qed.

(** What the consumers have recorded: consumed events and poison records. *)
Definition records_kept (d d' : DB) : Prop := t_inbox d ⊆ t_inbox d' /\ t_quarantine d ⊆ t_quarantine d'.

#[export] Instance records_kept_preorder : PreOrder records_kept.
Proof. split; [done|]. intros d1 d2 d3 [] []. split; by etrans. Qed.

Lemma records_same d d' : t_inbox d' = t_inbox d -> t_quarantine d' = t_quarantine d -> records_kept d d'.
Proof. intros E1 E2. unfold records_kept. by rewrite E1, E2. Qed.

Lemma event_added_records e d0 d d' : event_added e d d' -> records_kept d0 d -> records_kept d0 d'.
Proof. by intros (v & id & row & stored & now & _ & _ & _ & _ & _ & ->). Qed.

Lemma recorded_records name env eid d : unconsumed name env eid d -> records_kept d (recorded name env eid d).
Proof. intros [_ Hn]. split; cbn; [by apply insert_subseteq|done]. Qed.

(** Records stay. *)
Lemma app_effect_records d d' : app_effect d d' -> records_kept d d'.
Proof.
  intros [->|e prepared now _ _ _ ->|t p _ _ [_ _ _ _ (prep & now & _ & _ & HE)]|l p _ _ _ _ [_ _ _ _ HE]|
    h env rq pol HE|now env HE|now p id dec _ HE|owner codes now id ids HO|record now HQ].
  - done.
  - by apply records_same.
  - eapply event_added_records; [exact HE|]. by apply records_same.
  - eapply event_added_records; [exact HE|]. by apply records_same.
  - destruct HE as [_ ->|eid id r current ev next row e Hu _ _ _ _ _ _ _ _ _ _ HE]; [done|].
    eapply event_added_records; [exact HE|]. etrans; [by eapply recorded_records|].
    unfold assessed. case_decide; by apply records_same.
  - destruct HE as [_ ->|eid id r current Hu _ _ _ _ ->|eid id r current Hu _ _ _ _ HP]; [done|by eapply recorded_records|].
    destruct HP as [entry prepared t next e _ _ _ _ _ (journal & _ & _ & HE)|next e _ _ _ (journal & _ & _ & HE)];
      (eapply event_added_records; [exact HE|]; etrans; [by eapply recorded_records|by apply records_same]).
  - destruct HE as [id' r current next journal rv e _ _ _ _ _ _ _ _ _ _ _ _ _ HE].
    eapply event_added_records; [exact HE|]. by apply records_same.
  - apply records_same; by destruct HO as [_ _ _ ->].
  - split; [by destruct (quarantine_frame _ _ _ _ HQ) as (_ & _ & -> & _)|by eapply quarantine_added_grows].
Qed.

Lemma effect_records d d' : effect d d' -> records_kept d d'.
Proof. intros [HE|[-> _ _]]; [by apply app_effect_records|by apply records_same]. Qed.

Lemma run_records w w' : wallet_inv (committed w) -> run w w' -> records_kept (committed w) (committed w').
Proof.
  intros Hinv HR. induction HR as [|w1 w2 w3 HS _ IH]; [done|]. pose proof (step_effect _ _ Hinv HS) as HE.
  etrans; [by apply effect_records|]. apply IH. by eapply effect_inv.
Qed.

Lemma run_inbox w w' : wallet_inv (committed w) -> run w w' -> t_inbox (committed w) ⊆ t_inbox (committed w').
Proof. intros Hinv HR. by apply run_records. Qed.

(** The application only adds events, and adds them unpublished. *)
Definition outbox_grows (d d' : DB) : Prop :=
  t_outbox d ⊆ t_outbox d' /\
  forall oid o, t_outbox d' !! oid = Some o -> t_outbox d !! oid = Some o \/ ob_published_at o = None.

Lemma event_added_grows e d0 d d' : t_outbox d = t_outbox d0 -> event_added e d d' -> outbox_grows d0 d'.
Proof.
  intros E (v & id & row & stored & now & _ & _ & Hrow & Hf & _ & ->). unfold outbox_grows. cbn. rewrite E in *.
  split; [by apply insert_subseteq|]. intros oid o [[<- <-]|[_ Ho]]%lookup_insert_Some; [right|by left].
  unfold outbox_row in Hrow. destruct (uuid_scan (aggregateID v)); [|done].
  destruct (uuid_scan (correlationID v)); [|done]. destruct (scan_optional _); [|done]. by injection Hrow as <-.
Qed.

Lemma app_effect_grows d d' : app_effect d d' -> outbox_grows d d'.
Proof.
  assert (Hsame : forall d1 d2, t_outbox d2 = t_outbox d1 -> outbox_grows d1 d2) by (intros d1 d2 E; unfold outbox_grows; rewrite E; auto).
  intros [->|e prepared now _ _ _ ->|t p _ _ [_ _ _ _ (prep & now & _ & _ & HE)]|l p _ _ _ _ [_ _ _ _ HE]|
    h env rq pol HE|now env HE|now p id dec _ HE|owner codes now id ids HO|record now HQ].
  - by apply Hsame.
  - by apply Hsame.
  - eapply event_added_grows; [|exact HE]; done.
  - eapply event_added_grows; [|exact HE]; done.
  - destruct HE as [_ ->|eid id r current ev next row e _ _ _ _ _ _ _ _ _ _ _ HE]; [by apply Hsame|].
    eapply event_added_grows; [|exact HE]. by destruct (assessed_frame id r next row (UTC (RiskWorker.now h))
      (recorded RiskWorker.consumerName env eid d)) as (-> & _).
  - destruct HE as [_ ->|eid id r current _ _ _ _ _ ->|eid id r current _ _ _ _ _ HP]; [by apply Hsame..|].
    destruct HP as [entry prepared t next e _ _ _ _ _ (journal & _ & _ & HE)|next e _ _ _ (journal & _ & _ & HE)];
      (eapply event_added_grows; [|exact HE]; done).
  - destruct HE as [id' r current next journal rv e _ _ _ _ _ _ _ _ _ _ _ _ _ HE]. eapply event_added_grows; [|exact HE]; done.
  - apply Hsame. by destruct (opened_frame _ _ _ _ _ _ _ HO) as (_ & -> & _).
  - apply Hsame. by destruct (quarantine_frame _ _ _ _ HQ) as (_ & -> & _).
Qed.

End System.
