(* ===== verification/Ready.v ===== *)
(** * What every state has ready for the workers

    A second invariant of the states the program can reach ([ready_inv]): no
    transfer has used up its transitions, no event, assessment or review case is
    ahead of its transfer, every assessment's cause is in the inbox of the risk
    worker, and the accounts of a transfer exist in its currency.  It is what the
    progress of the workers needs beside [wallet_inv]. *)

From stdpp Require Import base list gmap strings numbers sorting.
From Stdlib Require Import ZArith Lia.
From S2P Require Import OutboxRepo OutboxTheorems WalletRepo WalletTheorems Quarantine.
From S2P Require Import RiskWorker TransactionWorker ReviewCase.
From S2P Require Import Prelude GoText Money Journal TransferDomain RiskPolicy Json JsonDecode GoTime Event.
From S2P Require Import TransferEvents EventParse Database LedgerRepo LedgerSpec LedgerCorrect LedgerTheorems.
From S2P Require Import Outbox Inbox TransferRepo TransferSpec TransferStore StoreSpec AuditWriter WorkerSpec System.

Open Scope string_scope.
Open Scope Z_scope.

Section Ready.
Context `{PgLaws}.

(** ** The invariant *)

(** Version and transitions still possible add up to at most four. *)
Definition level (r : TransferRow) : Prop :=
  exists st, tr_status r = status_String st /\ tr_version r + Z.of_nat (remaining st) <= 4.

(** An account that exists in a currency. *)
Definition account_in (d : DB) (a : UUID) (currency : string) : Prop :=
  exists acc, t_accounts d !! a = Some acc /\ acc_currency acc = currency.

Definition accounted (d : DB) (r : TransferRow) : Prop :=
  account_in d (tr_source r) (tr_currency r) /\ account_in d (tr_destination r) (tr_currency r).

Record ready_inv (d : DB) : Prop := {
  rd_level id r : t_transfers d !! id = Some r -> level r;
  rd_accounted id r : t_transfers d !! id = Some r -> accounted d r;
  rd_events oid o : t_outbox d !! oid = Some o -> ob_aggregate_type o = "transfer" ->
    exists r, t_transfers d !! ob_aggregate_id o = Some r /\ ob_aggregate_version o <= tr_version r;
  rd_assessed a : a ∈ t_assessments d ->
    (exists r, t_transfers d !! as_transfer a = Some r /\ as_version a <= tr_version r) /\
    is_Some (t_inbox d !! (RiskWorker.consumerName, as_causation a));
  rd_reviewed id : is_Some (t_reviews d !! id) ->
    exists r, t_transfers d !! id = Some r /\ tr_status r <> "pending_risk"
}.

(** ** Preservation *)

(** One transfer is added or moved on. *)
Record ready_change (d d' : DB) (id : UUID) (r' : TransferRow) : Prop := {
  rc_transfers : t_transfers d' = <[id := r']> (t_transfers d);
  rc_level : level r';
  rc_accounts : t_accounts d' = t_accounts d;
  rc_accounted : accounted d r';
  rc_from : t_transfers d !! id = None \/
    exists r, t_transfers d !! id = Some r /\ tr_version r <= tr_version r' /\ tr_status r' <> "pending_risk";
  rc_outbox oid o : t_outbox d' !! oid = Some o ->
    t_outbox d !! oid = Some o \/ ob_aggregate_id o = id /\ ob_aggregate_version o <= tr_version r';
  rc_inbox : t_inbox d ⊆ t_inbox d';
  rc_assessments a : a ∈ t_assessments d' -> a ∈ t_assessments d \/
    as_transfer a = id /\ as_version a <= tr_version r' /\ is_Some (t_inbox d' !! (RiskWorker.consumerName, as_causation a));
  rc_reviews id1 : is_Some (t_reviews d' !! id1) -> is_Some (t_reviews d !! id1) \/ id1 = id /\ tr_status r' <> "pending_risk"
}.

Lemma account_in_same d d' a c : t_accounts d' = t_accounts d -> account_in d a c -> account_in d' a c.
Proof. unfold account_in. by intros ->. Qed.

Lemma accounted_same d d' r : t_accounts d' = t_accounts d -> accounted d r -> accounted d' r.
Proof. intros E []. split; by eapply account_in_same. Qed.

Lemma accounted_order d r r' :
  tr_source r' = tr_source r -> tr_destination r' = tr_destination r -> tr_currency r' = tr_currency r ->
  accounted d r -> accounted d r'.
Proof. unfold accounted. by intros -> -> ->. Qed.

Lemma ready_change_inv d d' id r' : ready_inv d -> ready_change d d' id r' -> ready_inv d'.
Proof.
  intros [HL HA HE HS HV] [HT HL' HAc HA' HF HO HI HAs HRv].
  assert (Hcase : forall id1 r1, t_transfers d' !! id1 = Some r1 -> r1 = r' \/ t_transfers d !! id1 = Some r1).
  { intros id1 r1. rewrite HT, lookup_insert_Some. naive_solver. }
  assert (Hmono : forall id1 r1, t_transfers d !! id1 = Some r1 ->
    exists r2, t_transfers d' !! id1 = Some r2 /\ tr_version r1 <= tr_version r2 /\
      (tr_status r1 <> "pending_risk" -> tr_status r2 <> "pending_risk")).
  { intros id1 r1 Hr1. rewrite HT. destruct (decide (id1 = id)) as [->|Hne].
    - exists r'. rewrite lookup_insert_eq. destruct HF as [?|(r & Hr & ? & ?)]; [congruence|].
      assert (r1 = r) as -> by congruence. done.
    - exists r1. rewrite lookup_insert_ne by done. done. }
  assert (Hself : t_transfers d' !! id = Some r') by (rewrite HT; apply lookup_insert_eq).
  split.
  - intros id1 r1 [->|Hr1]%Hcase; [done|by eapply HL].
  - intros id1 r1 Hr1. eapply accounted_same; [exact HAc|]. destruct (Hcase _ _ Hr1) as [->|?]; [done|by eapply HA].
  - intros oid o Ho Hty. destruct (HO _ _ Ho) as [Ho'|[E ?]]; [|rewrite E; eauto].
    destruct (HE _ _ Ho' Hty) as (r & (r2 & ? & ? & _)%Hmono & ?). exists r2. split; [done|lia].
  - intros a Ha. destruct (HAs _ Ha) as [Ha'|(E & ? & ?)]; [|rewrite E; eauto].
    destruct (HS _ Ha') as [(r & (r2 & ? & ? & _)%Hmono & ?) [x Hx]]. split; [exists r2; split; [done|lia]|].
    exists x. by eapply lookup_weaken.
  - intros id1 Hid1. destruct (HRv _ Hid1) as [Hid1'|[-> ?]]; [|eauto].
    destruct (HV _ Hid1') as (r & (r2 & ? & _ & Hp)%Hmono & Hs). eauto.
Qed.

(** Nothing about the transfers changes; accounts may be added. *)
Lemma ready_frame d d' :
  ready_inv d -> t_transfers d' = t_transfers d -> t_accounts d ⊆ t_accounts d' ->
  (forall oid o, t_outbox d' !! oid = Some o -> exists o0, t_outbox d !! oid = Some o0 /\ same_content o0 o) ->
  t_inbox d ⊆ t_inbox d' -> t_assessments d' = t_assessments d -> t_reviews d' = t_reviews d -> ready_inv d'.
Proof.
  intros [HL HA HE HS HV] HT HAc HO HI HAs HRv. split; rewrite ?HT, ?HAs, ?HRv; [done| | | |done].
  - intros id r Hr. destruct (HA _ _ Hr) as [(x & ? & ?) (y & ? & ?)].
    split; [exists x|exists y]; (split; [by eapply lookup_weaken|done]).
  - intros oid o Ho Hty. destruct (HO _ _ Ho) as (o0 & Ho0 & Hc). unfold same_content in Hc. destruct_and!.
    destruct (HE _ _ Ho0) as (r & ? & ?); [congruence|]. exists r. split; congruence.
  - intros a Ha. destruct (HS _ Ha) as [? [x ?]]. split; [done|]. exists x. by eapply lookup_weaken.
Qed.

Lemma same_content_kept (d d' : DB) : t_outbox d' = t_outbox d ->
  forall oid o, t_outbox d' !! oid = Some o -> exists o0, t_outbox d !! oid = Some o0 /\ same_content o0 o.
Proof. intros -> oid o Ho. exists o. split; [done|apply same_content_refl]. Qed.

(** An added event is the only new row, and about its aggregate. *)
Lemma event_added_rows e d d' type id version :
  event_added e d d' -> about e type (uuid_text id) version ->
  forall oid o, t_outbox d' !! oid = Some o ->
    t_outbox d !! oid = Some o \/ ob_aggregate_id o = id /\ ob_aggregate_version o = version.
Proof.
  intros (v & eid & row & stored & now & Hv & _ & Hrow & _ & _ & ->) (_ & _ & Hid & Hver) oid o. cbn.
  intros [[_ <-]|[_ ?]]%lookup_insert_Some; [right|by left].
  destruct (validateDraft_identity _ _ Hv) as (_ & _ & _ & E3 & E4).
  rewrite Hid in E4. specialize (E4 (uuid_text_canonical id)).
  unfold outbox_row in Hrow. rewrite E4, uuid_scan_text in Hrow.
  destruct (uuid_scan (correlationID v)); [|done]. destruct (scan_optional _); [|done]. injection Hrow as <-.
  cbn. split; congruence.
Qed.

Lemma same_ledger_accounts d d' : same_ledger d d' -> t_accounts d' = t_accounts d.
Proof. by intros []. Qed.

Lemma level_moved d id r current op next r' :
  wallet_inv d -> t_transfers d !! id = Some r -> represents id r current -> apply_op op current = Ok next ->
  tr_status r' = status_String (lc_status next) -> tr_version r' = lc_version next -> level r ->
  level r' /\ tr_version r <= tr_version r' /\ tr_status r' <> "pending_risk".
Proof.
  intros Hinv Hr Hrep Hop Hs Hv (st & Est & Hlv). pose proof (stored_wf _ _ _ _ Hinv Hr Hrep) as Hw.
  destruct (apply_op_Ok _ _ _ Hw Hop) as (-> & Hal & _). cbn in Hs, Hv.
  assert (st = lc_status current) as ->.
  { rewrite <- (rp_status _ _ _ Hrep) in Est. destruct st, (lc_status current); done. }
  rewrite (rp_version _ _ _ Hrep) in Hv. apply allowed_remaining in Hal as Hrm.
  split_and!; [exists (op_target op); split; [done|lia]|lia|]. rewrite Hs. by destruct (lc_status current), (op_target op).
Qed.

Lemma level_new (r : TransferRow) st : tr_status r = status_String st -> tr_version r = 1 -> level r.
Proof. intros E Hv. exists st. split; [done|]. destruct st; cbn; lia. Qed.

Lemma authorized_accounted d t source destination currency :
  authorized d t source destination -> currency = currency_String (Money.currency (transfer_amount t)) ->
  account_in d source currency /\ account_in d destination currency.
Proof.
  intros [(a & _ & Ha & _ & _ & _ & Hca & _) (b & _ & Hb & _ & _ & _ & Hcb & _)] ->.
  split; [exists a|exists b]; done.
Qed.

(** *** Each effect *)

Lemma created_ready t p d d' :
  transfer_typed t -> prepareTransfer t = Ok p -> ready_inv d -> created p d d' -> ready_inv d'.
Proof.
  intros Ht Hp Hrd [_ Hid _ Hau (prepared & now & _ & _ & HE)].
  destruct (prepareTransfer_Ok _ _ Ht Hp) as (_ & Hw & [Hpid _] & _ & Hev).
  pose proof (event_added_ledger _ _ _ HE) as HL%same_ledger_accounts.
  destruct (event_added_frame _ _ _ HE) as (_ & HT & HI & HS & HV & _).
  apply (ready_change_inv d d' (pt_id p) (created_row p)); [done|]. split; try done.
  - by apply (level_new _ StatusCompleted).
  - by eapply authorized_accounted.
  - by left.
  - intros oid o Ho. eapply event_added_rows in Ho; [|exact HE|rewrite Hpid; by apply Completed_about].
    destruct Ho as [Ho|[? E]]; [by left|right]. split; [done|]. rewrite E. done.
  - cbn in HI. by rewrite HI.
  - cbn in HS. rewrite HS. by left.
  - cbn in HV. rewrite HV. by left.
Qed.

Lemma accepted_ready l p d d' :
  transfer_typed (lc_transfer l) -> UTC (requestedAt (lc_transfer l)) = requestedAt (lc_transfer l) -> in_int64 (lc_version l) ->
  preparePendingTransfer l = Ok p -> ready_inv d -> accepted p d d' -> ready_inv d'.
Proof.
  intros Ht Hu Hv Hp Hrd [_ Hid _ Hau HE].
  destruct (preparePending_Ok _ _ Ht Hu Hv Hp) as (Hw & Htr & Hst & [Hpid _] & Hev). rewrite <- Htr in Hpid.
  pose proof (event_added_ledger _ _ _ HE) as HL%same_ledger_accounts.
  destruct (event_added_frame _ _ _ HE) as (_ & HT & HI & HS & HV & _).
  pose proof Hw as ((_ & _ & Hsh)%lifecycle_validate_Ok & Htw & _). unfold status_shape in Hsh. rewrite Hst in Hsh.
  apply (ready_change_inv d d' (pq_id p) (pending_row p)); [done|]. split; try done.
  - by apply (level_new _ StatusPendingRisk).
  - by eapply authorized_accounted.
  - by left.
  - intros oid o Ho. eapply event_added_rows in Ho; [|exact HE|rewrite Hpid; by apply Requested_about].
    destruct Ho as [Ho|[? E]]; [by left|right]. split; [done|]. rewrite E. cbn. lia.
  - cbn in HI. by rewrite HI.
  - cbn in HS. rewrite HS. by left.
  - cbn in HV. rewrite HV. by left.
Qed.

Lemma risk_ready h env requested policy d d' :
  wallet_inv d -> ready_inv d -> risk_effect h env requested policy d d' -> ready_inv d'.
Proof.
  intros Hinv Hrd [_ ->|eid id r current ev next row e Hu Hr Hrep Hcf _ Hn Hck (i & sg & Hrow) _ Hnone He HE]; [done|].
  set (at_ := UTC (RiskWorker.now h)) in *. set (d1 := recorded RiskWorker.consumerName env eid d) in *.
  pose proof (stored_wf _ _ _ _ Hinv Hr Hrep) as Hw.
  destruct (risk_transition_op _ _ _ Hn) as (op & Hop & Hto). destruct (apply_op_Ok _ _ _ Hw Hop) as (Hnext & _ & Hnw).
  assert (Htid : transfer_id (lc_transfer next) = uuid_text id) by (rewrite Hnext; apply Hrep).
  destruct (assessed_frame id r next row at_ d1) as (HO & _ & HTa & HVa).
  pose proof (event_added_ledger _ _ _ HE) as HL%same_ledger_accounts.
  pose proof (same_ledger_accounts _ _ (assessed_ledger id r next row at_ d1)) as HLa.
  destruct (event_added_frame _ _ _ HE) as (_ & HT & HI & HS & HV & _).
  assert (HIa : t_inbox (assessed id r next row at_ d1) = t_inbox d1) by (unfold assessed; by case_decide).
  assert (HSa : t_assessments (assessed id r next row at_ d1) = (t_assessments d ++ [row])%list)
    by (unfold assessed; by case_decide).
  assert (Hrow_in : t_inbox d' !! (RiskWorker.consumerName, eid) = Some (mkInboxRow (eventType (draft env)) (eventVersion (draft env)))).
  { rewrite HI, HIa. cbn. apply lookup_insert_eq. }
  destruct (level_moved d id r current op next (with_status (status_String (lc_status next)) (lc_version next) r) Hinv Hr Hrep Hop)
    as (Hlv & Hle & Hnp); [done..|by eapply rd_level|].
  apply (ready_change_inv d d' id (with_status (status_String (lc_status next)) (lc_version next) r)); [done|]. split.
  - by rewrite HT, HTa.
  - done.
  - by rewrite HL, HLa.
  - eapply (accounted_order d r); [done..|]. by eapply rd_accounted.
  - right. by exists r.
  - intros oid o Ho. eapply event_added_rows in Ho; [|exact HE|rewrite <- Htid; by eapply RiskAssessed_about, He; apply Hnw].
    destruct Ho as [Ho|[? E]]; [left; by rewrite HO in Ho|right]. split; [done|]. rewrite E. done.
  - rewrite HI, HIa. apply insert_subseteq, Hu.
  - intros a. rewrite HS, HSa, elem_of_app, list_elem_of_singleton. intros [?|Ea]; [by left|right].
    rewrite Ea, Hrow. cbn. split_and!; [done|done|by eexists].
  - intros id1. rewrite HV, HVa. case_decide as Hd; [|by left]. destruct (decide (id1 = id)) as [->|Hne]; [by right|].
    rewrite lookup_insert_ne by done. by left.
Qed.

(** A transition with an event, after changes that leave these tables alone. *)
Lemma concluded_ready op current id r next e type d dm d' :
  wallet_inv d -> ready_inv d -> t_transfers d !! id = Some r -> represents id r current ->
  apply_op op current = Ok next -> concluded id r next e dm d' ->
  t_transfers dm = t_transfers d -> t_accounts dm = t_accounts d -> t_outbox dm = t_outbox d -> t_inbox d ⊆ t_inbox dm ->
  t_assessments dm = t_assessments d -> t_reviews dm = t_reviews d ->
  about e type (transfer_id (lc_transfer next)) (lc_version next) -> ready_inv d'.
Proof.
  intros Hinv Hrd Hr Hrep Hop (journal & _ & _ & HE) HTm HAm HOm HIm HSm HVm Hab.
  pose proof (stored_wf _ _ _ _ Hinv Hr Hrep) as Hw. destruct (apply_op_Ok _ _ _ Hw Hop) as (Hnext & _).
  assert (Htid : transfer_id (lc_transfer next) = uuid_text id) by (rewrite Hnext; apply Hrep). rewrite Htid in Hab.
  pose proof (event_added_ledger _ _ _ HE) as HL%same_ledger_accounts.
  destruct (event_added_frame _ _ _ HE) as (_ & HT & HI & HS & HV & _). cbn in HT, HI, HS, HV, HL.
  destruct (level_moved d id r current op next (advanced next journal r) Hinv Hr Hrep Hop)
    as (Hlv & Hle & Hnp); [done..|by eapply rd_level|].
  apply (ready_change_inv d d' id (advanced next journal r)); [done|]. split.
  - by rewrite HT, HTm.
  - done.
  - by rewrite HL.
  - eapply (accounted_order d r); [done..|]. by eapply rd_accounted.
  - right. by exists r.
  - intros oid o Ho. eapply event_added_rows in Ho; [|exact HE|exact Hab]. cbn in Ho. rewrite HOm in Ho.
    destruct Ho as [Ho|[? E]]; [by left|right]. split; [done|]. rewrite E. done.
  - by rewrite HI.
  - rewrite HS, HSm. by left.
  - rewrite HV, HVm. by left.
Qed.

Lemma recorded_ready name env eid d : ready_inv d -> unconsumed name env eid d -> ready_inv (recorded name env eid d).
Proof.
  intros Hrd [_ Hn]. apply (ready_frame d); try done; [by apply same_content_kept|cbn; by apply insert_subseteq].
Qed.

Lemma post_ready current id r causation at_ d d' :
  wallet_inv d -> ready_inv d -> t_transfers d !! id = Some r -> represents id r current ->
  post_effect current id r causation at_ d d' -> ready_inv d'.
Proof.
  intros Hinv Hrd Hr Hrep HP. pose proof (stored_wf _ _ _ _ Hinv Hr Hrep) as Hw.
  destruct HP as [entry prepared t next e _ _ _ Hn Hev HC|next e _ Hn Hev HC].
  - pose proof (apply_op_Ok OpComplete _ _ Hw Hn) as (_ & _ & (_ & Hnt & _)).
    eapply (concluded_ready OpComplete current id r next e CompletedType d (posted t prepared d) d'); try done.
    by eapply CompletedLifecycle_about.
  - pose proof (apply_op_Ok (OpFail TransactionWorker.insufficientFundsReason) _ _ Hw Hn) as (_ & _ & (_ & Hnt & _)).
    eapply (concluded_ready (OpFail TransactionWorker.insufficientFundsReason) current id r next e FailedType d d d'); try done.
    by eapply Failed_about.
Qed.

Lemma transaction_ready now env d d' :
  wallet_inv d -> ready_inv d -> transaction_effect now env d d' -> ready_inv d'.
Proof.
  intros Hinv Hrd [_ ->|eid id r current Hu _ _ _ _ ->|eid id r current Hu Hr Hrep _ _ HP]; [done|by apply recorded_ready|].
  eapply (post_ready current id r); [by apply recorded_inv|by apply recorded_ready|exact Hr|exact Hrep|exact HP].
Qed.

Lemma review_ready now p transferID decision d d' :
  wallet_inv d -> ready_inv d -> review_effect now p transferID decision d d' -> ready_inv d'.
Proof.
  intros Hinv Hrd [id r current next journal rv e Hid Hr Hrep Hrev Hn Hj Hck Hrv _ _ _ _ He HE].
  pose proof (stored_wf _ _ _ _ Hinv Hr Hrep) as Hw.
  assert (exists op, apply_op op current = Ok next) as [op Hop] by (destruct (bool_decide _); [by exists OpApprove|by exists OpDecline]).
  destruct (apply_op_Ok _ _ _ Hw Hop) as (Hnext & _ & Hnw).
  assert (Htid : transfer_id (lc_transfer next) = uuid_text id) by (rewrite Hnext; apply Hrep).
  pose proof (event_added_ledger _ _ _ HE) as HL%same_ledger_accounts.
  destruct (event_added_frame _ _ _ HE) as (_ & HT & HI & HS & HV & _). cbn in HT, HI, HS, HV, HL.
  destruct (level_moved d id r current op next (advanced next journal r) Hinv Hr Hrep Hop)
    as (Hlv & Hle & Hnp); [done..|by eapply rd_level|].
  apply (ready_change_inv d d' id (advanced next journal r)); [done|]. split; try done.
  - eapply (accounted_order d r); [done..|]. by eapply rd_accounted.
  - right. by exists r.
  - intros oid o Ho. eapply event_added_rows in Ho; [|exact HE|rewrite <- Htid; by eapply ReviewDecided_about, He; apply Hnw].
    destruct Ho as [Ho|[? E]]; [by left|right]. split; [done|]. rewrite E. done.
  - by rewrite HI.
  - rewrite HS. by left.
  - intros id1. rewrite HV. destruct (decide (id1 = id)) as [->|Hne]; [by right|]. rewrite lookup_insert_ne by done. by left.
Qed.

Lemma opened_keeps_accounts owner codes now id ids d d' : opened owner codes now id ids d d' -> t_accounts d ⊆ t_accounts d'.
Proof. intros HO. apply map_subseteq_spec. intros a x Ha. by apply (opened_old _ _ _ _ _ _ _ HO). Qed.

Lemma app_effect_ready d d' : wallet_inv d -> ready_inv d -> app_effect d d' -> ready_inv d'.
Proof.
  intros Hinv Hrd [->|e prepared now Ht Hp Hpost ->|t p Ht Hp HC|l p Ht Hu Hv Hp HC|h env rq pol HE|now env HE|now p id dec _ HE|
    owner codes now id ids HO|record now HQ].
  - done.
  - apply (ready_frame d); try done. by apply same_content_kept.
  - by eapply created_ready.
  - by eapply accepted_ready.
  - by eapply risk_ready.
  - by eapply transaction_ready.
  - by eapply review_ready.
  - destruct (opened_frame _ _ _ _ _ _ _ HO) as (HT & HOb & HI & HV & _).
    apply (ready_frame d); try done; [by eapply opened_keeps_accounts|by apply same_content_kept|by rewrite HI|].
    by rewrite (op_tables _ _ _ _ _ _ _ HO).
  - destruct (quarantine_frame _ _ _ _ HQ) as (HT & HOb & HI & HV & _ & HL).
    apply (ready_frame d); try done; [by rewrite (same_ledger_accounts _ _ HL)|by apply same_content_kept|by rewrite HI|].
    destruct HQ as [_ HQ]. by destruct (_ !! _); rewrite HQ.
Qed.

Lemma republished_ready d d' : ready_inv d -> republished d d' -> ready_inv d'.
Proof.
  intros Hrd [HT Hk Hn]. rewrite HT. apply (ready_frame d); try done. cbn. intros oid o Ho.
  destruct (t_outbox d !! oid) as [o0|] eqn:E; [|by rewrite Hn in Ho].
  exists o0. split; [done|]. destruct (Hk _ _ E) as (o' & Ho' & Hc). assert (o' = o) as -> by congruence.
  destruct Hc as [->|Hc]; [apply same_content_refl|by apply pub_step_content].
Qed.

Lemma effect_ready d d' : wallet_inv d -> ready_inv d -> effect d d' -> ready_inv d'.
Proof. intros Hinv Hrd [HE|HE]; [by eapply app_effect_ready|by eapply republished_ready]. Qed.

Lemma initial_ready d : initial d -> ready_inv d.
Proof.
  intros [_ HT HV _ HS HO]. split; rewrite ?HT, ?HV, ?HO, ?HS; try done.
  - intros a Ha. by inversion Ha.
  - intros id [? ?]. done.
Qed.

Lemma run_ready w w' : wallet_inv (committed w) -> ready_inv (committed w) -> run w w' -> ready_inv (committed w').
Proof.
  intros Hinv Hrd HR. induction HR as [|w1 w2 w3 HS _ IH]; [done|]. pose proof (step_effect _ _ Hinv HS) as HE.
  apply IH; [by eapply effect_inv|by eapply effect_ready].
Qed.

Lemma reachable_ready w : reachable w -> ready_inv (committed w).
Proof. intros (w0 & Hi & HR). eapply run_ready; [by apply initial_inv|by apply initial_ready|done]. Qed.

(** ** The checks on a row *)

(** The shapes [transfers_lifecycle_shape_check] admits. *)
Definition row_shape (id : UUID) (r : TransferRow) : Prop :=
  (tr_status r = "pending_risk" /\ tr_version r = 1 /\ is_Some (tr_policy r) /\ tr_journal r = None /\ tr_failure r = None) \/
  ((tr_status r = "approved" \/ tr_status r = "review_required" \/ tr_status r = "declined") /\ 2 <= tr_version r /\
    is_Some (tr_policy r) /\ tr_journal r = None /\ tr_failure r = None) \/
  (tr_status r = "completed" /\ tr_journal r = Some id /\ tr_failure r = None /\ (tr_version r = 1 \/ is_Some (tr_policy r))) \/
  (tr_status r = "failed" /\ 2 <= tr_version r /\ is_Some (tr_policy r) /\ tr_journal r = None /\ is_Some (tr_failure r)).

Lemma lifecycle_shape_true id r : lifecycle_shape_check id r = true <-> row_shape id r.
Proof.
  unfold lifecycle_shape_check, row_shape. rewrite !orb_true_iff, !andb_true_iff, !orb_true_iff, !bool_decide_eq_true, !negb_true_iff,
    !Z.eqb_eq, !Z.leb_le.
  destruct (tr_policy r), (tr_journal r), (tr_failure r); rewrite ?is_Some_alt; naive_solver.
Qed.

(** The constraints of a row that no transition touches. *)
Definition order_checks (r : TransferRow) : Prop :=
  0 < tr_amount r /\ currency_check (tr_currency r) = true /\ tr_source r <> tr_destination r /\
  visible_check 128 (tr_key r) = true /\ match tr_policy r with Some v => visible_check 64 v = true | None => True end.

Lemma fail_if_Ok b e : fail_if b e = Ok tt <-> b = false.
Proof. by destruct b. Qed.

Lemma fail_if_bind {B} b e (k : unit -> Result B) x : fail_if b e ≫= k = Ok x <-> b = false /\ k tt = Ok x.
Proof. destruct b; cbn; naive_solver. Qed.

Lemma transfer_checks_Ok id r :
  transfer_checks id r = Ok tt <->
  order_checks r /\ row_shape id r /\ 0 < tr_version r /\
  match tr_failure r with Some v => code_check v = true | None => True end.
Proof.
  unfold transfer_checks, order_checks. rewrite !fail_if_bind, fail_if_Ok, !negb_false_iff, bool_decide_eq_false,
    !Z.leb_gt, lifecycle_shape_true.
  destruct (tr_failure r), (tr_policy r); rewrite ?negb_false_iff; tauto.
Qed.

(** A transition keeps the checks when its new columns have a shape. *)
Lemma outcome_checks id r status version journal failure :
  transfer_checks id r = Ok tt -> row_shape id (with_outcome status version journal failure r) -> 0 < version ->
  match failure with Some v => code_check v = true | None => True end ->
  transfer_checks id (with_outcome status version journal failure r) = Ok tt.
Proof. rewrite !transfer_checks_Ok. intros ((? & ? & ? & ? & ?) & _) ? ? ?. by split_and!. Qed.

(** ** Commits are accepted *)

(** The deferred constraints hold in every such state. *)
Lemma deferred_sound d : wallet_inv d -> ready_inv d -> deferred_ok d = true.
Proof.
  intros Hinv Hrd. unfold deferred_ok. apply forallb_forall. intros [id r] Hin%list_elem_of_In%elem_of_map_to_list.
  destruct (rd_accounted _ Hrd _ _ Hin) as [(a & -> & ->) (b & -> & ->)]. rewrite !bool_decide_eq_true_2 by done.
  rewrite !andb_true_r. destruct (tr_journal r) as [j|] eqn:Ej; [|done]. apply bool_decide_eq_true.
  destruct (wi_row _ Hinv _ _ Hin) as ((_ & Hsh & _)%transfer_checks_Ok & _).
  unfold row_shape in Hsh. rewrite Ej in Hsh. destruct Hsh as [?|[?|[(Hs & [= ->] & _)|?]]]; [naive_solver..| |naive_solver].
  by destruct (wi_moved _ Hinv _ _ Hin Hs) as [? _].
Qed.

End Ready.
