(* ===== verification/Messages.v ===== *)
(** * What the stored events say

    A third invariant of the reachable states ([told_inv]): for every transfer
    that waits for a worker the outbox holds an event from which the worker reads
    what the row says.  A pending transfer's event was built from the lifecycle it
    was accepted with; an approved one's from the assessment or the decision that
    approved it. *)

From stdpp Require Import base list gmap strings numbers sorting.
From Stdlib Require Import ZArith Lia.
From S2P Require Import OutboxRepo OutboxTheorems WalletRepo WalletTheorems Quarantine.
From S2P Require Import RiskWorker TransactionWorker ReviewCase.
From S2P Require Import Prelude GoText Money Journal TransferDomain RiskPolicy Json JsonDecode GoTime Event.
From S2P Require Import TransferEvents EventParse EnvelopeJson Documents Database LedgerRepo LedgerSpec LedgerCorrect LedgerTheorems.
From S2P Require Import Outbox Inbox TransferRepo TransferSpec TransferStore StoreSpec AuditWriter WorkerSpec System Ready.

Open Scope string_scope.
Open Scope Z_scope.

(** ** Drafts of the constructors *)

(** A draft made of a marshalled object keeps its columns and its payload. *)
Lemma NewDraft_inv ty v id av ca at_ fields e :
  isCanonicalUUID id = true -> ascii_value (VObject fields) = true -> depth_of (VObject fields) <= maxNestingDepth ->
  len (marshal (VObject fields)) <= 32768 ->
  NewDraft (mkDraftParams ty v "transfer" id av id ca at_ (marshal (VObject fields))) = Ok e ->
  exists ca', e = mkDraft ty v "transfer" id av id ca' (UTC at_) (marshal (VObject fields)) /\ draft_wf e /\
    (ca = "" -> ca' = "") /\ (ca <> "" -> isCanonicalUUID ca' = true).
Proof.
  intros Hid Ha Hd Hl HN. pose proof HN as HN'. unfold NewDraft in HN.
  cbn [param_Payload param_AggregateID param_CorrelationID param_CausationID param_EventType param_EventVersion param_AggregateType
    param_AggregateVersion param_OccurredAt] in HN.
  rewrite normalizePayload_marshal, (canonical_normalize _ Hid) in HN by done. cbn [fst] in HN.
  destruct (if bool_decide (ca = "") then _ else _) as [ca'|] eqn:Eca; [|done].
  destruct (draft_validate _) as [[]|] eqn:Ev in HN; [|done]. injection HN as <-. exists ca'. split_and!; [done| | |].
  - by eapply NewDraft_wf.
  - intros ->. by injection Eca.
  - intros Hne. rewrite bool_decide_eq_false_2 in Eca by done.
    destruct (normalizeUUID ca) as [t []] eqn:En; [|done]. injection Eca as <-. by apply (normalizeUUID_canonical ca).
Qed.

Lemma Evaluate_facts p i ev : Evaluate p i = Ok ev ->
  evaluation_wf ev /\ Forall (fun sg => all_bytes kept_byte (signal_code sg) = true) (signals ev).
Proof.
  unfold Evaluate. destruct (policy_validate p); [|done].
  repeat case_match; try done; intros [= <-]; (split; [split_and!; cbn; try lia|]); repeat constructor; try done; int64_lia.
Qed.

Lemma RiskAssessed_inv l ev at_ ca e :
  lifecycle_wf l -> evaluation_wf ev -> RiskAssessed l ev at_ ca = Ok e ->
  exists ca', e = assessed_draft l ev at_ ca' /\ draft_wf e /\ isCanonicalUUID ca' = true /\
    eval_policyVersion ev = riskPolicyVersion l /\ matchesRiskDecision (lc_status l) (decision ev) = true.
Proof.
  intros Hw Hev. unfold RiskAssessed. destruct (_ || _) eqn:Eg; [done|]. rewrite !orb_false_iff, !negb_false_iff in Eg.
  destruct Eg as ((((Hm & Hpv%bool_decide_eq_true) & _) & _) & Hca%bool_decide_eq_false).
  assert (Hst : lc_status l <> StatusCompleted) by (intros E; rewrite E in Hm; by destruct (decision ev)).
  destruct (assessed_members_ok l ev Hw Hev Hst Hpv) as (Ha & Hd & Hb). intros HN.
  apply (NewDraft_inv _ _ _ _ _ _ (assessed_members l ev)) in HN as (ca' & -> & Hdw & _ & Hc).
  - exists ca'. by auto.
  - by apply canonical_transfer_id, Hw.
  - done.
  - unfold maxNestingDepth. lia.
  - etrans; [apply len_marshal_object_le; by repeat constructor|done].
Qed.

Lemma ReviewDecided_inv l subject at_ e :
  lifecycle_wf l -> visible_check 128 subject = true -> ReviewDecided l subject at_ = Ok e ->
  e = decided_draft l subject at_ /\ draft_wf e /\ subject <> "" /\ ascii_text subject = true /\ len subject <= 128.
Proof.
  intros Hw Hvis. unfold visible_check in Hvis. rewrite !andb_true_iff, !Z.leb_le in Hvis. destruct Hvis as ((Hl1 & Hl2) & Hv).
  pose proof (visible_ascii _ Hv) as Hsa. assert (Hne : subject <> "") by (intros ->; cbn in Hl1; lia).
  unfold ReviewDecided. destruct (_ || _); [done|].
  destruct (decided_members_ok l subject Hw Hsa Hl2) as (Ha & Hd & Hb). intros HN.
  apply (NewDraft_inv _ _ _ _ _ _ (decided_members l subject)) in HN as (ca' & -> & Hdw & Hc & _).
  - rewrite (Hc eq_refl) in *. by auto.
  - by apply canonical_transfer_id, Hw.
  - done.
  - unfold maxNestingDepth. lia.
  - etrans; [apply len_marshal_object_le; by repeat constructor|done].
Qed.

Section Messages.
Context `{PgLaws}.

(** ** The invariant *)

(** The outbox holds an event. *)
Definition told (d : DB) (e : Draft) : Prop := exists oid o, t_outbox d !! oid = Some o /\ holds_event e o.

(** The lifecycle with which a pending row was accepted; the row has its request
    time as the column keeps it. *)
Record accepted_as (id : UUID) (r : TransferRow) (l : Lifecycle) : Prop := {
  aa_wf : lifecycle_wf l;
  aa_status : lc_status l = StatusPendingRisk;
  aa_id : transfer_id (lc_transfer l) = uuid_text id;
  aa_requester : requesterID (lc_transfer l) = uuid_text (tr_requester r);
  aa_source : sourceAccountID (lc_transfer l) = uuid_text (tr_source r);
  aa_destination : destinationAccountID (lc_transfer l) = uuid_text (tr_destination r);
  aa_currency : currency_String (currency (transfer_amount (lc_transfer l))) = tr_currency r;
  aa_amount : minorUnits (transfer_amount (lc_transfer l)) = tr_amount r;
  aa_time : tr_requested_at r = stored_time (requestedAt (lc_transfer l));
  aa_policy : tr_policy r = Some (riskPolicyVersion l)
}.

Definition requested_told (d : DB) (id : UUID) (r : TransferRow) : Prop :=
  exists l, accepted_as id r l /\ (printable_time (requestedAt (lc_transfer l)) -> told d (requested_draft l)).

(** The lifecycle after its approval. *)
Record approved_as (id : UUID) (r : TransferRow) (l : Lifecycle) : Prop := {
  ap_wf : lifecycle_wf l;
  ap_status : lc_status l = StatusApproved;
  ap_id : transfer_id (lc_transfer l) = uuid_text id;
  ap_version : lc_version l = tr_version r;
  ap_policy : riskPolicyVersion l = TrimSpace (nullableValue (tr_policy r))
}.

(** The event of the assessment, or of the decision that closed the review. *)
Inductive approval_event (d : DB) (id : UUID) (l : Lifecycle) (e : Draft) : Prop :=
| ByAssessment ev at_ ca :
    e = assessed_draft l ev at_ ca -> lc_version l = 2 -> evaluation_wf ev ->
    Forall (fun sg => all_bytes kept_byte (signal_code sg) = true) (signals ev) -> decision ev = DecisionApprove ->
    eval_policyVersion ev = riskPolicyVersion l -> isCanonicalUUID ca = true -> approval_event d id l e
| ByDecision subject at_ rv :
    e = decided_draft l subject at_ -> 3 <= lc_version l -> subject <> "" -> ascii_text subject = true -> len subject <= 128 ->
    t_reviews d !! id = Some rv -> rv_decided_by rv = Some subject -> approval_event d id l e.

Definition approved_told (d : DB) (id : UUID) (r : TransferRow) : Prop :=
  exists l e, approved_as id r l /\ approval_event d id l e /\ draft_wf e /\ told d e.

Definition told_row (d : DB) (id : UUID) (r : TransferRow) : Prop :=
  (tr_status r = "pending_risk" -> requested_told d id r) /\ (tr_status r = "approved" -> approved_told d id r).

Definition told_inv (d : DB) : Prop := forall id r, t_transfers d !! id = Some r -> told_row d id r.

(** ** Preservation *)

Lemma same_columns r r' : same_content r r' -> event_columns r' = event_columns r.
Proof. unfold same_content, event_columns. intros (_ & -> & -> & -> & -> & -> & -> & -> & -> & -> & _). done. Qed.

Lemma told_kept d d' e : outbox_kept d d' -> told d e -> told d' e.
Proof.
  intros Hk (oid & o & Ho & (seq & now & stored & r0 & Hs & Hr & Hc)). destruct (Hk _ _ Ho) as (o' & Ho' & Hsame).
  exists oid, o'. split; [done|]. exists seq, now, stored, r0. by rewrite (same_columns _ _ Hsame).
Qed.

Lemma told_row_kept d d' id r : outbox_kept d d' -> t_reviews d' !! id = t_reviews d !! id -> told_row d id r -> told_row d' id r.
Proof.
  intros Hk HV [HP HA]. split.
  - intros Hs. destruct (HP Hs) as (l & Hl & Ht). exists l. split; [done|]. intros Hp. by eapply told_kept, Ht.
  - intros Hs. destruct (HA Hs) as (l & e & Hl & He & Hw & Ht). exists l, e. split_and!; [done| |done|by eapply told_kept].
    destruct He; [by eapply ByAssessment|eapply ByDecision; try done; by rewrite HV].
Qed.

Lemma told_change d d' id r' :
  told_inv d -> t_transfers d' = <[id := r']> (t_transfers d) -> outbox_kept d d' ->
  (forall id1, id1 <> id -> t_reviews d' !! id1 = t_reviews d !! id1) -> told_row d' id r' -> told_inv d'.
Proof.
  intros Hinv HT Hk HV Hr' id1 r1. rewrite HT. intros [[<- <-]|[Hne Hr1]]%lookup_insert_Some; [done|].
  eapply told_row_kept; [exact Hk|by apply HV|by apply Hinv].
Qed.

Lemma told_frame d d' :
  told_inv d -> t_transfers d' = t_transfers d -> outbox_kept d d' -> t_reviews d' = t_reviews d -> told_inv d'.
Proof. intros Hinv HT Hk HV id r. rewrite HT. intros Hr. eapply told_row_kept; [exact Hk|by rewrite HV|by apply Hinv]. Qed.

Lemma event_added_told e d d' : draft_wf e -> event_added e d d' -> told d' e.
Proof.
  intros Hw (v & oid & row & stored & now & Hv & Hs & Hrow & _ & _ & ->).
  assert (v = e) as -> by (pose proof (NewDraft_fixed e Hw); unfold validateDraft in Hv; congruence).
  exists oid, row. split; [cbn; apply lookup_insert_eq|]. by exists (t_outbox_sequence d + 1), now, stored, row.
Qed.

(** A row that waits for no worker. *)
Lemma told_row_rest d id r : tr_status r <> "pending_risk" -> tr_status r <> "approved" -> told_row d id r.
Proof. intros H1 H2. by split. Qed.

Lemma created_told t p d d' :
  transfer_typed t -> prepareTransfer t = Ok p -> told_inv d -> created p d d' -> told_inv d'.
Proof.
  intros Ht Hp Hinv [_ _ _ _ (prepared & now & _ & _ & HE)]. destruct (event_added_frame _ _ _ HE) as (_ & HT & _ & _ & HV & _).
  apply (told_change d d' (pt_id p) (created_row p)); [done|done| | |by apply told_row_rest].
  - by apply event_added_grow in HE.
  - intros. by rewrite HV.
Qed.

Lemma accepted_told l p d d' :
  transfer_typed (lc_transfer l) -> UTC (requestedAt (lc_transfer l)) = requestedAt (lc_transfer l) -> in_int64 (lc_version l) ->
  preparePendingTransfer l = Ok p -> told_inv d -> accepted p d d' -> told_inv d'.
Proof.
  intros Ht Hu Hv Hp Hinv [_ _ _ _ HE]. destruct (preparePending_Ok _ _ Ht Hu Hv Hp) as (Hw & Htr & Hst & Hids & Hev).
  rewrite <- Htr in Hids. destruct Hids as (E1 & E2 & E3 & E4).
  destruct (event_added_frame _ _ _ HE) as (_ & HT & _ & _ & HV & _).
  apply (told_change d d' (pq_id p) (pending_row p)); [done|done|by apply event_added_grow in HE|intros; by rewrite HV|].
  split; [|done]. intros _. exists (pq_lifecycle p). split; [by split|]. intros Hpr.
  destruct (Requested_ok _ Hw Hst Hpr) as [He Hdw]. rewrite He in Hev. injection Hev as Hev. rewrite <- Hev in HE.
  by eapply event_added_told.
Qed.

Lemma risk_told h env requested policy d d' :
  wallet_inv d -> told_inv d -> risk_effect h env requested policy d d' -> told_inv d'.
Proof.
  intros Hinv Htd [_ ->|eid id r current ev next row e Hu Hr Hrep Hcf Hev Hn Hck Hrow _ Hnone He HE]; [done|].
  set (at_ := UTC (RiskWorker.now h)) in *. set (d1 := recorded RiskWorker.consumerName env eid d) in *.
  pose proof (stored_wf _ _ _ _ Hinv Hr Hrep) as Hw. destruct (risk_transition_op _ _ _ Hn) as (op & Hop & Hto).
  destruct (apply_op_Ok _ _ _ Hw Hop) as (Hnext & _ & Hnw). destruct (Evaluate_facts _ _ _ Hev) as [Hevw Hcodes].
  destruct (RiskAssessed_inv _ _ _ _ _ Hnw Hevw He) as (ca & Ee & Hdw & Hca & Hpv & Hm).
  destruct (assessed_frame id r next row at_ d1) as (HO & _ & HTa & HVa).
  destruct (event_added_frame _ _ _ HE) as (_ & HT & _ & _ & HV & _).
  apply (told_change d d' id (with_status (status_String (lc_status next)) (lc_version next) r)); [done|by rewrite HT, HTa| | |].
  - apply event_added_grow in HE. etrans; [|exact HE]. apply outbox_kept_grow. by rewrite HO.
  - intros id1 Hne. rewrite HV, HVa. case_decide; [by rewrite lookup_insert_ne|done].
  - split; [cbn; by destruct Hto as [E|[E|E]]; rewrite Hnext; cbn; rewrite E|]. cbn. intros Hs. exists next, e.
    assert (Hst : lc_status next = StatusApproved) by by destruct (lc_status next).
    split_and!; [| |done|by eapply event_added_told].
    + split; [done|done|rewrite Hnext; apply Hrep|done|rewrite Hnext; apply Hrep].
    + eapply ByAssessment; try done; [|by rewrite Hst in Hm; destruct (decision ev)].
      rewrite Hnext. cbn. pose proof (conflicts_pending _ _ Hcf) as Hp.
      destruct Hw as ((_ & _ & Hsh)%lifecycle_validate_Ok & _). unfold status_shape in Hsh. rewrite Hp in Hsh. destruct Hsh as [-> _]. done.
Qed.

Lemma concluded_told d id next e dm d' r :
  told_inv d -> t_transfers dm = t_transfers d -> outbox_kept d dm -> t_reviews dm = t_reviews d ->
  concluded id r next e dm d' -> lc_status next <> StatusPendingRisk -> lc_status next <> StatusApproved -> told_inv d'.
Proof.
  intros Htd HTm HOm HVm (journal & _ & _ & HE) H1 H2. destruct (event_added_frame _ _ _ HE) as (_ & HT & _ & _ & HV & _).
  cbn in HT, HV. rewrite HTm in HT. apply (told_change d d' id (advanced next journal r)); [done|done| | |].
  - etrans; [exact HOm|]. by apply event_added_grow in HE.
  - intros. by rewrite HV, HVm.
  - apply told_row_rest; cbn; by destruct (lc_status next).
Qed.

Lemma transaction_told now env d d' :
  wallet_inv d -> told_inv d -> transaction_effect now env d d' -> told_inv d'.
Proof.
  intros Hinv Htd [_ ->|eid id r current _ _ _ _ _ ->|eid id r current _ Hr Hrep _ Happ HP]; [done| |].
  - apply (told_frame d); try done. by apply outbox_kept_grow.
  - pose proof (stored_wf _ _ _ _ Hinv Hr Hrep) as Hw.
    destruct HP as [entry prepared t next e _ _ _ Hn _ HC|next e _ Hn _ HC].
    + destruct (apply_op_Ok OpComplete _ _ Hw Hn) as (-> & _). eapply (concluded_told d); [done| | | |exact HC|done|done]; try done.
      by apply outbox_kept_grow.
    + destruct (apply_op_Ok (OpFail TransactionWorker.insufficientFundsReason) _ _ Hw Hn) as (-> & _).
      eapply (concluded_told d); [done| | | |exact HC|done|done]; try done. by apply outbox_kept_grow.
Qed.

Lemma review_told now p transferID decision d d' :
  wallet_inv d -> told_inv d -> review_effect now p transferID decision d d' -> told_inv d'.
Proof.
  intros Hinv Htd [id r current next journal rv e Hid Hr Hrep Hrev Hn Hj Hck Hrv _ _ Hver Hvis He HE].
  pose proof (stored_wf _ _ _ _ Hinv Hr Hrep) as Hw.
  assert (exists op, apply_op op current = Ok next /\ (op_target op = StatusApproved \/ op_target op = StatusDeclined)) as (op & Hop & Hto).
  { destruct (bool_decide _); [exists OpApprove|exists OpDecline]; cbn; auto. }
  destruct (apply_op_Ok _ _ _ Hw Hop) as (Hnext & _ & Hnw).
  destruct (ReviewDecided_inv _ _ _ _ Hnw Hvis He) as (Ee & Hdw & Hne & Hsa & Hsl).
  destruct (event_added_frame _ _ _ HE) as (_ & HT & _ & _ & HV & _). cbn in HT, HV.
  apply (told_change d d' id (advanced next journal r)); [done|done|by apply event_added_grow in HE| |].
  - intros id1 Hn1. by rewrite HV, lookup_insert_ne.
  - split; [cbn; by destruct Hto as [E|E]; rewrite Hnext; cbn; rewrite E|]. cbn. intros Hs. exists next, e.
    split_and!; [| |done|by eapply event_added_told].
    + split; [done|by destruct (lc_status next)|rewrite Hnext; apply Hrep|done|rewrite Hnext; apply Hrep].
    + eapply ByDecision; try done; [by rewrite HV, lookup_insert_eq|done].
Qed.

Lemma effect_told d d' : wallet_inv d -> told_inv d -> effect d d' -> told_inv d'.
Proof.
  intros Hinv Htd [[->|e prepared now Ht Hp Hpost ->|t p Ht Hp HC|l p Ht Hu Hv Hp HC|h env rq pol HE|now env HE|now p id dec _ HE|
    owner codes now id ids HO|record now HQ]|HR].
  - done.
  - apply (told_frame d); try done. by apply outbox_kept_grow.
  - by eapply created_told.
  - by eapply accepted_told.
  - by eapply risk_told.
  - by eapply transaction_told.
  - by eapply review_told.
  - destruct (opened_frame _ _ _ _ _ _ _ HO) as (HT & HOb & _ & HV & _). apply (told_frame d); try done.
    apply outbox_kept_grow. by rewrite HOb.
  - destruct (quarantine_frame _ _ _ _ HQ) as (HT & HOb & _ & HV & _). apply (told_frame d); try done.
    apply outbox_kept_grow. by rewrite HOb.
  - destruct (republished_frame _ _ HR) as (HT & _ & HV & _). apply (told_frame d); try done. by apply republished_kept.
Qed.

Lemma run_told w w' : wallet_inv (committed w) -> told_inv (committed w) -> run w w' -> told_inv (committed w').
Proof.
  intros Hinv Htd HR. induction HR as [|w1 w2 w3 HS _ IH]; [done|]. pose proof (step_effect _ _ Hinv HS) as HE.
  apply IH; [by eapply effect_inv|by eapply effect_told].
Qed.

Lemma reachable_told w : reachable w -> told_inv (committed w).
Proof.
  intros (w0 & Hi & HR). eapply run_told; [by apply initial_inv| |done]. intros id r. by rewrite (in_transfers _ Hi).
Qed.

End Messages.
