(* ===== verification/Jsonb.v ===== *)
(** * Documents the server stores

    What the code relies on of JSONB columns: documents of visible characters are
    accepted, and the stored text of a document is no longer than
    [postgresJSONBTextSize] computes.  Under these laws an event of a transfer is
    added to the outbox whenever its identity is new there. *)

From stdpp Require Import base list gmap strings numbers sorting pretty.
From Stdlib Require Import ZArith Lia.
From S2P Require Import Prelude GoText Money Journal TransferDomain RiskPolicy Json GoTime Event TransferEvents.
From S2P Require Import Database PgInstance Outbox TransferSpec.

Open Scope string_scope.
Open Scope Z_scope.

(** Values whose strings are visible ASCII and whose integers fit 64 bits. *)
Fixpoint visible_value (v : value) : bool :=
  match v with
  | VString s => all_bytes is_visible s
  | VInt z => bool_decide (in_int64 z)
  | VBool _ => true
  | VArray items => forallb visible_value items
  | VObject fields => forallb (fun '(k, w) => all_bytes is_visible k && visible_value w) fields
  end.

(** Documented behaviour of JSONB within the sizes the code admits. *)
Class JsonbLaws `{Pg} : Prop := {
  stored_json_accepts v : visible_value v = true -> depth_of v <= maxNestingDepth -> len (marshal v) <= maxPayloadBytes ->
    is_Some (stored_json (marshal v));
  stored_json_size text stored n : stored_json text = Some stored -> postgresJSONBTextSize text = (n, true) -> len stored <= n
}.

#[export] Instance concreteJsonbLaws : JsonbLaws.
Proof.
  split; [by eexists|]. intros text stored n [= <-]. unfold postgresJSONBTextSize.
  destruct (jsonb_extra Outside text) as [k|] eqn:E; [|done]. intros [= <-]. pose proof (jsonb_extra_range _ _ _ E). lia.
Qed.

Lemma visible_value_ascii v : visible_value v = true -> ascii_value v = true.
Proof.
  induction v as [s|z|b|items IH|fields IH] using value_ind'; cbn; try done.
  - apply visible_ascii.
  - rewrite !forallb_forall. intros Hv w Hw. rewrite Forall_forall in IH. apply IH; [by apply list_elem_of_In|auto].
  - rewrite !forallb_forall. intros Hv [k w] Hw. rewrite Forall_forall in IH. specialize (Hv _ Hw). cbn in Hv.
    apply andb_true_iff in Hv as [Hk Hv]. rewrite (visible_ascii _ Hk). cbn.
    apply (IH (k, w)); [by apply list_elem_of_In|done].
Qed.

(** Drafts whose payload is such a document. *)
Definition visible_payload (e : Draft) : Prop :=
  exists v, payload e = marshal v /\ visible_value v = true /\ depth_of v <= maxNestingDepth.

Section Jsonb.
Context `{PgLaws} `{!JsonbLaws}.

(** A document of at most half the limit is stored within the limit. *)
Lemma document_stored v :
  visible_value v = true -> depth_of v <= maxNestingDepth -> len (marshal v) <= 32768 ->
  exists stored, stored_json (marshal v) = Some stored /\ len stored <= maxPayloadBytes.
Proof.
  intros Hv Hd Hl. destruct (stored_json_accepts v) as [stored E]; [done|done|unfold maxPayloadBytes; lia|].
  exists stored. split; [done|].
  destruct (sized_marshal v (visible_value_ascii _ Hv) "") as [n En]; [done|by eexists|]. rewrite append_nil_r in En.
  pose proof (jsonb_extra_range _ _ _ En).
  etrans; [eapply (stored_json_size _ _ (len (marshal v) + n)); [exact E|]|unfold maxPayloadBytes; lia].
  unfold postgresJSONBTextSize. by rewrite En.
Qed.

(** The payload of a draft is stored within the limit: construction checked the
    size of the stored text. *)
Lemma payload_stored e :
  draft_wf e -> visible_payload e -> exists stored, stored_json (payload e) = Some stored /\ len stored <= maxPayloadBytes.
Proof.
  intros [Hv Hp _] (v & E & Hvis & Hd).
  assert (Hlen : len (payload e) <= maxPayloadBytes).
  { apply draft_validate_Ok in Hv as (_ & _ & _ & _ & _ & _ & _ & _ & Hv). unfold validPayload in Hv. bool_simpl. lia. }
  destruct (stored_json_accepts v) as [stored Es]; [done|done|congruence|]. rewrite <- E in Es. exists stored. split; [done|].
  revert Hp. unfold normalizePayload. destruct (_ || _); [done|]. destruct (json_Compact _) as [compact|]; [|done].
  destruct (postgresJSONBTextSize compact) as [n ok] eqn:En. destruct (negb ok || _) eqn:Eg; [done|]. intros [= ->].
  apply orb_false_iff in Eg as [Hok Hn]. destruct ok; [|done]. apply Z.ltb_ge in Hn. etrans; [by eapply stored_json_size|done].
Qed.

(** Events the outbox has not seen. *)
Definition new_event (e : Draft) (d : DB) : Prop := forall oid o,
  t_outbox d !! oid = Some o ->
  ~ (ob_aggregate_type o = aggregateType e /\ uuid_text (ob_aggregate_id o) = aggregateID e /\
     ob_aggregate_version o = aggregateVersion e).

(** The service generates identifiers the outbox does not hold. *)
Definition generates_fresh (s : Service) (d : DB) : Prop := forall n, t_outbox d !! generated s n = None.

Lemma AddTx_healthy e s st :
  healthy s -> tx_open st -> draft_wf e -> visible_payload e -> generates_fresh s (tx_db st) -> new_event e (tx_db st) ->
  exists env st', AddTx e s st = (Ok env, st') /\ tx_open st'.
Proof.
  intros Hs Ho Hw Hvis Hfresh Hnew. destruct (payload_stored _ Hw Hvis) as (stored & Es & Hl).
  unfold AddTx, validateDraft. rewrite NewDraft_fixed by done. cbn [wrap_err].
  rewrite (bind_run (lift (Ok e)) _ s st e st eq_refl). 
  pose proof (dw_valid _ Hw) as (Hty & Hev & Hag & Ha & Hver & Hc & Hca & _)%draft_validate_Ok.
  destruct (uuid_scan_canonical _ Ha) as (a & Ea & Ea'). destruct (uuid_scan_canonical _ Hc) as (c & Ec & _).
  assert (exists ca, scan_optional (nullableString (causationID e)) = Some ca) as [ca Eca].
  { unfold nullableString. case_bool_decide as Hz; [by eexists|]. destruct Hca as [?|Hca]; [done|].
    destruct (uuid_scan_canonical _ Hca) as (x & Ex & _). cbn. rewrite Ex. by eexists. }
  set (d := tx_db st) in *.
  set (row := mkOutboxRow (t_outbox_sequence d + 1) (eventType e) (eventVersion e) (aggregateType e) a (aggregateVersion e)
    c ca (stored_time (occurredAt e)) stored (tx_now st) (tx_now st) 0 None None None None).
  assert (Hins : insertEventQuery e s (tx_tick st) (tx_now st) d =
    Ok (generated s (tx_tick st), set_outbox_sequence (fun q => q + 1) (set_outbox (insert (generated s (tx_tick st)) row) d))).
  { unfold insertEventQuery, outbox_row. rewrite Es, Ea, Ec, Eca. fold row.
    rewrite (proj2 (Z.leb_gt _ 0) Hver), Hag, Hty, (proj2 (Z.leb_gt _ 0) Hev), (proj2 (Z.ltb_ge _ _) Hl).
    rewrite (bool_decide_eq_true_2 _ (Hfresh (tx_tick st))). cbn [negb]. destruct (existsb _ _) eqn:Ex; [|done].
    apply existsb_exists in Ex as ([oid o] & Hin%list_elem_of_In%elem_of_map_to_list & Hsame). exfalso.
    apply (Hnew _ _ Hin). unfold same_event in Hsame. rewrite !andb_true_iff, !bool_decide_eq_true, !Z.eqb_eq in Hsame.
    cbn in Hsame. destruct Hsame as ((((-> & ->) & ->) & _) & _). done. }
  unfold map_err. erewrite bind_run; [|rewrite stmt_healthy by done; fold d; rewrite Hins; reflexivity].
  unfold lift. rewrite NewEnvelope_wf by (done || apply uuid_text_canonical). eexists _, _. split; [reflexivity|done].
Qed.

End Jsonb.

(** ** The payloads of the lifecycle's events *)

Lemma currency_visible c : currency_valid c = true -> all_bytes is_visible (currency_String c) = true.
Proof.
  intros H. unfold currency_String. rewrite H. unfold currency_valid in H. bool_simpl.
  assert (Hl : forall a, letter a = true -> is_visible (byte_val a) = true).
  { intros a. unfold letter, is_upper, is_visible. lia. }
  cbn [negb all_bytes]. by rewrite !Hl.
Qed.

Lemma format_visible t : all_bytes is_visible (format_rfc3339nano t) = true.
Proof. apply format_bytes; [|done..]. unfold is_digit, is_visible. intros. lia. Qed.

Lemma completed_visible t version ca at_ : transfer_wf t -> visible_payload (completed_draft t version ca at_).
Proof.
  intros ((Hid & _ & Hr & Hs & Hd & _ & Hc & _ & _)%transfer_validate_Ok & Hi & _). eexists. split; [reflexivity|].
  split; [|done]. unfold intent_fields. cbn [visible_value forallb].
  by rewrite (canonical_visible _ Hid), (canonical_visible _ Hr), (canonical_visible _ Hs), (canonical_visible _ Hd),
    (currency_visible _ Hc), format_visible, bool_decide_eq_true_2.
Qed.

Lemma failed_visible l at_ ca : lifecycle_wf l -> lc_status l = StatusFailed -> visible_payload (failed_draft l at_ ca).
Proof.
  intros ((_ & _ & Hsh)%lifecycle_validate_Ok & ((Hid & _)%transfer_validate_Ok & _) & _) Hs.
  unfold status_shape in Hsh. rewrite Hs in Hsh. eexists. split; [reflexivity|]. split; [|done]. cbn [visible_value forallb].
  rewrite (canonical_visible _ Hid). destruct Hsh as (_ & _ & Hcode & _). by rewrite (validLifecycleCode_visible _ Hcode).
Qed.

(** Evaluations whose signals have visible codes. *)
Definition visible_signals (ev : Evaluation) : Prop := Forall (fun s => all_bytes is_visible (signal_code s) = true) (signals ev).

Lemma signals_visible ev :
  evaluation_wf ev -> visible_signals ev ->
  forallb visible_value (signal_value <$> signals ev) = true /\ foldr Z.max 0 (depth_of <$> (signal_value <$> signals ev)) <= 1.
Proof.
  intros (_ & _ & HF) Hv. split; [|by apply signals_bound]. unfold visible_signals in Hv.
  induction HF as [|s ss (_ & _ & Hi) _ IH]; [done|]. apply Forall_cons_1 in Hv as [Hs Hv].
  cbn. rewrite Hs, bool_decide_eq_true_2 by done. by apply IH.
Qed.

Lemma assessed_visible l ev at_ ca :
  lifecycle_wf l -> evaluation_wf ev -> visible_signals ev -> all_bytes is_visible (eval_policyVersion ev) = true ->
  visible_payload (assessed_draft l ev at_ ca).
Proof.
  intros (_ & ((Hid & _)%transfer_validate_Ok & _) & _) Hev Hvs Hp. destruct (signals_visible _ Hev Hvs) as [Hs Hd].
  destruct Hev as (Hsc & _). eexists. split; [reflexivity|]. split.
  - cbn [visible_value forallb]. rewrite (canonical_visible _ Hid). rewrite Hp, Hs, bool_decide_eq_true_2 by int64_lia.
    by destruct (decision ev).
  - cbn [depth_of fmap list_fmap foldr]. unfold maxNestingDepth. cbn [fmap list_fmap] in Hd. lia.
Qed.

Lemma decided_visible l subject at_ :
  lifecycle_wf l -> all_bytes is_visible subject = true -> visible_payload (decided_draft l subject at_).
Proof.
  intros (_ & ((Hid & _)%transfer_validate_Ok & _) & _) Hs. eexists. split; [reflexivity|]. split; [|done].
  cbn [visible_value forallb]. rewrite (canonical_visible _ Hid). rewrite Hs. by destruct (lc_status l).
Qed.
