(* ===== verification/Progress.v ===== *)
(** * Progress of the transfers

    On a service without faults nothing that is due stays undone: a pending
    transfer is assessed when its event is consumed, an open review is decided by
    the decision of an analyst, and an approved transfer is completed or failed
    when its event is consumed. *)

From stdpp Require Import base list gmap strings numbers sorting.
From Stdlib Require Import ZArith Lia.
From S2P Require Import OutboxRepo OutboxTheorems WalletRepo WalletTheorems Quarantine.
From S2P Require Import RiskWorker TransactionWorker ReviewCase.
From S2P Require Import Prelude GoText Money Journal TransferDomain RiskPolicy Json JsonDecode GoTime Event.
From S2P Require Import TransferEvents EventParse Database PgInstance LedgerRepo LedgerSpec LedgerCorrect LedgerTheorems.
From S2P Require Import Outbox Inbox TransferRepo TransferSpec TransferStore StoreSpec AuditWriter WorkerSpec System Ready Jsonb.

Open Scope string_scope.
Open Scope Z_scope.

Section Progress.
Context `{PgLaws} `{!JsonbLaws}.

(** ** Lemmas shared by the three handlers *)

(** The version of a stored lifecycle can be incremented. *)
Lemma op_runs d id r current op :
  wallet_inv d -> ready_inv d -> t_transfers d !! id = Some r -> represents id r current ->
  allowed (lc_status current) (op_target op) = true -> op_argument_ok op = true ->
  apply_op op current = Ok (successor op current) /\ lifecycle_wf (successor op current).
Proof.
  intros Hinv Hrd Hr Hrep Hal Harg. pose proof (stored_wf _ _ _ _ Hinv Hr Hrep) as Hw.
  assert (Hv : lc_version current < MaxInt64).
  { destruct (rd_level _ Hrd _ _ Hr) as (st & _ & Hlv). rewrite (rp_version _ _ _ Hrep). int64_lia. }
  split; [|by apply transition_Ok]. rewrite apply_op_spec, Hal, Harg by done. by rewrite (proj2 (Z.ltb_lt _ _) Hv).
Qed.

Lemma code_checked v : validLifecycleCode v = true -> code_check v = true.
Proof.
  unfold validLifecycleCode, code_check, maxLifecycleCodeBytes. destruct (_ || _) eqn:E; [done|].
  rewrite forallb_runes by apply code_rune_high. intros ->. pose proof (len_nonneg v). lia.
Qed.

(** The row after an operation passes the checks of the table, when the row before
    did and agrees with the lifecycle. *)
Lemma successor_checks id r current op :
  lifecycle_wf current -> transfer_checks id r = Ok tt -> status_String (lc_status current) = tr_status r ->
  transfer_id (lc_transfer current) = uuid_text id ->
  allowed (lc_status current) (op_target op) = true -> op_argument_ok op = true ->
  let next := successor op current in
  let journal := if decide (op_target op = StatusCompleted) then Some id else None in
  journal_of next = Some journal /\ transfer_checks id (advanced next journal r) = Ok tt.
Proof.
  intros Hw Hck Hst Hid Hal Harg next jn. pose proof Hck as (_ & Hsh & _)%transfer_checks_Ok.
  assert (Hpol : is_Some (tr_policy r)).
  { unfold row_shape in Hsh. rewrite <- Hst in Hsh. destruct (lc_status current), (op_target op); try done; naive_solver. }
  assert (Hver : 2 <= lc_version next).
  { destruct Hw as ((_ & Hpos & _)%lifecycle_validate_Ok & _). cbn. lia. }
  pose proof (uuid_text_canonical id) as Hcan. rewrite <- Hid in Hcan. split.
  - unfold journal_of, nullif_empty, jn, next. destruct op; cbn; try done. rewrite bool_decide_eq_false_2 by by apply canonical_nonempty.
    cbn. by rewrite Hid, uuid_scan_text.
  - apply outcome_checks; [done| |lia|].
    + unfold row_shape, jn, nullif_empty, next. cbn [with_outcome tr_status tr_version tr_policy tr_journal tr_failure].
      destruct op; cbn -[Z.le]; try (right; left; cbn in Hver; split_and!; auto; fail).
      * right. right. left. auto.
      * right. right. right. cbn in Harg, Hver. rewrite bool_decide_eq_false_2; [split_and!; eauto|]. intros E. by rewrite E in Harg.
    + unfold nullif_empty, next. destruct op; cbn; try done. cbn in Harg.
      rewrite bool_decide_eq_false_2; [by apply code_checked|]. intros E. by rewrite E in Harg.
Qed.

Lemma apply_op_argument op current next : lifecycle_wf current -> apply_op op current = Ok next -> op_argument_ok op = true.
Proof.
  intros Hw Hop. rewrite apply_op_spec in Hop by done. destruct (op_argument_ok op); [done|]. by rewrite andb_false_r in Hop.
Qed.

Lemma advanced_checks d id r current op next :
  wallet_inv d -> t_transfers d !! id = Some r -> represents id r current -> apply_op op current = Ok next ->
  exists journal, journal_of next = Some journal /\ transfer_checks id (advanced next journal r) = Ok tt /\
    (op_target op <> StatusCompleted -> journal = None).
Proof.
  intros Hinv Hr Hrep Hop. pose proof (stored_wf _ _ _ _ Hinv Hr Hrep) as Hw.
  destruct (apply_op_Ok _ _ _ Hw Hop) as (-> & Hal & _). destruct (wi_row _ Hinv _ _ Hr) as (Hck & _).
  destruct (successor_checks id r current op) as [Hj Hc]; [done|done|apply Hrep|apply Hrep|done|by eapply apply_op_argument|].
  eexists. split_and!; [exact Hj|exact Hc|]. intros ?. by rewrite decide_False.
Qed.

(** The event of the next version is new. *)
Lemma next_event_new d d' id r e type version :
  ready_inv d -> t_transfers d !! id = Some r -> about e type (uuid_text id) version -> tr_version r < version ->
  t_outbox d' = t_outbox d -> new_event e d'.
Proof.
  intros Hrd Hr (_ & Hty & Hid & Hver) Hlt HO oid o Ho (Ety & Eid & Ever). rewrite HO in Ho.
  destruct (rd_events _ Hrd _ _ Ho) as (r1 & Hr1 & Hle); [congruence|].
  rewrite Hid in Eid. apply (inj uuid_text) in Eid. rewrite Eid in Hr1. assert (r1 = r) as -> by congruence. lia.
Qed.

Lemma load_healthy s st id r l :
  healthy s -> tx_open st -> t_transfers (tx_db st) !! id = Some r -> record_lifecycle (scan_lifecycle id r) = Ok l ->
  LoadLifecycleForUpdateTx (uuid_text id) s st = (Ok l, advance st (tx_db st)).
Proof.
  intros Hs Ho Hr Hl. unfold LoadLifecycleForUpdateTx. rewrite parseUUID_text.
  rewrite (bind_run (lift (Ok id)) _ s st id st eq_refl). erewrite bind_run.
  2:{ apply query_healthy; [done..|]. unfold select_by_id. rewrite uuid_scan_text, Hr. reflexivity. }
  cbn. by rewrite Hl.
Qed.

Lemma update_healthy id r status version change now d :
  t_transfers d !! id = Some r -> tr_status r = status -> tr_version r = version -> transfer_checks id (change r) = Ok tt ->
  update_transfer (uuid_text id) status version change now d = Ok (1, set_transfers (insert id (change r)) d).
Proof.
  intros Hr <- <- Hck. unfold update_transfer. rewrite uuid_scan_text, Hr. rewrite bool_decide_eq_true_2, Z.eqb_refl by done.
  cbn [negb andb]. by rewrite Hck.
Qed.

Lemma transition_healthy s st id r prev next journal :
  healthy s -> tx_open st -> t_transfers (tx_db st) !! id = Some r -> represents id r prev ->
  journal_of next = Some journal -> transfer_checks id (advanced next journal r) = Ok tt ->
  StoreLifecycleTransitionTx prev next s st =
    (Ok tt, advance st (set_transfers (insert id (advanced next journal r)) (tx_db st))).
Proof.
  intros Hs Ho Hr Hrep Hj Hck. unfold StoreLifecycleTransitionTx. erewrite bind_run.
  2:{ apply exec_healthy; [done..|]. fold (journal_of next). rewrite Hj, (rp_id _ _ _ Hrep).
      apply update_healthy; [done|symmetry; apply Hrep|symmetry; apply Hrep|done]. }
  done.
Qed.

(** A body whose work runs to its end is committed, when its tables satisfy the
    invariants. *)
Lemma work_commits (work body : Tx unit) s w st :
  healthy s -> ends work body -> quiet work -> work s (begun s w) = (Ok tt, st) -> tx_open st ->
  wallet_inv (tx_db st) -> ready_inv (tx_db st) ->
  exists w', run_tx false body s w = (Ok tt, w') /\ committed w' = tx_db st.
Proof.
  intros Hs He Hq E [_ Ha] Hinv Hrd. eapply run_tx_ends_healthy; [done..|by apply deferred_sound].
Qed.

(** ** Review decisions *)

Definition analyst_decision (p : TrustedPrincipal) (decision : string) : Prop :=
  Role p = RoleAnalyst /\ AuditWriter.validSubject (Subject p) = true /\ (decision = "approved" \/ decision = "declined").

Lemma valid_subject_checked v : AuditWriter.validSubject v = true ->
  all_bytes is_visible v = true /\ 1 <= len v <= 128 /\ visible_check 128 v = true /\ ReviewCase.validSubject v = true.
Proof.
  unfold AuditWriter.validSubject, ReviewCase.validSubject, visible_check. destruct (_ || _) eqn:E; [done|].
  rewrite visible_runes_bytes. intros Hv. rewrite (TrimSpace_visible v Hv), E, visible_runes_bytes. apply orb_false_iff in E as [E1 E2].
  pose proof (len_nonneg v). split_and!; [done|lia|lia|rewrite Hv; lia|done].
Qed.

Lemma decide_healthy s st id rv decision subject at_ :
  healthy s -> tx_open st -> t_reviews (tx_db st) !! id = Some rv -> rv_status rv = "open" ->
  AuditWriter.validSubject subject = true -> decision = "approved" \/ decision = "declined" ->
  DecideReviewCaseTx (uuid_text id) decision subject at_ s st =
    (Ok tt, advance st (set_reviews (insert id (decided_row decision subject at_ rv)) (tx_db st))).
Proof.
  intros Hs Ho Hrv Hop Hsub Hd. destruct (valid_subject_checked _ Hsub) as (_ & Hl & Hck & _).
  assert (subject <> "") as Hne by (intros ->; cbn in Hl; lia).
  unfold DecideReviewCaseTx. rewrite parseUUID_text. rewrite (bind_run (lift (Ok id)) _ s st id st eq_refl).
  rewrite (bool_decide_eq_false_2 _ Hne), orb_false_r.
  assert (Hdec : negb (bool_decide (decision = "approved")) && negb (bool_decide (decision = "declined")) = false).
  { by destruct Hd as [-> | ->]. }
  rewrite Hdec. rewrite (bind_run (lift (Ok tt)) _ s st tt st eq_refl). erewrite bind_run.
  2:{ apply exec_healthy; [done..|]. unfold decideReviewCaseQuery. rewrite uuid_scan_text, Hrv, bool_decide_eq_true_2 by done.
      assert ((bool_decide (decision = "approved") || bool_decide (decision = "declined")) && visible_check 128 subject = true) as ->.
      { rewrite Hck. by destruct Hd as [-> | ->]. }
      reflexivity. }
  done.
Qed.

Lemma append_healthy s st id r version decision subject at_ :
  healthy s -> tx_open st -> t_transfers (tx_db st) !! id = Some r -> audit_of (tx_db st) id = [] -> 3 <= version ->
  AuditWriter.validSubject subject = true -> decision = "approved" \/ decision = "declined" -> IsZero at_ = false ->
  exists st', AppendReviewDecisionTx (AuditWriter.mkReviewDecision (uuid_text id) version decision subject at_) s st = (Ok tt, st') /\
    tx_open st' /\ t_outbox (tx_db st') = t_outbox (tx_db st).
Proof.
  intros Hs Ho Hr Hau Hv Hsub Hd Hat. destruct (valid_subject_checked _ Hsub) as (_ & _ & Hck & _).
  unfold AppendReviewDecisionTx, validateReviewDecision.
  cbn [AuditWriter.TransferID LifecycleVersion review_Decision ActorSubject OccurredAt].
  rewrite parseUUID_text, (proj2 (Z.ltb_ge _ _) Hv), Hsub, Hat. cbn [wrap_err mbind Result_bind negb fail_if].
  assert (Hdec : negb (bool_decide (decision = "approved")) && negb (bool_decide (decision = "declined")) = false).
  { by destruct Hd as [-> | ->]. }
  rewrite Hdec. cbn [fail_if Result_bind]. unfold mbind, Tx_bind, lift.
  erewrite exec_healthy; [eexists; split; [reflexivity|]|done..|].
  2:{ unfold insertReviewDecisionQuery. rewrite uuid_scan_text, Hck, (proj2 (Z.ltb_ge _ _) Hv), Hr. cbn [negb].
      rewrite bool_decide_eq_true_2 by (destruct Hd as [-> | ->]; set_solver). cbn [negb].
      destruct (existsb _ _) eqn:Ex; [|reflexivity]. exfalso. apply existsb_exists in Ex as (a & Hin%list_elem_of_In & Hb).
      apply andb_true_iff in Hb as [Hb%bool_decide_eq_true _].
      assert (Hin' : a ∈ audit_of (tx_db st) id) by (by apply list_elem_of_filter).
      rewrite Hau in Hin'. by inversion Hin'. }
  split; [done|reflexivity].
Qed.

Lemma decide_runs w s id r current now p decision :
  wallet_inv (committed w) -> ready_inv (committed w) -> healthy s -> generates_fresh s (committed w) ->
  t_transfers (committed w) !! id = Some r -> record_lifecycle (scan_lifecycle id r) = Ok current ->
  lc_status current = StatusReviewRequired -> analyst_decision p decision -> IsZero now = false ->
  exists st, decide_work now p (uuid_text id) decision s (begun s w) = (Ok tt, st) /\ tx_open st.
Proof.
  intros Hinv Hrd Hs Hfresh Hr Hl Hst (Hrole & Hsub & Hd) Hnow. pose proof (record_lifecycle_Ok _ _ _ Hl) as Hrep.
  destruct (valid_subject_checked _ Hsub) as (Hvis & Hlen & _).
  assert (Hopen : open_case (committed w) id).
  { apply (wi_review _ Hinv). exists r. split; [done|]. by rewrite <- (rp_status _ _ _ Hrep), Hst. }
  destruct Hopen as (rv & Hrv & Hrvo).
  assert (Hau : audit_of (committed w) id = []).
  { pose proof (wi_audit _ Hinv id) as Ha. rewrite Hrv in Ha. cbn in Ha. by rewrite decide_True in Ha. }
  set (op := if bool_decide (decision = ReviewCase.DecisionApprove) then OpApprove else OpDecline).
  destruct (op_runs (committed w) id r current op) as [Hop Hnw]; [done..|rewrite Hst; unfold op; by case_bool_decide|unfold op; by case_bool_decide|].
  destruct (advanced_checks _ _ _ _ _ _ Hinv Hr Hrep Hop) as (journal & Hj & Hck & _).
  set (next := successor op current) in *.
  assert (Hnid : transfer_id (lc_transfer next) = uuid_text id) by apply Hrep.
  assert (Hns : lc_status next = StatusApproved \/ lc_status next = StatusDeclined).
  { unfold next, op. case_bool_decide; [by left|by right]. }
  pose proof (stored_wf _ _ _ _ Hinv Hr Hrep) as ((_ & _ & Hsh)%lifecycle_validate_Ok & _).
  unfold status_shape in Hsh. rewrite Hst in Hsh. destruct Hsh as [Hver _].
  unfold decide_work. erewrite bind_run by (by eapply (load_healthy s (begun s w))).
  rewrite Hst. cbn [negb]. rewrite bool_decide_eq_true_2 by done. cbn [negb].
  assert (Hop' : (if bool_decide (decision = ReviewCase.DecisionApprove) then Approve current else Decline current) = Ok next).
  { revert Hop. unfold next, op. by case_bool_decide. }
  rewrite Hop'. rewrite (bind_run (lift (Ok next)) _ s _ next _ eq_refl). cbv zeta.
  erewrite bind_run by (by apply (transition_healthy s _ id r)).
  erewrite bind_run by (by apply (decide_healthy s _ id rv)).
  destruct (append_healthy s (advance (advance (advance (begun s w) (committed w))
      (set_transfers (insert id (advanced next journal r)) (committed w)))
      (set_reviews (insert id (decided_row decision (Subject p) (UTC now) rv))
         (set_transfers (insert id (advanced next journal r)) (committed w))))
      id (advanced next journal r) (lc_version next) decision (Subject p) (UTC now))
    as (st5 & E5 & Ho5 & HO5); [done|done|cbn; apply lookup_insert_eq|done|unfold next; cbn; lia|done|done|by rewrite IsZero_UTC|].
  erewrite bind_run by exact E5.
  destruct (ReviewDecided_ok next (Subject p) (UTC now)) as [Hdr Hdw]; [done|done|intros E; rewrite E in Hlen; cbn in Hlen; lia
    |by apply visible_ascii|lia|by rewrite IsZero_UTC|].
  rewrite Hdr. rewrite (bind_run (lift (Ok _)) _ s st5 _ st5 eq_refl).
  destruct (AddTx_healthy (decided_draft next (Subject p) (UTC now)) s st5) as (env & st6 & E6 & Ho6); [done|done|done| | | |].
  - by apply decided_visible.
  - intros n. rewrite HO5. apply Hfresh.
  - eapply (next_event_new (committed w) _ id r); [done|done|split_and!; [reflexivity|reflexivity|exact Hnid|reflexivity]| |by rewrite HO5].
    unfold next. cbn. rewrite (rp_version _ _ _ Hrep). lia.
  - erewrite bind_run by exact E6. by exists st6.
Qed.

(** An open review is decided by the decision of an analyst. *)
Lemma review_decided w s id r current now p decision :
  reachable w -> healthy s -> generates_fresh s (committed w) ->
  t_transfers (committed w) !! id = Some r -> record_lifecycle (scan_lifecycle id r) = Ok current ->
  lc_status current = StatusReviewRequired -> analyst_decision p decision -> IsZero now = false ->
  exists w', Decide now p (uuid_text id) decision s w = (Ok tt, w') /\
    exists r', t_transfers (committed w') !! id = Some r' /\ moves r r' /\ tr_status r' = decision.
Proof.
  intros Hreach Hs Hfresh Hr Hl Hst Hp Hnow. pose proof (reachable_inv _ Hreach) as Hinv. pose proof (reachable_ready _ Hreach) as Hrd.
  destruct (decide_runs w s id r current now p decision) as (st & E & Ho); [done..|].
  apply decide_work_Ok in E as HE. cbn [tx_db begun] in HE. destruct Hp as (Hrole & Hsub & Hd).
  destruct (work_commits _ _ s w st Hs (decide_ends now p (uuid_text id) decision) (quiet_decide_work _ _ _ _) E Ho)
    as (w' & HR & Hw'); [by eapply review_effect_inv|by eapply review_ready|].
  exists w'. destruct (valid_subject_checked _ Hsub) as (_ & _ & _ & Hsub').
  unfold Decide. rewrite bool_decide_eq_true_2, Hsub' by done. cbn [negb orb].
  assert (Hdec : negb (bool_decide (decision = ReviewCase.DecisionApprove)) && negb (bool_decide (decision = ReviewCase.DecisionDecline)) = false).
  { by destruct Hd as [-> | ->]. }
  rewrite Hdec. split; [exact HR|]. rewrite Hw'.
  destruct HE as [id' r0 cur next journal rv e Hid Hr0 Hrep _ Hn _ _ _ _ _ _ _ _ HE].
  rewrite uuid_scan_text in Hid. injection Hid as <-. assert (r0 = r) as -> by congruence.
  destruct (event_added_frame _ _ _ HE) as (_ & HT & _). rewrite HT. cbn. exists (advanced next journal r). split; [apply lookup_insert_eq|].
  set (op := if bool_decide (decision = ReviewCase.DecisionApprove) then OpApprove else OpDecline).
  assert (Hop : apply_op op cur = Ok next) by (unfold op; by destruct (bool_decide _)).
  split; [by eapply (moves_with_status _ id r cur op)|]. cbn.
  destruct (apply_op_Ok _ _ _ (stored_wf _ _ _ _ Hinv Hr Hrep) Hop) as (-> & _). unfold op. by destruct Hd as [-> | ->].
Qed.

(** ** Settling an approved transfer *)

(** An account that could take an amount if overdrafts were allowed. *)
Definition takes (d : DB) (a : UUID) (currency : string) (amount : Z) : Prop :=
  exists b, t_balances d !! a = Some b /\ bal_currency b = currency /\ in_int64 (balance_minor b + amount) /\
    (bal_type b = "customer" \/ bal_type b = "system") /\ bal_version b <> MaxInt64.

(** The books have room for a transfer: its entry is new and neither account
    would leave 64 bits. *)
Definition accounts_fit (d : DB) (id : UUID) (r : TransferRow) : Prop :=
  t_entries d !! id = None /\ takes d (tr_source r) (tr_currency r) (- tr_amount r) /\
  takes d (tr_destination r) (tr_currency r) (tr_amount r).

Lemma fit_solvent_or_short d id r current :
  lifecycle_wf current -> represents id r current -> accounts_fit d id r ->
  let ps := transfer_postings (lc_transfer current) (tr_source r) (tr_destination r) in
  Forall (account_solvent_or_short d ps) ps.
Proof.
  intros (_ & Htw & _) Hrep (_ & (b & Hb & Hcb & Hib & Htb & Hvb) & (c & Hc & Hcc & Hic & Htc & Hvc)).
  pose proof (ids_distinct _ _ _ _ _ Htw (represents_ids _ _ _ Hrep)) as Hne.
  rewrite <- (rp_amount _ _ _ Hrep) in Hib, Hic. rewrite <- (rp_currency _ _ _ Hrep) in Hcb, Hcc.
  cbv zeta. apply Forall_cons_2; [|apply Forall_cons_2; [|done]]; cbn [pp_accountID pp_currency].
  - exists b. cbn [pp_accountID pp_currency]. rewrite transfer_account_sum by done. rewrite decide_True, decide_False by done.
    rewrite Z.add_0_r. done.
  - exists c. cbn [pp_accountID pp_currency]. rewrite transfer_account_sum by done. rewrite decide_False, decide_True by done.
    rewrite Z.add_0_l. done.
Qed.

(** Either the source is short, or both accounts accept. *)
Lemma fit_cases d id r current :
  ledger_inv d -> lifecycle_wf current -> represents id r current -> accounts_fit d id r ->
  let ps := transfer_postings (lc_transfer current) (tr_source r) (tr_destination r) in
  Exists (account_short d ps) ps \/ Forall (account_accepts d ps) ps.
Proof.
  intros Hli (Hv & Htw & Hver) Hrep Hfit. pose proof (fit_solvent_or_short d id r current) as Hall. cbv zeta in *.
  specialize (Hall (conj Hv (conj Htw Hver)) Hrep Hfit).
  pose proof (ids_distinct _ _ _ _ _ Htw (represents_ids _ _ _ Hrep)) as Hne.
  pose proof Htw as ((_ & _ & _ & _ & _ & _ & _ & Hpos & _)%transfer_validate_Ok & _).
  destruct Hfit as (_ & (b & Hb & _ & _ & Htb & _) & (c & Hc & _ & _ & Htc & _)).
  set (ps := transfer_postings _ _ _) in *. 
  assert (Hsum : forall a, account_sum a ps = (if decide (a = tr_source r) then - minorUnits (transfer_amount (lc_transfer current)) else 0) +
    (if decide (a = tr_destination r) then minorUnits (transfer_amount (lc_transfer current)) else 0))
    by (intros a; by apply transfer_account_sum).
  destruct (decide (bal_type b = "customer" /\ balance_minor b - minorUnits (transfer_amount (lc_transfer current)) < 0)) as [[Hty Hneg]|Hok].
  { left. apply Exists_exists. eexists. split; [left|]. exists b. cbn [pp_accountID]. rewrite Hsum.
    rewrite decide_True, decide_False by done. split_and!; [done|done|lia]. }
  right. rewrite Forall_forall in Hall |- *. intros p Hp. destruct (Hall p Hp) as (x & Hx & Hcur & Hi & Hty & Hvx).
  exists x. split_and!; [done..| |done]. destruct Hty as [Hty|?]; [left|by right]. split; [done|]. rewrite Hsum.
  unfold ps, transfer_postings in Hp. rewrite !elem_of_cons, elem_of_nil in Hp. destruct Hp as [->|[->|[]]]; cbn [pp_accountID] in *.
  - assert (x = b) as -> by congruence. rewrite decide_True, decide_False by done.
    destruct (Z.lt_ge_cases (balance_minor b - minorUnits (transfer_amount (lc_transfer current))) 0); [exfalso; auto|lia].
  - rewrite decide_False, decide_True by done. destruct (li_type _ Hli _ _ Hx) as [[_ ?]|?]; [lia|congruence].
Qed.

(** Posting the entry of an approved transfer: posted, or refused for want of
    funds with the transaction still usable. *)
Lemma PostTx_settles s st id r current at_ :
  healthy s -> tx_open st -> ledger_inv (tx_db st) -> lifecycle_wf current -> represents id r current ->
  IsZero at_ = false -> accounts_fit (tx_db st) id r ->
  (exists st', PostTx (transfer_entry (lc_transfer current) at_) s st = (Ok tt, st')) \/
  PostTx (transfer_entry (lc_transfer current) at_) s st = (Err [LedgerRepo.ErrInsufficientFunds], advance st (tx_db st)).
Proof.
  intros Hs Ho Hli Hw Hrep Hat Hfit. pose proof Hw as (_ & Htw & _). pose proof (represents_ids _ _ _ Hrep) as Hids.
  destruct (transfer_prepares _ _ _ _ _ _ Htw Hat Hids) as [prepared Hp].
  destruct (transfer_prepared _ _ _ _ _ _ _ Htw Hids Hp) as (Hpw & Hpid & Hnr & Hps & _).
  pose proof (fit_cases _ _ _ _ Hli Hw Hrep Hfit) as Hcases. pose proof (fit_solvent_or_short _ _ _ _ Hw Hrep Hfit) as Hall.
  cbv zeta in Hcases, Hall. rewrite <- Hps in Hcases, Hall.
  unfold PostTx. rewrite Hp. rewrite (bind_run (lift (Ok prepared)) _ s st prepared st eq_refl). unfold map_err.
  destruct Hcases as [Hshort|Hacc].
  - right. unfold postPrepared. rewrite Hnr. rewrite (bind_run (mret tt) _ s st tt st eq_refl).
    unfold mbind, Tx_bind at 1. rewrite lock_short by (done || apply Hli). done.
  - left. destruct (postPrepared_total prepared s st) as [st' E]; [done|done|done|apply Hli|apply Hli| |].
    + split; [by rewrite Hpid; apply Hfit|done|by rewrite Hnr].
    + rewrite E. by exists st'.
Qed.

(** A terminal transition with its event, over tables in which the transfer and
    the outbox are still those of [d]. *)
Lemma conclude_runs d s st id r current op announce e type :
  wallet_inv d -> ready_inv d -> healthy s -> tx_open st -> generates_fresh s d ->
  t_transfers d !! id = Some r -> represents id r current ->
  allowed (lc_status current) (op_target op) = true -> op_argument_ok op = true ->
  t_transfers (tx_db st) = t_transfers d -> t_outbox (tx_db st) = t_outbox d ->
  announce (successor op current) = Ok e -> draft_wf e -> visible_payload e ->
  about e type (uuid_text id) (lc_version current + 1) ->
  exists st', conclude current (apply_op op current) announce s st = (Ok tt, st') /\ tx_open st'.
Proof.
  intros Hinv Hrd Hs Ho Hfresh Hr Hrep Hal Harg HT HO He Hew Hev Hab.
  destruct (op_runs d id r current op) as [Hop Hnw]; [done..|].
  destruct (advanced_checks _ _ _ _ _ _ Hinv Hr Hrep Hop) as (journal & Hj & Hck & _).
  unfold conclude. rewrite Hop. rewrite (bind_run (lift (Ok _)) _ s st _ st eq_refl).
  erewrite bind_run by (apply (transition_healthy s st id r); [done|done|by rewrite HT|done|exact Hj|exact Hck]).
  rewrite He. rewrite (bind_run (lift (Ok e)) _ s _ e _ eq_refl).
  destruct (AddTx_healthy e s (advance st (set_transfers (insert id (advanced (successor op current) journal r)) (tx_db st))))
    as (env & st' & E & Ho'); [done|done|done|done| | |].
  - intros n. cbn. rewrite HO. apply Hfresh.
  - eapply (next_event_new d _ id r); [done|done|exact Hab|rewrite (rp_version _ _ _ Hrep); lia|done].
  - erewrite bind_run by exact E. by exists st'.
Qed.

Lemma post_runs d s st id r current causation at_ :
  wallet_inv d -> ready_inv d -> healthy s -> tx_open st -> generates_fresh s d ->
  t_transfers d !! id = Some r -> represents id r current -> lc_status current = StatusApproved ->
  t_transfers (tx_db st) = t_transfers d -> t_outbox (tx_db st) = t_outbox d -> ledger_inv (tx_db st) ->
  accounts_fit (tx_db st) id r -> printable_time (requestedAt (lc_transfer current)) -> IsZero at_ = false ->
  isCanonicalUUID causation = true ->
  exists st', post_work current causation at_ s st = (Ok tt, st') /\ tx_open st'.
Proof.
  intros Hinv Hrd Hs Ho Hfresh Hr Hrep Hst HT HO Hli Hfit Hpt Hat Hca.
  pose proof (stored_wf _ _ _ _ Hinv Hr Hrep) as Hw. pose proof Hw as (_ & Htw & _).
  assert (Hen : TransactionWorker.journalEntry current at_ = Ok (transfer_entry (lc_transfer current) at_)).
  { unfold TransactionWorker.journalEntry. rewrite bool_decide_eq_true_2 by done. cbn [negb]. by apply build_transfer_entry. }
  unfold post_work. rewrite Hen. rewrite (bind_run (lift (Ok _)) _ s st _ st eq_refl). unfold TransactionWorker.catch.
  destruct (PostTx_settles s st id r current at_) as [[st1 E]|E]; [done..| |]; rewrite E.
  - apply PostTx_Ok in E as (prepared & _ & _ & Ho1 & _ & Hd1); [|by apply transfer_entry_typed|apply Hli|done].
    destruct (op_runs d id r current OpComplete) as [_ Hnw]; [done..|by rewrite Hst|done|].
    destruct (CompletedLifecycle_ok (successor OpComplete current) at_ causation) as [Hdr Hdw]; [done|done|done|done|done|].
    eapply (conclude_runs d s st1 id r current OpComplete _ _ CompletedType); try done; [by rewrite Hst|by rewrite Hd1|by rewrite Hd1| |].
    + apply completed_visible, Hnw.
    + split_and!; [done|done|apply Hrep|done].
  - cbn [negb errors_Is]. change (errors_Is [LedgerRepo.ErrInsufficientFunds] LedgerRepo.ErrInsufficientFunds) with true. cbn [negb].
    destruct (op_runs d id r current (OpFail TransactionWorker.insufficientFundsReason)) as [_ Hnw]; [done..|by rewrite Hst|done|].
    destruct (Failed_ok (successor (OpFail TransactionWorker.insufficientFundsReason) current) at_ causation) as [Hdr Hdw]; [done..|].
    eapply (conclude_runs d s (advance st (tx_db st)) id r current (OpFail TransactionWorker.insufficientFundsReason) _ _ FailedType);
      try done; [by rewrite Hst|by apply failed_visible|].
    split_and!; [done|done|apply Hrep|done].
Qed.

(** An event a consumer has not recorded is reserved. *)
Lemma reserve_healthy name env s st eid :
  healthy s -> tx_open st -> validConsumerName name = true -> eventID env = uuid_text eid ->
  validEventType (eventType (draft env)) = true -> eventVersion (draft env) = 1 -> t_inbox (tx_db st) !! (name, eid) = None ->
  ReserveTx name env s st = (Ok true, advance st (recorded name env eid (tx_db st))).
Proof.
  intros Hs Ho Hn Hid Hty Hv Hnone. unfold ReserveTx. rewrite Hn, Hv, Hid. cbn [negb].
  rewrite (bool_decide_eq_false_2 (uuid_text eid = "")) by (by apply canonical_nonempty, uuid_text_canonical).
  rewrite bool_decide_eq_false_2 by (intros E; by rewrite E in Hty). cbn [orb].
  change (1 <=? 0) with false. cbn iota. erewrite bind_run.
  2:{ apply exec_healthy; [done..|]. unfold insertInboxQuery. rewrite uuid_scan_text, Hn, Hty, Hnone. reflexivity. }
  unfold recorded. by rewrite Hv.
Qed.

(** The event that reports the approval of a transfer: the assessment of the
    risk worker or the decision of an analyst. *)
Definition approval (env : Envelope) (id : UUID) (current : Lifecycle) : Prop :=
  aggregateVersion (draft env) = lc_version current /\
  ((exists a, ParseRiskAssessed env = Ok a /\ ra_transferID a = uuid_text id /\ ra_decision a = DecisionApprove /\
      ra_riskPolicyVersion a = riskPolicyVersion current) \/
   (exists rd, ParseReviewDecided env = Ok rd /\ rd_transferID rd = uuid_text id /\ rd_decision rd = "approved")).

Lemma assessed_event env a : ParseRiskAssessed env = Ok a ->
  eventType (draft env) = RiskAssessedType /\ eventVersion (draft env) = 1.
Proof.
  unfold ParseRiskAssessed. destruct (_ || _) eqn:E; [done|]. intros _. rewrite !orb_false_iff in E.
  destruct E as ((((Ht & Hv) & _) & _) & _). bool_simpl. done.
Qed.

Lemma decided_event env rd : ParseReviewDecided env = Ok rd ->
  eventType (draft env) = ReviewDecidedType /\ eventVersion (draft env) = 1.
Proof.
  unfold ParseReviewDecided. destruct (_ || _) eqn:E; [done|]. intros _. rewrite !orb_false_iff in E.
  destruct E as (((Ht & Hv) & _) & _). bool_simpl. done.
Qed.

(** What a run of the transaction worker needs besides a healthy service. *)
Record settleable (d : DB) (id : UUID) (r : TransferRow) (current : Lifecycle) (env : Envelope) (eid : UUID) : Prop := {
  sb_row : t_transfers d !! id = Some r;
  sb_read : record_lifecycle (scan_lifecycle id r) = Ok current;
  sb_status : lc_status current = StatusApproved;
  sb_event : approval env id current;
  sb_id : eventID env = uuid_text eid;
  sb_new : t_inbox d !! (TransactionWorker.consumerName, eid) = None;
  sb_fit : accounts_fit d id r;
  sb_time : printable_time (requestedAt (lc_transfer current))
}.

(** The part of both bodies after the reservation. *)
Lemma settle_runs w s id r current env eid now :
  wallet_inv (committed w) -> ready_inv (committed w) -> healthy s -> generates_fresh s (committed w) ->
  settleable (committed w) id r current env eid -> IsZero now = false ->
  let st := advance (begun s w) (recorded TransactionWorker.consumerName env eid (committed w)) in
  LoadLifecycleForUpdateTx (uuid_text id) s st = (Ok current, advance st (tx_db st)) /\
  exists st', post_work current (eventID env) (UTC now) s (advance st (tx_db st)) = (Ok tt, st') /\ tx_open st' /\
    post_effect current id r (eventID env) (UTC now) (tx_db st) (tx_db st').
Proof.
  intros Hinv Hrd Hs Hfresh [Hr Hl Hst _ Hid Hnew Hfit Hpt] Hnow st. split; [by eapply load_healthy|].
  pose proof (record_lifecycle_Ok _ _ _ Hl) as Hrep.
  assert (Hli : ledger_inv (tx_db st)) by (apply (ledger_inv_frame (committed w)); [done|apply Hinv]).
  destruct (post_runs (committed w) s (advance st (tx_db st)) id r current (eventID env) (UTC now)) as (st' & E & Ho); try done.
  - rewrite Hid. apply uuid_text_canonical.
  - exists st'. split_and!; [done..|]. eapply (post_work_Ok id r) in E; [exact E|by eapply stored_wf|done..].
Qed.

(** Each body runs to its end. *)
Lemma assessment_runs w s id r current env eid now a :
  wallet_inv (committed w) -> ready_inv (committed w) -> healthy s -> generates_fresh s (committed w) ->
  settleable (committed w) id r current env eid -> IsZero now = false ->
  ParseRiskAssessed env = Ok a -> ra_transferID a = uuid_text id -> ra_decision a = DecisionApprove ->
  ra_riskPolicyVersion a = riskPolicyVersion current ->
  exists st, assessment_work now env a s (begun s w) = (Ok tt, st) /\ tx_open st /\
    post_effect current id r (eventID env) (UTC now) (recorded TransactionWorker.consumerName env eid (committed w)) (tx_db st).
Proof.
  intros Hinv Hrd Hs Hfresh Hsb Hnow Hp Hid Hd Hpol. destruct (assessed_event _ _ Hp) as [Hty Hv].
  destruct (settle_runs w s id r current env eid now) as (HL & st' & E & Ho & HP); [done..|]. unfold assessment_work.
  erewrite bind_run by (apply (reserve_healthy _ env s (begun s w) eid); [done|done|done|apply Hsb|by rewrite Hty|done|apply Hsb]).
  cbn [negb]. rewrite Hid. erewrite bind_run by exact HL. destruct Hsb as [_ _ Hst [Hav _] _ _ _ _].
  rewrite Hav, Hpol, Hd, Hst, Z.eqb_refl. rewrite !bool_decide_eq_true_2 by done. cbn [negb orb]. by exists st'.
Qed.

Lemma decision_runs w s id r current env eid now rd :
  wallet_inv (committed w) -> ready_inv (committed w) -> healthy s -> generates_fresh s (committed w) ->
  settleable (committed w) id r current env eid -> IsZero now = false ->
  ParseReviewDecided env = Ok rd -> rd_transferID rd = uuid_text id -> rd_decision rd = "approved" ->
  exists st, review_work now env rd s (begun s w) = (Ok tt, st) /\ tx_open st /\
    post_effect current id r (eventID env) (UTC now) (recorded TransactionWorker.consumerName env eid (committed w)) (tx_db st).
Proof.
  intros Hinv Hrd Hs Hfresh Hsb Hnow Hp Hid Hd. destruct (decided_event _ _ Hp) as [Hty Hv].
  destruct (settle_runs w s id r current env eid now) as (HL & st' & E & Ho & HP); [done..|]. unfold review_work.
  erewrite bind_run by (apply (reserve_healthy _ env s (begun s w) eid); [done|done|done|apply Hsb|by rewrite Hty|done|apply Hsb]).
  cbn [negb]. rewrite Hid. erewrite bind_run by exact HL. destruct Hsb as [_ _ Hst [Hav _] _ _ _ _].
  rewrite Hav, Hd, Hst, Z.eqb_refl. rewrite bool_decide_eq_true_2 by done. rewrite bool_decide_eq_false_2 by done.
  cbn [negb orb]. by exists st'.
Qed.

(** A posting ends the transfer. *)
Lemma post_effect_ends current id r causation at_ d d' :
  wallet_inv d -> t_transfers d !! id = Some r -> represents id r current -> post_effect current id r causation at_ d d' ->
  exists r', t_transfers d' !! id = Some r' /\ moves r r' /\
    (tr_status r' = "completed" \/ tr_status r' = "failed" /\ source_short d r).
Proof.
  intros Hinv Hr Hrep HP. pose proof (stored_wf _ _ _ _ Hinv Hr Hrep) as Hw.
  destruct HP as [entry prepared t next e _ _ _ Hn _ (journal & _ & _ & HE)|next e Hshort Hn _ (journal & _ & _ & HE)];
    destruct (event_added_frame _ _ _ HE) as (_ & HT & _); rewrite HT; cbn; exists (advanced next journal r);
    (split; [apply lookup_insert_eq|]).
  - destruct (apply_op_Ok OpComplete _ _ Hw Hn) as (-> & _). split; [by eapply (moves_with_status d id r current OpComplete)|by left].
  - destruct (apply_op_Ok (OpFail TransactionWorker.insufficientFundsReason) _ _ Hw Hn) as (-> & _).
    split; [by eapply (moves_with_status d id r current (OpFail TransactionWorker.insufficientFundsReason))|by right].
Qed.

(** An approved transfer is completed, or failed because its source is short,
    when the event of its approval is consumed. *)
Lemma approved_settled w s id r current env eid now :
  reachable w -> healthy s -> generates_fresh s (committed w) ->
  settleable (committed w) id r current env eid -> IsZero now = false ->
  exists w', TransactionWorker.Handle now env s w = (Ok tt, w') /\
    exists r', t_transfers (committed w') !! id = Some r' /\ moves r r' /\
      (tr_status r' = "completed" \/ tr_status r' = "failed" /\ source_short (committed w) r).
Proof.
  intros Hreach Hs Hfresh Hsb Hnow. pose proof (reachable_inv _ Hreach) as Hinv. pose proof (reachable_ready _ Hreach) as Hrd.
  pose proof Hsb as [Hr Hl Hst [Hav Hev] Hid Hnew _ _]. pose proof (record_lifecycle_Ok _ _ _ Hl) as Hrep.
  assert (Hu : unconsumed TransactionWorker.consumerName env eid (committed w)) by (split; [rewrite Hid; apply uuid_scan_text|done]).
  assert (Hend : forall work body st, ends work body -> quiet work -> work s (begun s w) = (Ok tt, st) -> tx_open st ->
    post_effect current id r (eventID env) (UTC now) (recorded TransactionWorker.consumerName env eid (committed w)) (tx_db st) ->
    exists w', run_tx false body s w = (Ok tt, w') /\
      exists r', t_transfers (committed w') !! id = Some r' /\ moves r r' /\
        (tr_status r' = "completed" \/ tr_status r' = "failed" /\ source_short (committed w) r)).
  { intros work body st He Hq E Ho HP.
    assert (HE : transaction_effect now env (committed w) (tx_db st)) by by eapply TransactionPosted.
    destruct (work_commits work body s w st) as (w' & HR & Hw'); [done..|by eapply transaction_effect_inv|by eapply transaction_ready|].
    exists w'. split; [done|]. rewrite Hw'. eapply post_effect_ends in HP; [exact HP|by apply recorded_inv|exact Hr|exact Hrep]. }
  unfold TransactionWorker.Handle, handleReviewDecision.
  destruct Hev as [(a & Hp & Hta & Hd & Hpol)|(rd & Hp & Hta & Hd)].
  - destruct (assessed_event _ _ Hp) as [Hty _]. rewrite bool_decide_eq_false_2 by (by rewrite Hty). rewrite Hp.
    destruct (assessment_runs w s id r current env eid now a) as (st & E & Ho & HP); [done..|].
    by eapply Hend; [apply assessment_ends|apply quiet_assessment_work|exact E|..].
  - destruct (decided_event _ _ Hp) as [Hty _]. rewrite bool_decide_eq_true_2 by done. rewrite Hp.
    destruct (decision_runs w s id r current env eid now rd) as (st & E & Ho & HP); [done..|].
    by eapply Hend; [apply review_ends|apply quiet_review_work|exact E|..].
Qed.

End Progress.
