(* ===== verification/Scenario.v ===== *)
(** * A concrete run

    Two wallets' accounts on the concrete driver: one transfer that is approved
    and completed, one that is reviewed, approved and fails for want of funds, and
    a direct transfer.  The runs show that the hypotheses of the properties of the
    whole system hold on real inputs. *)

From stdpp Require Import base list gmap strings numbers sorting pretty.
From Stdlib Require Import ZArith Lia.
From S2P Require Import RiskWorker TransactionWorker ReviewCase.
From S2P Require Import Prelude GoText Money Journal TransferDomain RiskPolicy Json JsonDecode GoTime Event.
From S2P Require Import TransferEvents EventParse Database PgInstance LedgerRepo LedgerSpec LedgerCorrect.
From S2P Require Import LedgerTheorems Outbox Inbox TransferRepo TransferSpec TransferStore StoreSpec.
From S2P Require Import AuditWriter WorkerSpec System.

Open Scope string_scope.
Open Scope Z_scope.

(** A service without faults that hands out a new identifier at every tick. *)
Definition ident (n : nat) : UUID :=
  default id_other (scan_uuid ("00000000-0000-4000-8000-000000000" ++ pretty (100 + N.of_nat n)%N)).

Definition steady : Service := mkService (fun _ => None) (fun _ => CommitApplied) ident (fun _ => sample_now) (fun _ => false).

Definition id_requester : UUID := sample_uuid "00000000-0000-4000-8000-000000000007" eq_refl.
Definition id_small : UUID := sample_uuid "00000000-0000-4000-8000-000000000011" eq_refl.
Definition id_large : UUID := sample_uuid "00000000-0000-4000-8000-000000000012" eq_refl.
Definition id_direct : UUID := sample_uuid "00000000-0000-4000-8000-000000000013" eq_refl.
Definition event_small : UUID := sample_uuid "00000000-0000-4000-8000-000000000021" eq_refl.
Definition event_large : UUID := sample_uuid "00000000-0000-4000-8000-000000000022" eq_refl.
Definition event_assessed : UUID := sample_uuid "00000000-0000-4000-8000-000000000023" eq_refl.
Definition event_reviewed : UUID := sample_uuid "00000000-0000-4000-8000-000000000024" eq_refl.

Definition sample_wallet : WalletRow := mkWalletRow id_requester "active" sample_now sample_now.

Definition openingDB : DB :=
  set_wallets (fun _ => <[id_treasury := sample_wallet]> (<[id_merchant := sample_wallet]> {[ id_wallet := sample_wallet ]})) sampleDB.

Definition opening : World := mkWorld openingDB 0.

Definition order (id : UUID) (key : string) (units : Z) : Transfer :=
  mkTransfer (uuid_text id) key (uuid_text id_requester) (uuid_text id_alice) (uuid_text id_bob)
    (mkMoney units sample_currency) sample_now.

Definition pending (t : Transfer) : Lifecycle := mkLifecycle t StatusPendingRisk 1 "risk-v1" "" "".

Definition small : Lifecycle := pending (order id_small "key-small" 10).
Definition large : Lifecycle := pending (order id_large "key-large" 60).
Definition direct : Transfer := order id_direct "key-direct" 5.

Definition assessor : Handler := mkHandler {[ "risk-v1" := sample_policy ]} noopVelocityObserver sample_now.

(** The envelope of a built event. *)
Definition deliver (id : UUID) (r : Result Draft) : Envelope :=
  mkEnvelope (uuid_text id) (match r with Ok e => e | Err _ => mkDraft "" 0 "" "" 0 "" "" sample_now "" end).

Definition small_requested : Envelope := deliver event_small (Requested small).
Definition large_requested : Envelope := deliver event_large (Requested large).

Definition at_status (l : Lifecycle) (st : Status) (version : Z) : Lifecycle :=
  mkLifecycle (lc_transfer l) st version (riskPolicyVersion l) (journalEntryID l) (failureReason l).

Definition small_assessed : Envelope :=
  deliver event_assessed
    (RiskAssessed (at_status small StatusApproved 2) (mkEvaluation "risk-v1" 0 RiskPolicy.DecisionApprove []) sample_now
       (uuid_text event_small)).

Definition large_reviewed : Envelope :=
  deliver event_reviewed (ReviewDecided (at_status large StatusApproved 3) "analyst-1" sample_now).

Definition analyst : TrustedPrincipal := mkPrincipal "analyst-1" "analyst".

(** ** The run *)

Definition after_funding : World := (Post funding steady opening).2.
Definition after_accept : World := (CreatePending small steady after_funding).2.
Definition after_accepts : World := (CreatePending large steady after_accept).2.
Definition after_assess : World := (RiskWorker.Handle assessor small_requested steady after_accepts).2.
Definition after_refer : World := (RiskWorker.Handle assessor large_requested steady after_assess).2.
Definition after_complete : World := (TransactionWorker.Handle sample_now small_assessed steady after_refer).2.
Definition after_decide : World := (ReviewCase.Decide sample_now analyst (uuid_text id_large) "approved" steady after_complete).2.
Definition after_fail : World := (TransactionWorker.Handle sample_now large_reviewed steady after_decide).2.
Definition after_direct : World := (Create direct steady after_fail).2.

(** ** Its steps *)

Lemma ran {A} (p : Result A * World) : is_ok p.1 = true -> exists a, p = (Ok a, p.2).
Proof. destruct p as [[a|e] w]; [eauto|discriminate]. Qed.

Lemma ran_unit (p : Result unit * World) : is_ok p.1 = true -> p = (Ok tt, p.2).
Proof. intros [[] E]%ran. exact E. Qed.

Lemma order_typed id key units : bool_decide (in_int64 units) = true -> transfer_typed (order id key units).
Proof. intros Hi%bool_decide_eq_true. exact Hi. Qed.

Lemma opening_initial : initial openingDB.
Proof. split; [|reflexivity..]. apply fresh_balances_sound; [reflexivity|reflexivity|vm_compute; reflexivity]. Qed.

(** One call under [steady], from any world. *)
Lemma post_step e w : entry_typed e -> step w (Post e steady w).2.
Proof. intros Ht. exact (Application _ _ (StepPost _ _ e steady _ Ht (surjective_pairing _))). Qed.

Lemma create_step t w : transfer_typed t -> step w (Create t steady w).2.
Proof. intros Ht. exact (Application _ _ (StepCreate _ _ t steady _ Ht (surjective_pairing _))). Qed.

Lemma accept_app l w : transfer_typed (lc_transfer l) -> requestedAt (lc_transfer l) = sample_now -> lc_version l = 1 ->
  app_step w (CreatePending l steady w).2.
Proof.
  intros Ht Hat Hv. eapply (StepCreatePending _ _ l steady); [exact Ht|by rewrite Hat|rewrite Hv; int64_lia|].
  apply surjective_pairing.
Qed.

Lemma accept_step l w : transfer_typed (lc_transfer l) -> requestedAt (lc_transfer l) = sample_now -> lc_version l = 1 ->
  step w (CreatePending l steady w).2.
Proof. intros Ht Hat Hv. by apply Application, accept_app. Qed.

Lemma assess_step h env w : step w (RiskWorker.Handle h env steady w).2.
Proof. exact (Application _ _ (StepAssess _ _ h env steady _ (surjective_pairing _))). Qed.

Lemma transact_step env w : step w (TransactionWorker.Handle sample_now env steady w).2.
Proof. exact (Application _ _ (StepTransact _ _ sample_now env steady _ (surjective_pairing _))). Qed.

Lemma decide_step p id decision w : step w (ReviewCase.Decide sample_now p id decision steady w).2.
Proof. exact (Application _ _ (StepDecide _ _ sample_now p id decision steady _ (surjective_pairing _))). Qed.

Lemma reached_opening : reachable opening.
Proof. exists opening. split; [exact opening_initial|constructor]. Qed.

Lemma reached_funding : reachable after_funding.
Proof. exact (reachable_step _ _ reached_opening (post_step funding opening funding_typed)). Qed.

Lemma reached_accept : reachable after_accept.
Proof.
  apply (reachable_step _ _ reached_funding), accept_step; [by apply order_typed|reflexivity..].
Qed.

Lemma reached_accepts : reachable after_accepts.
Proof.
  apply (reachable_step _ _ reached_accept), accept_step; [by apply order_typed|reflexivity..].
Qed.

Lemma reached_assess : reachable after_assess.
Proof. exact (reachable_step _ _ reached_accepts (assess_step _ _ _)). Qed.

Lemma reached_refer : reachable after_refer.
Proof. exact (reachable_step _ _ reached_assess (assess_step _ _ _)). Qed.

Lemma reached_complete : reachable after_complete.
Proof. exact (reachable_step _ _ reached_refer (transact_step _ _)). Qed.

Lemma reached_decide : reachable after_decide.
Proof. exact (reachable_step _ _ reached_complete (decide_step _ _ _ _)). Qed.

Lemma reached_fail : reachable after_fail.
Proof. exact (reachable_step _ _ reached_decide (transact_step _ _)). Qed.

Lemma reached_direct : reachable after_direct.
Proof. apply (reachable_step _ _ reached_fail), create_step. by apply order_typed. Qed.

Lemma run_step w1 w2 w3 : step w1 w2 -> run w2 w3 -> run w1 w3.
Proof. apply rtc_l. Qed.

Lemma run_from_fail : run after_fail after_direct.
Proof. apply rtc_once, create_step. by apply order_typed. Qed.

Lemma run_from_decide : run after_decide after_direct.
Proof. exact (run_step after_decide after_fail after_direct (transact_step large_reviewed after_decide) run_from_fail). Qed.

Lemma run_from_complete : run after_complete after_direct.
Proof.
  exact (run_step after_complete after_decide after_direct
    (decide_step analyst (uuid_text id_large) "approved" after_complete) run_from_decide).
Qed.

Lemma run_from_refer : run after_refer after_direct.
Proof. exact (run_step after_refer after_complete after_direct (transact_step small_assessed after_refer) run_from_complete). Qed.

Lemma run_from_assess : run after_assess after_direct.
Proof. exact (run_step after_assess after_refer after_direct (assess_step assessor large_requested after_assess) run_from_refer). Qed.

Lemma run_from_accepts : run after_accepts after_direct.
Proof. exact (run_step after_accepts after_assess after_direct (assess_step assessor small_requested after_accepts) run_from_assess). Qed.

Lemma accepted_step id key units w : bool_decide (in_int64 units) = true ->
  step w (CreatePending (pending (order id key units)) steady w).2.
Proof. intros Hu. apply accept_step; [by apply order_typed|reflexivity..]. Qed.

Lemma run_from_opening : run opening after_direct.
Proof.
  exact (run_step opening after_funding after_direct (post_step funding opening funding_typed)
    (run_step after_funding after_accept after_direct (accepted_step id_small "key-small" 10 after_funding eq_refl)
      (run_step after_accept after_accepts after_direct (accepted_step id_large "key-large" 60 after_accept eq_refl)
        run_from_accepts))).
Qed.

(** ** Its observations *)

Definition has_status (w : World) (id : UUID) (status : string) : bool :=
  match t_transfers (committed w) !! id with Some r => bool_decide (tr_status r = status) | None => false end.

Lemma has_status_true w id status : has_status w id status = true ->
  exists r, t_transfers (committed w) !! id = Some r /\ tr_status r = status.
Proof. intros (r & Hr & Hb)%some_with. exists r. by rewrite bool_decide_eq_true in Hb. Qed.

Lemma small_accepted : has_status after_accepts id_small "pending_risk" = true.
Proof. vm_compute. reflexivity. Qed.

Lemma small_approved : has_status after_refer id_small "approved" = true.
Proof. vm_compute. reflexivity. Qed.

Lemma small_completed : has_status after_complete id_small "completed" = true.
Proof. vm_compute. reflexivity. Qed.

Lemma small_still_completed : has_status after_direct id_small "completed" = true.
Proof. vm_compute. reflexivity. Qed.

Lemma complete_ran :
  TransactionWorker.Handle sample_now small_assessed steady after_refer = (Ok tt, after_complete).
Proof. apply ran_unit. vm_compute. reflexivity. Qed.

Lemma assess_ran : RiskWorker.Handle assessor small_requested steady after_accepts = (Ok tt, after_assess).
Proof. apply ran_unit. vm_compute. reflexivity. Qed.

Lemma decide_ran :
  ReviewCase.Decide sample_now analyst (uuid_text id_large) "approved" steady after_complete = (Ok tt, after_decide).
Proof. apply ran_unit. vm_compute. reflexivity. Qed.

Lemma fail_ran :
  TransactionWorker.Handle sample_now large_reviewed steady after_decide = (Ok tt, after_fail).
Proof. apply ran_unit. vm_compute. reflexivity. Qed.

Lemma direct_ran : exists t', Create direct steady after_fail = (Ok t', after_direct).
Proof. destruct (ran (Create direct steady after_fail)) as [t' E]; [vm_compute; reflexivity|]. exists t'. exact E. Qed.
