(* ===== verification/Liveness.v ===== *)
(** * The assessment of pending transfers, and liveness

    The third handler of Progress.v: a pending transfer is assessed when its event
    is consumed by a worker with well-formed policies.  Together, every transfer
    that has not ended is moved on by the input it waits for. *)

From stdpp Require Import base list gmap strings numbers sorting.
From Stdlib Require Import ZArith Lia.
From S2P Require Import OutboxRepo OutboxTheorems WalletRepo WalletTheorems Quarantine.
From S2P Require Import RiskWorker TransactionWorker ReviewCase.
From S2P Require Import Prelude GoText Money Journal TransferDomain RiskPolicy Json JsonDecode GoTime Event.
From S2P Require Import TransferEvents EventParse Database PgInstance LedgerRepo LedgerSpec LedgerCorrect LedgerTheorems.
From S2P Require Import Outbox Inbox TransferRepo TransferSpec TransferStore StoreSpec AuditWriter WorkerSpec System Ready Jsonb.
From S2P Require Import Scenario Progress.

Open Scope string_scope.
Open Scope Z_scope.

(** ** Evaluations *)

Lemma Evaluate_runs p i :
  policy_wf p -> input_ok i ->
  exists ev, Evaluate p i = Ok ev /\ evaluation_wf ev /\ visible_signals ev /\ eval_policyVersion ev = policy_version p /\
    decision ev <> DecisionUnknown.
Proof.
  intros Hp Hi. destruct (Evaluate_guard p i Hp Hi) as [Hv Hg]. unfold Evaluate. rewrite Hv, Hg.
  assert (Hone : forall sc d code, d <> DecisionUnknown -> 0 <= sc <= 1000 -> all_bytes is_visible code = true -> len code <= 64 ->
    let ev := newEvaluation (policy_version p) sc d [mkSignal code sc] in
    evaluation_wf ev /\ visible_signals ev /\ eval_policyVersion ev = policy_version p /\ decision ev <> DecisionUnknown).
  { intros sc d code Hd Hsc Hvis Hl. split_and!; try done.
    - split; [done|]. split; [cbn; lia|]. apply Forall_cons_2; [|by constructor]. cbn.
      split; [by apply visible_ascii|]. split; [done|int64_lia].
    - by repeat constructor. }
  repeat case_match; (eexists; split; [reflexivity|]);
    first [by apply Hone; try (vm_compute; intuition discriminate)|split_and!; try done; by repeat constructor].
Qed.

(** The operation that stores a decision. *)
Definition decision_op (d : RiskDecision) : lifecycle_op :=
  match d with
  | DecisionReview => OpRequireReview
  | DecisionDecline => OpDecline
  | _ => OpApprove
  end.

Lemma transition_decision current d : d <> DecisionUnknown -> RiskWorker.transition current d = apply_op (decision_op d) current.
Proof. by destruct d. Qed.

Lemma decision_matches d l : d <> DecisionUnknown -> matchesRiskDecision (lc_status (successor (decision_op d) l)) d = true.
Proof. by destruct d. Qed.

(** ** The stored documents *)

Lemma input_stored input :
  in_int64 (minorUnits (in_Amount input)) -> currency_valid (currency (in_Amount input)) = true -> in_int64 (VelocityTransferCount input) ->
  exists v, input_json input = marshal v /\ visible_value v = true /\ depth_of v <= maxNestingDepth /\ len (marshal v) <= 32768.
Proof.
  intros Ha Hc Hv. eexists. split; [reflexivity|]. destruct (currency_text _ Hc) as [Hca Hcl]. split_and!.
  - cbn [visible_value forallb]. rewrite (currency_visible _ Hc), !bool_decide_eq_true_2 by done. done.
  - done.
  - etrans; [apply len_marshal_object_le; by repeat constructor|]. unfold object_bound. cbn [foldr marshal].
    pose proof (len_pretty _ Ha). pose proof (len_pretty _ Hv). pose proof (len_marshal_string _ Hca).
    assert (len (if VelocityDegraded input then "true" else "false") <= 5) by (by destruct (VelocityDegraded input)).
    cbn [len] in *. lia.
Qed.

Lemma signals_stored ev :
  evaluation_wf ev -> visible_signals ev ->
  exists v, signals_json ev = marshal v /\ visible_value v = true /\ depth_of v <= maxNestingDepth /\ len (marshal v) <= 32768.
Proof.
  intros Hev Hvs. destruct (signals_visible _ Hev Hvs) as [Hs Hd]. destruct Hev as (_ & Hn & HF).
  eexists. split; [reflexivity|]. destruct (signals_bound _ HF) as (_ & _ & Hl). split_and!.
  - exact Hs.
  - cbn [depth_of]. unfold maxNestingDepth. lia.
  - cbn [marshal String.append len]. rewrite len_append. cbn [len]. lia.
Qed.

Lemma policy_checked v : risk_validPolicyVersion v = true -> all_bytes is_visible v = true /\ visible_check 64 v = true.
Proof.
  unfold risk_validPolicyVersion, visible_check, maxPolicyVersionBytes. destruct (_ || _) eqn:E; [done|].
  rewrite visible_runes_bytes. intros Hv. pose proof (len_nonneg v). split; [done|]. rewrite Hv. lia.
Qed.

Section Liveness.
Context `{PgLaws} `{!JsonbLaws}.

(** ** Storing an assessment *)

Lemma assessment_inserted d id eid version policy input sg score dec at_ now stored_input stored_sg r :
  stored_json input = Some stored_input -> len stored_input <= maxPayloadBytes ->
  stored_json sg = Some stored_sg -> len stored_sg <= maxPayloadBytes ->
  dec <> DecisionUnknown -> 2 <= version -> visible_check 64 policy = true -> 0 <= score <= 1000 ->
  (forall a, a ∈ t_assessments d -> as_causation a <> eid /\ ~ (as_transfer a = id /\ as_version a = version)) ->
  t_transfers d !! id = Some r ->
  insertRiskAssessmentQuery (uuid_text id) version eid policy input score (decision_String dec) sg at_ now d =
    Ok (tt, set_assessments (fun l => l ++ [mkAssessmentRow id version eid policy stored_input score (decision_String dec)
                                              stored_sg (stored_time at_)])%list d).
Proof.
  intros Ei Hi Es Hs Hdec Hv Hpol Hsc Hnew Hr. unfold insertRiskAssessmentQuery. unfold maxPayloadBytes in *.
  rewrite uuid_scan_text, Ei, Es. rewrite bool_decide_eq_true_2 by (destruct dec; [done|set_solver..]). cbn [negb].
  rewrite (proj2 (Z.ltb_ge _ _) Hi), (proj2 (Z.ltb_ge _ _) Hv), Hpol. cbn [negb].
  rewrite (proj2 (Z.leb_le 0 score)), (proj2 (Z.leb_le score 1000)), (proj2 (Z.ltb_ge _ _) Hs) by lia. cbn [negb andb].
  destruct (existsb _ _) eqn:E1.
  { exfalso. apply existsb_exists in E1 as (a & Ha%list_elem_of_In & Hb%bool_decide_eq_true). by destruct (Hnew a Ha). }
  clear E1. destruct (existsb _ _) eqn:E2.
  { exfalso. apply existsb_exists in E2 as (a & Ha%list_elem_of_In & [Hb%bool_decide_eq_true Hc%Z.eqb_eq]%andb_true_iff).
    by destruct (Hnew a Ha) as [_ []]. }
  rewrite Hr. by rewrite bool_decide_eq_false_2.
Qed.

Lemma review_opened d id version at_ now a :
  2 <= version -> t_reviews d !! id = None -> a ∈ t_assessments d -> as_transfer a = id -> as_version a = version ->
  exists d', insertReviewCaseQuery (uuid_text id) version at_ now d = Ok (tt, d').
Proof.
  intros Hv Hn Ha E1 E2. unfold insertReviewCaseQuery. rewrite uuid_scan_text, (proj2 (Z.ltb_ge _ _) Hv).
  rewrite bool_decide_eq_true_2 by done. cbn [negb]. destruct (existsb _ _) eqn:Ex; [by eexists|].
  exfalso. apply not_true_iff_false in Ex. apply Ex, existsb_exists. exists a. split; [by apply list_elem_of_In|].
  rewrite bool_decide_eq_true_2 by done. by apply Z.eqb_eq.
Qed.

(** What storing an assessment needs of the tables. *)
Record assessable (d : DB) (id : UUID) (r : TransferRow) (current next : Lifecycle) (eid : UUID) : Prop := {
  sa_row : t_transfers d !! id = Some r;
  sa_represents : represents id r current;
  sa_checks : transfer_checks id (with_status (status_String (lc_status next)) (lc_version next) r) = Ok tt;
  sa_new a : a ∈ t_assessments d -> as_causation a <> eid /\ ~ (as_transfer a = id /\ as_version a = lc_version next);
  sa_case : t_reviews d !! id = None
}.

Lemma assessment_prepared current next input ev eid at_ :
  lc_status current = StatusPendingRisk -> lc_version current = 1 -> next = successor (decision_op (decision ev)) current ->
  in_Amount input = transfer_amount (lc_transfer current) -> 0 <= VelocityTransferCount input ->
  decision ev <> DecisionUnknown -> eval_policyVersion ev = riskPolicyVersion current -> IsZero at_ = false ->
  prepareRiskAssessment current next input ev (uuid_text eid) at_ = Ok (input_json input, signals_json ev, eid).
Proof.
  intros Hst Hver Hnext Ham Hcn Hdec Hpv Hat. assert (Hnv : lc_version next = 2) by (subst next; cbn; lia).
  assert (Htr : lc_transfer next = lc_transfer current) by by subst.
  assert (Hrp : riskPolicyVersion next = riskPolicyVersion current) by by subst.
  assert (Hm : matchesRiskDecision (lc_status next) (decision ev) = true) by (subst next; by apply decision_matches).
  unfold prepareRiskAssessment. rewrite parseUUID_text, Hat, Hst, Ham, Hpv, Hnv, Hver, Htr, Hrp, Hm, (proj2 (Z.ltb_ge _ _) Hcn).
  by rewrite !bool_decide_eq_true_2.
Qed.

Lemma StoreAssessment_runs s st id r current next input ev eid at_ :
  healthy s -> tx_open st -> assessable (tx_db st) id r current next eid ->
  lifecycle_wf current -> lc_status current = StatusPendingRisk -> next = successor (decision_op (decision ev)) current ->
  in_Amount input = transfer_amount (lc_transfer current) -> 0 <= VelocityTransferCount input -> in_int64 (VelocityTransferCount input) ->
  evaluation_wf ev -> visible_signals ev -> decision ev <> DecisionUnknown ->
  eval_policyVersion ev = riskPolicyVersion current -> visible_check 64 (riskPolicyVersion current) = true ->
  IsZero at_ = false ->
  exists st', StoreRiskAssessmentTx current next input ev (uuid_text eid) at_ s st = (Ok tt, st').
Proof.
  intros Hs Ho [Hr Hrep Hck Hnew Hcase] Hw Hst Hnext Ham Hcn Hci Hev Hvs Hdec Hpv Hpc Hat.
  pose proof Hw as ((Htv & _ & Hsh)%lifecycle_validate_Ok & _ & _). unfold status_shape in Hsh. rewrite Hst in Hsh.
  destruct Hsh as (Hver & _). pose proof Htv as (_ & _ & _ & _ & _ & _ & Hcur & _)%transfer_validate_Ok.
  assert (Hnv : lc_version next = 2) by (subst next; cbn; lia).
  unfold StoreRiskAssessmentTx. rewrite (assessment_prepared current next input ev eid at_) by done.
  destruct (input_stored input) as (vi & -> & Hvi & Hdi & Hli); [rewrite Ham; apply Hw|by rewrite Ham|done|].
  destruct (signals_stored ev Hev Hvs) as (vs & -> & Hvv & Hdv & Hlv).
  destruct (document_stored vi) as (si & Esi & Hsi); [done..|]. destruct (document_stored vs) as (ss & Ess & Hss); [done..|].
  rewrite (bind_run (lift (Ok _)) _ s st _ st eq_refl).
  erewrite bind_run.
  2:{ apply exec_healthy; [done..|]. rewrite (rp_id _ _ _ Hrep).
      apply update_healthy; [done|by rewrite <- (rp_status _ _ _ Hrep), Hst|by rewrite <- (rp_version _ _ _ Hrep)|exact Hck]. }
  rewrite (bind_run (lift (fail_if false _)) _ s _ tt _ eq_refl). rewrite (rp_id _ _ _ Hrep).
  erewrite bind_run.
  2:{ apply exec_healthy; [done..|]. eapply assessment_inserted; try done; [by rewrite Hnv|by rewrite Hpv|apply Hev|]. cbn. apply lookup_insert_eq. }
  case_bool_decide as Hrv; [|by eexists].
  match goal with |- exists st', exec ?f ?s ?st = _ => assert (exists d', f (tx_now st) (tx_db st) = Ok (tt, d')) as [d' Ed'] end.
  { eapply review_opened; [by rewrite Hnv|exact Hcase|cbn; apply elem_of_app; right; by apply list_elem_of_singleton|done|done]. }
  eexists. by apply exec_healthy.
Qed.

(** ** The run of the risk worker *)

(** A worker as [NewHandler] builds it: well-formed policies under their versions
    and an observer that counts. *)
Definition handler_wf (h : Handler) : Prop :=
  (forall v p, policies h !! v = Some p -> policy_version p = v /\ policy_wf p) /\
  (forall account transfer at_ n, velocity h account transfer at_ = Ok n -> 0 <= n /\ in_int64 n) /\
  IsZero (RiskWorker.now h) = false.

(** The event that requested a pending transfer, not consumed yet. *)
Record requestable (d : DB) (id : UUID) (r : TransferRow) (current : Lifecycle) (h : Handler) (env : Envelope) (eid : UUID)
    (requested : Lifecycle) (policy : Policy) : Prop := {
  rq_row : t_transfers d !! id = Some r;
  rq_read : record_lifecycle (scan_lifecycle id r) = Ok current;
  rq_event : ParseRequested env = Ok requested;
  rq_agrees : RiskWorker.conflicts current requested = false;
  rq_policy : policies h !! riskPolicyVersion requested = Some policy;
  rq_id : eventID env = uuid_text eid;
  rq_new : t_inbox d !! (RiskWorker.consumerName, eid) = None
}.

Lemma requested_event env requested : ParseRequested env = Ok requested ->
  eventType (draft env) = RequestedType /\ eventVersion (draft env) = 1.
Proof.
  unfold ParseRequested. destruct (_ || _) eqn:E; [done|]. intros _. rewrite !orb_false_iff in E.
  destruct E as ((((Ht & Hv) & _) & _) & _). bool_simpl. done.
Qed.

Lemma conflicts_agree current requested : RiskWorker.conflicts current requested = false ->
  lc_status current = StatusPendingRisk /\ transfer_id (lc_transfer current) = transfer_id (lc_transfer requested) /\
  riskPolicyVersion current = riskPolicyVersion requested.
Proof.
  unfold RiskWorker.conflicts. rewrite !orb_false_iff. intros (((((((Hp & Hi) & _) & _) & _) & _) & _) & Hr).
  by bool_simpl.
Qed.

(** The evaluation of a stored transfer. *)
Lemma capture_ok h current at_ :
  handler_wf h -> lifecycle_wf current -> input_ok (captureInput h current at_) /\
    in_Amount (captureInput h current at_) = transfer_amount (lc_transfer current) /\
    in_int64 (VelocityTransferCount (captureInput h current at_)).
Proof.
  intros (_ & Hvel & _) (_ & ((_ & _ & _ & _ & _ & _ & Hc & Hpos & _)%transfer_validate_Ok & Hi & _) & _).
  unfold captureInput, input_ok. destruct (velocity h _ _ _) as [n|] eqn:En.
  - destruct (Hvel _ _ _ _ En). done.
  - cbn. split_and!; try done; try lia; int64_lia.
Qed.

(** A pending transfer can be stored with any outcome under an event that the
    worker has not consumed. *)
Lemma pending_assessable d id r current next eid env op :
  wallet_inv d -> ready_inv d -> t_transfers d !! id = Some r -> represents id r current ->
  lc_status current = StatusPendingRisk -> t_inbox d !! (RiskWorker.consumerName, eid) = None ->
  apply_op op current = Ok next -> op_target op <> StatusCompleted -> (forall reason, op <> OpFail reason) ->
  assessable (recorded RiskWorker.consumerName env eid d) id r current next eid.
Proof.
  intros Hinv Hrd Hr Hrep Hst Hnew Hop Hnc Hnf. destruct (advanced_checks _ _ _ _ _ _ Hinv Hr Hrep Hop) as (journal & _ & Hck & Hj).
  destruct (apply_op_Ok _ _ _ (stored_wf _ _ _ _ Hinv Hr Hrep) Hop) as (Hnext & _).
  assert (Hpend : tr_status r = "pending_risk") by by rewrite <- (rp_status _ _ _ Hrep), Hst.
  split; try done.
  - assert (with_status (status_String (lc_status next)) (lc_version next) r = advanced next journal r) as ->; [|done].
    destruct (wi_row _ Hinv _ _ Hr) as ((_ & Hsh & _)%transfer_checks_Ok & _). unfold row_shape in Hsh. rewrite Hpend in Hsh.
    destruct Hsh as [(_ & _ & _ & Ej & Ef)|[[Hx _]|[[Hx _]|[Hx _]]]]; [|naive_solver..].
    rewrite (Hj Hnc), Hnext. unfold with_status, advanced, with_outcome. rewrite Ej, Ef. destruct op; try done. by destruct (Hnf reason).
  - intros a Ha. cbn in Ha. destruct (rd_assessed _ Hrd _ Ha) as [(r1 & Hr1 & Hle) [x Hx]]. split; [congruence|].
    intros [E1 E2]. rewrite E1 in Hr1. assert (r1 = r) as -> by congruence. rewrite Hnext in E2. cbn in E2.
    rewrite (rp_version _ _ _ Hrep) in E2. lia.
  - cbn. destruct (t_reviews d !! id) eqn:E; [|done]. destruct (rd_reviewed _ Hrd id) as (r1 & Hr1 & Hn); [by eexists|].
    by assert (r1 = r) as -> by congruence.
Qed.

Lemma risk_runs w s id r current h env eid requested policy :
  wallet_inv (committed w) -> ready_inv (committed w) -> healthy s -> generates_fresh s (committed w) -> handler_wf h ->
  requestable (committed w) id r current h env eid requested policy ->
  exists st, risk_work h env requested policy s (begun s w) = (Ok tt, st) /\ tx_open st.
Proof.
  intros Hinv Hrd Hs Hfresh Hh [Hr Hl Hp Hcf Hpol Hid Hnew]. pose proof (record_lifecycle_Ok _ _ _ Hl) as Hrep.
  pose proof (stored_wf _ _ _ _ Hinv Hr Hrep) as Hw. destruct (conflicts_agree _ _ Hcf) as (Hst & Htid & Hrp).
  destruct (requested_event _ _ Hp) as [Hty Hev]. destruct (proj1 Hh _ _ Hpol) as [Hpv Hpw].
  set (at_ := UTC (RiskWorker.now h)). assert (Hat : IsZero at_ = false) by (unfold at_; rewrite IsZero_UTC; apply Hh).
  destruct (capture_ok h current at_ Hh Hw) as (Hin & Ham & Hvi). 
  destruct (Evaluate_runs policy (captureInput h current at_) Hpw Hin) as (ev & Hee & Hevw & Hevs & Hepv & Hed).
  assert (Hpc : all_bytes is_visible (riskPolicyVersion current) = true /\ visible_check 64 (riskPolicyVersion current) = true).
  { rewrite Hrp, <- Hpv. apply policy_checked, Hpw. }
  destruct (op_runs (committed w) id r current (decision_op (decision ev))) as [Hop Hnw]; [done..|by rewrite Hst; destruct (decision ev)|by destruct (decision ev)|].
  set (next := successor (decision_op (decision ev)) current) in *.
  set (st1 := advance (begun s w) (recorded RiskWorker.consumerName env eid (committed w))).
  unfold risk_work. erewrite bind_run by (apply (reserve_healthy _ env s (begun s w) eid); [done|done|done|done|by rewrite Hty|done|done]).
  cbn [negb]. rewrite <- Htid, (rp_id _ _ _ Hrep). fold st1.
  erewrite bind_run by (apply (load_healthy s st1 id r current); done). rewrite Hcf. cbv zeta. fold at_. rewrite Hee.
  rewrite (bind_run (lift (Ok ev)) _ s _ ev _ eq_refl). rewrite transition_decision, Hop by done.
  rewrite (bind_run (lift (Ok next)) _ s _ next _ eq_refl). rewrite Hid.
  destruct (StoreAssessment_runs s (advance st1 (tx_db st1)) id r current next (captureInput h current at_) ev eid at_) as [st2 E2];
    [done|done| |done..|apply Hin|done|done|done|done|by rewrite Hepv, Hpv, <- Hrp|apply Hpc|done|].
  { eapply pending_assessable; try done; by destruct (decision ev). }
  erewrite bind_run by exact E2.
  apply StoreAssessment_Ok in E2 as (id' & r' & cause & row & _ & _ & _ & _ & _ & _ & _ & _ & _ & _ & Ho2 & _ & Hd2).
  assert (HO2 : t_outbox (tx_db st2) = t_outbox (committed w)) by (rewrite Hd2; exact (proj1 (assessed_frame id' r' next row at_ (tx_db st1)))).
  destruct (RiskAssessed_ok next ev at_ (uuid_text eid)) as [Hdr Hdw];
    [done|done|by apply decision_matches|by rewrite Hepv, Hpv, <- Hrp|done|apply uuid_text_canonical|].
  rewrite Hdr. rewrite (bind_run (lift (Ok _)) _ s st2 _ st2 eq_refl).
  destruct (AddTx_healthy (assessed_draft next ev at_ (uuid_text eid)) s st2) as (out & st3 & E3 & Ho3); [done|done|done| | | |].
  - apply assessed_visible; [done|done|done|]. rewrite Hepv, Hpv, <- Hrp. apply Hpc.
  - intros n. rewrite HO2. apply Hfresh.
  - eapply (next_event_new (committed w) _ id r); [done|done|split_and!; [reflexivity|reflexivity|exact (rp_id _ _ _ Hrep)|reflexivity]| |by rewrite HO2].
    unfold next. cbn. rewrite (rp_version _ _ _ Hrep). lia.
  - erewrite bind_run by exact E3. by exists st3.
Qed.

(** A pending transfer is assessed when its event is consumed. *)
Lemma pending_assessed w s id r current h env eid requested policy :
  reachable w -> healthy s -> generates_fresh s (committed w) -> handler_wf h ->
  requestable (committed w) id r current h env eid requested policy ->
  exists w', RiskWorker.Handle h env s w = (Ok tt, w') /\
    exists r', t_transfers (committed w') !! id = Some r' /\ moves r r'.
Proof.
  intros Hreach Hs Hfresh Hh Hrq. pose proof (reachable_inv _ Hreach) as Hinv. pose proof (reachable_ready _ Hreach) as Hrd.
  destruct (risk_runs w s id r current h env eid requested policy) as (st & E & Ho); [done..|].
  pose proof Hrq as [Hr Hl Hp Hcf Hpol Hid Hnew]. apply risk_work_Ok in E as HE. cbn [tx_db begun] in HE.
  destruct (work_commits _ _ s w st Hs (risk_ends h env requested policy) (quiet_risk_work _ _ _ _) E Ho) as (w' & HR & Hw');
    [by eapply risk_effect_inv|by eapply risk_ready|].
  exists w'. unfold RiskWorker.Handle. rewrite Hp, Hpol. split; [exact HR|]. rewrite Hw'.
  destruct HE as [(e0 & He0 & Hs0) _|eid' id' r0 cur ev next row e _ Hr0 Hrep0 Hcf0 _ Hn _ _ _ _ _ HE].
  { rewrite Hid, uuid_scan_text in He0. injection He0 as <-. destruct Hs0. congruence. }
  assert (id' = id) as ->.
  { destruct (conflicts_agree _ _ Hcf) as (_ & E1 & _). destruct (conflicts_agree _ _ Hcf0) as (_ & E2 & _).
    rewrite (rp_id _ _ _ Hrep0) in E2. rewrite (rp_id _ _ _ (record_lifecycle_Ok _ _ _ Hl)) in E1. apply (inj uuid_text). congruence. }
  assert (r0 = r) as -> by congruence. destruct (event_added_frame _ _ _ HE) as (_ & HT & _).
  destruct (assessed_frame id r next row (UTC (RiskWorker.now h)) (recorded RiskWorker.consumerName env eid' (committed w))) as (_ & _ & HTa & _).
  rewrite HT, HTa. eexists. split; [apply lookup_insert_eq|]. destruct (risk_transition_op _ _ _ Hn) as (op & Hop & _).
  by eapply (moves_with_status (committed w) id r cur op).
Qed.

End Liveness.

(** ** Nothing stays undone *)

(** C16: on a service without faults every transfer that has not ended is moved on
    by the input it waits for: a pending one when the event that requested it is
    consumed by a worker that knows its policy, one under review when an analyst
    decides it, and an approved one when the event of its approval is consumed,
    which completes it or, only if its source cannot pay, fails it. No constraint
    of the schema, no deferred check and no conflict of versions can stand in the
    way, in any state the program can reach. *)
Theorem transfers_progress `{PgLaws} `{!JsonbLaws} (w : World) (s : Service) (id : UUID) (r : TransferRow) (current : Lifecycle) :
  reachable w -> healthy s -> generates_fresh s (committed w) ->
  t_transfers (committed w) !! id = Some r -> record_lifecycle (scan_lifecycle id r) = Ok current ->
  (forall h env eid requested policy,
     handler_wf h -> requestable (committed w) id r current h env eid requested policy ->
     exists w', RiskWorker.Handle h env s w = (Ok tt, w') /\
       exists r', t_transfers (committed w') !! id = Some r' /\ moves r r') /\
  (forall now p decision,
     lc_status current = StatusReviewRequired -> analyst_decision p decision -> IsZero now = false ->
     exists w', Decide now p (uuid_text id) decision s w = (Ok tt, w') /\
       exists r', t_transfers (committed w') !! id = Some r' /\ moves r r' /\ tr_status r' = decision) /\
  (forall now env eid,
     settleable (committed w) id r current env eid -> IsZero now = false ->
     exists w', TransactionWorker.Handle now env s w = (Ok tt, w') /\
       exists r', t_transfers (committed w') !! id = Some r' /\ moves r r' /\
         (tr_status r' = "completed" \/ tr_status r' = "failed" /\ source_short (committed w) r)).
Proof.
  intros Hreach Hs Hfresh Hr Hl. split_and!.
  - intros h env eid requested policy Hh Hrq. by eapply pending_assessed.
  - intros now p decision Hst Hp Hnow. by eapply review_decided.
  - intros now env eid Hsb Hnow. by eapply approved_settled.
Qed.

(** ** A concrete case of each *)

(** A test on a stored transfer and the lifecycle it is read as. *)
Definition stored_check (w : World) (id : UUID) (f : TransferRow -> Lifecycle -> bool) : bool :=
  match t_transfers (committed w) !! id with
  | Some r => match record_lifecycle (scan_lifecycle id r) with Ok l => f r l | Err _ => false end
  | None => false
  end.

Lemma stored_check_true w id f : stored_check w id f = true ->
  exists r l, t_transfers (committed w) !! id = Some r /\ record_lifecycle (scan_lifecycle id r) = Ok l /\ f r l = true.
Proof.
  unfold stored_check. destruct (t_transfers (committed w) !! id) as [r|]; [|discriminate].
  destruct (record_lifecycle (scan_lifecycle id r)) as [l|] eqn:E; [|discriminate]. intros Hf. exists r, l. split; [reflexivity|].
  split; [exact E|exact Hf].
Qed.

Definition fresh_other (w : World) : bool := bool_decide (t_outbox (committed w) !! id_other = None).

Lemma calm_fresh w : fresh_other w = true -> generates_fresh calm (committed w).
Proof. intros Hb n. exact (proj1 (bool_decide_eq_true _) Hb). Qed.

Lemma fresh_accepts : fresh_other after_accepts = true.
Proof. vm_compute. reflexivity. Qed.

Lemma fresh_complete : fresh_other after_complete = true.
Proof. vm_compute. reflexivity. Qed.

Lemma fresh_refer : fresh_other after_refer = true.
Proof. vm_compute. reflexivity. Qed.

Lemma assessor_wf : handler_wf assessor.
Proof.
  split; [|split].
  - intros v p Hp. change (policies assessor) with ({["risk-v1" := sample_policy]} : gmap string Policy) in Hp.
    apply lookup_singleton_Some in Hp as [<- <-]. split; [reflexivity|apply sample_policy_wf].
  - intros account transfer at_ n [= <-]. split; [lia|int64_lia].
  - reflexivity.
Qed.

Lemma assessor_policy : policies assessor !! "risk-v1" = Some sample_policy.
Proof. apply lookup_singleton_eq. Qed.

Lemma small_pending_id : eventID small_requested = uuid_text event_small.
Proof. reflexivity. Qed.

Definition small_pending_check (r : TransferRow) (l : Lifecycle) : bool :=
  bool_decide (lc_status l = StatusPendingRisk) &&
  match ParseRequested small_requested with
  | Ok requested => negb (RiskWorker.conflicts l requested) && bool_decide (riskPolicyVersion requested = "risk-v1")
  | Err _ => false
  end.

Lemma small_unconsumed : bool_decide (t_inbox (committed after_accepts) !! (RiskWorker.consumerName, event_small) = None) = true.
Proof. vm_compute. reflexivity. Qed.

Definition takes_check (d : DB) (a : UUID) (currency : string) (amount : Z) : bool :=
  match t_balances d !! a with
  | Some b => bool_decide (bal_currency b = currency /\ in_int64 (balance_minor b + amount) /\
                (bal_type b = "customer" \/ bal_type b = "system") /\ bal_version b <> MaxInt64)
  | None => false
  end.

Lemma takes_check_true d a currency amount : takes_check d a currency amount = true -> takes d a currency amount.
Proof.
  unfold takes_check, takes. destruct (t_balances d !! a) as [b|]; [|discriminate]. intros Hb%bool_decide_eq_true. by exists b.
Qed.

Definition small_approved_check (r : TransferRow) (l : Lifecycle) : bool :=
  bool_decide (lc_status l = StatusApproved) &&
  bool_decide (aggregateVersion (draft small_assessed) = lc_version l) &&
  match ParseRiskAssessed small_assessed with
  | Ok a => bool_decide (ra_transferID a = uuid_text id_small /\ ra_decision a = RiskPolicy.DecisionApprove /\
              ra_riskPolicyVersion a = riskPolicyVersion l)
  | Err _ => false
  end &&
  bool_decide (t_inbox (committed after_refer) !! (TransactionWorker.consumerName, event_assessed) = None) &&
  bool_decide (t_entries (committed after_refer) !! id_small = None) && takes_check (committed after_refer) (tr_source r) (tr_currency r) (- tr_amount r) &&
  takes_check (committed after_refer) (tr_destination r) (tr_currency r) (tr_amount r) &&
  bool_decide (0 <= year_of (requestedAt (lc_transfer l)) < 10000).

Lemma transfers_progress_witness :
  (exists w', RiskWorker.Handle assessor small_requested calm after_accepts = (Ok tt, w')) /\
  (exists w', Decide sample_now analyst (uuid_text id_large) "declined" calm after_complete = (Ok tt, w')) /\
  (exists w', TransactionWorker.Handle sample_now small_assessed calm after_refer = (Ok tt, w')).
Proof.
  split; [|split].
  - destruct (stored_check_true after_accepts id_small small_pending_check) as (r & l & Hr & Hl & Hc); [vm_compute; reflexivity|].
    apply andb_prop in Hc as [_ Hc]. apply ok_with in Hc as (rq & Eq & Hp). apply andb_prop in Hp as [Hcf%negb_true_iff Hv%bool_decide_eq_true].
    destruct (transfers_progress after_accepts calm id_small r l reached_accepts calm_healthy
      (calm_fresh _ fresh_accepts) Hr Hl) as (HP & _ & _).
    destruct (HP assessor small_requested event_small rq sample_policy assessor_wf) as (w' & Hw' & _); [|by exists w'].
    split; [exact Hr|exact Hl|exact Eq|exact Hcf| |exact small_pending_id|exact (proj1 (bool_decide_eq_true _) small_unconsumed)].
    rewrite Hv. exact assessor_policy.
  - destruct (stored_check_true after_complete id_large (fun _ l => bool_decide (lc_status l = StatusReviewRequired)))
      as (r & l & Hr & Hl & Hc%bool_decide_eq_true); [vm_compute; reflexivity|].
    destruct (transfers_progress after_complete calm id_large r l reached_complete calm_healthy
      (calm_fresh _ fresh_complete) Hr Hl) as (_ & HP & _).
    destruct (HP sample_now analyst "declined" Hc) as (w' & Hw' & _); [|reflexivity|by exists w'].
    split; [reflexivity|]. split; [vm_compute; reflexivity|by right].
  - destruct (stored_check_true after_refer id_small small_approved_check) as (r & l & Hr & Hl & Hc); [vm_compute; reflexivity|].
    apply andb_prop in Hc as [Hc Hyr]. apply andb_prop in Hc as [Hc Hdst]. apply andb_prop in Hc as [Hc Hsrc].
    apply andb_prop in Hc as [Hc He]. apply andb_prop in Hc as [Hc Hn]. apply andb_prop in Hc as [Hc Hp].
    apply andb_prop in Hc as [Hst Hav].
    apply ok_with in Hp as (a & Eq & Hp).
    destruct (transfers_progress after_refer calm id_small r l reached_refer calm_healthy
      (calm_fresh _ fresh_refer) Hr Hl) as (_ & _ & HP).
    destruct (HP sample_now small_assessed event_assessed) as (w' & Hw' & _); [|reflexivity|by exists w'].
    apply bool_decide_eq_true in Hst, Hav, Hp, Hn, He, Hyr. destruct Hp as (Hp1 & Hp2 & Hp3).
    split; [exact Hr|exact Hl|exact Hst| |reflexivity|exact Hn| |exact Hyr].
    + split; [exact Hav|]. left. exists a. exact (conj Eq (conj Hp1 (conj Hp2 Hp3))).
    + exact (conj He (conj (takes_check_true _ _ _ _ Hsrc) (takes_check_true _ _ _ _ Hdst))).
Defined.
