(* ===== verification/SystemTheorems.v ===== *)
(** * Theorems about the whole system

    The properties of the operations on every state the program can reach, each
    with a run on concrete tables. *)

From stdpp Require Import base list gmap strings numbers sorting.
From Stdlib Require Import ZArith Lia.
From S2P Require Import RiskWorker TransactionWorker ReviewCase.
From S2P Require Import Prelude GoText Money Journal TransferDomain RiskPolicy Json JsonDecode GoTime Event.
From S2P Require Import TransferEvents EventParse Database PgInstance LedgerRepo LedgerSpec LedgerCorrect.
From S2P Require Import LedgerTheorems Outbox Inbox TransferRepo TransferSpec TransferStore StoreSpec.
From S2P Require Import AuditWriter WorkerSpec System Scenario.

Open Scope string_scope.
Open Scope Z_scope.

Section Theorems.
Context `{PgLaws}.

(** ** Lemmas *)

Lemma checks_shape id r : transfer_checks id r = Ok tt -> lifecycle_shape_check id r = true.
Proof.
  unfold transfer_checks. cbn [mbind Result_bind]. 
  repeat match goal with |- context [fail_if ?b ?e] => destruct b eqn:?; cbn [fail_if mbind Result_bind]; [done|] end.
  intros _. by destruct (lifecycle_shape_check id r).
Qed.

Lemma uncompleted_no_journal id r :
  transfer_checks id r = Ok tt -> tr_status r <> "completed" -> tr_journal r = None.
Proof.
  intros Hs%checks_shape Hc. unfold lifecycle_shape_check in Hs. rewrite (bool_decide_eq_false_2 (tr_status r = "completed")) in Hs by done.
  destruct (tr_journal r); [|done]. cbn [andb negb] in Hs. by rewrite ?andb_false_r in Hs; rewrite ?andb_false_l, ?orb_false_r in Hs.
Qed.

Definition terminal (status : string) : Prop := status = "completed" \/ status = "failed" \/ status = "declined".

Lemma moves_not_terminal r r' : moves r r' -> ~ terminal (tr_status r).
Proof.
  intros (_ & _ & st & st' & Hs & _ & Ha) Ht. rewrite Hs in Ht. by destruct st; destruct Ht as [?|[?|?]].
Qed.

Lemma same_order_refl r : same_order r r.
Proof. by split_and!. Qed.

Lemma same_order_trans r1 r2 r3 : same_order r1 r2 -> same_order r2 r3 -> same_order r1 r3.
Proof. intros (? & ? & ? & ? & ? & ? & ? & ?) (? & ? & ? & ? & ? & ? & ? & ?). split_and!; congruence. Qed.

Lemma run_history w w' id r :
  wallet_inv (committed w) -> run w w' -> t_transfers (committed w) !! id = Some r ->
  exists r', t_transfers (committed w') !! id = Some r' /\ rtc moves r r'.
Proof.
  intros Hinv HR. revert r. induction HR as [|w1 w2 w3 HS _ IH]; intros r Hr; [exists r; split; [done|constructor]|].
  pose proof (step_effect _ _ Hinv HS) as HE. destruct (effect_progress _ _ Hinv HE id r Hr) as (r2 & Hr2 & Hm).
  destruct (IH (effect_inv _ _ Hinv HE) r2 Hr2) as (r3 & Hr3 & Hrtc). exists r3. split; [done|].
  destruct Hm as [->|Hm]; [done|]. by eapply rtc_l.
Qed.

Lemma rtc_moves_order r r' : rtc moves r r' -> same_order r r' /\ tr_version r <= tr_version r' /\ (terminal (tr_status r) -> r' = r).
Proof.
  induction 1 as [r|r1 r2 r3 Hm _ (IH1 & IH2 & _)]; [split_and!; [apply same_order_refl|lia|done]|].
  pose proof (moves_not_terminal _ _ Hm) as Hn. destruct Hm as (Hs & Hv & _). split_and!; [by eapply same_order_trans|lia|done].
Qed.

(** *** Redelivery *)

Lemma transaction_effect_consumes now env d d' :
  transaction_effect now env d d' -> consumed TransactionWorker.consumerName env d'.
Proof.
  assert (Hrec : forall eid d1, unconsumed TransactionWorker.consumerName env eid d1 -> 
    t_inbox (recorded TransactionWorker.consumerName env eid d1) !! (TransactionWorker.consumerName, eid) =
      Some (mkInboxRow (eventType (draft env)) (eventVersion (draft env)))) by (intros; apply lookup_insert_eq).
  intros [Hc ->|eid id r current Hu _ _ _ _ ->|eid id r current Hu _ _ _ _ HP]; [done|..]; pose proof Hu as [Heid _].
  - exists eid. split; [done|]. rewrite Hrec by done. eauto.
  - exists eid. split; [done|].
    destruct HP as [entry prepared t next e _ _ _ _ _ (journal & _ & _ & HE)|next e _ _ _ (journal & _ & _ & HE)];
      destruct (event_added_frame _ _ _ HE) as (_ & _ & -> & _); cbn [t_inbox set_transfers posted set_balances set_postings set_entries];
      rewrite Hrec by done; eauto.
Qed.

Lemma risk_effect_consumes h env rq pol d d' :
  risk_effect h env rq pol d d' -> consumed RiskWorker.consumerName env d'.
Proof.
  intros [Hc ->|eid id r current ev next row e Hu _ _ _ _ _ _ _ _ _ _ HE]; [done|]. exists eid. split; [apply Hu|].
  destruct (event_added_frame _ _ _ HE) as (_ & _ & -> & _). unfold assessed. case_decide; cbn; rewrite lookup_insert_eq; eauto.
Qed.

Lemma consumed_grow name env d d' : t_inbox d ⊆ t_inbox d' -> consumed name env d -> consumed name env d'.
Proof. intros Hs (eid & He & [x Hx]). exists eid. split; [done|]. exists x. by eapply lookup_weaken. Qed.

Lemma transaction_effect_skips now env d d' :
  consumed TransactionWorker.consumerName env d -> transaction_effect now env d d' -> d' = d.
Proof.
  intros (eid & He & [x Hx]) [_ ->|eid' id r current [Hu Hn] _|eid' id r current [Hu Hn] _]; [done|congruence..].
Qed.

Lemma risk_effect_skips h env rq pol d d' :
  consumed RiskWorker.consumerName env d -> risk_effect h env rq pol d d' -> d' = d.
Proof.
  intros (eid & He & [x Hx]) [_ ->|eid' id r current ev next row e [Hu Hn] _]; [done|congruence].
Qed.

Lemma outcome_same {A} (r : Result A) d d' (P : Prop) : (P -> d' = d) -> outcome r d d' P -> d' = d.
Proof. intros HP. destruct r; cbn; [done|]. intros [?|[_ ?]]; auto. Qed.

(** *** Replay *)

Lemma key_kept w w' requester key id r :
  wallet_inv (committed w) -> run w w' -> t_transfers (committed w) !! id = Some r -> tr_requester r = requester ->
  tr_key r = key -> ~ key_free requester key (committed w').
Proof.
  intros Hinv HR Hr E1 E2 Hf. destruct (run_history _ _ _ _ Hinv HR Hr) as (r' & Hr' & Hm).
  apply rtc_moves_order in Hm as ((E3 & E4 & _) & _). apply (Hf id r' Hr'). split; congruence.
Qed.

Lemma created_lookup p d d' : created p d d' -> t_transfers d' !! pt_id p = Some (created_row p).
Proof.
  intros [_ _ _ _ (prep & now & _ & _ & HE)]. destruct (event_added_frame _ _ _ HE) as (_ & -> & _). cbn. apply lookup_insert_eq.
Qed.

Lemma Create_leaves_key t p s w t' w' :
  transfer_typed t -> wallet_inv (committed w) -> prepareTransfer t = Ok p -> Create t s w = (Ok t', w') ->
  exists id r, t_transfers (committed w') !! id = Some r /\ tr_requester r = pt_requesterID p /\
    tr_key r = idempotencyKey (pt_transfer p).
Proof.
  intros Ht Hinv Hp HR. apply Create_outcome in HR as (p' & Hp' & HR); [|done|apply Hinv].
  assert (p' = p) as -> by congruence. destruct HR as [[(id & r & Hk & _) ->]|[_ HC]].
  - apply transfer_by_key_Some in Hk as (? & ? & ?). eauto.
  - exists (pt_id p), (created_row p). split; [by eapply created_lookup|done].
Qed.

(** A decided transfer does not come back under review. *)
Lemma no_return_to_review r r' :
  rtc moves r r' -> tr_status r <> "review_required" /\ tr_status r <> "pending_risk" -> tr_status r' <> "review_required".
Proof.
  induction 1 as [r|r1 r2 r3 (_ & _ & st & st' & Hs & Hs' & Ha) _ IH]; [naive_solver|]. intros [Hn1 Hn2]. apply IH.
  rewrite Hs in Hn1, Hn2. rewrite Hs'. by destruct st, st'.
Qed.

(** *** Balances *)

Lemma posted_transfer_balances now prepared t source destination d a b :
  pe_postings prepared = transfer_postings t source destination -> source <> destination ->
  t_balances d !! a = Some b ->
  exists b', t_balances (posted now prepared d) !! a = Some b' /\
    balance_minor b' = balance_minor b +
      ((if decide (a = source) then - minorUnits (transfer_amount t) else 0) +
       (if decide (a = destination) then minorUnits (transfer_amount t) else 0)).
Proof.
  intros Hps Hne Hb. cbn. rewrite map_lookup_imap, Hb. cbn. eexists. split; [done|].
  rewrite settled_balance, Hps, transfer_account_sum by done. done.
Qed.

(** ** Properties *)

(** C1: in every state the program can reach, whatever the service did on the way:
    the balances of each currency sum to zero, every snapshot equals its postings
    and no customer is overdrawn; a completed transfer has its journal entry with
    exactly one debit of the source and one credit of the destination, and any
    other transfer refers to no entry; every transfer's state is announced by a
    stored event; a requester's key belongs to one transfer; a review case is open
    exactly while its transfer is under review, and a decided case has exactly
    one audit record, of the same decision and subject. *)
Theorem system_sound (w : World) :
  reachable w ->
  let d := committed w in
  (forall cur, balance_total cur d = 0) /\
  (forall a b, t_balances d !! a = Some b ->
     balance_minor b = ledger_sum a (bal_currency b) (t_postings d) /\ (bal_type b = "customer" -> 0 <= balance_minor b)) /\
  (forall id r, t_transfers d !! id = Some r ->
     announced d id r /\ (tr_status r = "completed" -> moved_once d id r) /\
     (tr_status r <> "completed" -> tr_journal r = None)) /\
  (forall id1 r1 id2 r2, t_transfers d !! id1 = Some r1 -> t_transfers d !! id2 = Some r2 ->
     tr_requester r1 = tr_requester r2 -> tr_key r1 = tr_key r2 -> id1 = id2) /\
  (forall id, (open_case d id <-> under_review d id) /\ audited (t_reviews d !! id) (audit_of d id)).
Proof.
  intros Hr d. pose proof (reachable_inv _ Hr) as Hinv. fold d in Hinv. split_and!.
  - intros cur. apply inv_conserves, Hinv.
  - intros a b Hb. split; [by apply (li_snapshot _ (wi_ledger _ Hinv))|].
    destruct (li_type _ (wi_ledger _ Hinv) _ _ Hb) as [[_ ?]|E]; [done|]. rewrite E. discriminate.
  - intros id r Hid. split_and!; [by apply (wi_announced _ Hinv)|by apply (wi_moved _ Hinv)|].
    destruct (wi_row _ Hinv _ _ Hid) as [Hck _]. by eapply uncompleted_no_journal.
  - apply (wi_key _ Hinv).
  - intros id. split; [apply (wi_review _ Hinv)|apply (wi_audit _ Hinv)].
Qed.

(** C10: a stored transfer is never lost: whatever runs next, it keeps what was
    ordered (requester, key, accounts, currency, amount, time, policy), moves only
    along the permitted transitions, one version at a time, and stays as it is
    once completed, failed or declined. *)
Theorem transfer_history (w w' : World) (id : UUID) (r : TransferRow) :
  reachable w -> run w w' -> t_transfers (committed w) !! id = Some r ->
  exists r', t_transfers (committed w') !! id = Some r' /\ rtc moves r r' /\ same_order r r' /\
    tr_version r <= tr_version r' /\ (terminal (tr_status r) -> r' = r).
Proof.
  intros Hr HR Hid. destruct (run_history _ _ _ _ (reachable_inv _ Hr) HR Hid) as (r' & Hr' & Hm).
  exists r'. split; [done|]. split; [done|]. by apply rtc_moves_order.
Qed.

(** C5: an event is processed once: after a worker has handled an event, a
    redelivery of it, at any later time and under any service, changes nothing. *)
Theorem redelivery_harmless (env : Envelope) (w w1 w2 w3 : World) (s s' : Service) :
  reachable w -> run w1 w2 ->
  (forall now now' r, TransactionWorker.Handle now env s w = (Ok tt, w1) ->
     TransactionWorker.Handle now' env s' w2 = (r, w3) -> committed w3 = committed w2) /\
  (forall h h' r, RiskWorker.Handle h env s w = (Ok tt, w1) ->
     RiskWorker.Handle h' env s' w2 = (r, w3) -> committed w3 = committed w2).
Proof.
  intros Hr HR. pose proof (reachable_inv _ Hr) as Hinv. split.
  - intros now now' r H1 H3. assert (HS : step w w1) by by eapply Application, StepTransact.
    pose proof (effect_inv _ _ Hinv (step_effect _ _ Hinv HS)) as Hinv1. pose proof (run_inv _ _ Hinv1 HR) as Hinv2.
    apply transaction_Handle_outcome in H1; [|by apply inv_rows_typed|apply Hinv].
    apply transaction_Handle_outcome in H3; [|by apply inv_rows_typed|apply Hinv2].
    cbn in H1. eapply outcome_same; [|exact H3]. apply transaction_effect_skips.
    apply (consumed_grow _ _ (committed w1)); [by apply run_inbox|]. by eapply transaction_effect_consumes.
  - intros h h' r H1 H3. assert (HS : step w w1) by by eapply Application, StepAssess.
    pose proof (effect_inv _ _ Hinv (step_effect _ _ Hinv HS)) as Hinv1.
    apply risk_Handle_outcome in H1 as (rq & pol & _ & _ & H1). apply risk_Handle_outcome in H3.
    eapply outcome_same; [|exact H3]. intros (rq' & pol' & _ & _ & HE). eapply risk_effect_skips; [|exact HE].
    apply (consumed_grow _ _ (committed w1)); [by apply run_inbox|]. by eapply risk_effect_consumes.
Qed.

(** C9: one call of [Create], under any faults, retries and lost acknowledgements,
    either changes nothing or adds the whole transfer: its row under a key and an
    identifier that were new, its postable journal entry between two authorized
    accounts, and its event; a reported success is a replay of the same intent or
    such a creation, and behind a reported failure the transfer exists only when
    the acknowledgement of the commit was lost. *)
Theorem Create_atomic (t : Transfer) (s : Service) (w w' : World) (r : Result Transfer) :
  transfer_typed t -> ledger_inv (committed w) -> Create t s w = (r, w') ->
  match r with
  | Ok t' => exists p, prepareTransfer t = Ok p /\
      (replayed p (committed w) t' /\ committed w' = committed w \/
       t' = pt_transfer p /\ created p (committed w) (committed w'))
  | Err e => committed w' = committed w \/
      e = [Other "connection"] /\ exists p, prepareTransfer t = Ok p /\ created p (committed w) (committed w')
  end.
Proof. apply Create_outcome. Qed.

(** C4: money moves once per requester and key: after a successful [Create], any
    later [Create] with the same requester and key, whatever happened in between
    and whatever its other fields and the service, changes nothing; it succeeds
    only with a stored transfer of the same intent. *)
Theorem Create_once (t t2 : Transfer) (p p2 : preparedTransfer) (s s' : Service) (w w1 w2 w3 : World)
    (t' : Transfer) (r : Result Transfer) :
  reachable w -> transfer_typed t -> transfer_typed t2 -> prepareTransfer t = Ok p -> prepareTransfer t2 = Ok p2 ->
  pt_requesterID p2 = pt_requesterID p -> idempotencyKey (pt_transfer p2) = idempotencyKey (pt_transfer p) ->
  Create t s w = (Ok t', w1) -> run w1 w2 -> Create t2 s' w2 = (r, w3) ->
  committed w3 = committed w2 /\ forall t3, r = Ok t3 -> sameIntent t3 (pt_transfer p2) = true.
Proof.
  intros Hr Ht Ht2 Hp Hp2 Ereq Ekey H1 HR H3. pose proof (reachable_inv _ Hr) as Hinv.
  assert (HS : step w w1) by exact (Application _ _ (StepCreate _ _ _ _ _ Ht H1)). pose proof (effect_inv _ _ Hinv (step_effect _ _ Hinv HS)) as Hinv1.
  pose proof (run_inv _ _ Hinv1 HR) as Hinv2.
  destruct (Create_leaves_key _ _ _ _ _ _ Ht Hinv Hp H1) as (id & row & Hrow & E1 & E2).
  assert (Hno : ~ key_free (pt_requesterID p2) (idempotencyKey (pt_transfer p2)) (committed w2)).
  { rewrite Ereq, Ekey. exact (key_kept _ _ _ _ _ _ Hinv1 HR Hrow E1 E2). }
  apply Create_outcome in H3; [|done|apply Hinv2]. destruct r as [t3|e].
  - destruct H3 as (p' & Hp' & [[(i & rr & _ & _ & Hs) ->]|[_ HC]]); assert (p' = p2) as -> by congruence.
    + split; [done|]. by intros ? [= <-].
    + exfalso. apply Hno, HC.
  - destruct H3 as [->|(_ & p' & Hp' & HC)]; [done|]. assert (p' = p2) as -> by congruence. exfalso. apply Hno, HC.
Qed.

(** Accepting a transfer for assessment, assessing it and deciding its review
    move no money: balances, entries and postings stay as they are. *)
Theorem assessment_moves_no_money (w w' : World) (s : Service) :
  (forall l r, transfer_typed (lc_transfer l) -> UTC (requestedAt (lc_transfer l)) = requestedAt (lc_transfer l) ->
     in_int64 (lc_version l) -> CreatePending l s w = (r, w') -> same_ledger (committed w) (committed w')) /\
  (forall h env r, RiskWorker.Handle h env s w = (r, w') -> same_ledger (committed w) (committed w')) /\
  (forall now principal id decision r, ReviewCase.Decide now principal id decision s w = (r, w') ->
     same_ledger (committed w) (committed w')).
Proof.
  assert (Hout : forall A (r : Result A) (P : Prop), (P -> same_ledger (committed w) (committed w')) ->
    outcome r (committed w) (committed w') P -> same_ledger (committed w) (committed w')).
  { intros A r P HP. destruct r; cbn; [done|]. intros [->|[_ ?]]; [done|auto]. }
  split_and!.
  - intros l r Ht Hu Hv HR. apply CreatePending_outcome in HR; [|done..].
    assert (HA : forall p, accepted p (committed w) (committed w') -> same_ledger (committed w) (committed w')).
    { intros p [_ _ _ _ HE]. etrans; [|by eapply event_added_ledger]. done. }
    destruct r; [destruct HR as (p & _ & [[_ ->]|[_ ?]])|destruct HR as [->|(_ & p & _ & ?)]]; try done; by eapply HA.
  - intros h env r HR%risk_Handle_outcome. eapply Hout; [|exact HR].
    intros (rq & pol & _ & _ & [_ ->|eid id row current ev next a e _ _ _ _ _ _ _ _ _ _ _ HE]); [done|].
    etrans; [|by eapply event_added_ledger]. etrans; [|apply assessed_ledger]. done.
  - intros now p id dec r HR%Decide_outcome. eapply Hout; [|exact HR].
    intros [_ [id' row current next journal rv e _ _ _ _ _ _ _ _ _ _ _ _ _ HE]]. etrans; [|by eapply event_added_ledger]. done.
Qed.

(** C3: what the transaction worker leaves behind when it reports success: nothing
    new for an event it consumed before or whose transfer is not approved; else
    the transfer, approved at the event's version, is completed with its amount
    moved from the source to the destination and no other balance touched, or it
    is failed with no balance touched, and then the source could not pay. *)
Theorem transaction_worker_outcome (now : Time) (env : Envelope) (s : Service) (w w' : World) :
  reachable w -> TransactionWorker.Handle now env s w = (Ok tt, w') ->
  let d := committed w in let d' := committed w' in
  t_transfers d' = t_transfers d /\ same_ledger d d' \/
  exists id r r', t_transfers d !! id = Some r /\ tr_status r = "approved" /\
    tr_version r = aggregateVersion (draft env) /\ t_transfers d' = <[id := r']> (t_transfers d) /\ moves r r' /\
    ((tr_status r' = "completed" /\ moved_once d' id r' /\
      forall a b, t_balances d !! a = Some b -> exists b', t_balances d' !! a = Some b' /\
        balance_minor b' = balance_minor b + ((if decide (a = tr_source r) then - tr_amount r else 0) +
                                               (if decide (a = tr_destination r) then tr_amount r else 0))) \/
     (tr_status r' = "failed" /\ same_ledger d d' /\ source_short d r)).
Proof.
  intros Hr HR d d'. pose proof (reachable_inv _ Hr) as Hinv. fold d in Hinv.
  assert (Hinv' : wallet_inv d').
  { eapply effect_inv; [exact Hinv|]. apply step_effect; [done|]. by eapply Application, StepTransact. }
  apply transaction_Handle_outcome in HR; [|by apply inv_rows_typed|apply Hinv]. cbn in HR. fold d d' in HR.
  destruct HR as [_ ->|eid id r current _ _ _ _ _ ->|eid id r current _ Hrow Hrep Hver Happ HP]; [by left..|].
  right. pose proof (stored_wf _ _ _ _ Hinv Hrow Hrep) as Hw.
  assert (Hst : tr_status r = "approved") by (rewrite <- (rp_status _ _ _ Hrep), Happ; done).
  set (d1 := recorded TransactionWorker.consumerName env eid d) in *.
  destruct HP as [entry prepared t next e He Hp Hpost Hn Hev (journal & Hj & Hck & HE)|next e Hshort Hn Hev (journal & Hj & Hck & HE)];
    destruct (event_added_frame _ _ _ HE) as (_ & HT & _); cbn in HT; exists id, r, (advanced next journal r);
    (split; [done|]); (split; [done|]); (split; [by rewrite <- (rp_version _ _ _ Hrep)|]); (split; [exact HT|]).
  - destruct (apply_op_Ok OpComplete _ _ Hw Hn) as (Hnext & _ & _).
    split; [by eapply (moves_with_status d id r current OpComplete)|]. left.
    assert (Hc : tr_status (advanced next journal r) = "completed") by by rewrite Hnext.
    split; [done|]. split; [apply (wi_moved _ Hinv'); [rewrite HT; apply lookup_insert_eq|done]|].
    destruct (journalEntry_Ok _ _ _ Hw He) as [_ ->]. pose proof Hw as (_ & Htw & _). pose proof (represents_ids _ _ _ Hrep) as Hids.
    destruct (transfer_prepared _ _ _ _ _ _ _ Htw Hids Hp) as (_ & _ & _ & Hps & _).
    intros a b Hb. rewrite (sl_balances _ _ (event_added_ledger _ _ _ HE)). rewrite <- (rp_amount _ _ _ Hrep).
    eapply (posted_transfer_balances _ _ _ _ _ d1); [exact Hps|by eapply ids_distinct|done].
  - destruct (apply_op_Ok (OpFail TransactionWorker.insufficientFundsReason) _ _ Hw Hn) as (Hnext & _ & _).
    split; [by eapply (moves_with_status d id r current (OpFail TransactionWorker.insufficientFundsReason))|]. right.
    split; [by rewrite Hnext|]. split; [|exact Hshort]. etrans; [|by eapply event_added_ledger]. done.
Qed.

(** C14: a review is decided once and by an analyst: a reported success means the
    principal is an analyst, the transfer was under review with an open case, it
    is now approved or declined as decided, the case is closed in the subject's
    name, and the single audit record of the transfer is this decision; any later
    decision on the transfer changes nothing. *)
Theorem Decide_once (now now' : Time) (p p' : TrustedPrincipal) (transferID decision decision' : string)
    (s s' : Service) (w w1 w2 w3 : World) (r : Result unit) :
  reachable w -> ReviewCase.Decide now p transferID decision s w = (Ok tt, w1) -> run w1 w2 ->
  ReviewCase.Decide now' p' transferID decision' s' w2 = (r, w3) ->
  ReviewCase.Role p = ReviewCase.RoleAnalyst /\ committed w3 = committed w2 /\
  exists id, uuid_scan transferID = Some id /\ under_review (committed w) id /\ open_case (committed w) id /\
    (exists row, t_transfers (committed w1) !! id = Some row /\ tr_status row = decision) /\
    (exists rv, t_reviews (committed w1) !! id = Some rv /\ rv_status rv = decision /\
       rv_decided_by rv = Some (ReviewCase.Subject p)) /\
    (exists a, audit_of (committed w1) id = [a] /\ au_decision a = decision /\ au_subject a = ReviewCase.Subject p).
Proof.
  intros Hr H1 HR H3. pose proof (reachable_inv _ Hr) as Hinv.
  assert (HS : step w w1) by by eapply Application, StepDecide. pose proof (effect_inv _ _ Hinv (step_effect _ _ Hinv HS)) as Hinv1.
  pose proof (run_inv _ _ Hinv1 HR) as Hinv2.
  apply Decide_outcome in H1 as [Han [id row current next journal rv e Hid Hrow Hrep Hrev Hn Hj Hck Hrv Hopen Hdec Hver _ He HE]].
  apply Decide_outcome in H3. split; [done|].
  destruct (event_added_frame _ _ _ HE) as (_ & HT & _ & _ & HV & HU). cbn in HT, HV, HU.
  pose proof (stored_wf _ _ _ _ Hinv Hrow Hrep) as Hw.
  assert (Hrow1 : t_transfers (committed w1) !! id = Some (advanced next journal row)) by (rewrite HT; apply lookup_insert_eq).
  assert (Hst1 : status_String (lc_status next) = decision).
  { case_bool_decide as Hb.
    - destruct (apply_op_Ok OpApprove _ _ Hw Hn) as (-> & _). by rewrite Hb.
    - destruct (apply_op_Ok OpDecline _ _ Hw Hn) as (-> & _). by destruct Hdec as [-> | ->]. }
  split.
  - eapply outcome_same; [|exact H3].
    intros [_ [id' row' current' ? ? ? ? Hid' Hrow' Hrep' Hrev' _ _ _ _ _ _ _ _ _]].
    exfalso. assert (id' = id) as -> by congruence.
    destruct (run_history _ _ _ _ Hinv1 HR Hrow1) as (r2 & Hr2 & Hm). assert (r2 = row') as -> by congruence.
    apply (no_return_to_review _ _ Hm); [cbn; rewrite Hst1; by destruct Hdec as [-> | ->]|].
    by rewrite <- (rp_status _ _ _ Hrep'), Hrev'.
  - exists id. split; [done|]. split; [exists row; split; [done|by rewrite <- (rp_status _ _ _ Hrep), Hrev]|].
    split; [by exists rv|]. split; [by exists (advanced next journal row)|]. split.
    + eexists. split; [rewrite HV; apply lookup_insert_eq|done].
    + pose proof (wi_audit _ Hinv id) as Ha. rewrite Hrv in Ha. cbn in Ha. rewrite decide_True in Ha by done.
      unfold audit_of in *. rewrite HU, filter_app, Ha. cbn. rewrite decide_True by done. by eexists.
Qed.

End Theorems.

(** ** Runs on concrete tables *)

Lemma system_sound_witness :
  balance_total "USD" (committed after_direct) = 0 /\
  exists r, t_transfers (committed after_direct) !! id_small = Some r /\ moved_once (committed after_direct) id_small r.
Proof.
  destruct (system_sound after_direct reached_direct) as (Hz & _ & Ht & _). split; [apply Hz|].
  destruct (has_status_true _ _ _ small_still_completed) as (r & Hr & Hs). exists r. split; [exact Hr|]. by apply Ht.
Defined.

Lemma transfer_history_witness :
  exists r r', t_transfers (committed after_accepts) !! id_small = Some r /\ tr_status r = "pending_risk" /\
    t_transfers (committed after_direct) !! id_small = Some r' /\ tr_status r' = "completed" /\ same_order r r'.
Proof.
  destruct (has_status_true _ _ _ small_accepted) as (r & Hr & Hs).
  destruct (has_status_true _ _ _ small_still_completed) as (r1 & Hr1 & Hs1).
  destruct (transfer_history after_accepts after_direct id_small r reached_accepts run_from_accepts Hr)
    as (r' & Hr' & _ & Ho & _).
  assert (r1 = r') as -> by congruence. exists r, r'. by split_and!.
Defined.

Lemma redelivery_harmless_witness :
  committed (TransactionWorker.Handle sample_now small_assessed steady after_direct).2 = committed after_direct /\
  committed (RiskWorker.Handle assessor small_requested steady after_direct).2 = committed after_direct.
Proof.
  split.
  - exact (proj1 (redelivery_harmless small_assessed after_refer after_complete after_direct _ steady steady
      reached_refer run_from_complete) _ _ _ complete_ran (surjective_pairing _)).
  - exact (proj2 (redelivery_harmless small_requested after_accepts after_assess after_direct _ steady steady
      reached_accepts run_from_assess) _ _ _ assess_ran (surjective_pairing _)).
Defined.

Lemma Create_atomic_witness :
  exists p, prepareTransfer direct = Ok p /\
    (committed after_direct = committed after_fail \/ created p (committed after_fail) (committed after_direct)).
Proof.
  destruct direct_ran as [t' HR].
  destruct (Create_atomic direct steady after_fail after_direct (Ok t') (order_typed id_direct "key-direct" 5 eq_refl)
    (wi_ledger _ (reachable_inv _ reached_fail)) HR) as (p & Hp & [[_ ?]|[_ ?]]); exists p; auto.
Defined.

Lemma Create_once_witness :
  committed (Create (order id_other "key-direct" 9) steady after_direct).2 = committed after_direct.
Proof.
  destruct direct_ran as [t' HR].
  destruct (ok_with (prepareTransfer direct) (fun p => bool_decide (pt_requesterID p = id_requester) &&
    bool_decide (idempotencyKey (pt_transfer p) = "key-direct"))) as (p & Hp & Hb); [vm_compute; reflexivity|].
  destruct (ok_with (prepareTransfer (order id_other "key-direct" 9)) (fun p => bool_decide (pt_requesterID p = id_requester) &&
    bool_decide (idempotencyKey (pt_transfer p) = "key-direct"))) as (p2 & Hp2 & Hb2); [vm_compute; reflexivity|].
  apply andb_true_iff in Hb as [E1 E2], Hb2 as [E3 E4]. apply bool_decide_eq_true_1 in E1, E2, E3, E4.
  refine (proj1 (Create_once direct (order id_other "key-direct" 9) p p2 steady steady after_fail after_direct after_direct _ t' _
    reached_fail (order_typed id_direct "key-direct" 5 eq_refl) (order_typed id_other "key-direct" 9 eq_refl) Hp Hp2 _ _ HR (rtc_refl _ _) (surjective_pairing _)));
    congruence.
Defined.

Lemma assessment_moves_no_money_witness :
  same_ledger (committed after_funding) (committed after_accept) /\
  same_ledger (committed after_accepts) (committed after_assess) /\
  same_ledger (committed after_complete) (committed after_decide).
Proof.
  split_and!.
  - refine (proj1 (assessment_moves_no_money after_funding after_accept steady) small _ _ _ _ (surjective_pairing _));
      [by apply order_typed|reflexivity|cbn; int64_lia].
  - exact (proj1 (proj2 (assessment_moves_no_money after_accepts after_assess steady)) _ _ _ assess_ran).
  - exact (proj2 (proj2 (assessment_moves_no_money after_complete after_decide steady)) _ _ _ _ _ decide_ran).
Defined.

Lemma transaction_worker_outcome_witness :
  exists id r', t_transfers (committed after_complete) !! id = Some r' /\
    (tr_status r' = "completed" /\ moved_once (committed after_complete) id r' \/ tr_status r' = "failed").
Proof.
  destruct (transaction_worker_outcome sample_now small_assessed steady after_refer after_complete reached_refer complete_ran)
    as [[E _]|(id & r & r' & _ & _ & _ & HT & _ & Hc)].
  - exfalso. destruct (has_status_true _ _ _ small_approved) as (r & Hr & Hs).
    destruct (has_status_true _ _ _ small_completed) as (r' & Hr' & Hs'). rewrite E in Hr'. congruence.
  - exists id, r'. split; [rewrite HT; apply lookup_insert_eq|]. destruct Hc as [(? & ? & _)|(? & _)]; auto.
Defined.

Lemma Decide_once_witness :
  committed (ReviewCase.Decide sample_now analyst (uuid_text id_large) "declined" steady after_direct).2 =
    committed after_direct /\
  exists row, t_transfers (committed after_decide) !! id_large = Some row /\ tr_status row = "approved".
Proof.
  destruct (Decide_once sample_now sample_now analyst analyst (uuid_text id_large) "approved" "declined" steady steady
    after_complete after_decide after_direct _ _ reached_complete decide_ran run_from_decide (surjective_pairing _))
    as (_ & E & id & Hid & _ & _ & Hrow & _).
  split; [exact E|]. rewrite uuid_scan_text in Hid. injection Hid as <-. exact Hrow.
Defined.
