(* ===== verification/ConsumerTheorems.v ===== *)
(** * Consumers: properties

    The loop of Consumer.v is proved against what it needs of its handler
    ([HandlerLaws]); both workers meet it (System.v), so that a record's offset is
    committed only when the record has had its effect. *)

From stdpp Require Import base list gmap strings numbers.
From Stdlib Require Import ZArith Lia.
From S2P Require Import OutboxRepo OutboxTheorems RiskWorker TransactionWorker.
From S2P Require Import Prelude GoText Money Journal TransferDomain Json GoTime Event EnvelopeJson TransferEvents EventParse Database PgInstance.
From S2P Require Import Quarantine TransferRepo StoreSpec.
From S2P Require Import Consumer WorkerSpec System Scenario SystemTheorems.

Open Scope string_scope.
Open Scope Z_scope.

Section Loop.
Context `{PgLaws}.

(** What the loop needs of its handler: in good states every call is a step that
    leads to good states, and success means that the event is consumed. *)
Class HandlerLaws (consumer : string) (owned : string -> bool) (handle : Envelope -> World -> Result unit * World) : Prop := {
  handler_step env w r w' : handle env w = (r, w') -> app_step w w';
  handler_consumes env w w' : wallet_inv (committed w) -> handle env w = (Ok tt, w') -> consumed consumer env (committed w')
}.

(** What has become of a record whose offset may be committed: it is in
    quarantine, or it is an event of a known type, which the consumer has consumed
    when the type is one of its own. *)
Definition settled (consumer : string) (owned : string -> bool) (record : KafkaRecord) (d : DB) : Prop :=
  (exists reasonCode, quarantined (poison consumer reasonCode record) d) \/
  exists env, ParseEnvelope (slice_bytes (kr_Value record)) = Ok env /\ knownEventType (eventType (draft env)) = true /\
    (owned (eventType (draft env)) = true -> consumed consumer env d).

Lemma settled_kept consumer owned record d d' : records_kept d d' -> settled consumer owned record d -> settled consumer owned record d'.
Proof.
  intros [Hi Hq] [(reason & [x Hx])|(env & Hp & Hk & Hc)]; [left|right].
  - exists reason, x. by eapply lookup_weaken.
  - exists env. split_and!; [done..|]. intros Ho. by eapply consumed_grow, Hc.
Qed.

Section Handler.
Context (consumer : string) (unsupported : leaf) (owned : string -> bool) (handle : Envelope -> World -> Result unit * World).
Context `{!HandlerLaws consumer owned handle} (s : Service).

Let store (record : PoisonRecord) (w : World) : Result unit * World := quarantine_Store record s w.

Lemma consumer_step_kept w w' : wallet_inv (committed w) -> app_step w w' ->
  wallet_inv (committed w') /\ records_kept (committed w) (committed w').
Proof.
  intros Hinv HS. pose proof (app_step_effect _ _ Hinv HS) as HE.
  split; [by eapply app_effect_inv|by apply app_effect_records].
Qed.

Lemma handleRecord_spec value w r w' :
  wallet_inv (committed w) -> handleRecord unsupported owned handle value w = (r, w') ->
  (w' = w \/ app_step w w') /\
  forall p, r = Ok p -> exists env, ParseEnvelope value = Ok env /\ knownEventType (eventType (draft env)) = true /\
    (owned (eventType (draft env)) = true -> consumed consumer env (committed w')).
Proof.
  intros Hinv. unfold handleRecord. destruct (ParseEnvelope value) as [env|e] eqn:Ep; [|intros [= <- <-]; split; [by left|done]].
  destruct (knownEventType _) eqn:Ek; cbn [negb]; [|intros [= <- <-]; split; [by left|done]].
  destruct (owned _) eqn:Eo; cbn [negb].
  - destruct (handle env w) as [[[]|e] w1] eqn:EH; intros [= <- <-].
    + split; [right; by eapply handler_step|]. intros p _. exists env. split_and!; [done..|]. intros _. by eapply handler_consumes.
    + split; [right; by eapply handler_step|done].
  - intros [= <- <-]. split; [by left|]. intros p _. exists env. split_and!; [done..|]. congruence.
Qed.

(** Steps of the loop are steps of the application. *)
Lemma consume_record_spec answers record c r c' :
  wallet_inv (committed (con_world c)) -> consume_record consumer unsupported owned handle store answers record c = (r, c') ->
  rtc app_step (con_world c) (con_world c') /\
  (con_commits c' = con_commits c /\ r <> Ok tt \/
   con_commits c' = (con_commits c ++ [record])%list /\ settled consumer owned record (committed (con_world c'))).
Proof.
  intros Hinv. unfold consume_record. destruct (handleRecord _ _ _ _ _) as [[p|e] w1] eqn:EH;
    apply handleRecord_spec in EH as [HS Hr]; try done.
  - intros [= <- <-]. cbn. split; [destruct HS as [->|HS]; [done|by apply rtc_once]|]. right. split; [done|]. right. by eapply Hr.
  - assert (HR : rtc app_step (con_world c) w1) by (destruct HS as [->|HS]; [done|by apply rtc_once]).
    destruct (quarantineReason unsupported e) as [reason|]; [|intros [= <- <-]; split; [done|by left]].
    unfold store. destruct (quarantine_Store _ s w1) as [[u|e'] w2] eqn:EQ; intros [= <- <-]; cbn.
    + split; [eapply rtc_r; [exact HR|by eapply StepQuarantine]|]. right. split; [done|]. left. exists reason.
      apply quarantine_Store_outcome in EQ. by eapply quarantine_added_quarantined.
    + split; [eapply rtc_r; [exact HR|by eapply StepQuarantine]|by left].
Qed.

Lemma app_run_kept w w' : wallet_inv (committed w) -> rtc app_step w w' ->
  wallet_inv (committed w') /\ records_kept (committed w) (committed w').
Proof.
  intros Hinv HR. induction HR as [|w1 w2 w3 HS _ IH]; [done|]. destruct (consumer_step_kept _ _ Hinv HS) as [Hi Hk].
  destruct (IH Hi) as [? ?]. split; [done|]. by etrans.
Qed.

(** What a run of the loop has done. *)
Record consumed_run (c c' : Consuming) (records taken : list KafkaRecord) : Prop := {
  cr_steps : rtc app_step (con_world c) (con_world c');
  cr_commits : con_commits c' = (con_commits c ++ taken)%list;
  cr_order : taken `prefix_of` records;
  cr_settled record : record ∈ taken -> settled consumer owned record (committed (con_world c'))
}.

Lemma consumed_run_app c1 c2 c3 l1 l2 t : wallet_inv (committed (con_world c1)) ->
  consumed_run c1 c2 l1 l1 -> consumed_run c2 c3 l2 t -> consumed_run c1 c3 (l1 ++ l2) (l1 ++ t).
Proof.
  intros Hinv [S1 C1 _ T1] [S2 C2 O2 T2]. destruct (app_run_kept _ _ Hinv S1) as [Hinv2 _].
  destruct (app_run_kept _ _ Hinv2 S2) as [_ Hk]. split.
  - by etrans.
  - rewrite C2, C1. by rewrite (assoc_L (++)%list).
  - by apply prefix_app.
  - intros record [Hin|Hin]%elem_of_app; [|by apply T2]. eapply settled_kept; [exact Hk|by apply T1].
Qed.

Lemma consume_records_spec answers records c r c' :
  wallet_inv (committed (con_world c)) -> consume_records consumer unsupported owned handle store answers records c = (r, c') ->
  exists taken, consumed_run c c' records taken /\ (r = Ok tt -> taken = records).
Proof.
  revert c. induction records as [|record rest IH]; intros c Hinv; cbn [consume_records].
  { intros [= <- <-]. exists []. split; [|done]. split; [done|by rewrite app_nil_r|done|set_solver]. }
  destruct (consume_record _ _ _ _ _ _ _ c) as [r1 c1] eqn:E1. apply consume_record_spec in E1 as [HS HC]; [|done].
  assert (Hone : settled consumer owned record (committed (con_world c1)) -> con_commits c1 = (con_commits c ++ [record])%list ->
    consumed_run c c1 [record] [record]).
  { intros Hs Hcm. split; [done..|]. by intros x ->%list_elem_of_singleton. }
  destruct r1 as [[]|e].
  - destruct HC as [[_ ?]|[Hcm Hs]]; [done|]. intros (taken & HR & Ht)%IH; [|by eapply app_run_kept].
    exists (record :: taken). split; [|intros E; by rewrite Ht]. exact (consumed_run_app _ _ _ [record] rest taken Hinv (Hone Hs Hcm) HR).
  - intros [= <- <-]. destruct HC as [[Hcm _]|[Hcm Hs]].
    + exists []. split; [|done]. split; [done|by rewrite app_nil_r|apply prefix_nil|set_solver].
    + exists [record]. split; [|done]. destruct (Hone Hs Hcm). split; [done|done|by exists rest|done].
Qed.

Lemma consume_spec answers polls c r c' :
  wallet_inv (committed (con_world c)) -> consume consumer unsupported owned handle store answers polls c = (r, c') ->
  exists taken, consumed_run c c' (fetched polls) taken /\ (r = None \/ r = Some (Ok tt) -> taken = fetched polls).
Proof.
  assert (Hnone : forall c l, consumed_run c c l []).
  { intros c0 l. split; [done|by rewrite app_nil_r|apply prefix_nil|set_solver]. }
  revert c. induction polls as [|[|e|records] rest IH]; intros c Hinv; cbn [consume fetched].
  - intros [= <- <-]. by exists [].
  - intros [= <- <-]. by exists [].
  - intros [= <- <-]. by exists [].
  - destruct (consume_records _ _ _ _ _ _ _ c) as [r1 c1] eqn:E1. apply consume_records_spec in E1 as (t1 & HR1 & Ht1); [|done].
    destruct r1 as [[]|e].
    + rewrite Ht1 in HR1 by done. intros (t2 & HR2 & Ht2)%IH; [|eapply app_run_kept; [exact Hinv|apply HR1]].
      exists (records ++ t2)%list. split; [by eapply consumed_run_app|]. intros E. by rewrite Ht2.
    + intros [= <- <-]. exists t1. split; [|by intros [?|?]]. destruct HR1 as [S1 C1 O1 T1]. split; [done..| |done].
      by apply prefix_app_r.
Qed.

(** A record without a value cannot be put in quarantine, so the loop stops at it
    whatever the service does, without a commit or a change of the tables: at every
    delivery, since its offset is never committed. *)
Lemma null_value_blocks answers topic partition offset rest c :
  exists e c', consume consumer unsupported owned handle store answers
      (PollFetched (mkKafkaRecord topic partition offset None :: rest) :: []) c = (Some (Err e), c') /\
    committed (con_world c') = committed (con_world c) /\ con_commits c' = con_commits c.
Proof.
  assert (HE : match ParseEnvelope "" with Err e => errors_Is e ErrInvalidEnvelope | Ok _ => false end = true) by (vm_compute; reflexivity).
  destruct (ParseEnvelope "") as [|e] eqn:HP; [done|]. unfold store. cbn [consume consume_records]. unfold consume_record, handleRecord, quarantineReason.
  cbn [kr_Value slice_bytes default]. unfold id. rewrite HP, HE.
  destruct (quarantine_Store_null (poison consumer ReasonInvalidEnvelope (mkKafkaRecord topic partition offset None)) s (con_world c) eq_refl)
    as (e' & w' & -> & Hc). eauto.
Qed.

End Handler.

(** ** The two workers *)

#[export] Instance risk_laws h s : HandlerLaws RiskWorker.consumerName risk_owned (fun env w => RiskWorker.Handle (h w) env s w).
Proof.
  split.
  - intros env w r w' HR. by eapply StepAssess.
  - intros env w w' Hinv HR. apply risk_Handle_outcome in HR. destruct HR as (rq & pol & _ & _ & HE). by eapply risk_effect_consumes.
Qed.

#[export] Instance transaction_laws now s :
  HandlerLaws TransactionWorker.consumerName transaction_owned (fun env w => TransactionWorker.Handle (now w) env s w).
Proof.
  split.
  - intros env w r w' HR. by eapply StepTransact.
  - intros env w w' Hinv HR. apply transaction_Handle_outcome in HR; [|by apply inv_rows_typed|apply Hinv].
    by eapply transaction_effect_consumes.
Qed.

Lemma app_run_reachable w w' : reachable w -> rtc app_step w w' -> reachable w'.
Proof.
  intros Hr HR. induction HR as [|w1 w2 w3 HS _ IH]; [done|]. apply IH. eapply reachable_step; [done|by apply Application].
Qed.

(** What a run of a consumer on a reachable state has done. *)
Definition settles (consumer : string) (owned : string -> bool) (polls : list Poll) (r : option (Result unit)) (c' : Consuming) : Prop :=
  reachable (con_world c') /\ con_commits c' `prefix_of` fetched polls /\
  (forall record, record ∈ con_commits c' -> settled consumer owned record (committed (con_world c'))) /\
  (r = None \/ r = Some (Ok tt) -> con_commits c' = fetched polls).

Lemma consume_settles consumer unsupported owned handle `{!HandlerLaws consumer owned handle} s w answers polls r c' :
  reachable w ->
  consume consumer unsupported owned handle (fun record w => quarantine_Store record s w) answers polls (mkConsuming w []) = (r, c') ->
  settles consumer owned polls r c'.
Proof.
  intros Hr HR. apply (consume_spec consumer unsupported owned handle s answers polls (mkConsuming w [])) in HR
    as (taken & [HS HC HO HT] & Hall); [|by apply reachable_inv].
  cbn in HC, HS. unfold settles. rewrite HC. split_and!; [by eapply app_run_reachable|done|done|done].
Qed.

(** ** Properties *)

(** C15: neither consumer loses or reorders records: from every reachable state,
    whatever the polls, the service and the answers to the commits, the offsets
    asked to be committed are those of the fetched records in their order, without
    a gap, and each of these records is settled: its event is consumed, or it is
    an event of another known type, or it is in quarantine; and the loop passes
    over no record unless it stops with an error. *)
Theorem consumers_settle (h : World -> Handler) (now : World -> Time) (s : Service) (answers : nat -> option error)
    (polls : list Poll) (w : World) (r : option (Result unit)) (c' : Consuming) :
  reachable w ->
  (risk_consume h s answers polls (mkConsuming w []) = (r, c') -> settles RiskWorker.consumerName risk_owned polls r c') /\
  (transaction_consume now s answers polls (mkConsuming w []) = (r, c') ->
     settles TransactionWorker.consumerName transaction_owned polls r c').
Proof.
  intros Hr. split; intros HC.
  - exact (consume_settles RiskWorker.consumerName risk_errUnsupportedEventType risk_owned _ s w answers polls r c' Hr HC).
  - exact (consume_settles TransactionWorker.consumerName transaction_errUnsupportedEventType transaction_owned _ s w answers
      polls r c' Hr HC).
Qed.

(** C37: a transfer requested at an instant that is not a whole number of
    microseconds is never assessed: the stored time is cut to microseconds, the
    event carries the full time, and the risk worker compares the two for
    equality.  Under any policies and any service every delivery of its event
    fails and changes nothing. *)
Theorem submicrosecond_never_assessed (h : Handler) (env : Envelope) (requested : Lifecycle) (s : Service) (w w' : World)
    (r : Result unit) :
  reachable w -> ParseRequested env = Ok requested -> instant (requestedAt (lc_transfer requested)) mod 1000 <> 0 ->
  ~ consumed RiskWorker.consumerName env (committed w) -> RiskWorker.Handle h env s w = (r, w') ->
  r <> Ok tt /\ committed w' = committed w.
Proof.
  intros Hr Hp Hsub Hnc HR%risk_Handle_outcome. pose proof (reachable_inv _ Hr) as Hinv.
  assert (Hno : forall d', ~ (exists rq pol, ParseRequested env = Ok rq /\ policies h !! riskPolicyVersion rq = Some pol /\
    risk_effect h env rq pol (committed w) d')).
  { intros d' (rq & pol & Hrq & _ & [Hc _|eid id row current ev next arow e _ Hrow Hrep Hcf _]); [done|].
    assert (rq = requested) as -> by congruence. apply Hsub. unfold conflicts in Hcf. rewrite !orb_false_iff in Hcf.
    destruct Hcf as [[_ Ht] _]. apply negb_false_iff in Ht. unfold TimeEqual in Ht. apply Z.eqb_eq in Ht. rewrite <- Ht.
    rewrite (rp_time _ _ _ Hrep). by eapply wi_time. }
  destruct r as [[]|e]; cbn in HR; [by apply Hno in HR|]. destruct HR as [?|[_ HE]]; [done|by apply Hno in HE].
Qed.

End Loop.

(** ** A concrete consumer *)

Definition text_of (e : Envelope) : string := match encode_envelope e with Ok text => text | Err _ => "" end.

(** A requested transfer, a record that is no envelope, and an event of another worker. *)
Definition risk_records : list KafkaRecord :=
  [mkKafkaRecord "wallet.events.v1" 0 0 (Some (text_of small_requested)); mkKafkaRecord "wallet.events.v1" 0 1 (Some "not an envelope");
   mkKafkaRecord "wallet.events.v1" 0 2 (Some (text_of small_assessed))].

Definition risk_run : option (Result unit) * Consuming :=
  risk_consume (fun _ => assessor) steady (fun _ => None) [PollFetched risk_records; PollCancelled] (mkConsuming after_accepts []).

(** The loop ran to its end, one record went into quarantine and the transfer was approved. *)
Definition risk_run_done : bool :=
  match risk_run.1 with Some (Ok _) => true | _ => false end &&
  (Z.of_nat (length (con_commits risk_run.2)) =? 3) &&
  (Z.of_nat (size (t_quarantine (committed (con_world risk_run.2)))) =? 1) &&
  has_status (con_world risk_run.2) id_small "approved".

Lemma consumers_settle_witness :
  risk_run_done = true /\ con_commits risk_run.2 `prefix_of` (risk_records ++ [])%list /\ reachable (con_world risk_run.2).
Proof.
  split; [vm_compute; reflexivity|].
  destruct (proj1 (consumers_settle (fun _ => assessor) (fun _ => sample_now) steady (fun _ => None)
    [PollFetched risk_records; PollCancelled] after_accepts risk_run.1 risk_run.2 reached_accepts) (surjective_pairing _))
    as (Hr & Hp & _).
  split; [exact Hp|exact Hr].
Defined.

(** A request one nanosecond past a microsecond. *)
Definition precise : Lifecycle :=
  pending (mkTransfer (uuid_text id_direct) "key-precise" (uuid_text id_requester) (uuid_text id_alice) (uuid_text id_bob)
    (mkMoney 7 sample_currency) (mkTime (instant sample_now + 1) 0)).

Definition precise_accepted : World := (CreatePending precise steady after_accepts).2.
Definition precise_requested : Envelope := deliver event_large (Requested precise).

Lemma reached_precise : reachable precise_accepted.
Proof.
  apply (reachable_step _ _ reached_accepts), Application, (StepCreatePending _ _ precise steady (CreatePending precise steady after_accepts).1);
    [exact (order_typed id_direct "key-precise" 7 eq_refl)|reflexivity|by apply (bool_decide_eq_true_1 (in_int64 (lc_version precise)))|apply surjective_pairing].
Qed.

Definition not_consumed (name : string) (env : Envelope) (d : DB) : bool :=
  match uuid_scan (eventID env) with Some eid => bool_decide (t_inbox d !! (name, eid) = None) | None => true end.

Lemma not_consumed_sound name env d : not_consumed name env d = true -> ~ consumed name env d.
Proof.
  unfold not_consumed. intros Hb (eid & He & [x Hx]). rewrite He, Hx in Hb. by apply bool_decide_eq_true in Hb.
Qed.

(** It was accepted, and its event is refused with a state conflict, which stops
    the consumer before the record is committed. *)
Lemma submicrosecond_never_assessed_witness :
  is_ok (CreatePending precise steady after_accepts).1 = true /\
  (RiskWorker.Handle assessor precise_requested steady precise_accepted).1 = Err [ErrStateConflict] /\
  committed (RiskWorker.Handle assessor precise_requested steady precise_accepted).2 = committed precise_accepted.
Proof.
  split; [vm_compute; reflexivity|]. split; [vm_compute; reflexivity|].
  destruct (ok_with (ParseRequested precise_requested) (fun l => instant (requestedAt (lc_transfer l)) mod 1000 =? 1))
    as (requested & Hp & Hm); [vm_compute; reflexivity|].
  refine (proj2 (submicrosecond_never_assessed assessor precise_requested requested steady precise_accepted _ _ reached_precise Hp
    _ _ (surjective_pairing _))).
  - apply Z.eqb_eq in Hm. rewrite Hm. discriminate.
  - apply not_consumed_sound. vm_compute. reflexivity.
Defined.
