(* ===== verification/ReviewHttp.v ===== *)
(** * Review decisions over HTTP

    [internal/identity/oidc/authenticator.go] (a bearer token to a trusted
    principal), [internal/adapter/http/reviewdecision/ratelimit.go] (a token
    bucket per principal) and [handler.go] (the request from its header to its
    status).  go-oidc's verifier, [x/time/rate]'s token bucket and the order in
    which Go ranges over a map are parameters; [strings.Fields] and the JSON of
    the claims and the body are modelled. *)

From stdpp Require Import base list gmap strings numbers.
From Stdlib Require Import ZArith Lia Ascii String.
From S2P Require Import RiskWorker TransactionWorker ReviewCase.
From S2P Require Import Prelude GoText TransferDomain Json JsonDecode Database PgInstance LedgerCorrect.
From S2P Require Import TransferRepo TransferStore WorkerSpec System Scenario.

Open Scope string_scope.
Open Scope Z_scope.
#[local] Arguments String.append : simpl nomatch.

(** ** Text *)

Definition flush (word : string) : list string := if bool_decide (word = "") then [] else [word].

(** [strings.Fields]: [word] is the field read so far, [skip] the bytes left of
    the current rune, which belong to it unless the rune is a space ([drop]). *)
Fixpoint fields_from (skip : nat) (drop : bool) (word s : string) : list string :=
  match s with
  | EmptyString => flush word
  | String c s' =>
      match skip with
      | S k => fields_from k drop (if drop then word else word ++ String c "") s'
      | O => let '(r, size) := decode_rune s in
             if is_space r then (flush word ++ fields_from (pred size) true "" s')%list
             else fields_from (pred size) false (word ++ String c "") s'
      end
  end.

Definition Fields (s : string) : list string := fields_from 0 false "" s.

(** [strings.EqualFold] against an ASCII text without [k] and [s], the letters
    that other runes fold to. *)
Definition EqualFold (s ascii_text : string) : bool := bool_decide (ToLower s = ToLower ascii_text).

Definition bearerToken (value : string) : option string :=
  match Fields value with
  | [scheme; token] => if EqualFold scheme "Bearer" then Some token else None
  | _ => None
  end.

Example bearer_token : bearerToken "  bEARER   abc.def " = Some "abc.def".
Proof. vm_compute. reflexivity. Qed.
Example bearer_missing : bearerToken "Bearer" = None /\ bearerToken "Basic abc" = None /\ bearerToken "Bearer a b" = None.
Proof. vm_compute. done. Qed.

(** ** Principals *)

Definition ErrInvalidConfig : leaf := errors_New "oidc authenticator: invalid configuration".
Definition ErrInvalidToken : leaf := errors_New "oidc token is invalid".

Record Principal := mkOidcPrincipal {
  principal_Subject : string;
  Roles : list string
}.

(** [json.Unmarshal] into a [map[string]json.RawMessage]: each value is kept as
    its tree; the last of the members with a name is the one the map holds. *)
Definition raw_members (payload : string) : option (list (string * jvalue)) :=
  match parse_document payload with
  | Some (JObject members) => Some members
  | Some JNull => Some []
  | _ => None
  end.

Definition claim (members : list (string * jvalue)) (name : string) : option jvalue :=
  foldl (fun found '(key, v) => if bool_decide (key = name) then Some v else found) None members.

(** [json.Unmarshal] of a claim into a string and into a list of strings; a claim
    that is missing is an empty document, which is an error. *)
Definition string_of (v : jvalue) : string := match v with JString s => s | _ => "" end.

Definition claim_string (v : option jvalue) : option string :=
  match v with
  | Some v => if conforms FString v then Some (string_of v) else None
  | None => None
  end.

Definition claim_strings (v : option jvalue) : option (list string) :=
  match v with
  | Some v => if conforms (FSlice FString) v
              then Some (match v with JArray items => map string_of items | _ => [] end)
              else None
  | None => None
  end.

(** [Verify] gives the payload of a token it accepts. *)
Definition Authenticate (Verify : string -> Result string) (roleClaim rawToken : string) : Result Principal :=
  if bool_decide (TrimSpace rawToken = "") then Err [ErrInvalidToken]
  else match Verify rawToken with
  | Err e => Err (ErrInvalidToken :: e)
  | Ok payload =>
      match raw_members payload with
      | None => Err [ErrInvalidToken; Other "json"]
      | Some claims =>
          match claim_string (claim claims "sub") with
          | None => Err [ErrInvalidToken]
          | Some subject =>
              if bool_decide (TrimSpace subject = "") then Err [ErrInvalidToken]
              else match claim_strings (claim claims roleClaim) with
              | None => Err [ErrInvalidToken]
              | Some roles => Ok (mkOidcPrincipal subject roles)
              end
          end
      end
  end.

(** [New]: [NewProvider] discovers an issuer and gives the verifier of an audience. *)
Definition NewAuthenticator (NewProvider : string -> Result (string -> string -> Result string))
    (Issuer Audience RoleClaim : string) : Result ((string -> Result string) * string) :=
  let issuer := TrimSpace Issuer in
  let audience := TrimSpace Audience in
  let roleClaim := TrimSpace RoleClaim in
  if bool_decide (issuer = "") || bool_decide (audience = "") || bool_decide (roleClaim = "")
  then Err [ErrInvalidConfig]
  else match NewProvider issuer with
  | Err e => Err e
  | Ok verifier => Ok (verifier audience, roleClaim)
  end.

Definition hasRole (roles : list string) (target : string) : bool := bool_decide (target ∈ roles).

(** ** The limiter *)

Definition maxRateLimitPerMinute : Z := 600.
Definition maxTrackedPrincipals : nat := Z.to_nat 10000.
Definition principalIdleTTL : Z := 15 * 60 * Second.

Definition ErrInvalidRateLimit : leaf := errors_New "review decision rate limit: invalid configuration".

(** [x/time/rate]: a bucket from its rate, per minute here, and its burst; and
    whether it gives one token at a time. *)
Class TokenBucket := {
  Limiter : Type;
  NewLimiter : Z -> Z -> Limiter;
  AllowN : Time -> Limiter -> bool * Limiter
}.

Section RateLimit.
Context `{TokenBucket}.

Record rateLimitEntry := mkEntry {
  limiter : Limiter;
  lastSeen : Time
}.

Record PrincipalRateLimiter := mkRateLimiter {
  rate : Z;
  burst : Z;
  entries : gmap string rateLimitEntry;
  nextGC : Time
}.

Definition NewPrincipalRateLimiter (perMinute : Z) : Result PrincipalRateLimiter :=
  if (perMinute <? 1) || (maxRateLimitPerMinute <? perMinute) then Err [ErrInvalidRateLimit]
  else Ok (mkRateLimiter perMinute (if perMinute =? 1 then 1 else 2) ∅ zeroTime).

Definition Before (t u : Time) : bool := instant t <? instant u.
(** [Time.Sub] saturates. *)
Definition Sub (t u : Time) : Z := Z.max MinInt64 (Z.min MaxInt64 (instant t - instant u)).

Definition removeIdle (now : Time) (m : gmap string rateLimitEntry) : gmap string rateLimitEntry :=
  filter (fun x => Sub now (lastSeen x.2) < principalIdleTTL) m.

(** The loop over the entries, in the order the runtime gives them. *)
Definition older (seen : string * Time) (x : string * rateLimitEntry) : string * Time :=
  let '(oldestSubject, oldestSeen) := seen in
  let '(subject, entry) := x in
  if bool_decide (oldestSubject = "") || Before (lastSeen entry) oldestSeen then (subject, lastSeen entry)
  else (oldestSubject, oldestSeen).

Definition oldest (visited : list (string * rateLimitEntry)) : string := (foldl older ("", zeroTime) visited).1.

Definition removeOldest (visited : list (string * rateLimitEntry)) (m : gmap string rateLimitEntry)
    : gmap string rateLimitEntry := delete (oldest visited) m.

(** A range over a map visits each entry once. *)
Definition MapOrder : Type := gmap string rateLimitEntry -> list (string * rateLimitEntry).
Definition ranges (order : MapOrder) : Prop := forall m, order m ≡ₚ map_to_list m.

Definition Allow (order : MapOrder) (now : Time) (subject : string) (l : PrincipalRateLimiter)
    : bool * PrincipalRateLimiter :=
  if bool_decide (subject = "") then (false, l)
  else
    let '(es, gc) :=
      if negb (Before now (nextGC l)) then (removeIdle now (entries l), mkTime (instant now + principalIdleTTL) (offset now))
      else (entries l, nextGC l) in
    let '(bucket, es) :=
      match es !! subject with
      | Some entry => (limiter entry, es)
      | None => (NewLimiter (rate l) (burst l),
                 if bool_decide (size es = maxTrackedPrincipals) then removeOldest (order es) es else es)
      end in
    let '(allowed, bucket') := AllowN now bucket in
    (allowed, mkRateLimiter (rate l) (burst l) (<[subject := mkEntry bucket' now]> es) gc).

(** The calls of [Allow] in their order under the mutex. *)
Fixpoint allow_all (order : MapOrder) (calls : list (Time * string)) (l : PrincipalRateLimiter)
    : list bool * PrincipalRateLimiter :=
  match calls with
  | [] => ([], l)
  | (now, subject) :: rest =>
      let '(b, l) := Allow order now subject l in
      let '(bs, l) := allow_all order rest l in
      (b :: bs, l)
  end.

End RateLimit.

(** ** The handler *)

Definition maxBodyBytes : Z := Z.shiftl 4 10.

Definition StatusNoContent : Z := 204.
Definition StatusBadRequest : Z := 400.
Definition StatusUnauthorized : Z := 401.
Definition StatusForbidden : Z := 403.
Definition StatusNotFound : Z := 404.
Definition StatusConflict : Z := 409.
Definition StatusTooManyRequests : Z := 429.
Definition StatusInternalServerError : Z := 500.

(** What the handler reads of a request; a body that cannot be read is an error. *)
Record HttpRequest := mkHttpRequest {
  authorization : string;
  path_transferID : string;
  request_body : Result string
}.

(** Reading past the limit is an error, of the first [Decode] or of the one that
    looks for the end of the body. *)
Definition decodeDecision (body : Result string) : Result string :=
  match body with
  | Err e => Err e
  | Ok text =>
      if maxBodyBytes <? len text then Err [Other "http: request body too large"]
      else match decode_struct [("decision", FString)] text with
      | None => Err [Other "json"]
      | Some d => Ok (get_string d "decision")
      end
  end.

(** The status and, for an error, the message of the answer's document. *)
Record Response := mkResponse {
  rs_status : Z;
  rs_message : option string
}.

(** [writeError], and [WriteHeader] alone. *)
Definition writeError (status : Z) (message : string) : Response := mkResponse status (Some message).
Definition bare (status : Z) : Response := mkResponse status None.

Definition writeDecisionError (err : error) : Response :=
  if errors_Is err ReviewCase.ErrInvalidArgument then writeError StatusBadRequest "invalid review decision"
  else if errors_Is err ReviewCase.ErrUnauthorized then writeError StatusForbidden "analyst role is required"
  else if errors_Is err ErrNotFound then writeError StatusNotFound "transfer not found"
  else if errors_Is err ErrStateConflict then writeError StatusConflict "review case is no longer open"
  else writeError StatusInternalServerError "internal server error".

(** The fields of [Handler]; the service behind [decider] is [ReviewCase.Decide]. *)
Record HttpHandler := mkHttpHandler {
  Verify : string -> Result string;
  roleClaim : string
}.

Section Handler.
Context `{Pg, TokenBucket}.

(** The response, with the limiter and the database behind the request; [seen] and
    [decided] are the two readings of the clock. *)
Definition ServeHTTP_response (h : HttpHandler) (order : MapOrder) (seen decided : Time) (request : HttpRequest) (s : Service)
    (l : PrincipalRateLimiter) (w : World) : Response * PrincipalRateLimiter * World :=
  match bearerToken (authorization request) with
  | None => (writeError StatusUnauthorized "authentication is required", l, w)
  | Some rawToken =>
      match Authenticate (Verify h) (roleClaim h) rawToken with
      | Err err =>
          (if errors_Is err ErrInvalidToken then writeError StatusUnauthorized "authentication failed"
           else writeError StatusInternalServerError "internal server error", l, w)
      | Ok principal =>
          if negb (hasRole (Roles principal) RoleAnalyst) then (writeError StatusForbidden "analyst role is required", l, w)
          else
            let '(allowed, l) := Allow order seen (principal_Subject principal) l in
            if negb allowed then (writeError StatusTooManyRequests "review decision rate limit exceeded", l, w)
            else match decodeDecision (request_body request) with
            | Err _ => (writeError StatusBadRequest "invalid request body", l, w)
            | Ok decision =>
                let '(r, w) := Decide decided (mkPrincipal (principal_Subject principal) RoleAnalyst)
                                 (path_transferID request) decision s w in
                match r with
                | Err err => (writeDecisionError err, l, w)
                | Ok _ => (bare StatusNoContent, l, w)
                end
            end
      end
  end.

(** Its status. *)
Definition ServeHTTP (h : HttpHandler) (order : MapOrder) (seen decided : Time) (request : HttpRequest) (s : Service)
    (l : PrincipalRateLimiter) (w : World) : Z * PrincipalRateLimiter * World :=
  let '(response, l', w') := ServeHTTP_response h order seen decided request s l w in (rs_status response, l', w').

End Handler.

(** ** The limiter's size *)

Section LimiterTheorems.
Context `{TokenBucket}.

(** Every tracked principal has a subject, and there are at most the maximum. *)
Record tracked (l : PrincipalRateLimiter) : Prop := {
  tracked_bound : (size (entries l) <= maxTrackedPrincipals)%nat;
  tracked_subject : entries l !! "" = None
}.

Lemma foldl_older visited seen : (foldl older seen visited).1 = seen.1 \/ (foldl older seen visited).1 ∈ visited.*1.
Proof.
  revert seen. induction visited as [|[subject entry] visited IH]; intros [s t]; cbn; [by left|].
  destruct (_ || _).
  - destruct (IH (subject, lastSeen entry)) as [->|?]; right; [left|by right].
  - destruct (IH (s, t)) as [->|?]; [by left|right; by right].
Qed.

Lemma oldest_visited visited : visited <> [] -> oldest visited ∈ visited.*1.
Proof.
  unfold oldest. destruct visited as [|[subject entry] visited]; [done|]. intros _. cbn [foldl].
  assert (older ("", zeroTime) (subject, entry) = (subject, lastSeen entry)) as -> by done.
  destruct (foldl_older visited (subject, lastSeen entry)) as [->|?]; [left|by right].
Qed.

Lemma size_insert_le (m : gmap string rateLimitEntry) subject entry : (size (<[subject := entry]> m) <= S (size m))%nat.
Proof. rewrite map_size_insert. by destruct (m !! subject); unfold id; [apply Nat.le_succ_diag_r|]. Qed.

Lemma size_removeOldest order m : ranges order -> m <> ∅ -> size m = S (size (removeOldest (order m) m)).
Proof.
  intros Ho Hm. assert (Hne : order m <> []).
  { intros E. apply Hm, map_to_list_empty_iff, Permutation_nil. by rewrite <- E, <- Ho. }
  apply oldest_visited, list_elem_of_fmap in Hne as ([subject entry] & E & Hx). rewrite (Ho m) in Hx. apply elem_of_map_to_list in Hx. cbn in E.
  unfold removeOldest. rewrite E. rewrite map_size_delete_Some by eauto.
  pose proof (map_size_ne_0_lookup_2 m subject (ltac:(eauto))). lia.
Qed.

Lemma removeIdle_lookup now m other :
  removeIdle now m !! other = m !! other \/
  removeIdle now m !! other = None /\ exists e, m !! other = Some e /\ principalIdleTTL <= Sub now (lastSeen e).
Proof.
  unfold removeIdle. destruct (m !! other) as [e|] eqn:E.
  - destruct (Z_lt_dec (Sub now (lastSeen e)) principalIdleTTL) as [Hlt|Hge].
    + left. by apply map_lookup_filter_Some_2.
    + right. split; [|exists e; split; [done|lia]]. apply map_lookup_filter_None_2. right. intros x Hx. cbn. congruence.
  - left. apply map_lookup_filter_None_2. by left.
Qed.

(** What a call may do to the entry of another principal: nothing; or it is
    forgotten, because it is idle or because the table was full. *)
Definition others_kept (now : Time) (subject : string) (l l' : PrincipalRateLimiter) : Prop :=
  forall other, other <> subject ->
    entries l' !! other = entries l !! other \/
    entries l' !! other = None /\
      (size (entries l) = maxTrackedPrincipals \/
       exists e, entries l !! other = Some e /\ principalIdleTTL <= Sub now (lastSeen e)).

Lemma Allow_tracked order now subject l b l' :
  ranges order -> tracked l -> Allow order now subject l = (b, l') ->
  tracked l' /\ others_kept now subject l l' /\ (b = true -> subject <> "").
Proof.
  intros Ho [Hb Hs] HR. unfold Allow in HR. case_bool_decide as Hne; [injection HR as <- <-; split_and!; [done|by left|done]|].
  set (p := if negb _ then _ else _) in HR.
  assert (Hp : (size p.1 <= size (entries l))%nat /\ p.1 !! "" = None /\ forall other, p.1 !! other = entries l !! other \/
    p.1 !! other = None /\ exists e, entries l !! other = Some e /\ principalIdleTTL <= Sub now (lastSeen e)).
  { subst p. destruct (negb _); cbn; [|split_and!; [done..|by left]]. split_and!; [apply map_size_filter| |intros; apply removeIdle_lookup].
    by destruct (removeIdle_lookup now (entries l) "") as [->|[-> _]]. }
  destruct p as [es gc]. cbn in Hp. destruct Hp as (Hsz & Hem & Hoth).
  set (q := match es !! subject with Some _ => _ | None => _ end) in HR.
  assert (Hq : (size (<[subject := mkEntry q.1 now]> q.2) <= maxTrackedPrincipals)%nat /\ q.2 !! "" = None /\
    forall other, q.2 !! other = es !! other \/ q.2 !! other = None /\ size (entries l) = maxTrackedPrincipals).
  { subst q. destruct (es !! subject) as [e|] eqn:Ee; cbn [fst snd].
    - rewrite map_size_insert_Some by eauto. split_and!; [lia|done|by left].
    - case_bool_decide as Hfull.
      + assert (Hes : es <> ∅) by (intros ->; by rewrite map_size_empty in Hfull).
        pose proof (size_removeOldest order es Ho Hes) as Hr. unfold removeOldest in *.
        split_and!; [|rewrite lookup_delete; by case_decide|].
        * etrans; [apply size_insert_le|]. lia.
        * intros other. rewrite lookup_delete. case_decide; [right; split; [done|lia]|by left].
      + rewrite map_size_insert_None by done. split_and!; [lia|done|by left]. }
  destruct q as [bucket m]. cbn in Hq. destruct Hq as (Hsz' & Hem' & Hoth').
  destruct (AllowN now bucket) as [allowed bucket']. injection HR as <- <-. split_and!; [split; cbn| |done].
  - by rewrite map_size_insert in Hsz' |- *.
  - by rewrite lookup_insert_ne.
  - intros other Hne'. cbn. rewrite lookup_insert_ne by done. destruct (Hoth' other) as [->|[-> ?]]; [|auto].
    destruct (Hoth other) as [->|[-> ?]]; auto.
Qed.

Lemma allow_all_tracked order calls l bs l' :
  ranges order -> tracked l -> allow_all order calls l = (bs, l') -> tracked l'.
Proof.
  intros Ho. revert l bs. induction calls as [|[now subject] calls IH]; intros l bs Ht HR; cbn in HR; [by injection HR as _ <-|].
  destruct (Allow order now subject l) as [b l1] eqn:E. destruct (allow_all order calls l1) as [bs1 l2] eqn:E2.
  injection HR as _ <-. eapply Allow_tracked in E as (Ht1 & _); [|done..]. by eapply IH.
Qed.

(** C39: the limiter serves each principal apart and in bounded memory: however it
    was called before, it tracks at most 10000 subjects, all of them non-empty;
    the next call leaves every other subject's bucket and time as they are, or
    forgets one that is idle for the time to live, or one when the table is full;
    and it allows nothing to an empty subject. *)
Theorem limiter_isolates (perMinute : Z) (order : MapOrder) (calls : list (Time * string)) (l0 l l' : PrincipalRateLimiter)
    (bs : list bool) (now : Time) (subject : string) (b : bool) :
  ranges order -> NewPrincipalRateLimiter perMinute = Ok l0 -> allow_all order calls l0 = (bs, l) ->
  Allow order now subject l = (b, l') ->
  tracked l' /\ others_kept now subject l l' /\ (b = true -> subject <> "").
Proof.
  intros Ho HN Hall HA. refine (Allow_tracked _ _ _ _ _ _ Ho (allow_all_tracked _ _ _ _ _ Ho _ Hall) HA).
  unfold NewPrincipalRateLimiter in HN. destruct (_ || _); [done|]. injection HN as <-.
  split; cbn; [rewrite map_size_empty; lia|apply lookup_empty].
Qed.

End LimiterTheorems.

(** ** The handler's answers *)

Section HandlerTheorems.
Context `{PgLaws, TokenBucket}.

(** A request that carries a verified token of an analyst, for a subject, with a
    decision in its body. *)
Record authorized (h : HttpHandler) (request : HttpRequest) (subject decision : string) : Prop := {
  auth_token : exists rawToken payload roles, bearerToken (authorization request) = Some rawToken /\
    Verify h rawToken = Ok payload /\
    (exists claims, raw_members payload = Some claims /\ claim_string (claim claims "sub") = Some subject /\
       claim_strings (claim claims (roleClaim h)) = Some roles) /\
    RoleAnalyst ∈ roles;
  auth_subject : TrimSpace subject <> "";
  auth_decision : decodeDecision (request_body request) = Ok decision
}.

Lemma Authenticate_Ok V roleClaim rawToken p : Authenticate V roleClaim rawToken = Ok p ->
  exists payload claims, V rawToken = Ok payload /\ raw_members payload = Some claims /\
    claim_string (claim claims "sub") = Some (principal_Subject p) /\ TrimSpace (principal_Subject p) <> "" /\
    claim_strings (claim claims roleClaim) = Some (Roles p).
Proof.
  unfold Authenticate. case_bool_decide; [done|]. destruct (V rawToken) as [payload|]; [|done].
  destruct (raw_members payload) as [claims|] eqn:Ec; [|done].
  destruct (claim_string (claim claims "sub")) as [subject|] eqn:Es; [|done]. case_bool_decide; [done|].
  destruct (claim_strings _) as [roles|] eqn:Er; [|done]. intros [= <-]. by exists payload, claims.
Qed.

(** C19: a request changes the database only as the decision of a verified analyst:
    an answer of 204 means that the token was verified, that its subject has the
    analyst's role and is within its rate limit, and that its decision is
    recorded; any other answer means that nothing changed, except that a 500 may
    also follow a recorded decision whose commit was not acknowledged. *)
Theorem ServeHTTP_guards (h : HttpHandler) (order : MapOrder) (seen decided : Time) (request : HttpRequest) (s : Service)
    (l l' : PrincipalRateLimiter) (w w' : World) (status : Z) :
  ServeHTTP h order seen decided request s l w = (status, l', w') ->
  let recorded_by subject decision :=
    authorized h request subject decision /\ (Allow order seen subject l).1 = true /\
    review_effect decided (mkPrincipal subject RoleAnalyst) (path_transferID request) decision (committed w) (committed w') in
  if status =? StatusNoContent then exists subject decision, recorded_by subject decision
  else committed w' = committed w \/
       status = StatusInternalServerError /\ exists subject decision, recorded_by subject decision.
Proof.
  unfold ServeHTTP, ServeHTTP_response. destruct (bearerToken _) as [rawToken|] eqn:Eb; [|intros [= <- <- <-]; by left].
  destruct (Authenticate _ _ _) as [p|e] eqn:Ea; [|intros [= <- <- <-]; destruct (errors_Is _ _); by left].
  apply Authenticate_Ok in Ea as (payload & claims & HV & Hc & Hs & Hne & Hr).
  destruct (hasRole _ _) eqn:Erole; [|intros [= <- <- <-]; by left]. apply bool_decide_eq_true in Erole.
  destruct (Allow order seen (principal_Subject p) l) as [[] l1] eqn:Eallow; [|intros [= <- <- <-]; by left].
  destruct (decodeDecision _) as [decision|] eqn:Ed; [|intros [= <- <- <-]; by left]. cbn [negb].
  destruct (Decide _ _ _ _ s w) as [r w1] eqn:ED. apply Decide_outcome in ED.
  assert (Hauth : authorized h request (principal_Subject p) decision).
  { split; [|done..]. exists rawToken, payload, (Roles p). split_and!; eauto. }
  destruct r as [[]|e]; intros [= <- <- <-]; cbn in ED |- *.
  - exists (principal_Subject p), decision. by rewrite Eallow; destruct ED.
  - assert (Hst : (rs_status (writeDecisionError e) =? StatusNoContent) = false).
    { unfold writeDecisionError. by repeat destruct (errors_Is _ _). }
    rewrite Hst. destruct ED as [?|(-> & _ & HE)]; [by left|right]. split; [done|].
    exists (principal_Subject p), decision. by rewrite Eallow.
Qed.
End HandlerTheorems.

(** ** A concrete request *)

(** A bucket of its burst that is never filled up. *)
#[local] Instance burst_only : TokenBucket := {|
  Limiter := Z;
  NewLimiter _ burst := burst;
  AllowN _ left := if 0 <? left then (true, left - 1) else (false, left)
|}.

Definition in_key_order : MapOrder := map_to_list.

Lemma in_key_order_ranges : ranges in_key_order.
Proof. intros m. reflexivity. Qed.

Definition claims_text : string :=
  marshal (VObject [("sub", VString "analyst-1"); ("roles", VArray [VString "auditor"; VString "analyst"])]).

Definition issuer : HttpHandler := mkHttpHandler (fun token => if bool_decide (token = "token-1") then Ok claims_text else Err [Other "oidc"]) "roles".

Definition approve_large (token : string) : HttpRequest :=
  mkHttpRequest ("Bearer " ++ token) (uuid_text id_large) (Ok (marshal (VObject [("decision", VString "approved")]))).

Definition thirty : PrincipalRateLimiter := mkRateLimiter 30 2 ∅ zeroTime.

Definition serve (token : string) (l : PrincipalRateLimiter) (w : World) : Z * PrincipalRateLimiter * World :=
  ServeHTTP issuer in_key_order sample_now sample_now (approve_large token) steady l w.

Definition served : Z * PrincipalRateLimiter * World := serve "token-1" thirty after_complete.

(** The request is answered with 204; a second one meets a closed case, a third
    one the rate limit, and a token of another issuer is refused. *)
Lemma serve_statuses :
  (served.1.1, (serve "token-1" served.1.2 served.2).1.1,
   (serve "token-1" (serve "token-1" served.1.2 served.2).1.2 served.2).1.1, (serve "token-2" thirty after_complete).1.1) =
  (StatusNoContent, StatusConflict, StatusTooManyRequests, StatusUnauthorized).
Proof. vm_compute. reflexivity. Qed.

(** A path that is no UUID is answered as a failure of the server, and so is a
    principal whose subject has white space around it, which [validSubject] lets
    pass and a constraint of the review cases refuses. *)
Definition approve_path (path : string) : HttpRequest :=
  mkHttpRequest "Bearer token-1" path (Ok (marshal (VObject [("decision", VString "approved")]))).

Definition padded_issuer : HttpHandler :=
  mkHttpHandler (fun _ => Ok (marshal (VObject [("sub", VString " analyst-1"); ("roles", VArray [VString "analyst"])]))) "roles".

Lemma malformed_path_status :
  (ServeHTTP issuer in_key_order sample_now sample_now (approve_path "not-a-uuid") steady thirty after_complete).1.1 =
    StatusInternalServerError /\
  (ServeHTTP issuer in_key_order sample_now sample_now (approve_path (uuid_text id_other)) steady thirty after_complete).1.1 =
    StatusNotFound.
Proof. vm_compute. split; reflexivity. Qed.

Lemma padded_subject_status :
  (ServeHTTP padded_issuer in_key_order sample_now sample_now (approve_large "token-1") steady thirty after_complete).1.1 =
    StatusInternalServerError /\
  (Decide sample_now (mkPrincipal " analyst-1" RoleAnalyst) (uuid_text id_large) "approved" steady after_complete).1 =
    Err (check_violation "transfer_review_cases_decision_check").
Proof. vm_compute. split; reflexivity. Qed.

Lemma split_response (p : Z * PrincipalRateLimiter * World) status : p.1.1 = status -> p = (status, p.1.2, p.2).
Proof. destruct p as [[s l] w]. by intros <-. Qed.

Lemma ServeHTTP_guards_witness : exists decision, authorized issuer (approve_large "token-1") "analyst-1" decision.
Proof.
  assert (E : served.1.1 = StatusNoContent) by (vm_compute; reflexivity).
  destruct (ServeHTTP_guards issuer in_key_order sample_now sample_now (approve_large "token-1") steady thirty served.1.2
    after_complete served.2 StatusNoContent (split_response served _ E)) as (subject & decision & Ha & _).
  exists decision. destruct Ha as [(t & payload & roles & Ht & HV & (claims & Hc & Hs & Hr) & Hin) Hne Hd].
  assert (subject = "analyst-1") as ->; [|split; [exists t, payload, roles; split_and!; eauto|exact Hne|exact Hd]].
  assert (Ht' : bearerToken (authorization (approve_large "token-1")) = Some "token-1") by (vm_compute; reflexivity).
  rewrite Ht' in Ht. injection Ht as <-. cbn [Verify issuer] in HV. rewrite bool_decide_eq_true_2 in HV by reflexivity.
  injection HV as <-. 
  assert (Hsub : claim_string (claim (default [] (raw_members claims_text)) "sub") = Some "analyst-1") by (vm_compute; reflexivity).
  rewrite Hc in Hsub.
  change (claim_string (claim claims "sub") = Some "analyst-1") in Hsub. rewrite Hs in Hsub. by injection Hsub.
Defined.

(** Two calls of one subject and one of another, after which the first has used up its burst. *)
Lemma limiter_isolates_witness :
  let calls := [(sample_now, "a"); (sample_now, "b"); (sample_now, "a")] in
  (allow_all in_key_order calls thirty).1 = [true; true; true] /\
  (Allow in_key_order sample_now "a" (allow_all in_key_order calls thirty).2).1 = false /\
  tracked (Allow in_key_order sample_now "a" (allow_all in_key_order calls thirty).2).2.
Proof.
  cbv zeta. split; [vm_compute; reflexivity|]. split; [vm_compute; reflexivity|].
  exact (proj1 (limiter_isolates 30 in_key_order _ thirty _ _ _ sample_now "a" _ in_key_order_ranges eq_refl
    (surjective_pairing _) (surjective_pairing _))).
Defined.
