(* ===== verification/WalletApi.v ===== *)
(** * The HTTP server of the wallet API

    [internal/platform/httpserver/server.go] with the routing of [http.ServeMux]
    that it relies on: the operational endpoints, the route that
    [internal/adapter/http/reviewdecision] registers, and the two middlewares that
    log and count every request.  The exposition of the metrics ([promhttp]) and
    the mux's own redirects to a clean path (their status depends on the release
    of Go) are arguments; trace spans are outside. *)

From stdpp Require Import base list gmap strings numbers pretty.
From Stdlib Require Import ZArith Lia Ascii.
From S2P Require Import RiskWorker TransactionWorker ReviewCase.
From S2P Require Import Prelude GoText Json GoTime Database PgInstance Scenario HttpServer ReviewHttp.

Open Scope string_scope.
Open Scope Z_scope.

(** ** Patterns and paths of [http.ServeMux] *)

Fixpoint split_on (sep : ascii) (part s : string) : list string :=
  match s with
  | EmptyString => [part]
  | String c t => if eqc c sep then part :: split_on sep "" t else split_on sep (part ++ String c "") t
  end.

Fixpoint join_slash (parts : list string) : string :=
  match parts with
  | [] => ""
  | part :: rest => "/" ++ part ++ join_slash rest
  end.

Inductive Segment :=
| Literal (text : string)
| Wildcard (name : string).

Record Pattern := mkPattern {
  pattern_method : string;
  pattern_segments : list Segment
}.

(** A segment in braces is a wildcard. *)
Definition parse_segment (s : string) : Segment :=
  match s with
  | String c rest =>
      if eqc c "{" then Wildcard (take_bytes (pred (String.length rest)) rest) else Literal s
  | EmptyString => Literal s
  end.

(** "METHOD /path", or a path alone for every method. *)
Definition parse_pattern (text : string) : Pattern :=
  match split_on " " "" text with
  | [path] => mkPattern "" (parse_segment <$> tail (split_on "/" "" path))
  | method :: path :: _ => mkPattern method (parse_segment <$> tail (split_on "/" "" path))
  | [] => mkPattern "" []
  end.

Definition hex_value (c : Z) : Z :=
  if is_digit c then c - 48 else if is_lower c then c - 87 else c - 55.

(** [url.PathUnescape]. *)
Fixpoint path_unescape (s : string) : option string :=
  match s with
  | EmptyString => Some ""
  | String c t =>
      if eqc c "%" then
        match t with
        | String a (String b rest) =>
            if is_hex (byte_val a) && is_hex (byte_val b)
            then String (byte_of (16 * hex_value (byte_val a) + hex_value (byte_val b))) <$> path_unescape rest
            else None
        | _ => None
        end
      else String c <$> path_unescape t
  end.

(** The segments [routingNode.matchPath] takes one by one: unescaped if possible,
    with "/" for a trailing slash. *)
Definition unescaped (s : string) : string := default s (path_unescape s).

Fixpoint mark_slash (parts : list string) : list string :=
  match parts with
  | [] => []
  | [last] => [if bool_decide (last = "") then "/" else unescaped last]
  | part :: rest => unescaped part :: mark_slash rest
  end.

Definition path_segments (path : string) : list string := mark_slash (tail (split_on "/" "" path)).

(** [path.Clean] of a rooted path, on its elements. *)
Fixpoint clean_elements (kept : list string) (parts : list string) : list string :=
  match parts with
  | [] => rev kept
  | part :: rest =>
      if bool_decide (part = "") || bool_decide (part = ".") then clean_elements kept rest
      else if bool_decide (part = "..") then clean_elements (tail kept) rest
      else clean_elements (part :: kept) rest
  end.

Definition ends_in_slash (s : string) : bool :=
  match byte_at s (pred (String.length s)) with Some c => eqc c "/" | None => false end.

(** [cleanPath]: a trailing slash is kept. *)
Definition clean_path (p : string) : string :=
  if bool_decide (p = "") then "/"
  else
    let p := match p with String c _ => if eqc c "/" then p else String "/" p | EmptyString => p end in
    match clean_elements [] (split_on "/" "" p) with
    | [] => "/"
    | parts => if ends_in_slash p then join_slash parts ++ "/" else join_slash parts
    end.

Fixpoint match_segments (pattern : list Segment) (segments : list string) : option (list (string * string)) :=
  match pattern, segments with
  | [], [] => Some []
  | Literal text :: pattern, segment :: segments =>
      if bool_decide (segment = text) then match_segments pattern segments else None
  | Wildcard name :: pattern, segment :: segments =>
      if bool_decide (segment = "/") then None else cons (name, segment) <$> match_segments pattern segments
  | _, _ => None
  end.

(** A pattern for GET also matches HEAD. *)
Definition method_matches (pattern method : string) : bool :=
  bool_decide (pattern = "") || bool_decide (pattern = method) ||
  (bool_decide (pattern = "GET") && bool_decide (method = "HEAD")).

(** ** The routes *)

Inductive Route :=
| RouteHealth
| RouteMetrics
| RouteReview.

(** The registered patterns; no request matches two of them. *)
Definition Mux : Type := list (string * Route).

Definition operational_routes : Mux :=
  [("GET /healthz", RouteHealth); ("GET /readyz", RouteHealth); ("GET /metrics", RouteMetrics)].

(** [reviewdecision.Handler.RegisterRoutes]. *)
Definition RegisterRoutes (mux : Mux) : Mux :=
  (mux ++ [("POST /v1/transfers/{transferID}/review-decision", RouteReview)])%list.

(** What [handlerWithRegistry] registers; [routes] is nil without OIDC. *)
Definition server_mux (routes : option HttpHandler) : Mux :=
  match routes with
  | None => operational_routes
  | Some _ => RegisterRoutes operational_routes
  end.

(** What the mux answers a request with. *)
Inductive Found :=
| FoundRoute (route : Route) (matches : list (string * string))
| FoundRedirect
| FoundMethodNotAllowed
| FoundNotFound
| FoundBadRequest.

Fixpoint find_match (mux : Mux) (method : string) (segments : list string) : option (string * Route * list (string * string)) :=
  match mux with
  | [] => None
  | (text, route) :: rest =>
      let pattern := parse_pattern text in
      match match_segments (pattern_segments pattern) segments with
      | Some matches =>
          if method_matches (pattern_method pattern) method then Some (text, route, matches)
          else find_match rest method segments
      | None => find_match rest method segments
      end
  end.

(** Some pattern has the path for another method. *)
Definition path_known (mux : Mux) (segments : list string) : bool :=
  existsb (fun '(text, _) => bool_decide (is_Some (match_segments (pattern_segments (parse_pattern text)) segments))) mux.

(** [ServeMux.findHandler], with the pattern that [Request.Pattern] is set to. *)
Definition find_handler (mux : Mux) (method path : string) : Found * string :=
  if bool_decide (path = "*") then (FoundBadRequest, "")
  else
    let cleaned := if bool_decide (method = "CONNECT") then path else clean_path path in
    let found := find_match mux method (path_segments cleaned) in
    if negb (bool_decide (cleaned = path)) then
      (FoundRedirect, match found with Some (text, _, _) => text | None => "" end)
    else match found with
    | Some (text, route, matches) => (FoundRoute route matches, text)
    | None => (if path_known mux (path_segments cleaned) then FoundMethodNotAllowed else FoundNotFound, "")
    end.

(** [Request.PathValue]. *)
Definition path_value (matches : list (string * string)) (name : string) : string :=
  foldr (fun '(key, v) rest => if bool_decide (key = name) then v else rest) "" matches.

(** ** The server *)

Definition newline : string := String (ascii_of_N 10) "".

(** [health]. *)
Definition health : list Sent :=
  [SentHeader StatusOK; SentBody (marshal (VObject [("status", VString "ok")]) ++ newline)].

(** What a response of the decisions' handler sends: [writeError] adds a document. *)
Definition response_sent (response : Response) : list Sent :=
  SentHeader (rs_status response) ::
  match rs_message response with
  | Some message => [SentBody (marshal (VObject [("error", VString message)]) ++ newline)]
  | None => []
  end.

Record ApiRequest := mkApiRequest {
  req_method : string;
  req_path : string;
  req_authorization : string;
  req_body : Result string
}.

Section Server.
Context `{Pg, TokenBucket}.

(** The registry's counter, the request log, and what is behind the decisions. *)
Record ServerState := mkServerState {
  srv_requests : Counter;
  srv_log : list (string * string);
  srv_limiter : PrincipalRateLimiter;
  srv_world : World
}.

(** What surrounds one request. *)
Record Surroundings := mkSurroundings {
  map_order : MapOrder;
  seen_at : Time;
  decided_at : Time;
  service : Service
}.

Variable exposition : Counter -> list Sent.
Variable redirected : string -> string -> list Sent.

(** The handler the mux finds, run: what it sends, and what is behind it. *)
Definition dispatch (routes : option HttpHandler) (q : ApiRequest) (x : Surroundings) (found : Found) (st : ServerState)
    : list Sent * PrincipalRateLimiter * World :=
  match found with
  | FoundRoute RouteHealth _ => (health, srv_limiter st, srv_world st)
  | FoundRoute RouteMetrics _ => (exposition (srv_requests st), srv_limiter st, srv_world st)
  | FoundRoute RouteReview matches =>
      match routes with
      | Some h =>
          let '(response, l, w) := ServeHTTP_response h (map_order x) (seen_at x) (decided_at x)
            (mkHttpRequest (req_authorization q) (path_value matches "transferID") (req_body q)) (service x)
            (srv_limiter st) (srv_world st) in
          (response_sent response, l, w)
      | None => ([], srv_limiter st, srv_world st)
      end
  | FoundRedirect => (redirected (req_method q) (req_path q), srv_limiter st, srv_world st)
  | FoundMethodNotAllowed => ([SentHeader 405; SentBody ("Method Not Allowed" ++ newline)], srv_limiter st, srv_world st)
  | FoundNotFound => ([SentHeader 404; SentBody ("404 page not found" ++ newline)], srv_limiter st, srv_world st)
  | FoundBadRequest => ([SentHeader 400], srv_limiter st, srv_world st)
  end.

(** [requestLogger]: the line it writes. *)
Definition requestLogger (method pattern : string) (log : list (string * string)) : list (string * string) :=
  (log ++ [(method, route_label pattern)])%list.

(** [handlerWithRegistry]: the handler of the server, one request. *)
Definition handlerWithRegistry (routes : option HttpHandler) (q : ApiRequest) (x : Surroundings) (st : ServerState)
    : list Sent * ServerState :=
  let '(found, pattern) := find_handler (server_mux routes) (req_method q) (req_path q) in
  let '(calls, l, w) := dispatch routes q x found st in
  (ResponseWriter (responded calls),
   mkServerState (instrument (req_method q) pattern calls (srv_requests st))
     (requestLogger (req_method q) pattern (srv_log st)) l w).

(** Requests one after the other. *)
Fixpoint serve_all (routes : option HttpHandler) (qs : list (ApiRequest * Surroundings)) (st : ServerState) : ServerState :=
  match qs with
  | [] => st
  | (q, x) :: rest => serve_all routes rest (handlerWithRegistry routes q x st).2
  end.

End Server.

(** ** What the mux finds *)

Definition review_pattern : string := "POST /v1/transfers/{transferID}/review-decision".

(** The labels of the routes, whatever the clients send. *)
Definition route_labels : list string := ["GET /healthz"; "GET /readyz"; "GET /metrics"; review_pattern; "unmatched"].

(** A request for the decision of a review case. *)
Definition asks_decision (q : ApiRequest) (transferID : string) : Prop :=
  req_method q = "POST" /\ req_path q <> "*" /\ clean_path (req_path q) = req_path q /\
  path_segments (req_path q) = ["v1"; "transfers"; transferID; "review-decision"] /\ transferID <> "/".

Lemma find_match_label mux method segments text route matches :
  find_match mux method segments = Some (text, route, matches) -> (text, route) ∈ mux.
Proof.
  induction mux as [|[t r] mux IH]; [done|]. cbn [find_match].
  destruct (match_segments _ segments) as [ms|]; [|intros ?%IH; by right].
  destruct (method_matches _ method); [|intros ?%IH; by right]. intros [= <- <- <-]. by left.
Qed.

Lemma find_handler_label routes method path :
  route_label (find_handler (server_mux routes) method path).2 ∈ route_labels.
Proof.
  assert (Hm : forall mux segments text route matches, (forall t r, (t, r) ∈ mux -> t ∈ route_labels) ->
    find_match mux method segments = Some (text, route, matches) -> route_label text ∈ route_labels).
  { intros mux segments text route matches Hmux Hf%find_match_label%Hmux. revert Hf. unfold route_labels.
    rewrite !elem_of_cons, elem_of_nil. intros [->|[->|[->|[->|[->|[]]]]]]; cbn; tauto. }
  assert (Hs : forall t r, (t, r) ∈ server_mux routes -> t ∈ route_labels).
  { intros t r. unfold server_mux, RegisterRoutes, operational_routes, route_labels. destruct routes; cbn [app]; set_solver. }
  assert (Hu : "unmatched" ∈ route_labels) by (unfold route_labels; set_solver).
  unfold find_handler. case_bool_decide; [done|]. cbv zeta. destruct (negb _).
  - cbn [snd]. destruct (find_match _ _ _) as [[[text route] matches]|] eqn:Ef; [by eapply Hm|done].
  - destruct (find_match _ _ _) as [[[text route] matches]|] eqn:Ef; cbn [snd]; [by eapply Hm|done].
Qed.

(** The patterns, parsed. *)
Lemma parse_healthz : parse_pattern "GET /healthz" = mkPattern "GET" [Literal "healthz"].
Proof. vm_compute. reflexivity. Qed.

Lemma parse_readyz : parse_pattern "GET /readyz" = mkPattern "GET" [Literal "readyz"].
Proof. vm_compute. reflexivity. Qed.

Lemma parse_metrics : parse_pattern "GET /metrics" = mkPattern "GET" [Literal "metrics"].
Proof. vm_compute. reflexivity. Qed.

Lemma parse_review :
  parse_pattern review_pattern = mkPattern "POST" [Literal "v1"; Literal "transfers"; Wildcard "transferID"; Literal "review-decision"].
Proof. vm_compute. reflexivity. Qed.

(** The segments a pattern of this server matches. *)
Lemma match_review segments matches :
  match_segments (pattern_segments (parse_pattern review_pattern)) segments = Some matches <->
  exists id, segments = ["v1"; "transfers"; id; "review-decision"] /\ id <> "/" /\ matches = [("transferID", id)].
Proof.
  rewrite parse_review. cbn [pattern_segments]. split.
  - destruct segments as [|a [|b [|c [|e [|f segments]]]]]; cbn; repeat case_bool_decide; try done; subst.
    + intros [= <-]. by exists c.
  - intros (id & -> & Hne & ->). cbn. by repeat case_bool_decide.
Qed.

Lemma find_match_cons text route mux method segments :
  find_match ((text, route) :: mux) method segments =
    match match_segments (pattern_segments (parse_pattern text)) segments with
    | Some matches =>
        if method_matches (pattern_method (parse_pattern text)) method then Some (text, route, matches)
        else find_match mux method segments
    | None => find_match mux method segments
    end.
Proof. reflexivity. Qed.

Lemma find_match_skip text route mux method segments text' route' matches :
  find_match ((text, route) :: mux) method segments = Some (text', route', matches) -> route <> route' ->
  find_match mux method segments = Some (text', route', matches).
Proof.
  rewrite find_match_cons. destruct (match_segments _ segments); [|done]. destruct (method_matches _ method); [congruence|done].
Qed.

Lemma server_mux_Some h : server_mux (Some h) =
  [("GET /healthz", RouteHealth); ("GET /readyz", RouteHealth); ("GET /metrics", RouteMetrics); (review_pattern, RouteReview)].
Proof. reflexivity. Qed.

Lemma server_mux_None : server_mux None = [("GET /healthz", RouteHealth); ("GET /readyz", RouteHealth); ("GET /metrics", RouteMetrics)].
Proof. reflexivity. Qed.

(** The one pattern of the reviews, found. *)
Lemma find_match_decision h method segments text matches :
  find_match (server_mux (Some h)) method segments = Some (text, RouteReview, matches) ->
  method = "POST" /\ text = review_pattern /\
  exists id, segments = ["v1"; "transfers"; id; "review-decision"] /\ id <> "/" /\ matches = [("transferID", id)].
Proof.
  rewrite server_mux_Some. intros HF%find_match_skip%find_match_skip%find_match_skip; [|done..]. rewrite find_match_cons in HF.
  destruct (match_segments _ segments) as [m4|] eqn:E; [|done]. apply match_review in E as (id & Hs & Hne & Hm).
  destruct (method_matches _ method) eqn:Em; [|done]. injection HF as <- <-.
  split_and!; [|done|by exists id]. unfold method_matches in Em.
  rewrite parse_review in Em. cbn [pattern_method] in Em. rewrite !orb_true_iff, andb_true_iff, !bool_decide_eq_true in Em.
  destruct Em as [[?|?]|[? _]]; done.
Qed.

Lemma decision_found h id : id <> "/" ->
  find_match (server_mux (Some h)) "POST" ["v1"; "transfers"; id; "review-decision"] =
    Some (review_pattern, RouteReview, [("transferID", id)]).
Proof.
  intros Hne. rewrite server_mux_Some, !find_match_cons, parse_healthz, parse_readyz, parse_metrics.
  cbn [pattern_segments match_segments]. rewrite !bool_decide_eq_false_2 by done.
  rewrite (proj2 (match_review _ [("transferID", id)])) by eauto. by rewrite parse_review.
Qed.

(** Every request for a decision finds the handler of the reviews, and no other
    request does. *)
Lemma find_decision routes q text matches :
  find_handler (server_mux routes) (req_method q) (req_path q) = (FoundRoute RouteReview matches, text) ->
  exists h id, routes = Some h /\ asks_decision q id /\ matches = [("transferID", id)] /\ text = review_pattern.
Proof.
  unfold find_handler. case_bool_decide as Hstar; [done|]. cbv zeta.
  set (cleaned := if bool_decide (req_method q = "CONNECT") then req_path q else clean_path (req_path q)).
  case_bool_decide as Hc; cbn [negb]; [|done]. rewrite Hc.
  destruct (find_match _ _ _) as [[[t route] ms]|] eqn:Ef; [|by destruct (path_known _ _)]. intros [= -> -> ->].
  destruct routes as [h|].
  - apply find_match_decision in Ef as (Hm & -> & id & Hs & Hne & ->). exists h, id. split_and!; try done. split_and!; try done.
    subst cleaned. rewrite Hm in Hc. by rewrite bool_decide_eq_false_2 in Hc.
  - exfalso. apply find_match_label in Ef. rewrite server_mux_None, !elem_of_cons, elem_of_nil in Ef. naive_solver.
Qed.

Lemma decision_finds h q id :
  asks_decision q id ->
  find_handler (server_mux (Some h)) (req_method q) (req_path q) = (FoundRoute RouteReview [("transferID", id)], review_pattern).
Proof.
  intros (Hm & Hstar & Hc & Hs & Hne). unfold find_handler. rewrite (bool_decide_eq_false_2 _ Hstar). cbv zeta.
  rewrite Hm, (bool_decide_eq_false_2 ("POST" = "CONNECT")) by done. rewrite Hc, bool_decide_eq_true_2 by done. cbn [negb].
  by rewrite Hs, decision_found.
Qed.

(** The paths of the operational endpoints answer GET and HEAD. *)
Lemma health_found routes method path :
  method = "GET" \/ method = "HEAD" -> path = "/healthz" \/ path = "/readyz" ->
  (find_handler (server_mux routes) method path).1 = FoundRoute RouteHealth [].
Proof. intros [-> | ->] [-> | ->]; destruct routes; vm_compute; reflexivity. Qed.

(** A path nobody registered. *)
Lemma root_not_found routes method : find_handler (server_mux routes) method "/" = (FoundNotFound, "").
Proof.
  unfold find_handler. rewrite (bool_decide_eq_false_2 ("/" = "*")) by done. cbv zeta.
  assert ((if bool_decide (method = "CONNECT") then "/" else clean_path "/") = "/") as -> by by case_bool_decide.
  rewrite bool_decide_eq_true_2 by done. cbn [negb]. change (path_segments "/") with ["/"].
  assert (find_match (server_mux routes) method ["/"] = None) as -> by (destruct routes; vm_compute; reflexivity).
  assert (path_known (server_mux routes) ["/"] = false) as -> by (destruct routes; vm_compute; reflexivity). done.
Qed.

Section Theorems.
Context `{Pg, TokenBucket}.
Variable exposition : Counter -> list Sent.
Variable redirected : string -> string -> list Sent.

Abbreviation handle := (handlerWithRegistry exposition redirected).

(** The answer to a request for a decision, and what it leaves. *)
Definition decision_answered (h : HttpHandler) (q : ApiRequest) (x : Surroundings) (id : string) (st st' : ServerState)
    (sent : list Sent) : Prop :=
  exists response, sent = response_sent response /\
    ServeHTTP_response h (map_order x) (seen_at x) (decided_at x) (mkHttpRequest (req_authorization q) id (req_body q)) (service x)
      (srv_limiter st) (srv_world st) = (response, srv_limiter st', srv_world st').

Lemma responded_response response : ResponseWriter (responded (response_sent response)) = response_sent response.
Proof. unfold response_sent. by destruct (rs_message response). Qed.

(** C20: the server's routing and bookkeeping: a request reaches the decision of a
    review case exactly when the API runs with OIDC and the request is a POST of
    the clean path with a transfer, which is handed on unescaped and answered with
    the status and the error document that the handler writes; nothing else
    touches the rate limiter or the database. Health and readiness answer 200 with
    their document whatever the state. Every request is logged and counted once,
    under the status that was sent and under one of five routes, so that neither
    the log nor the route label can carry a path that a client chose. *)
Theorem server_routes (routes : option HttpHandler) (q : ApiRequest) (x : Surroundings) (st st' : ServerState) (sent : list Sent) :
  handle routes q x st = (sent, st') ->
  (forall h id, routes = Some h -> asks_decision q id -> decision_answered h q x id st st' sent) /\
  (srv_limiter st' = srv_limiter st /\ srv_world st' = srv_world st \/
   exists h id, routes = Some h /\ asks_decision q id /\ decision_answered h q x id st st' sent) /\
  (req_method q = "GET" \/ req_method q = "HEAD" -> req_path q = "/healthz" \/ req_path q = "/readyz" -> sent = health) /\
  exists label code, label ∈ route_labels /\ srv_log st' = (srv_log st ++ [(req_method q, label)])%list /\
    (headers sent = [code] \/ headers sent = [] /\ code = StatusOK) /\
    let series := (req_method q, label, pretty code) in
    srv_requests st' = <[series := default 0 (srv_requests st !! series) + 1]> (srv_requests st).
Proof.
  unfold handlerWithRegistry. destruct (find_handler _ _ _) as [found pattern] eqn:Ef.
  destruct (dispatch _ _ routes q x found st) as [[calls l] w] eqn:Ed. intros [= <- <-].
  assert (Hans : forall h id, routes = Some h -> asks_decision q id ->
    decision_answered h q x id st (mkServerState (instrument (req_method q) pattern calls (srv_requests st))
      (requestLogger (req_method q) pattern (srv_log st)) l w) (ResponseWriter (responded calls))).
  { intros h id -> Hq. rewrite (decision_finds h q id Hq) in Ef. injection Ef as <- <-. cbn [dispatch] in Ed.
    assert (path_value [("transferID", id)] "transferID" = id) as Hv by done. rewrite Hv in Ed.
    destruct (ServeHTTP_response _ _ _ _ _ _ _ _) as [[response l1] w1] eqn:Es. injection Ed as <- <- <-.
    exists response. by rewrite responded_response. }
  split_and!; [exact Hans| | |].
  - destruct found as [[]| | | |]; cbn [dispatch] in Ed; try (injection Ed as <- <- <-; by left).
    apply find_decision in Ef as (h & id & -> & Hq & _). right. exists h, id. auto.
  - intros Hm Hp. pose proof (health_found routes _ _ Hm Hp) as Hh. rewrite Ef in Hh. cbn [fst] in Hh. rewrite Hh in Ed.
    cbn [dispatch] in Ed. by injection Ed as <- <- <-.
  - pose proof (find_handler_label routes (req_method q) (req_path q)) as Hl. rewrite Ef in Hl. cbn [snd] in Hl.
    exists (route_label pattern), (status (responded calls)). split_and!; [done|done| |done].
    pose proof (counted_status_sent calls) as [Hh Hz]. rewrite Hh. destruct (wroteHeader _); [by left|right; auto].
Qed.

(** ** The method label *)

(** An unauthenticated request for nothing, under a method of the client's own. *)
Definition probe (method : string) : ApiRequest := mkApiRequest method "/" "" (Ok "").

Lemma probe_counted routes method x st :
  srv_requests (handle routes (probe method) x st).2 =
    <[(method, "unmatched", "404") := default 0 (srv_requests st !! (method, "unmatched", "404")) + 1]> (srv_requests st).
Proof. unfold handlerWithRegistry. cbn [probe req_method req_path]. rewrite root_not_found. reflexivity. Qed.

Lemma probes_counted routes methods x st :
  NoDup methods ->
  list_to_set ((fun m => (m, "unmatched", "404")) <$> methods) ⊆
    dom (srv_requests (serve_all exposition redirected routes ((fun m => (probe m, x)) <$> methods) st)).
Proof.
  assert (Hgrow : forall ms st0, dom (srv_requests st0) ⊆
    dom (srv_requests (serve_all exposition redirected routes ((fun m => (probe m, x)) <$> ms) st0))).
  { induction ms as [|m ms IH]; intros st0; [done|]. cbn [fmap list_fmap serve_all]. etrans; [|apply IH].
    rewrite probe_counted, dom_insert. set_solver. }
  intros Hnd. revert st. induction methods as [|m methods IH]; intros st; [set_solver|].
  apply NoDup_cons in Hnd as [_ Hnd]. cbn [fmap list_fmap serve_all list_to_set]. apply union_subseteq. split; [|by apply IH].
  etrans; [|apply Hgrow]. rewrite probe_counted, dom_insert. set_solver.
Qed.

(** The series of the request metrics are not bounded by the server: for every
    number there are that many requests, without any credential and for the root
    path, with methods of upper-case letters and digits, after which the registry
    holds at least as many series. *)
Theorem metric_series_unbounded (routes : option HttpHandler) (x : Surroundings) (st : ServerState) (n : nat) :
  exists qs, Datatypes.length qs = n /\
    Forall (fun q => req_path q = "/" /\ req_authorization q = "" /\
                     all_bytes (fun c => is_upper c || is_digit c) (req_method q) = true /\ req_method q <> "") qs /\
    (n <= size (srv_requests (serve_all exposition redirected routes ((fun q => (q, x)) <$> qs) st)))%nat.
Proof.
  set (methods := (fun i : nat => "M" ++ pretty (Z.pos (Pos.of_succ_nat i))) <$> seq 0 n).
  assert (Hnd : NoDup methods).
  { apply NoDup_fmap_2; [|apply NoDup_seq]. intros i j E. apply (inj (String.append "M")), (inj pretty) in E. lia. }
  exists (probe <$> methods). split; [by rewrite length_fmap; unfold methods; rewrite length_fmap, length_seq|]. split.
  - apply Forall_fmap, Forall_fmap, Forall_forall. intros i _. split_and!; try done. cbn [probe req_method String.append all_bytes].
    apply andb_true_iff; split; [reflexivity|].
    apply (digits_bytes (fun c => is_upper c || is_digit c)); [|apply pretty_all_digits].
    intros c Hc. rewrite Hc. apply orb_true_r.
  - rewrite <- list_fmap_compose. pose proof (probes_counted routes methods x st Hnd) as Hsub.
    apply subseteq_size in Hsub. rewrite size_dom, size_list_to_set, length_fmap in Hsub.
    + unfold methods in Hsub at 1. by rewrite length_fmap, length_seq in Hsub.
    + apply NoDup_fmap_2; [|done]. by intros a b [= ->].
Qed.

End Theorems.

(** ** A request served *)

#[local] Instance burst_only : TokenBucket := {|
  Limiter := Z;
  NewLimiter _ burst := burst;
  AllowN _ left := if 0 <? left then (true, left - 1) else (false, left)
|}.

Definition api_start : ServerState := mkServerState ∅ [] (mkRateLimiter 30 2 ∅ zeroTime) after_complete.

Definition api_issuer : HttpHandler :=
  mkHttpHandler (fun _ => Ok (marshal (VObject [("sub", VString "analyst-1"); ("roles", VArray [VString "analyst"])]))) "roles".

Definition api_around : Surroundings := mkSurroundings map_to_list sample_now sample_now steady.

Definition no_series (_ : Counter) : list Sent := [SentHeader StatusOK].

Definition moved (_ _ : string) : list Sent := [SentHeader 301].

Definition approve : ApiRequest :=
  mkApiRequest "POST" ("/v1/transfers/" ++ uuid_text id_large ++ "/review-decision") "Bearer token-1"
    (Ok (marshal (VObject [("decision", VString "approved")]))).

(** The decision is answered with 204 and logged under its pattern. *)
Lemma approve_served :
  ((handlerWithRegistry no_series moved (Some api_issuer) approve api_around api_start).1,
   srv_log (handlerWithRegistry no_series moved (Some api_issuer) approve api_around api_start).2) =
  ([SentHeader StatusNoContent], [("POST", review_pattern)]).
Proof. vm_compute. reflexivity. Qed.

Lemma server_routes_witness :
  asks_decision approve (uuid_text id_large) /\
  decision_answered api_issuer approve api_around (uuid_text id_large) api_start
    (handlerWithRegistry no_series moved (Some api_issuer) approve api_around api_start).2
    (handlerWithRegistry no_series moved (Some api_issuer) approve api_around api_start).1.
Proof.
  assert (Ha : asks_decision approve (uuid_text id_large)) by (split_and!; vm_compute; (reflexivity || discriminate)).
  split; [exact Ha|].
  exact (proj1 (server_routes no_series moved (Some api_issuer) approve api_around api_start _ _ (surjective_pairing _))
    api_issuer (uuid_text id_large) eq_refl Ha).
Defined.
