(* ===== verification/Processes.v ===== *)
(** * The processes

    How the four processes read their configuration and what they check before
    they start: [ConfigFromEnv] and the guards of [Run] in
    [internal/app/riskworker/run.go], [internal/app/transactionworker/run.go],
    [internal/app/outboxpublisher/run.go] and [internal/app/walletapi/run.go], with
    [cmd/risk-worker/main.go], and the producer of [internal/outbox/kafka/producer.go].
    The environment is a function from names to values ([os.Getenv]); what is
    opened between the guards and the loop is in Runtime.v. *)

From stdpp Require Import base list gmap strings numbers.
From Stdlib Require Import ZArith Lia Ascii String.
From S2P Require Import RiskWorker.
From S2P Require Import Prelude GoText Json JsonDecode Strconv Money RiskPolicy Event EnvelopeJson Publisher Velocity ReviewHttp.

Open Scope string_scope.
Open Scope Z_scope.
#[local] Arguments String.append : simpl nomatch.

Abbreviation Env := (string -> string).

(** ** Shared pieces *)

(** [strings.SplitSeq(value, ",")]. *)
Fixpoint split_commas (part s : string) : list string :=
  match s with
  | EmptyString => [part]
  | String c t => if eqc c "," then part :: split_commas "" t else split_commas (part ++ String c "") t
  end.

(** The same function in each of the three worker packages. *)
Definition splitNonempty (value : string) : list string :=
  filter (fun part => part <> "") (map TrimSpace (split_commas "" value)).

Definition or_default (value fallback : string) : string := if bool_decide (value = "") then fallback else value.

Definition parseOptionalBool (value : string) : Result bool :=
  let value := TrimSpace value in
  if bool_decide (value = "") then Ok false
  else match ParseBool value with Some b => Ok b | None => Err [Other "parsing boolean"] end.

Definition parsePositiveInt64 (value : string) : Result Z :=
  let value := TrimSpace value in
  if bool_decide (value = "") then Err [Other "required"]
  else match ParseInt value with
  | Some parsed => if parsed <=? 0 then Err [Other "positive integer required"] else Ok parsed
  | None => Err [Other "positive integer required"]
  end.

Definition parseNonNegativeInt (value : string) : Result Z :=
  let value := TrimSpace value in
  if bool_decide (value = "") then Ok 0
  else match ParseInt value with
  | Some parsed => if parsed <? 0 then Err [Other "non-negative integer required"] else Ok parsed
  | None => Err [Other "non-negative integer required"]
  end.

(** ** The risk worker *)

Record VelocityConfig := mkVelocityConfig {
  RedisAddress : string;
  Window : Z
}.

Definition Enabled (c : VelocityConfig) : bool := negb (bool_decide (RedisAddress c = "")).

Record RiskConfig := mkRiskConfig {
  risk_DatabaseURL : string;
  risk_KafkaBrokers : list string;
  risk_KafkaTopic : string;
  risk_KafkaGroupID : string;
  Policies : list Policy;
  config_Velocity : VelocityConfig
}.

Definition usd_policy (version : string) (review decline velocityCount : Z) : Result Policy :=
  currency ← ParseCurrency "USD";
  NewPolicy (mkPolicyParams version [mkThreshold currency review decline velocityCount]).

Definition policyFromEnv (env : Env) : Result Policy :=
  let version := TrimSpace (env "RISK_POLICY_VERSION") in
  reviewAmount ← parsePositiveInt64 (env "RISK_REVIEW_AMOUNT_USD_MINOR");
  declineAmount ← parsePositiveInt64 (env "RISK_DECLINE_AMOUNT_USD_MINOR");
  velocityReviewCount ← parseNonNegativeInt (env "RISK_VELOCITY_REVIEW_TRANSFER_COUNT");
  usd_policy version reviewAmount declineAmount velocityReviewCount.

(** The anonymous struct of [policiesFromJSON]; keys that select no field are ignored. *)
Definition policy_fields : list (string * ftype) :=
  [("version", FString); ("review_amount_usd_minor", FInt); ("decline_amount_usd_minor", FInt);
   ("velocity_review_transfer_count", FInt)].

Definition policy_members (v : jvalue) : option (list (string * jvalue)) :=
  match v with
  | JNull => Some []
  | JObject members =>
      if forallb (fun '(key, w) => match find_field policy_fields key with Some (_, t) => conforms t w | None => true end) members
      then Some members else None
  | _ => None
  end.

(** [json.Unmarshal] into the slice; [null] leaves it empty. *)
Definition policy_params (encoded : string) : option (list Decoded) :=
  match parse_document encoded with
  | Some JNull => Some []
  | Some (JArray items) => map (mkDecoded policy_fields) <$> mapM policy_members items
  | _ => None
  end.

Fixpoint policies_of (params : list Decoded) : Result (list Policy) :=
  match params with
  | [] => Ok []
  | param :: rest =>
      policy ← usd_policy (get_string param "version") (get_int param "review_amount_usd_minor")
                 (get_int param "decline_amount_usd_minor") (get_int param "velocity_review_transfer_count");
      policies ← policies_of rest;
      Ok (policy :: policies)
  end.

Definition policiesFromJSON (encoded : string) : Result (list Policy) :=
  match policy_params encoded with
  | None | Some [] => Err [Other "parsing RISK_POLICIES_JSON: nonempty policy array required"]
  | Some params => policies_of params
  end.

Definition policiesFromEnv (env : Env) : Result (list Policy) :=
  let encoded := TrimSpace (env "RISK_POLICIES_JSON") in
  if negb (bool_decide (encoded = "")) then policiesFromJSON encoded
  else
    policy ← policyFromEnv env;
    Ok [policy].

(** The loop decides at the first policy that requires velocity. *)
Definition velocityConfigFromEnv (env : Env) (policies : list Policy) : Result VelocityConfig :=
  if existsb RequiresVelocity policies then
    let address := TrimSpace (env "REDIS_ADDRESS") in
    if bool_decide (address = "") then Err [Other "REDIS_ADDRESS is required when velocity is enabled"]
    else match ParseDuration (TrimSpace (env "RISK_VELOCITY_WINDOW")) with
    | None => Err [Other "RISK_VELOCITY_WINDOW"]
    | Some window =>
        if window <? Millisecond then Err [Other "RISK_VELOCITY_WINDOW"] else Ok (mkVelocityConfig address window)
    end
  else Ok (mkVelocityConfig "" 0).

Definition defaultTopic : string := "wallet.events.v1".
Definition risk_defaultGroupID : string := "intelligent-wallet-ledger-risk-v1".

Definition risk_ConfigFromEnv (env : Env) : Result RiskConfig :=
  policies ← policiesFromEnv env;
  velocity ← velocityConfigFromEnv env policies;
  Ok (mkRiskConfig (TrimSpace (env "DATABASE_URL")) (splitNonempty (env "KAFKA_BROKERS"))
        (or_default (TrimSpace (env "KAFKA_TOPIC")) defaultTopic)
        (or_default (TrimSpace (env "KAFKA_GROUP_ID")) risk_defaultGroupID) policies velocity).

(** The first guards of the workers' [Run]. *)
Definition worker_guards (databaseURL : string) (brokers : list string) (topic groupID : string) : Result unit :=
  if bool_decide (databaseURL = "") then Err [Other "database URL is required"]
  else if bool_decide (brokers = []) then Err [Other "kafka brokers are required"]
  else if bool_decide (topic = "") then Err [Other "kafka topic is required"]
  else if bool_decide (groupID = "") then Err [Other "kafka group id is required"]
  else Ok tt.

(** [main] with [Run] up to the handler: an observer is made when velocity is
    enabled ([observe] is the one that [NewObserver] gives), else none observes. *)
Definition risk_start (config : RiskConfig) (observe : VelocityConfig -> VelocityObserver) (clock : Time) : Result Handler :=
  observer ← (if Enabled (config_Velocity config)
              then _ ← NewObserver (RedisAddress (config_Velocity config)) (Window (config_Velocity config));
                   Ok (observe (config_Velocity config))
              else Ok noopVelocityObserver);
  _ ← worker_guards (risk_DatabaseURL config) (risk_KafkaBrokers config) (risk_KafkaTopic config) (risk_KafkaGroupID config);
  NewHandlerWithPoliciesAndVelocity (Policies config) observer clock.

(** ** The transaction worker *)

Record TransactionConfig := mkTransactionConfig {
  transaction_DatabaseURL : string;
  transaction_KafkaBrokers : list string;
  transaction_KafkaTopic : string;
  transaction_KafkaGroupID : string
}.

Definition transaction_defaultGroupID : string := "intelligent-wallet-ledger-transaction-v1".

Definition transaction_ConfigFromEnv (env : Env) : TransactionConfig :=
  mkTransactionConfig (TrimSpace (env "DATABASE_URL")) (splitNonempty (env "KAFKA_BROKERS"))
    (or_default (TrimSpace (env "KAFKA_TOPIC")) defaultTopic)
    (or_default (TrimSpace (env "KAFKA_TRANSACTION_GROUP_ID")) transaction_defaultGroupID).

Definition transaction_start (config : TransactionConfig) : Result unit :=
  worker_guards (transaction_DatabaseURL config) (transaction_KafkaBrokers config) (transaction_KafkaTopic config)
    (transaction_KafkaGroupID config).

(** ** The outbox publisher and its producer *)

Definition maxTopicBytes : Z := 249.
Definition maxClientIDBytes : Z := 255.
Definition maxBufferedRecords : Z := 10000.
Definition maxDeliveryTimeout : Z := 15 * 60 * Second.

Record ProducerConfig := mkProducerConfig {
  Brokers : list string;
  producer_Topic : string;
  ClientID : string;
  DeliveryTimeout : Z;
  MaxBufferedRecords : Z;
  producer_AllowAutoTopicCreation : bool
}.

Definition kafka_byte (c : Z) : bool :=
  is_lower c || is_upper c || is_digit c || (c =? 46) || (c =? 95) || (c =? 45).

Definition validKafkaName (value : string) (maxBytes : Z) : bool :=
  if bool_decide (value = "") || (maxBytes <? len value) then false else all_bytes kafka_byte value.

Definition validateProducerConfig (config : ProducerConfig) : Result (list string) :=
  if bool_decide (Brokers config = []) then Err [Other "kafka brokers are required"]
  else
    let brokers := map TrimSpace (Brokers config) in
    if existsb (fun broker => bool_decide (broker = "")) brokers then Err [Other "kafka broker address is required"]
    else if negb (validKafkaName (producer_Topic config) maxTopicBytes) || bool_decide (producer_Topic config = ".") ||
            bool_decide (producer_Topic config = "..")
    then Err [Other "kafka topic is invalid"]
    else if bool_decide (ClientID config = "") || (maxClientIDBytes <? len (ClientID config))
    then Err [Other "kafka client ID is invalid"]
    else if (DeliveryTimeout config <=? 0) || (maxDeliveryTimeout <? DeliveryTimeout config)
    then Err [Other "kafka delivery timeout"]
    else if (MaxBufferedRecords config <=? 0) || (maxBufferedRecords <? MaxBufferedRecords config)
    then Err [Other "kafka maximum buffered records"]
    else Ok brokers.

(** What the producer hands to the client. *)
Record ProducedRecord := mkProducedRecord {
  pr_Topic : string;
  pr_Key : string;
  pr_Value : string
}.

(** [Producer.Publish] over the client's [ProduceSync], which answers [None] or the
    text of its first error. *)
Definition kafka_Publish {W} (ProduceSync : ProducedRecord -> W -> option string * W) (topic : string) (message : Message) (w : W)
    : option string * W :=
  if bool_decide (Key message = "") then (Some "kafka message key is required", w)
  else if len (Value message) =? 0 then (Some "kafka message value is required", w)
  else match ProduceSync (mkProducedRecord topic (Key message) (Value message)) w with
  | (Some text, w') => (Some ("producing Kafka record: " ++ text), w')
  | (None, w') => (None, w')
  end.

(** The producer the publisher is given. *)
Definition kafka_producer {W} (ProduceSync : ProducedRecord -> W -> option string * W) (topic : string) : Producer W :=
  {| Publish := kafka_Publish ProduceSync topic |}.

Definition defaultClientID : string := "intelligent-wallet-ledger-outbox".
Definition defaultDeliveryTimeout : Z := 10 * Second.
Definition defaultClaimLease : Z := 30 * Second.
Definition defaultPollInterval : Z := 250 * Millisecond.
Definition defaultRetryDelay : Z := Second.
Definition defaultMaxRetryDelay : Z := 60 * Second.
Definition defaultBatchSize : Z := 100.

Record PublisherProcess := mkPublisherProcess {
  publisher_DatabaseURL : string;
  publisher_KafkaBrokers : list string;
  publisher_KafkaTopic : string;
  AllowAutoTopicCreation : bool
}.

Definition publisher_ConfigFromEnv (env : Env) : Result PublisherProcess :=
  allowAutoTopicCreation ← parseOptionalBool (env "KAFKA_ALLOW_AUTO_TOPIC_CREATION");
  Ok (mkPublisherProcess (TrimSpace (env "DATABASE_URL")) (splitNonempty (env "KAFKA_BROKERS"))
        (or_default (TrimSpace (env "KAFKA_TOPIC")) defaultTopic) allowAutoTopicCreation).

(** The settings [Run] gives to the producer and to the loop. *)
Definition producer_settings (config : PublisherProcess) : ProducerConfig :=
  mkProducerConfig (publisher_KafkaBrokers config) (publisher_KafkaTopic config) defaultClientID defaultDeliveryTimeout
    defaultBatchSize (AllowAutoTopicCreation config).

Definition loop_settings : PublisherConfig :=
  mkPublisherConfig defaultBatchSize defaultClaimLease defaultPollInterval defaultRetryDelay defaultMaxRetryDelay.

Definition publisher_guards (config : PublisherProcess) : Result unit :=
  if bool_decide (publisher_DatabaseURL config = "") then Err [Other "database URL is required"]
  else if bool_decide (publisher_KafkaBrokers config = []) then Err [Other "kafka brokers are required"]
  else Ok tt.

(** [Run] up to the loop of the publisher: the seed brokers and the configuration
    of the loop. *)
Definition publisher_start (config : PublisherProcess) : Result (list string * PublisherConfig) :=
  _ ← publisher_guards config;
  brokers ← validateProducerConfig (producer_settings config);
  publisher ← NewPublisher loop_settings;
  Ok (brokers, publisher).

(** ** The wallet API *)

Definition defaultAddress : string := ":8080".
Definition defaultReviewDecisionRateLimitPerMinute : Z := 12.

Record OIDCConfig := mkOIDCConfig {
  Issuer : string;
  Audience : string;
  RoleClaim : string
}.

Definition oidc_Enabled (c : OIDCConfig) : bool :=
  negb (bool_decide (Issuer c = "")) && negb (bool_decide (Audience c = "")) && negb (bool_decide (RoleClaim c = "")).

Record ApiConfig := mkApiConfig {
  Address : string;
  api_DatabaseURL : string;
  OIDC : OIDCConfig;
  ReviewDecisionRateLimitPerMinute : Z
}.

Definition reviewDecisionRateLimit (c : ApiConfig) : Z :=
  if ReviewDecisionRateLimitPerMinute c =? 0 then defaultReviewDecisionRateLimitPerMinute
  else ReviewDecisionRateLimitPerMinute c.

Definition validateOIDCConfig (config : ApiConfig) : Result unit :=
  let rateLimit := reviewDecisionRateLimit config in
  if (rateLimit <? 1) || (600 <? rateLimit) then Err [Other "review decision rate limit"]
  else if oidc_Enabled (OIDC config) then
    if bool_decide (api_DatabaseURL config = "") then Err [Other "database URL is required when OIDC is configured"] else Ok tt
  else if negb (bool_decide (Issuer (OIDC config) = "")) || negb (bool_decide (Audience (OIDC config) = "")) ||
          negb (bool_decide (RoleClaim (OIDC config) = ""))
  then Err [Other "oidc issuer, audience, and role claim must be configured together"]
  else Ok tt.

Definition reviewDecisionRateLimitFromEnv (env : Env) : Result Z :=
  let value := TrimSpace (env "REVIEW_DECISION_RATE_LIMIT_PER_MINUTE") in
  if bool_decide (value = "") then Ok defaultReviewDecisionRateLimitPerMinute
  else match Atoi value with
  | Some limit => if (limit <? 1) || (600 <? limit) then Err [Other "review decision rate limit"] else Ok limit
  | None => Err [Other "review decision rate limit"]
  end.

Definition api_ConfigFromEnv (env : Env) : Result ApiConfig :=
  let address := or_default (TrimSpace (env "HTTP_ADDRESS")) defaultAddress in
  rateLimit ← reviewDecisionRateLimitFromEnv env;
  let config := mkApiConfig address (TrimSpace (env "DATABASE_URL"))
    (mkOIDCConfig (TrimSpace (env "OIDC_ISSUER")) (TrimSpace (env "OIDC_AUDIENCE")) (TrimSpace (env "OIDC_ROLE_CLAIM")))
    rateLimit in
  _ ← validateOIDCConfig config;
  Ok config.

(** [reviewDecisionRoutes]: no routes without OIDC; the pool behind them is closed
    again when a later part cannot be made. *)
Definition reviewDecisionRoutes `{TokenBucket} (NewProvider : string -> Result (string -> string -> Result string))
    (pool : Result unit) (cfg : ApiConfig) : Result (option (HttpHandler * PrincipalRateLimiter)) :=
  if negb (oidc_Enabled (OIDC cfg)) then Ok None
  else
    _ ← pool;
    authenticator ← NewAuthenticator NewProvider (Issuer (OIDC cfg)) (Audience (OIDC cfg)) (RoleClaim (OIDC cfg));
    limiter ← NewPrincipalRateLimiter (reviewDecisionRateLimit cfg);
    Ok (Some (mkHttpHandler authenticator.1 authenticator.2, limiter)).

(** The guards of [Run] and the routes of its server. *)
Definition api_start `{TokenBucket} (NewProvider : string -> Result (string -> string -> Result string)) (pool : Result unit)
    (cfg : ApiConfig) : Result (option (HttpHandler * PrincipalRateLimiter)) :=
  if bool_decide (Address cfg = "") then Err [Other "HTTP address is required"]
  else
    _ ← validateOIDCConfig cfg;
    reviewDecisionRoutes NewProvider pool cfg.

(** ** What a loaded configuration is good for *)

Lemma bind_Ok {A B} (m : Result A) (f : A -> Result B) b : m ≫= f = Ok b -> exists a, m = Ok a /\ f a = Ok b.
Proof. destruct m as [a|e]; [by exists a|done]. Qed.

Lemma usd_policy_wf version review decline count p : usd_policy version review decline count = Ok p -> policy_wf p.
Proof. intros (c & _ & HN)%bind_Ok. apply policy_validate_Ok. by apply NewPolicy_correct in HN as [? _]. Qed.

Lemma policies_of_wf params ps : policies_of params = Ok ps -> Forall policy_wf ps /\ Datatypes.length ps = Datatypes.length params.
Proof.
  revert ps. induction params as [|param params IH]; intros ps; cbn; [by intros [= <-]|].
  intros (p & Hp & HR)%bind_Ok. apply bind_Ok in HR as (rest & Hrest & [= <-]).
  destruct (IH rest Hrest) as [Hf Hl]. split; [constructor; [by eapply usd_policy_wf|done]|cbn; by rewrite Hl].
Qed.

Lemma policiesFromEnv_wf env ps : policiesFromEnv env = Ok ps -> ps <> [] /\ Forall policy_wf ps.
Proof.
  unfold policiesFromEnv. case_bool_decide; cbn [negb].
  - intros (p & Hp & [= <-])%bind_Ok. split; [done|]. constructor; [|constructor]. unfold policyFromEnv in Hp.
    apply bind_Ok in Hp as (? & _ & Hp). apply bind_Ok in Hp as (? & _ & Hp). apply bind_Ok in Hp as (? & _ & Hp).
    by eapply usd_policy_wf.
  - unfold policiesFromJSON. destruct (policy_params _) as [[|param params]|]; [done| |done].
    intros [Hf Hl]%policies_of_wf. split; [|done]. by destruct ps.
Qed.

Lemma wf_version p : policy_wf p -> policy_version p <> "".
Proof. intros [Hv _] E. by rewrite E in Hv. Qed.

(** The versions decide whether the handler can be made. *)
Lemma index_policies_Ok ps m : Forall policy_wf ps -> (forall p, p ∈ ps -> m !! policy_version p = None) ->
  NoDup (policy_version <$> ps) ->
  exists m', index_policies ps m = Ok m' /\ m ⊆ m' /\ forall p, p ∈ ps -> m' !! policy_version p = Some p.
Proof.
  revert m. induction ps as [|p ps IH]; intros m Hwf Hnew Hnd; cbn; [by exists m; split_and!; [|done|intros ? ?%not_elem_of_nil]|].
  inversion Hwf as [|? ? Hp Hwf']; subst. cbn in Hnd. inversion Hnd as [|? ? Hnin Hnd']; subst.
  rewrite (bool_decide_eq_false_2 (policy_version p = "")) by by apply wf_version.
  rewrite (bool_decide_eq_true_2 (m !! policy_version p = None)) by (apply Hnew; left). cbn [negb].
  destruct (IH (<[policy_version p := p]> m)) as (m' & HI & Hsub & Hall); [done| |done|].
  { intros q Hq. rewrite lookup_insert_ne; [apply Hnew; by right|]. intros E. apply Hnin. rewrite E. by apply list_elem_of_fmap_2. }
  exists m'. split_and!; [done| |].
  - etrans; [|exact Hsub]. apply insert_subseteq, Hnew. left.
  - intros q [->|Hq]%elem_of_cons; [|by apply Hall]. eapply lookup_weaken; [apply lookup_insert_eq|exact Hsub].
Qed.

Lemma index_policies_NoDup ps m m' : index_policies ps m = Ok m' ->
  NoDup (policy_version <$> ps) /\ forall p, p ∈ ps -> m !! policy_version p = None.
Proof.
  revert m. induction ps as [|p ps IH]; intros m; cbn; [intros _; split; [constructor|by intros ? ?%not_elem_of_nil]|].
  case_bool_decide; [done|]. case_bool_decide as Hn; [|done]. cbn [negb]. intros HI. apply IH in HI as [Hnd Hall].
  split.
  - constructor; [|done]. intros (q & Eq & Hq)%list_elem_of_fmap. specialize (Hall q Hq). rewrite Eq, lookup_insert_eq in Hall. done.
  - intros q [->|Hq]%elem_of_cons; [done|]. specialize (Hall q Hq). by apply lookup_insert_None in Hall as [? _].
Qed.

Lemma NewHandler_starts ps observer clock : ps <> [] -> Forall policy_wf ps ->
  (is_ok (NewHandlerWithPoliciesAndVelocity ps observer clock) = true <-> NoDup (policy_version <$> ps)) /\
  (forall h, NewHandlerWithPoliciesAndVelocity ps observer clock = Ok h ->
     velocity h = observer /\ forall p, p ∈ ps -> policies h !! policy_version p = Some p).
Proof.
  intros Hne Hwf. unfold NewHandlerWithPoliciesAndVelocity. destruct ps as [|p0 ps0] eqn:E; [done|]. rewrite <- E in *. clear E p0 ps0.
  destruct (index_policies ps ∅) as [m|e] eqn:EI; cbn.
  - apply index_policies_NoDup in EI as Hnd. destruct Hnd as [Hnd _]. split; [by split|]. intros h [= <-]. split; [done|].
    destruct (index_policies_Ok ps ∅ Hwf) as (m' & HI & _ & Hall); [intros; apply lookup_empty|done|].
    assert (m' = m) as -> by congruence. exact Hall.
  - split; [|done]. split; [done|]. intros Hnd.
    destruct (index_policies_Ok ps ∅ Hwf) as (m' & HI & _); [intros; apply lookup_empty|done|]. congruence.
Qed.

Lemma or_default_ne value fallback : fallback <> "" -> or_default value fallback <> "".
Proof. unfold or_default. by case_bool_decide. Qed.

Lemma worker_guards_Ok url brokers topic group : topic <> "" -> group <> "" ->
  (worker_guards url brokers topic group = Ok tt <-> url <> "" /\ brokers <> []) .
Proof.
  intros Ht Hg. unfold worker_guards. repeat case_bool_decide; naive_solver.
Qed.

Lemma velocityConfig_spec env ps v : velocityConfigFromEnv env ps = Ok v ->
  Enabled v = existsb RequiresVelocity ps /\
  (Enabled v = true -> NewObserver (RedisAddress v) (Window v) = Ok (Window v)).
Proof.
  unfold velocityConfigFromEnv. destruct (existsb RequiresVelocity ps); [|intros [= <-]; split; done].
  case_bool_decide as Ha; [done|]. destruct (ParseDuration _) as [window|]; [|done].
  destruct (window <? Millisecond) eqn:Ew; [done|]. intros [= <-]. unfold Enabled, NewObserver. cbn [RedisAddress Window].
  rewrite TrimSpace_idemp, Ew, bool_decide_eq_false_2 by done. done.
Qed.

Lemma risk_config_spec env c observe clock : risk_ConfigFromEnv env = Ok c ->
  Policies c <> [] /\ Forall policy_wf (Policies c) /\
  Enabled (config_Velocity c) = existsb RequiresVelocity (Policies c) /\
  (is_ok (risk_start c observe clock) = true <->
     risk_DatabaseURL c <> "" /\ risk_KafkaBrokers c <> [] /\ NoDup (policy_version <$> Policies c)) /\
  (forall h, risk_start c observe clock = Ok h ->
     (forall p, p ∈ Policies c -> policies h !! policy_version p = Some p) /\
     (Enabled (config_Velocity c) = true -> velocity h = observe (config_Velocity c))).
Proof.
  intros (ps & Hps & HR)%bind_Ok. apply bind_Ok in HR as (v & Hv & [= <-]). cbn.
  apply policiesFromEnv_wf in Hps as [Hne Hwf]. apply velocityConfig_spec in Hv as [He Hobs].
  split_and!; [done|done|done| |].
  all: unfold risk_start; cbn [config_Velocity risk_DatabaseURL risk_KafkaBrokers risk_KafkaTopic risk_KafkaGroupID Policies].
  all: set (obs := if Enabled v then _ else _).
  all: assert (Ho : exists o, obs = Ok o /\ (Enabled v = true -> o = observe v))
    by (subst obs; destruct (Enabled v); [rewrite Hobs by done|]; eexists; by split).
  all: destruct Ho as (o & -> & Ho); cbn [mbind Result_bind].
  all: pose proof (worker_guards_Ok (TrimSpace (env "DATABASE_URL")) (splitNonempty (env "KAFKA_BROKERS"))
         (or_default (TrimSpace (env "KAFKA_TOPIC")) defaultTopic) (or_default (TrimSpace (env "KAFKA_GROUP_ID")) risk_defaultGroupID)
         (or_default_ne _ defaultTopic ltac:(done)) (or_default_ne _ risk_defaultGroupID ltac:(done))) as Hg.
  all: pose proof (NewHandler_starts ps o clock Hne Hwf) as [Hstart Hh].
  all: destruct (worker_guards _ _ _ _) as [[]|e]; cbn [mbind Result_bind is_ok].
  - rewrite Hstart. destruct (proj1 Hg eq_refl) as [? ?]. naive_solver.
  - split; [done|]. intros (Hu & Hbs & _). discriminate (proj2 Hg (conj Hu Hbs)).
  - intros h HN. destruct (Hh h HN) as [Hvel Hp]. split; [done|]. intros E. rewrite Hvel. by apply Ho.
  - done.
Qed.

Lemma splitNonempty_trimmed value part : part ∈ splitNonempty value -> TrimSpace part = part /\ part <> "".
Proof.
  unfold splitNonempty. intros [Hne (x & -> & _)%list_elem_of_fmap]%list_elem_of_filter. split; [apply TrimSpace_idemp|done].
Qed.

Lemma map_TrimSpace_id parts : (forall part, part ∈ parts -> TrimSpace part = part) -> map TrimSpace parts = parts.
Proof.
  induction parts as [|part parts IH]; intros Hall; [done|]. cbn. rewrite Hall by left. f_equal. apply IH. intros; apply Hall. by right.
Qed.

Lemma no_empty_part parts : (forall part, part ∈ parts -> part <> "") ->
  existsb (fun part => bool_decide (part = "")) parts = false.
Proof.
  induction parts as [|part parts IH]; intros Hall; [done|]. cbn. rewrite bool_decide_eq_false_2 by (apply Hall; left).
  apply IH. intros; apply Hall. by right.
Qed.

(** The fixed settings of the publisher are within the producer's and the loop's bounds. *)
Lemma validate_producer_settings config :
  (forall part, part ∈ publisher_KafkaBrokers config -> TrimSpace part = part /\ part <> "") ->
  validateProducerConfig (producer_settings config) =
    if bool_decide (publisher_KafkaBrokers config = []) then Err [Other "kafka brokers are required"]
    else if negb (validKafkaName (publisher_KafkaTopic config) maxTopicBytes) || bool_decide (publisher_KafkaTopic config = ".") ||
            bool_decide (publisher_KafkaTopic config = "..")
    then Err [Other "kafka topic is invalid"] else Ok (publisher_KafkaBrokers config).
Proof.
  intros Hb. unfold validateProducerConfig, producer_settings. cbn [Brokers producer_Topic ClientID DeliveryTimeout MaxBufferedRecords].
  rewrite map_TrimSpace_id by (intros; by apply Hb). rewrite no_empty_part by (intros; by apply Hb). reflexivity.
Qed.

Lemma loop_settings_valid : validatePublisherConfig loop_settings = Ok tt.
Proof. reflexivity. Qed.

(** A start that a guard refuses. *)
Ltac refused := split; [split; [done|intuition congruence]|done].

Lemma publisher_start_spec env c : publisher_ConfigFromEnv env = Ok c ->
  (is_ok (publisher_start c) = true <->
     publisher_DatabaseURL c <> "" /\ publisher_KafkaBrokers c <> [] /\
     validKafkaName (publisher_KafkaTopic c) maxTopicBytes = true /\ publisher_KafkaTopic c ∉ ["."; ".."]) /\
  (forall brokers config, publisher_start c = Ok (brokers, config) ->
     brokers = publisher_KafkaBrokers c /\ validatePublisherConfig config = Ok tt).
Proof.
  intros (allow & _ & [= <-])%bind_Ok. unfold publisher_start, publisher_guards.
  rewrite validate_producer_settings by apply splitNonempty_trimmed.
  cbn [publisher_DatabaseURL publisher_KafkaBrokers publisher_KafkaTopic AllowAutoTopicCreation].
  set (bs := splitNonempty _). set (topic := or_default _ _).
  unfold NewPublisher. rewrite loop_settings_valid. rewrite !not_elem_of_cons.
  destruct (bool_decide_reflect (TrimSpace (env "DATABASE_URL") = "")); [refused|].
  destruct (bool_decide_reflect (bs = [])); [refused|].
  destruct (validKafkaName topic maxTopicBytes); [|refused]. cbn [negb orb].
  destruct (bool_decide_reflect (topic = ".")); [refused|]. destruct (bool_decide_reflect (topic = "..")); [refused|].
  cbn [orb mbind Result_bind mret Result_ret is_ok].
  split; [|intros ? ? [= <- <-]; split; [done|apply loop_settings_valid]].
  split; [|done]. intros _. split_and!; try done. apply not_elem_of_nil.
Qed.

(** What the routes are made of when the token's issuer can be discovered. *)
Lemma api_start_spec `{TokenBucket} env c NewProvider : api_ConfigFromEnv env = Ok c ->
  if oidc_Enabled (OIDC c) then
    forall verifier, NewProvider (Issuer (OIDC c)) = Ok verifier ->
      exists l, NewPrincipalRateLimiter (reviewDecisionRateLimit c) = Ok l /\
        api_start NewProvider (Ok tt) c = Ok (Some (mkHttpHandler (verifier (Audience (OIDC c))) (RoleClaim (OIDC c)), l))
  else api_start NewProvider (Ok tt) c = Ok None.
Proof.
  unfold api_ConfigFromEnv. cbv zeta. intros (limit & Hlimit & HR)%bind_Ok. apply bind_Ok in HR as ([] & Hv & [= <-]).
  set (cfg := mkApiConfig _ _ _ _) in *. unfold api_start. rewrite Hv.
  rewrite (bool_decide_eq_false_2 (Address cfg = "")) by by apply or_default_ne.
  cbn [mbind Result_bind]. unfold reviewDecisionRoutes.
  destruct (oidc_Enabled (OIDC cfg)) eqn:He; cbn [negb mbind Result_bind]; [|done]. intros verifier HP.
  unfold validateOIDCConfig in Hv. cbv zeta in Hv.
  assert (Hl : NewPrincipalRateLimiter (reviewDecisionRateLimit cfg) =
    Ok (mkRateLimiter (reviewDecisionRateLimit cfg) (if reviewDecisionRateLimit cfg =? 1 then 1 else 2) ∅ zeroTime)).
  { unfold NewPrincipalRateLimiter, maxRateLimitPerMinute. by destruct ((reviewDecisionRateLimit cfg <? 1) || _). }
  eexists. split; [exact Hl|]. unfold NewAuthenticator. cbv zeta.
  unfold oidc_Enabled in He. rewrite !andb_true_iff, !negb_true_iff, !bool_decide_eq_false in He. destruct He as [[Hi Ha] Hr].
  assert (Ht : TrimSpace (Issuer (OIDC cfg)) = Issuer (OIDC cfg) /\ TrimSpace (Audience (OIDC cfg)) = Audience (OIDC cfg) /\
    TrimSpace (RoleClaim (OIDC cfg)) = RoleClaim (OIDC cfg)) by (split_and!; apply TrimSpace_idemp).
  destruct Ht as (-> & -> & ->). rewrite !bool_decide_eq_false_2 by done. cbn [orb]. rewrite HP. cbn [mbind Result_bind].
  by rewrite Hl.
Qed.

Lemma object_text fields : marshal (VObject fields) <> "".
Proof. discriminate. Qed.

(** The guards of the producer never refuse what the publisher sends: the key and
    the value of a claimed event's message are never empty. *)
Lemma publisher_messages_sent {W} (ProduceSync : ProducedRecord -> W -> option string * W) topic e fields w :
  sendable e fields -> exists m, message_of e = Ok m /\
    let p := ProduceSync (mkProducedRecord topic (Key m) (Value m)) w in
    kafka_Publish ProduceSync topic m w = (match p.1 with Some text => Some ("producing Kafka record: " ++ text) | None => None end, p.2).
Proof.
  intros Hs. unfold message_of. rewrite (encode_sendable e fields Hs). eexists. split; [reflexivity|]. unfold kafka_Publish.
  cbn [Key Value]. rewrite bool_decide_eq_false_2 by by destruct (aggregateType _).
  rewrite (proj2 (Z.eqb_neq (len (marshal (VObject (envelope_value e fields)))) 0)) by by intros E%len_0%object_text.
  destruct (ProduceSync _ w) as [[text|] w']; done.
Qed.

(** C40: a configuration that loads is fit to run.  For every environment: the risk
    worker's policies are non-empty and well formed, an observer with an accepted
    window is configured exactly when one of them counts velocity, and the worker
    starts exactly when a database and brokers are named and the policy versions
    are distinct, its handler then finding each policy by its version; the
    transaction worker starts exactly when a database and brokers are named; the
    publisher when also its topic is one Kafka accepts, its brokers being the
    ones given and its loop's settings within bounds; and the API always gets its
    limiter and its authenticator once the token issuer is discovered, or serves
    no routes because no issuer is configured. *)
Theorem loaded_configuration_starts `{TokenBucket} (env : Env) :
  (forall c observe clock, risk_ConfigFromEnv env = Ok c ->
     Policies c <> [] /\ Forall policy_wf (Policies c) /\
     Enabled (config_Velocity c) = existsb RequiresVelocity (Policies c) /\
     (is_ok (risk_start c observe clock) = true <->
        risk_DatabaseURL c <> "" /\ risk_KafkaBrokers c <> [] /\ NoDup (policy_version <$> Policies c)) /\
     (forall h, risk_start c observe clock = Ok h ->
        (forall p, p ∈ Policies c -> policies h !! policy_version p = Some p) /\
        (Enabled (config_Velocity c) = true -> velocity h = observe (config_Velocity c)))) /\
  (is_ok (transaction_start (transaction_ConfigFromEnv env)) = true <->
     TrimSpace (env "DATABASE_URL") <> "" /\ splitNonempty (env "KAFKA_BROKERS") <> []) /\
  (forall c, publisher_ConfigFromEnv env = Ok c ->
     (is_ok (publisher_start c) = true <->
        publisher_DatabaseURL c <> "" /\ publisher_KafkaBrokers c <> [] /\
        validKafkaName (publisher_KafkaTopic c) maxTopicBytes = true /\ publisher_KafkaTopic c ∉ ["."; ".."]) /\
     (forall brokers config, publisher_start c = Ok (brokers, config) ->
        brokers = publisher_KafkaBrokers c /\ validatePublisherConfig config = Ok tt)) /\
  (forall c NewProvider, api_ConfigFromEnv env = Ok c ->
     if oidc_Enabled (OIDC c) then
       forall verifier, NewProvider (Issuer (OIDC c)) = Ok verifier ->
         exists l, NewPrincipalRateLimiter (reviewDecisionRateLimit c) = Ok l /\
           api_start NewProvider (Ok tt) c = Ok (Some (mkHttpHandler (verifier (Audience (OIDC c))) (RoleClaim (OIDC c)), l))
     else api_start NewProvider (Ok tt) c = Ok None).
Proof.
  split_and!; [apply risk_config_spec| |apply publisher_start_spec|apply api_start_spec].
  unfold transaction_start, transaction_ConfigFromEnv. cbn [transaction_DatabaseURL transaction_KafkaBrokers
    transaction_KafkaTopic transaction_KafkaGroupID].
  rewrite <- (worker_guards_Ok _ _ (or_default (TrimSpace (env "KAFKA_TOPIC")) defaultTopic)
    (or_default (TrimSpace (env "KAFKA_TRANSACTION_GROUP_ID")) transaction_defaultGroupID)) by by apply or_default_ne.
  by destruct (worker_guards _ _ _ _) as [[]|].
Qed.

(** ** Concrete environments *)

Definition env_of (l : list (string * string)) : Env := fun name =>
  match find (fun '(n, _) => bool_decide (n = name)) l with Some (_, v) => v | None => "" end.

(** Two policies in JSON, one of which counts velocity in a window of a minute and a half. *)
Definition two_policies : string :=
  marshal (VArray [VObject [("version", VString "risk-v1"); ("review_amount_usd_minor", VInt 100); ("decline_amount_usd_minor", VInt 500);
                            ("comment", VString "first")];
                   VObject [("version", VString "risk-v2"); ("review_amount_usd_minor", VInt 50); ("decline_amount_usd_minor", VInt 400);
                            ("velocity_review_transfer_count", VInt 3)]]).

Definition full_env : Env :=
  env_of [("DATABASE_URL", " postgres://db "); ("KAFKA_BROKERS", "kafka-1:9092, ,kafka-2:9092,"); ("RISK_POLICIES_JSON", two_policies);
          ("REDIS_ADDRESS", "redis:6379"); ("RISK_VELOCITY_WINDOW", "1.5m"); ("OIDC_ISSUER", "https://issuer"); ("OIDC_AUDIENCE", "wallet");
          ("OIDC_ROLE_CLAIM", "roles"); ("KAFKA_ALLOW_AUTO_TOPIC_CREATION", "true")].

Definition full_risk : bool :=
  match risk_ConfigFromEnv full_env with
  | Ok c => bool_decide (map policy_version (Policies c) = ["risk-v1"; "risk-v2"]) &&
            bool_decide (risk_KafkaBrokers c = ["kafka-1:9092"; "kafka-2:9092"]) && (Window (config_Velocity c) =? 90 * Second)
  | Err _ => false
  end.

Lemma loaded_configuration_starts_witness :
  full_risk = true /\ is_ok (transaction_start (transaction_ConfigFromEnv full_env)) = true /\
  exists c, api_ConfigFromEnv full_env = Ok c /\ oidc_Enabled (OIDC c) = true /\
    exists l : @PrincipalRateLimiter burst_only, NewPrincipalRateLimiter (reviewDecisionRateLimit c) = Ok l.
Proof.
  destruct (@loaded_configuration_starts burst_only full_env) as (_ & Ht & _ & Ha).
  split; [vm_compute; reflexivity|]. split; [apply Ht; split; vm_compute; discriminate|].
  destruct (api_ConfigFromEnv full_env) as [c|e] eqn:E; [|vm_compute in E; discriminate E].
  assert (He : match api_ConfigFromEnv full_env with Ok c => oidc_Enabled (OIDC c) | Err _ => false end = true) by (vm_compute; reflexivity).
  rewrite E in He. exists c. split; [reflexivity|]. split; [exact He|].
  specialize (Ha c (fun _ => Ok (fun _ _ => Ok "")) eq_refl). rewrite He in Ha.
  destruct (Ha _ eq_refl) as (l & Hl & _). by exists l.
Defined.
