(* ===== verification/Runtime.v ===== *)
(** * The processes, running

    The [Run] functions of [internal/app/riskworker/run.go],
    [internal/app/transactionworker/run.go], [internal/app/outboxpublisher/run.go] and
    [internal/app/walletapi/run.go] and the [main] functions of [cmd/], from the
    configuration to the exit status: what they open, wait for and release, in
    order, around the loops of Consumer.v and Publisher.v.  Whether a connection
    can be made and a service answers is an argument ([Outside]).  The server of the
    API runs next to the goroutine that listens, as a step function on events in
    any order. *)

From stdpp Require Import base list gmap strings numbers.
From Stdlib Require Import ZArith Lia.
From S2P Require Import RiskWorker TransactionWorker ReviewCase.
From S2P Require Import Prelude GoText Database PgInstance Scenario Publisher Velocity Consumer ReviewHttp Processes.

Open Scope string_scope.
Open Scope Z_scope.

(** ** Resources *)

Inductive Resource := Signals | DatabasePool | StartupDeadline | KafkaConsumer | KafkaProducer | RedisClient.

#[global] Instance Resource_eq_dec : EqDecision Resource.
Proof. solve_decision. Defined.

(** What a process does to them; [Started] is the begin of its loop, and
    [Cancelled] the early call of a function that is deferred as well. *)
Inductive Step :=
| Opened (r : Resource)
| Pinged (r : Resource)
| Cancelled (r : Resource)
| Started
| Released (r : Resource).

#[global] Instance Step_eq_dec : EqDecision Step.
Proof. solve_decision. Defined.

(** The errors of the constructors and pings of the clients, if any. *)
Record Outside := mkOutside {
  open_answer : Resource -> option error;
  ping_answer : Resource -> option error
}.

(** What a process has done and the state its loop works on. *)
Record Process (X : Type) := mkProcess {
  steps : list Step;
  inside : X
}.
Arguments mkProcess {_} _ _.
Arguments steps {_} _.
Arguments inside {_} _.

(** Part of a process; it gives [None] while it still runs. *)
Definition Proc (X A : Type) : Type := Process X -> option (Result A) * Process X.

Section Parts.
Context {X : Type}.

#[global] Instance Proc_ret : MRet (Proc X) := fun A a p => (Some (Ok a), p).

#[global] Instance Proc_bind : MBind (Proc X) := fun A B f m p =>
  match m p with
  | (Some (Ok a), p') => f a p'
  | (Some (Err e), p') => (Some (Err e), p')
  | (None, p') => (None, p')
  end.

Definition note (s : Step) (p : Process X) : Process X := mkProcess (steps p ++ [s]) (inside p).

Definition checked {A} (r : Result A) : Proc X A := fun p => (Some r, p).

(** A step that is done unless the world outside answers with an error. *)
Definition attempt (answer : option error) (s : Step) : Proc X unit := fun p =>
  match answer with
  | Some e => (Some (Err e), p)
  | None => (Some (Ok tt), note s p)
  end.

(** [defer]: the step is done when the rest of the function has returned. *)
Definition deferred {A} (s : Step) (rest : Proc X A) : Proc X A := fun p =>
  match rest p with
  | (Some r, p') => (Some r, note s p')
  | (None, p') => (None, p')
  end.

(** A resource that is released when the rest of the function has returned. *)
Definition opening {A} (answer : option error) (r : Resource) (rest : Proc X A) : Proc X A :=
  _ ← attempt answer (Opened r);
  deferred (Released r) rest.

(** The loop. *)
Definition looping {A} (loop : X -> option (Result A) * X) : Proc X A := fun p =>
  let (r, x) := loop (inside p) in (r, mkProcess (steps p ++ [Started]) x).

End Parts.

(** The resources that are open after some steps; [None] when one is opened twice,
    used when it is closed, or released twice. *)
Fixpoint replay (held : list Resource) (l : list Step) : option (list Resource) :=
  match l with
  | [] => Some held
  | Opened r :: rest => if bool_decide (r ∈ held) then None else replay (r :: held) rest
  | Pinged r :: rest | Cancelled r :: rest => if bool_decide (r ∈ held) then replay held rest else None
  | Released r :: rest => if bool_decide (r ∈ held) then replay (filter (fun x => x <> r) held) rest else None
  | Started :: rest => replay held rest
  end.

(** ** The workers and the publisher *)

Section Run.
Context `{Pg}.
Variable out : Outside.

Definition worker_client {A} (rest : Proc Consuming A) : Proc Consuming A :=
  opening (open_answer out KafkaConsumer) KafkaConsumer (
    _ ← attempt (ping_answer out KafkaConsumer) (Pinged KafkaConsumer);
    _ ← attempt None (Cancelled StartupDeadline);
    rest).

(** [transactionworker.Run] with a logger; its constructors get no nil. *)
Definition transaction_Run (config : TransactionConfig) (now : World -> Time) (s : Service) (answers : nat -> option error)
    (polls : list Poll) : Proc Consuming unit :=
  _ ← checked (transaction_start config);
  opening (open_answer out DatabasePool) DatabasePool (
    opening None StartupDeadline (
      _ ← attempt (ping_answer out DatabasePool) (Pinged DatabasePool);
      worker_client (looping (transaction_consume now s answers polls)))).

(** [riskworker.Run] with a logger: the observer reads Redis and the handler the
    clock when they are called. *)
Definition risk_Run (config : RiskConfig) (velocity : option (World -> VelocityObserver)) (now : World -> Time) (s : Service)
    (answers : nat -> option error) (polls : list Poll) : Proc Consuming unit :=
  _ ← checked (worker_guards (risk_DatabaseURL config) (risk_KafkaBrokers config) (risk_KafkaTopic config) (risk_KafkaGroupID config));
  _ ← checked (if Enabled (config_Velocity config) && negb (bool_decide (is_Some velocity))
               then Err [Other "velocity observer is required"] else Ok tt);
  let observer := default (fun _ => noopVelocityObserver) velocity in
  opening (open_answer out DatabasePool) DatabasePool (
    opening None StartupDeadline (
      _ ← attempt (ping_answer out DatabasePool) (Pinged DatabasePool);
      h ← checked (NewHandlerWithPoliciesAndVelocity (Policies config) noopVelocityObserver zeroTime);
      worker_client (looping (risk_consume (fun w => mkHandler (policies h) (observer w) (now w)) s answers polls)))).

(** [outboxpublisher.Run]: [NewProducer] checks its settings before it opens the
    client, and the loop runs for [fuel] iterations with [done] telling whether
    the context has ended. *)
Definition NewProducer {X A} (config : ProducerConfig) (rest : Proc X A) : Proc X A :=
  _ ← checked (validateProducerConfig config);
  opening (open_answer out KafkaProducer) KafkaProducer rest.

Definition outbox_Run {W} `{Store W} (ProduceSync : ProducedRecord -> W -> option string * W) (config : PublisherProcess)
    (fuel : nat) (done : nat -> bool) : Proc W unit :=
  _ ← checked (publisher_guards config);
  opening (open_answer out DatabasePool) DatabasePool (
    opening None StartupDeadline (
      _ ← attempt (ping_answer out DatabasePool) (Pinged DatabasePool);
      NewProducer (producer_settings config) (
        _ ← attempt (ping_answer out KafkaProducer) (Pinged KafkaProducer);
        _ ← attempt None (Cancelled StartupDeadline);
        loop ← checked (NewPublisher loop_settings);
        looping (@publisher_Run W _ (kafka_producer ProduceSync (publisher_KafkaTopic config)) fuel loop done 0)))).

(** ** The server of the API *)

(** The goroutine that listens, and what it has to send. *)
Inductive Goroutine :=
| Listening
| Listened (e : error)
| Finished.

Inductive Main :=
| Selecting
| ShuttingDown
| Ended (r : Result unit).

(** The two of them, the channel between them, whether the context has ended,
    and the requests that are being answered. *)
Record Serving := mkServing {
  goroutine : Goroutine;
  errCh : list error;
  cancelled : bool;
  main : Main;
  active : Z
}.

Definition serving_start : Serving := mkServing Listening [] false Selecting 0.

Definition ErrServerClosed : leaf := errors_New "http: Server closed".

(** What [make(chan error, 1)] holds at most. *)
Definition errCh_capacity : nat := 1.

(** What can happen.  [ListenAndServe] fails of itself, or returns because
    [Shutdown] was called; [Shutdown] returns without an error only when no request
    is being answered any more. *)
Inductive Happening :=
| ListenFails (e : leaf)
| ListenCloses
| GoroutineSends
| ContextEnds
| MainReceives
| MainShutsDown
| ShutdownReturns (answer : option error)
| RequestBegins
| RequestEnds.

Definition serving_step (h : Happening) (s : Serving) : option Serving :=
  match h, goroutine s, main s with
  | ListenFails e, Listening, _ =>
      if bool_decide (e = ErrServerClosed) then None
      else Some (mkServing (Listened [e]) (errCh s) (cancelled s) (main s) (active s))
  | ListenCloses, Listening, (ShuttingDown | Ended _) =>
      Some (mkServing (Listened [ErrServerClosed]) (errCh s) (cancelled s) (main s) (active s))
  | GoroutineSends, Listened e, _ =>
      if (length (errCh s) <? errCh_capacity)%nat
      then Some (mkServing Finished (errCh s ++ [e]) (cancelled s) (main s) (active s))
      else None
  | ContextEnds, _, _ => Some (mkServing (goroutine s) (errCh s) true (main s) (active s))
  | MainReceives, _, Selecting =>
      match errCh s with
      | e :: rest => Some (mkServing (goroutine s) rest (cancelled s)
          (Ended (if errors_Is e ErrServerClosed then Ok tt else Err e)) (active s))
      | [] => None
      end
  | MainShutsDown, _, Selecting =>
      if cancelled s then Some (mkServing (goroutine s) (errCh s) true ShuttingDown (active s)) else None
  | ShutdownReturns answer, _, ShuttingDown =>
      match answer with
      | Some e => Some (mkServing (goroutine s) (errCh s) (cancelled s) (Ended (Err e)) (active s))
      | None => if active s =? 0 then Some (mkServing (goroutine s) (errCh s) (cancelled s) (Ended (Ok tt)) (active s)) else None
      end
  | RequestBegins, _, (Selecting | ShuttingDown) =>
      Some (mkServing (goroutine s) (errCh s) (cancelled s) (main s) (active s + 1))
  | RequestEnds, _, (Selecting | ShuttingDown) =>
      if 0 <? active s then Some (mkServing (goroutine s) (errCh s) (cancelled s) (main s) (active s - 1)) else None
  | _, _, _ => None
  end.

(** Happenings in an order; what cannot happen is left out. *)
Fixpoint serving_run (hs : list Happening) (s : Serving) : Serving :=
  match hs with
  | [] => s
  | h :: rest => serving_run rest (default s (serving_step h s))
  end.

Definition serving (hs : list Happening) (s : Serving) : option (Result unit) * Serving :=
  let s' := serving_run hs s in
  (match main s' with Ended r => Some r | _ => None end, s').

(** [walletapi.Run] with a logger: without OIDC no pool is opened; with it the
    pool is closed on every way out. *)
Definition api_Run `{TokenBucket} (NewProvider : string -> Result (string -> string -> Result string)) (cfg : ApiConfig)
    (hs : list Happening) : Proc Serving unit :=
  _ ← checked (if bool_decide (Address cfg = "") then Err [Other "HTTP address is required"] else Ok tt);
  _ ← checked (validateOIDCConfig cfg);
  if oidc_Enabled (OIDC cfg) then
    opening (open_answer out DatabasePool) DatabasePool (
      _ ← checked (reviewDecisionRoutes NewProvider (Ok tt) cfg);
      looping (serving hs))
  else looping (serving hs).

(** ** The commands *)

(** [os.Exit(1)] for an error. *)
Definition exit_code (r : Result unit) : Z := match r with Ok _ => 0 | Err _ => 1 end.

(** The context of the signals around [Run]; [stop] is called when it returns. *)
Definition with_signals {X} (run : Proc X unit) : Proc X unit := opening None Signals run.

(** The exit status, if the command has ended. *)
Definition exits {X} (m : Proc X unit) (x : X) : option Z * Process X :=
  let (r, p) := m (mkProcess [] x) in (exit_code <$> r, p).

(** [cmd/transaction-worker/main.go]. *)
Definition transaction_main (env : Env) (now : World -> Time) (s : Service) (answers : nat -> option error) (polls : list Poll)
    (c : Consuming) : option Z * Process Consuming :=
  exits (with_signals (transaction_Run (transaction_ConfigFromEnv env) now s answers polls)) c.

(** [cmd/outbox-publisher/main.go]. *)
Definition outbox_main {W} `{Store W} (ProduceSync : ProducedRecord -> W -> option string * W) (env : Env) (fuel : nat)
    (done : nat -> bool) (w : W) : option Z * Process W :=
  exits (config ← checked (publisher_ConfigFromEnv env); with_signals (outbox_Run ProduceSync config fuel done)) w.

(** [cmd/wallet-api/main.go]: the configuration is read with the signals in place. *)
Definition api_main `{TokenBucket} (NewProvider : string -> Result (string -> string -> Result string)) (env : Env)
    (hs : list Happening) : option Z * Process Serving :=
  exits (with_signals (config ← checked (api_ConfigFromEnv env); api_Run NewProvider config hs)) serving_start.

(** [cmd/risk-worker/main.go]: the observer is made before [Run] and closed after
    it; a failure to make it ends the command at once. *)
Definition risk_main (observe : VelocityConfig -> World -> VelocityObserver) (env : Env) (now : World -> Time) (s : Service)
    (answers : nat -> option error) (polls : list Poll) (c : Consuming) : option Z * Process Consuming :=
  exits (
    config ← checked (risk_ConfigFromEnv env);
    let velocity := config_Velocity config in
    _ ← attempt None (Opened Signals);
    if Enabled velocity then
      _ ← checked (NewObserver (RedisAddress velocity) (Window velocity));
      opening None RedisClient (
        deferred (Released Signals) (risk_Run config (Some (observe velocity)) now s answers polls))
    else deferred (Released Signals) (risk_Run config None now s answers polls)) c.

End Run.

(** ** The server's goroutine *)

Section ServingInv.
(** The errors of the listener and of [Shutdown] that happen. *)
Variable listens shuts : error -> Prop.
Hypothesis listens_open : forall e, listens e -> errors_Is e ErrServerClosed = false.

(** What is or was on its way through the channel. *)
Definition sent_by (s : Serving) (e : error) : Prop := listens e \/ e = [ErrServerClosed] /\ main s <> Selecting.

(** What holds at every moment. *)
Record serving_inv (s : Serving) : Prop := {
  sv_sent : goroutine s <> Finished -> errCh s = [];
  sv_received : goroutine s = Finished -> main s = Selecting -> errCh s <> [];
  sv_listened e : goroutine s = Listened e -> sent_by s e;
  sv_channel : Forall (sent_by s) (errCh s);
  sv_told : main s = ShuttingDown -> cancelled s = true;
  sv_clean : main s = Ended (Ok tt) -> cancelled s = true /\ active s = 0;
  sv_failed e : main s = Ended (Err e) -> listens e \/ shuts e
}.

Lemma serving_start_inv : serving_inv serving_start.
Proof. by split. Qed.

(** A happening that is among the errors that happen. *)
Definition blames (h : Happening) : Prop :=
  match h with
  | ListenFails e => e <> ErrServerClosed -> listens [e]
  | ShutdownReturns (Some e) => shuts e
  | _ => True
  end.

Lemma sent_by_later s s' e : (main s' = Selecting -> main s = Selecting) -> sent_by s e -> sent_by s' e.
Proof. intros Hm [?|[-> Hs]]; [by left|right; auto]. Qed.

Lemma sent_by_laters s s' es : (main s' = Selecting -> main s = Selecting) -> Forall (sent_by s) es -> Forall (sent_by s') es.
Proof. intros Hm. apply Forall_impl. intros x. by apply sent_by_later. Qed.

Lemma serving_step_inv h s s' : blames h -> serving_inv s -> serving_step h s = Some s' -> serving_inv s'.
Proof.
  intros Hb [H1 H2 H3 H4 H5 H6 H7]. destruct s as [g ch c m a].
  destruct h as [e| | | | | |answer| |]; cbn [serving_step goroutine errCh cancelled main active] in *.
  - destruct g; try done. case_bool_decide as He; [done|]. intros [= <-]. split; cbn; try done; auto.
    intros e' [= <-]. left. by apply Hb.
  - destruct g, m; try done; intros [= <-]; split; cbn; try done; auto; intros e' [= <-]; right; done.
  - destruct g as [|e|]; try done. assert (ch = []) as -> by (by apply H1). intros [= <-].
    split; cbn; try done; auto. constructor; [by apply H3|done].
  - intros [= <-]. split; cbn in *; auto. intros E. by destruct (H6 E).
  - destruct g, m; try done; destruct ch as [|x rest]; try done; intros [= <-]; try (by specialize (H1 ltac:(done))).
    apply Forall_cons_1 in H4 as [[Hl|[_ Hne]] Hrest]; [|done]. rewrite (listens_open x Hl). split; cbn; try done.
    + eapply sent_by_laters; [|exact Hrest]; done.
    + intros y [= <-]. by left.
  - destruct g, m; try done; destruct c; try done; intros [= <-]; split; cbn; try done; auto.
    all: try (intros e' He; eapply sent_by_later; [|by apply H3]; done).
    all: eapply sent_by_laters; [|exact H4]; done.
  - destruct g as [|ge|], m as [| |mr]; try done; (destruct answer as [e|]; [|destruct (a =? 0) eqn:Ea; [|done]]); intros [= <-]; split; cbn; try done; auto.
    all: try (intros e' He; eapply sent_by_later; [|by apply H3]; done).
    all: try (eapply sent_by_laters; [|exact H4]; done).
    all: try (intros e' [= <-]; right; exact Hb).
    all: intros _; split; [by apply H5|lia].
  - destruct g, m; try done; intros [= <-]; split; cbn; try done; auto.
  - destruct g, m; try done; (destruct (0 <? a); [|done]); intros [= <-]; split; cbn; try done; auto.
Qed.

Lemma serving_run_inv hs s : Forall blames hs -> serving_inv s -> serving_inv (serving_run hs s).
Proof.
  intros Hb. revert s. induction Hb as [|h hs Hh _ IH]; intros s Hs; [done|]. cbn [serving_run]. apply IH.
  destruct (serving_step h s) as [s'|] eqn:E; [by eapply serving_step_inv|done].
Qed.

End ServingInv.

(** The failures of a list of happenings. *)
Definition listen_failed (hs : list Happening) (e : error) : Prop :=
  exists l, ListenFails l ∈ hs /\ l <> ErrServerClosed /\ e = [l].
Definition shutdown_failed (hs : list Happening) (e : error) : Prop := ShutdownReturns (Some e) ∈ hs.

Lemma listen_failed_open hs e : listen_failed hs e -> errors_Is e ErrServerClosed = false.
Proof.
  intros (l & _ & Hne & ->). apply bool_decide_eq_false_2. rewrite list_elem_of_singleton. by intros <-.
Qed.

Lemma serving_reached hs : serving_inv (listen_failed hs) (shutdown_failed hs) (serving_run hs serving_start).
Proof.
  apply serving_run_inv; [apply listen_failed_open| |apply serving_start_inv].
  apply list.Forall_forall. intros [l| | | | | |[l|]| |] Hh; cbn; try done. intros Hne. by exists l.
Qed.

(** C22: the server of the API and the goroutine that listens never wait for each
    other in vain, in whatever order things happen: the goroutine's send finds
    room in the channel even when nobody will receive, so it ends; once it has sent
    or the context has ended, a selecting server can go on, and one that shuts down
    ends whatever [Shutdown] answers. It ends without an error only because the
    context ended, and then every request that began has been answered; it ends
    with one only if the listener or the shutdown failed, and with that error, so
    that its test for [http.ErrServerClosed] never decides. *)
Theorem serving_ends (hs : list Happening) :
  let s := serving_run hs serving_start in
  (forall e, goroutine s = Listened e -> is_Some (serving_step GoroutineSends s)) /\
  (main s = Selecting -> goroutine s = Finished -> is_Some (serving_step MainReceives s)) /\
  (main s = Selecting -> cancelled s = true -> is_Some (serving_step MainShutsDown s)) /\
  (main s = ShuttingDown -> forall e, is_Some (serving_step (ShutdownReturns (Some e)) s)) /\
  (main s = Ended (Ok tt) -> cancelled s = true /\ active s = 0) /\
  (forall e, main s = Ended (Err e) -> listen_failed hs e \/ shutdown_failed hs e) /\
  (forall e, main s = Selecting -> errCh s = [e] -> errors_Is e ErrServerClosed = false /\ listen_failed hs e).
Proof.
  cbv zeta. pose proof (serving_reached hs) as [H1 H2 H3 H4 H5 H6 H7]. set (s := serving_run hs serving_start) in *. clearbody s.
  destruct s as [g ch c m a]. cbn [goroutine errCh cancelled main active] in *. split_and!; try done.
  - intros e ->. cbn. rewrite H1 by done. by eexists.
  - intros -> ->. cbn. destruct ch; [by destruct (H2 eq_refl eq_refl)|by eexists].
  - intros -> ->. by destruct g; eexists.
  - intros -> e. by destruct g; eexists.
  - intros e -> ->. apply Forall_cons_1 in H4 as [[Hl|[_ ?]] _]; [|done]. split; [by eapply listen_failed_open|done].
Qed.

(** ** The commands *)

(** Whether the loop was entered. *)
Definition loop_entered (l : list Step) : bool := existsb (fun s => bool_decide (s = Started)) l.

(** A command that ends has released what it opened, once, and used it only while
    it was open; while it runs, and whenever its loop was entered, it has first
    gone through [startup]; if the loop was not entered it has done nothing else and
    exits with 1; it exits with 0 only when it was told to end. *)
Record orderly {X} (startup : list Step) (told : X -> Prop) (x : X) (o : option Z * Process X) : Prop := {
  or_released : o.1 <> None -> replay [] (steps o.2) = Some [];
  or_running : o.1 = None -> steps o.2 = (startup ++ [Started])%list;
  or_waits : loop_entered (steps o.2) = true -> exists closing, steps o.2 = (startup ++ Started :: closing)%list;
  or_untouched : loop_entered (steps o.2) = false -> inside o.2 = x /\ o.1 = Some 1;
  or_told : o.1 = Some 0 -> told (inside o.2)
}.

Ltac orderly_leaf :=
  split; cbn [fst snd steps inside fmap option_fmap option_map exit_code];
    [first [intros _; vm_compute; reflexivity|intros ?; done]
    |first [intros _; reflexivity|intros ?; discriminate]
    |first [intros _; eexists; reflexivity|intros ?; discriminate]
    |first [intros _; split; reflexivity|intros ?; discriminate]
    |try (intros ?; discriminate)].

Definition worker_startup : list Step :=
  [Opened DatabasePool; Opened StartupDeadline; Pinged DatabasePool; Opened KafkaConsumer; Pinged KafkaConsumer;
   Cancelled StartupDeadline].

Section Commands.
Context `{Pg}.
Variable out : Outside.

Lemma consume_told consumer unsupported owned handle store answers polls c c' :
  consume consumer unsupported owned handle store answers polls c = (Some (Ok tt), c') -> PollCancelled ∈ polls.
Proof.
  revert c. induction polls as [|[|e|records] polls IH]; intros c; cbn [consume]; try done; [left|].
  destruct (consume_records _ _ _ _ _ _ _ _) as [[[]|e] c1]; [|done]. intros ?%IH. by right.
Qed.

(** The parts of a command, run one after the other. *)
Ltac unfold_parts :=
  unfold exits, with_signals, worker_client, opening, attempt, deferred, checked, looping, note, mbind, Proc_bind;
  cbn [steps inside app].

(** An answer of the world outside: an error ends the command. *)
Ltac answered a := destruct a as [?|]; [orderly_leaf|cbn [steps inside app]].

Lemma transaction_main_orderly env now s answers polls c :
  orderly (Opened Signals :: worker_startup) (fun _ => PollCancelled ∈ polls) c
    (transaction_main out env now s answers polls c).
Proof.
  unfold transaction_main, transaction_Run. unfold_parts. destruct (transaction_start _) as [[]|e]; [|orderly_leaf].
  answered (open_answer out DatabasePool). answered (ping_answer out DatabasePool).
  answered (open_answer out KafkaConsumer). answered (ping_answer out KafkaConsumer).
  destruct (transaction_consume _ _ _ _ _) as [[[[]|e]|] c'] eqn:E; [|orderly_leaf..].
  orderly_leaf. intros _. by eapply consume_told.
Qed.

(** With velocity configured the client of Redis is opened after the signals. *)
Definition risk_startup (env : Env) : list Step :=
  Opened Signals ::
  match risk_ConfigFromEnv env with
  | Ok config => if Enabled (config_Velocity config) then [Opened RedisClient] else []
  | Err _ => []
  end ++ worker_startup.

Lemma risk_config_observer env c : risk_ConfigFromEnv env = Ok c -> Enabled (config_Velocity c) = true ->
  exists window, NewObserver (RedisAddress (config_Velocity c)) (Window (config_Velocity c)) = Ok window.
Proof.
  intros (ps & _ & HR)%bind_Ok He. apply bind_Ok in HR as (v & Hv & [= <-]). apply velocityConfig_spec in Hv as [_ Hv].
  eexists. by apply Hv.
Qed.

Lemma risk_main_orderly observe env now s answers polls c :
  orderly (risk_startup env) (fun _ => PollCancelled ∈ polls) c (risk_main out observe env now s answers polls c).
Proof.
  unfold risk_main, risk_Run, risk_startup. unfold_parts.
  destruct (risk_ConfigFromEnv env) as [config|e] eqn:Ec; [|orderly_leaf].
  destruct (Enabled (config_Velocity config)) eqn:Ee; [destruct (risk_config_observer _ _ Ec Ee) as [window ->]|].
  all: unfold_parts; rewrite ?Ee; cbn [andb negb]; rewrite ?bool_decide_eq_true_2 by (by eexists); cbn [negb default].
  all: destruct (worker_guards _ _ _ _) as [[]|e]; [|orderly_leaf].
  all: answered (open_answer out DatabasePool). 
  all: answered (ping_answer out DatabasePool).
  all: destruct (NewHandlerWithPoliciesAndVelocity _ _ _) as [h|e]; [|orderly_leaf]; cbn [steps inside app].
  all: answered (open_answer out KafkaConsumer).
  all: answered (ping_answer out KafkaConsumer).
  all: destruct (risk_consume _ _ _ _ _) as [[[[]|e]|] c'] eqn:E; [|orderly_leaf..].
  all: orderly_leaf; intros _; by eapply consume_told.
Qed.

Lemma publisher_told {W} `{Store W} `{Producer W} fuel config done n w w' :
  publisher_Run fuel config done n w = (Some (Ok tt), w') -> exists k, done k = true.
Proof.
  revert n w. induction fuel as [|fuel IH]; intros n w; cbn [publisher_Run]; [intros ?; discriminate|].
  destruct (done n) eqn:Ed; [intros _; by exists n|]. destruct (PublishBatch config w) as [[result [[]|e]] w1]; [|intros ?; discriminate].
  destruct (0 <? Claimed result); [by intros ?%IH|]. destruct (done (S n)) eqn:Ed1; [intros _; by exists (S n)|by intros ?%IH].
Qed.

Definition outbox_startup : list Step :=
  [Opened Signals; Opened DatabasePool; Opened StartupDeadline; Pinged DatabasePool; Opened KafkaProducer; Pinged KafkaProducer;
   Cancelled StartupDeadline].

Lemma outbox_main_orderly {W} `{Store W} ProduceSync env fuel done (w : W) :
  orderly outbox_startup (fun _ => exists k, done k = true) w (outbox_main out ProduceSync env fuel done w).
Proof.
  unfold outbox_main, outbox_Run, NewProducer. unfold_parts.
  destruct (publisher_ConfigFromEnv env) as [config|e]; [|orderly_leaf]. unfold_parts.
  destruct (publisher_guards config) as [[]|e]; [|orderly_leaf].
  answered (open_answer out DatabasePool). answered (ping_answer out DatabasePool).
  destruct (validateProducerConfig _) as [brokers|e]; [|orderly_leaf].
  answered (open_answer out KafkaProducer). answered (ping_answer out KafkaProducer).
  destruct (NewPublisher loop_settings) as [loop|e] eqn:EN; [|discriminate EN].
  destruct (publisher_Run _ _ _ _ _) as [[[[]|e]|] w'] eqn:E; [|orderly_leaf..].
  orderly_leaf. intros _. by eapply publisher_told.
Qed.

(** Without OIDC the API opens no pool. *)
Definition api_startup (env : Env) : list Step :=
  Opened Signals ::
  match api_ConfigFromEnv env with
  | Ok cfg => if oidc_Enabled (OIDC cfg) then [Opened DatabasePool] else []
  | Err _ => []
  end.

Lemma api_main_orderly `{TokenBucket} NewProvider env hs :
  orderly (api_startup env) (fun s => cancelled s = true /\ active s = 0) serving_start (api_main out NewProvider env hs).
Proof.
  assert (Ht : forall r s, serving hs serving_start = (r, s) -> r = Some (Ok tt) -> cancelled s = true /\ active s = 0).
  { unfold serving. intros r s [= <- <-]. destruct (main _) as [| |[[]|e]] eqn:E; try done. intros _.
    by apply (sv_clean _ _ _ (serving_reached hs)). }
  unfold api_main, api_Run, api_startup. unfold_parts.
  destruct (api_ConfigFromEnv env) as [cfg|e] eqn:Ec; [|orderly_leaf].
  case_bool_decide; [orderly_leaf|]. destruct (validateOIDCConfig cfg) as [[]|e]; [|orderly_leaf].
  destruct (oidc_Enabled (OIDC cfg)); unfold_parts.
  - answered (open_answer out DatabasePool). destruct (reviewDecisionRoutes _ _ _) as [routes|e]; [|orderly_leaf].
    cbn [steps inside app]. destruct (serving hs serving_start) as [[[[]|e]|] s] eqn:E; [|orderly_leaf..].
    orderly_leaf. intros _. by eapply Ht.
  - destruct (serving hs serving_start) as [[[[]|e]|] s] eqn:E; [|orderly_leaf..].
    orderly_leaf. intros _. by eapply Ht.
Qed.

(** *** Starting *)

(** Everything outside answers. *)
Definition answers_all : Prop := forall r, open_answer out r = None /\ ping_answer out r = None.

Ltac all_answer Ha :=
  unfold_parts; repeat (rewrite (proj1 (Ha _)) || rewrite (proj2 (Ha _))); cbn [steps inside app].

Lemma transaction_main_starts env now s answers polls c : answers_all ->
  loop_entered (steps (transaction_main out env now s answers polls c).2) = is_ok (transaction_start (transaction_ConfigFromEnv env)).
Proof.
  intros Ha. unfold transaction_main, transaction_Run. all_answer Ha. destruct (transaction_start _) as [[]|e]; [|done].
  by destruct (transaction_consume _ _ _ _ _) as [[[[]|e]|] c'].
Qed.

Lemma NewHandler_is_ok ps observer observer' clock clock' :
  is_ok (NewHandlerWithPoliciesAndVelocity ps observer clock) = is_ok (NewHandlerWithPoliciesAndVelocity ps observer' clock').
Proof. destruct ps; [done|]. cbn [NewHandlerWithPoliciesAndVelocity]. by destruct (index_policies _ _). Qed.

Lemma risk_main_starts observe env now s answers polls c observe' clock : answers_all ->
  loop_entered (steps (risk_main out observe env now s answers polls c).2) =
    match risk_ConfigFromEnv env with Ok config => is_ok (risk_start config observe' clock) | Err _ => false end.
Proof.
  intros Ha. unfold risk_main, risk_Run. unfold_parts. destruct (risk_ConfigFromEnv env) as [config|e] eqn:Ec; [|done].
  unfold risk_start. destruct (Enabled (config_Velocity config)) eqn:Ee; [destruct (risk_config_observer _ _ Ec Ee) as [window ->]|].
  all: all_answer Ha; rewrite ?Ee; cbn [andb negb mbind Result_bind]; rewrite ?bool_decide_eq_true_2 by (by eexists); cbn [negb default].
  all: destruct (worker_guards _ _ _ _) as [[]|e]; [|done]; cbn [mbind Result_bind].
  all: rewrite (NewHandler_is_ok (Policies config) _ noopVelocityObserver _ zeroTime).
  all: destruct (NewHandlerWithPoliciesAndVelocity _ _ _) as [h|e]; [|done]; cbn [steps inside app].
  all: by destruct (risk_consume _ _ _ _ _) as [[[[]|e]|] c'].
Qed.

Lemma outbox_main_starts {W} `{Store W} ProduceSync env fuel done (w : W) : answers_all ->
  loop_entered (steps (outbox_main out ProduceSync env fuel done w).2) =
    match publisher_ConfigFromEnv env with Ok config => is_ok (publisher_start config) | Err _ => false end.
Proof.
  intros Ha. unfold outbox_main, outbox_Run, NewProducer. all_answer Ha.
  destruct (publisher_ConfigFromEnv env) as [config|e]; [|done]. unfold publisher_start. all_answer Ha.
  destruct (publisher_guards config) as [[]|e]; [|done]. cbn [mbind Result_bind].
  destruct (validateProducerConfig _) as [brokers|e]; [|done]. cbn [mbind Result_bind].
  destruct (NewPublisher loop_settings) as [loop|e] eqn:EN; [|discriminate EN].
  by destruct (publisher_Run _ _ _ _ _) as [[[[]|e]|] w'].
Qed.

Lemma api_main_starts `{TokenBucket} NewProvider env hs : answers_all ->
  loop_entered (steps (api_main out NewProvider env hs).2) =
    match api_ConfigFromEnv env with Ok cfg => is_ok (api_start NewProvider (Ok tt) cfg) | Err _ => false end.
Proof.
  intros Ha. unfold api_main, api_Run. unfold_parts. destruct (api_ConfigFromEnv env) as [cfg|e] eqn:Ec; [|done].
  unfold api_start. case_bool_decide; [done|]. destruct (validateOIDCConfig cfg) as [[]|e]; [|done]. cbn [mbind Result_bind].
  destruct (oidc_Enabled (OIDC cfg)) eqn:Ee; all_answer Ha.
  - destruct (reviewDecisionRoutes _ _ _) as [routes|e]; [|done]. by destruct (serving hs serving_start) as [[[[]|e]|] s].
  - unfold reviewDecisionRoutes. rewrite Ee. by destruct (serving hs serving_start) as [[[[]|e]|] s].
Qed.

End Commands.

(** C21: the four commands, whatever their environment and the services answer. One
    that has ended released every resource it opened exactly once, and used none
    that was closed; its loop begins only after its sequence of start-up steps, so
    that no record is consumed and no event claimed before the database and the
    broker have answered and the start-up deadline is cancelled; if the loop does
    not begin, nothing has changed and the exit status is 1; and the status is 0
    only if the command was told to end and, for the API, every request was
    answered. If the services answer, the loop begins exactly when the
    configuration is one the process accepts. *)
Theorem commands_orderly `{Pg} `{TokenBucket} {W} `{Store W} (out : Outside) (env : Env)
    (observe : VelocityConfig -> World -> VelocityObserver) (now : World -> Time) (s : Service) (answers : nat -> option error)
    (polls : list Poll) (c : Consuming) (ProduceSync : ProducedRecord -> W -> option string * W) (fuel : nat) (done : nat -> bool)
    (w : W) (NewProvider : string -> Result (string -> string -> Result string)) (hs : list Happening) :
  let transaction := transaction_main out env now s answers polls c in
  let risk := risk_main out observe env now s answers polls c in
  let outbox := outbox_main out ProduceSync env fuel done w in
  let api := api_main out NewProvider env hs in
  (orderly (Opened Signals :: worker_startup) (fun _ => PollCancelled ∈ polls) c transaction /\
   orderly (risk_startup env) (fun _ => PollCancelled ∈ polls) c risk /\
   orderly outbox_startup (fun _ => exists k, done k = true) w outbox /\
   orderly (api_startup env) (fun s => cancelled s = true /\ active s = 0) serving_start api) /\
  (answers_all out ->
   loop_entered (steps transaction.2) = is_ok (transaction_start (transaction_ConfigFromEnv env)) /\
   (forall o clock, loop_entered (steps risk.2) =
      match risk_ConfigFromEnv env with Ok config => is_ok (risk_start config o clock) | Err _ => false end) /\
   loop_entered (steps outbox.2) =
     match publisher_ConfigFromEnv env with Ok config => is_ok (publisher_start config) | Err _ => false end /\
   loop_entered (steps api.2) =
     match api_ConfigFromEnv env with Ok cfg => is_ok (api_start NewProvider (Ok tt) cfg) | Err _ => false end).
Proof.
  cbv zeta. split.
  - split_and!; [apply transaction_main_orderly|apply risk_main_orderly|apply outbox_main_orderly|apply api_main_orderly].
  - intros Ha. split_and!; [by apply transaction_main_starts|intros; by apply risk_main_starts|by apply outbox_main_starts|by apply api_main_starts].
Qed.

(** ** Concrete runs *)

Definition reachable_services : Outside := mkOutside (fun _ => None) (fun _ => None).

(** A broker that cannot be reached. *)
Definition no_broker : Outside :=
  mkOutside (fun _ => None) (fun r => if bool_decide (r = KafkaConsumer) then Some [Other "kafka"] else None).

#[local] Instance empty_store : Store unit := {|
  store_Claim _ _ w := (Ok [], w);
  store_MarkPublished _ _ w := (Ok tt, w);
  store_MarkFailed _ _ _ _ w := (Ok tt, w)
|}.

Definition stopped_worker (out : Outside) : option Z * Process Consuming :=
  transaction_main out full_env (fun _ => sample_now) steady (fun _ => None) [PollCancelled] (mkConsuming after_accepts []).

(** A worker that is stopped exits with 0, and one without a broker with 1. *)
Lemma stopped_worker_exits : (stopped_worker reachable_services).1 = Some 0 /\ (stopped_worker no_broker).1 = Some 1.
Proof. vm_compute. split; reflexivity. Qed.

(** A request is being answered while the server shuts down. *)
Definition graceful : list Happening :=
  [RequestBegins; ContextEnds; MainShutsDown; ListenCloses; GoroutineSends; ShutdownReturns None; RequestEnds; ShutdownReturns None].

Lemma graceful_ends : main (serving_run (take 6 graceful) serving_start) = ShuttingDown /\
  main (serving_run graceful serving_start) = Ended (Ok tt).
Proof. vm_compute. split; reflexivity. Qed.

Lemma serving_ends_witness :
  main (serving_run graceful serving_start) = Ended (Ok tt) /\ active (serving_run graceful serving_start) = 0.
Proof.
  assert (E : main (serving_run graceful serving_start) = Ended (Ok tt)) by (vm_compute; reflexivity). split; [exact E|].
  destruct (serving_ends graceful) as (_ & _ & _ & _ & HE & _). exact (proj2 (HE E)).
Defined.

Lemma commands_orderly_witness :
  loop_entered (steps (stopped_worker reachable_services).2) = true /\
  replay [] (steps (stopped_worker reachable_services).2) = Some [].
Proof.
  destruct stopped_worker_exits as [E _]. unfold stopped_worker in *.
  destruct (@commands_orderly _ burst_only unit empty_store reachable_services full_env (fun _ _ => noopVelocityObserver)
    (fun _ => sample_now) steady (fun _ => None) [PollCancelled] (mkConsuming after_accepts []) (fun _ w => (None, w)) 1
    (fun _ => true) tt (fun _ => Err [Other "issuer"]) []) as ((Ho & _) & Hs).
  split.
  - destruct (Hs ltac:(by split)) as (Ht & _). rewrite Ht. vm_compute. reflexivity.
  - apply (or_released _ _ _ _ Ho). rewrite E. discriminate.
Defined.
