(* ===== verification/Delivery.v ===== *)
(** * Delivery of the outbox

    Publisher.v against OutboxRepo.v and a broker.  A batch is also a program of
    atomic calls ([Prog]); any number of publishers run such programs, interleaved
    with each other and with the operations of the application (System.v), under
    any service, any answers of the broker and crashes at any point.  The states
    they reach keep the two promises of the outbox: an event marked as published is
    in the broker's log, and the log holds only messages of stored events. *)

From stdpp Require Import base list gmap strings numbers.
From Stdlib Require Import ZArith Lia.
From S2P Require Import OutboxRepo OutboxTheorems Publisher.
From S2P Require Import Prelude GoText Json GoTime Event EnvelopeJson Database PgInstance Outbox System Scenario.

Open Scope string_scope.
Open Scope Z_scope.

(** ** Batches as programs *)

Inductive Prog :=
| Stop (result : BatchResult) (r : Result unit)
| DoClaim (limit lease : Z) (k : Result (list ClaimedEvent) -> Prog)
| DoPublish (m : Message) (k : option string -> Prog)
| DoFailed (eid token : string) (delay : Z) (text : string) (k : Result unit -> Prog)
| DoPublished (eid token : string) (k : Result unit -> Prog).

(** The calls of [publish_each], in its order. *)
Fixpoint each_prog (config : PublisherConfig) (claimed : list ClaimedEvent) (result : BatchResult) : Prog :=
  match claimed with
  | [] => Stop result (Ok tt)
  | stored :: rest =>
      let eid := eventID (ce_Envelope stored) in
      match message_of (ce_Envelope stored) with
      | Err err => Stop result (Err err)
      | Ok message =>
          DoPublish message (fun o =>
            match o with
            | Some text =>
                DoFailed eid (ce_ClaimToken stored) (retryDelay config (ce_PublishAttempts stored)) text (fun r =>
                  match r with
                  | Err markErr => Stop result (Err (Other text :: markErr))
                  | Ok _ => each_prog config rest (mkBatchResult (Claimed result) (Published result) (Failed result + 1))
                  end)
            | None =>
                DoPublished eid (ce_ClaimToken stored) (fun r =>
                  match r with
                  | Err err => Stop result (Err err)
                  | Ok _ => each_prog config rest (mkBatchResult (Claimed result) (Published result + 1) (Failed result))
                  end)
            end)
      end
  end.

Definition batch_prog (config : PublisherConfig) : Prog :=
  DoClaim (BatchSize config) (ClaimLease config) (fun r =>
    match r with
    | Err e => Stop (mkBatchResult 0 0 0) (Err e)
    | Ok claimed => each_prog config claimed (mkBatchResult (Z.of_nat (length claimed)) 0 0)
    end).

Section Sequential.
Context {W : Type} `{Store W} `{Producer W}.

(** A program run alone. *)
Fixpoint run_prog (p : Prog) (w : W) : BatchResult * Result unit * W :=
  match p with
  | Stop result r => (result, r, w)
  | DoClaim limit lease k => let '(r, w') := store_Claim limit lease w in run_prog (k r) w'
  | DoPublish m k => let '(o, w') := Publish m w in run_prog (k o) w'
  | DoFailed eid token delay text k => let '(r, w') := store_MarkFailed eid token delay text w in run_prog (k r) w'
  | DoPublished eid token k => let '(r, w') := store_MarkPublished eid token w in run_prog (k r) w'
  end.

Lemma run_each config claimed result w :
  run_prog (each_prog config claimed result) w = publish_each config claimed result w.
Proof.
  revert result w. induction claimed as [|c claimed IH]; intros result w; [done|]. cbn [each_prog publish_each].
  destruct (message_of (ce_Envelope c)) as [m|e]; [|done]. cbn [run_prog]. destruct (Publish m w) as [[text|] w1]; cbn [run_prog].
  - destruct (store_MarkFailed _ _ _ _ _) as [[]]; [apply IH|done].
  - destruct (store_MarkPublished _ _ _) as [[]]; [apply IH|done].
Qed.

(** The program of a batch, run alone, is [PublishBatch]. *)
Lemma run_batch config w : run_prog (batch_prog config) w = PublishBatch config w.
Proof.
  unfold PublishBatch. cbn [batch_prog run_prog]. destruct (store_Claim _ _ w) as [[claimed|e] w1]; [apply run_each|done].
Qed.

End Sequential.

Section Delivery.
Context `{PgLaws}.

(** ** Events and their messages *)

(** [m] is the message of the stored event [id]. *)
Definition message_for (d : DB) (id : string) (m : Message) : Prop :=
  exists oid row dr, id = uuid_text oid /\ t_outbox d !! oid = Some row /\ NewDraft (row_params row) = Ok dr /\
    message_of (mkEnvelope id dr) = Ok m.

Definition marked (d : DB) (id : string) : Prop :=
  exists oid row at_, id = uuid_text oid /\ t_outbox d !! oid = Some row /\ ob_published_at row = Some at_.

(** The tables and the broker's log. *)
Definition Net : Type := World * list Message.

Definition logged (n : Net) (id : string) : Prop := exists m, message_for (committed n.1) id m /\ m ∈ n.2.

(** Nothing stored or logged is lost. *)
Definition extends (n n' : Net) : Prop := outbox_kept (committed n.1) (committed n'.1) /\ n.2 `prefix_of` n'.2.

#[export] Instance extends_preorder : PreOrder extends.
Proof.
  split; [intros n; split; done|]. intros n1 n2 n3 [H1 L1] [H2 L2]. split; by etrans.
Qed.

Lemma content_params r r' : same_content r r' -> row_params r' = row_params r.
Proof. intros (_ & E2 & E3 & E4 & E5 & E6 & E7 & E8 & E9 & E10 & _). unfold row_params. by rewrite E2, E3, E4, E5, E6, E7, E8, E9, E10. Qed.

Lemma message_for_kept d d' id m : outbox_kept d d' -> message_for d id m -> message_for d' id m.
Proof.
  intros Hk (oid & row & dr & E & Ho & Hd & Hm). destruct (Hk _ _ Ho) as (row' & Ho' & Hc).
  exists oid, row', dr. by rewrite (content_params _ _ Hc).
Qed.

Lemma logged_extends n n' id : extends n n' -> logged n id -> logged n' id.
Proof.
  intros [Hk Hl] (m & Hm & Hin). exists m. split; [by eapply message_for_kept|]. by eapply elem_of_prefix.
Qed.

(** Only completing marks an event, and only the one it names. *)
Lemma claims_marked locked limit text token now until d d' claimed id :
  claims locked limit text token now until d d' claimed -> marked d' id -> marked d id.
Proof.
  intros HC (oid & row' & at_ & -> & Ho & Hp).
  destruct (decide (Exists (fun c => eventID (ce_Envelope c) = uuid_text oid) claimed)) as [He|Hn].
  - apply Exists_exists in He as (c & Hc%list_elem_of_In & E). destruct (cl_leased _ _ _ _ _ _ _ _ _ HC c Hc) as (oid' & r & Hr & _ & _ & E' & _ & _ & _ & _ & Hd).
    assert (oid' = oid) as -> by (apply uuid_text_inj; congruence). assert (row' = leased token until r) as -> by congruence.
    by exists oid, r, at_.
  - exists oid, row', at_. split_and!; [done| |done]. rewrite <- (cl_others _ _ _ _ _ _ _ _ _ HC); [done|].
    intros c Hc%list_elem_of_In E. apply Hn, Exists_exists. by exists c.
Qed.

Lemma Claim_marked random locked limit lease s w r w' id :
  Claim random locked limit lease s w = (r, w') -> marked (committed w') id -> marked (committed w) id.
Proof.
  intros HR%Claim_outcome Hm. destruct r as [l|e]; [|destruct HR as [<-|(_ & l & HR)]; [done|]];
    destruct HR as (text & token & _ & HC); by eapply claims_marked.
Qed.

Lemma ended_marked token oid set d d' id :
  ended token oid set d d' -> marked d' id -> marked d id \/ id = uuid_text oid.
Proof.
  intros (row & _ & _ & ->) (oid' & row' & at_ & -> & Ho & Hp). cbn in Ho.
  apply lookup_insert_Some in Ho as [[-> _]|[_ Ho]]; [by right|left]. by exists oid', row', at_.
Qed.

Lemma ends_lease_ended token oid set d d' r : ends_lease token oid set d d' r -> d' = d \/ ended token oid set d d'.
Proof. intros [Hd Hf _]. destruct r as [[]|e]; [right; by apply Hd|]. destruct (Hf e eq_refl) as [?|[_ ?]]; auto. Qed.

Lemma MarkPublished_marked eid token s w r w' id :
  MarkPublished eid token s w = (r, w') -> marked (committed w') id ->
  marked (committed w) id \/ exists oid, uuid_scan eid = Some oid /\ id = uuid_text oid.
Proof.
  intros HR Hm. destruct (uuid_scan eid) as [oid|] eqn:Ei; [destruct (uuid_scan token) as [u|] eqn:Eu|].
  - apply (MarkPublished_outcome _ _ _ _ _ _ _ _ Ei Eu), ends_lease_ended in HR as [E|HR]; [rewrite E in Hm; by left|].
    destruct (ended_marked _ _ _ _ _ _ HR Hm); eauto.
  - destruct (parseClaimIdentity_Err eid token) as [e He]; [by right|]. unfold MarkPublished in HR. rewrite He in HR.
    injection HR as _ <-. by left.
  - destruct (parseClaimIdentity_Err eid token) as [e He]; [by left|]. unfold MarkPublished in HR. rewrite He in HR.
    injection HR as _ <-. by left.
Qed.

Lemma released_marked token oid available diagnostic d d' id :
  ended token oid (released available diagnostic) d d' -> marked d' id -> marked d id.
Proof.
  intros (row & [Hr _] & _ & ->) (oid' & row' & at_ & -> & Ho & Hp). cbn in Ho.
  apply lookup_insert_Some in Ho as [[-> <-]|[_ Ho]]; [by exists oid', row, at_|by exists oid', row', at_].
Qed.

Lemma MarkFailed_marked eid token delay diagnostic s w r w' id :
  MarkFailed eid token delay diagnostic s w = (r, w') -> marked (committed w') id -> marked (committed w) id.
Proof.
  intros HR Hm. destruct (uuid_scan eid) as [oid|] eqn:Ei; [destruct (uuid_scan token) as [u|] eqn:Eu|].
  - apply (MarkFailed_outcome _ _ _ _ _ _ _ _ _ _ Ei Eu), ends_lease_ended in HR as [E|HR]; [by rewrite E in Hm|].
    by eapply released_marked.
  - destruct (parseClaimIdentity_Err eid token) as [e He]; [by right|]. unfold MarkFailed in HR. rewrite He in HR.
    by injection HR as _ <-.
  - destruct (parseClaimIdentity_Err eid token) as [e He]; [by left|]. unfold MarkFailed in HR. rewrite He in HR.
    by injection HR as _ <-.
Qed.

Lemma app_step_marked w w' id :
  wallet_inv (committed w) -> app_step w w' -> marked (committed w') id -> marked (committed w) id.
Proof.
  intros Hinv HS (oid & row & at_ & -> & Ho & Hp). apply app_step_effect, app_effect_grows in HS as [_ HG]; [|done].
  destruct (HG _ _ Ho) as [?|?]; [by exists oid, row, at_|congruence].
Qed.

(** ** Interleaved publishers *)

(** One call of a program, with any service, random bytes, locked rows and answer
    of the broker; a message that is reported as refused may have arrived. *)
Inductive call : Prog -> Net -> Prog -> Net -> Prop :=
| CallClaim limit lease k random locked s w r w' log :
    Claim random locked limit lease s w = (r, w') -> call (DoClaim limit lease k) (w, log) (k r) (w', log)
| CallAccepted m k w log : call (DoPublish m k) (w, log) (k None) (w, log ++ [m])%list
| CallRefused m k text (arrived : bool) w log :
    call (DoPublish m k) (w, log) (k (Some text)) (w, if arrived then log ++ [m] else log)%list
| CallFailed eid token delay text k s w r w' log :
    MarkFailed eid token delay text s w = (r, w') -> call (DoFailed eid token delay text k) (w, log) (k r) (w', log)
| CallPublished eid token k s w r w' log :
    MarkPublished eid token s w = (r, w') -> call (DoPublished eid token k) (w, log) (k r) (w', log).

(** The tables, the log and the programs of the running publishers. *)
Definition Pool : Type := Net * gmap nat Prog.

(** A publisher starts a batch, perhaps after a crash in the middle of another;
    a publisher makes its next call; or the application takes a step. *)
Inductive pool_step : Pool -> Pool -> Prop :=
| PoolStart i config n pool : pool_step (n, pool) (n, <[i := batch_prog config]> pool)
| PoolCall i p p' n n' pool : pool !! i = Some p -> call p n p' n' -> pool_step (n, pool) (n', <[i := p']> pool)
| PoolApp w w' log pool : app_step w w' -> pool_step ((w, log), pool) ((w', log), pool).

(** What a program must know before its calls, whatever happens in between. *)
Fixpoint safe (n : Net) (p : Prog) : Prop :=
  match p with
  | Stop _ _ => True
  | DoClaim _ _ k => forall n' r, extends n n' ->
      (forall claimed c m, r = Ok claimed -> c ∈ claimed -> message_of (ce_Envelope c) = Ok m ->
         message_for (committed n'.1) (eventID (ce_Envelope c)) m) -> safe n' (k r)
  | DoPublish m k => (exists id, message_for (committed n.1) id m) /\
      forall n' o, extends n n' -> (o = None -> m ∈ n'.2) -> safe n' (k o)
  | DoFailed _ _ _ _ k => forall n' r, extends n n' -> safe n' (k r)
  | DoPublished eid _ k => logged n eid /\ forall n' r, extends n n' -> safe n' (k r)
  end.

Lemma safe_extends n n' p : extends n n' -> safe n p -> safe n' p.
Proof.
  intros He. destruct p as [|limit lease k|m k|eid token delay text k|eid token k]; cbn [safe]; [done|..].
  - intros Hs n2 r H2. apply Hs. by etrans.
  - intros [(id & Hm) Hs]. split; [exists id; eapply message_for_kept; [apply He|done]|].
    intros n2 o H2. apply Hs. by etrans.
  - intros Hs n2 r H2. apply Hs. by etrans.
  - intros [Hl Hs]. split; [by eapply logged_extends|]. intros n2 r H2. apply Hs. by etrans.
Qed.

Lemma each_safe config claimed result n :
  (forall c m, c ∈ claimed -> message_of (ce_Envelope c) = Ok m -> message_for (committed n.1) (eventID (ce_Envelope c)) m) ->
  safe n (each_prog config claimed result).
Proof.
  revert result n. induction claimed as [|c claimed IH]; intros result n Hc; [done|]. cbn [each_prog].
  destruct (message_of (ce_Envelope c)) as [m|e] eqn:Em; [|done].
  assert (Hm : message_for (committed n.1) (eventID (ce_Envelope c)) m) by (apply Hc; [left|done]).
  assert (Hrest : forall n2 result2, extends n n2 -> safe n2 (each_prog config claimed result2)).
  { intros n2 result2 He. apply IH. intros c' m' Hc' Hm'. eapply message_for_kept; [apply He|]. apply Hc; [by right|done]. }
  cbn [safe]. split; [by eexists|]. intros n1 o H1 Ho. destruct o as [text|]; cbn [safe].
  - intros n2 r H2. destruct r; [|done]. apply Hrest. by etrans.
  - split; [exists m; split; [eapply message_for_kept; [apply H1|done]|by apply Ho]|].
    intros n2 r H2. destruct r; [|done]. apply Hrest. by etrans.
Qed.

Lemma batch_safe config n : safe n (batch_prog config).
Proof. cbn [batch_prog safe]. intros n' r _ Hc. destruct r; [|done]. apply each_safe. eauto. Qed.

Lemma Claim_messages random locked limit lease s w r w' claimed c m :
  Claim random locked limit lease s w = (r, w') -> r = Ok claimed -> c ∈ claimed -> message_of (ce_Envelope c) = Ok m ->
  message_for (committed w') (eventID (ce_Envelope c)) m.
Proof.
  intros HR -> Hc Hm. apply Claim_outcome in HR as (text & token & _ & HC).
  destruct (cl_leased _ _ _ _ _ _ _ _ _ HC c Hc) as (oid & row & _ & _ & _ & E & Hd & _ & _ & _ & Ho).
  exists oid, (leased token (lease_end lease (now_at s (tick w))) row), (draft (ce_Envelope c)). split_and!; [done..|].
  by destruct (ce_Envelope c).
Qed.

(** Every call extends the state, keeps its program safe, logs only messages of
    stored events and marks only logged ones. *)
Lemma call_safe p n p' n' :
  call p n p' n' -> safe n p ->
  extends n n' /\ safe n' p' /\
  (forall m, m ∈ n'.2 -> m ∈ n.2 \/ exists id, message_for (committed n'.1) id m) /\
  (forall id, marked (committed n'.1) id -> marked (committed n.1) id \/ logged n' id).
Proof.
  intros [limit lease k random locked s w r w' log HR|m k w log|m k text arrived w log|
    eid token delay text k s w r w' log HR|eid token k s w r w' log HR]; cbn [safe fst snd].
  - intros Hs. assert (He : extends (w, log) (w', log)) by (split; [by eapply republished_kept, Claim_republished|done]).
    split_and!; [done| |by left|intros id Hm; left; by eapply Claim_marked].
    apply Hs; [done|]. intros claimed c m. by eapply Claim_messages.
  - intros [Hm Hs]. assert (He : extends (w, log) (w, log ++ [m])%list) by (split; [done|by apply prefix_app_r]).
    split_and!; [done| | |by left]; [apply Hs; [done|intros _; cbn; set_solver]|].
    intros m' [?| ->%list_elem_of_singleton]%elem_of_app; [by left|by right].
  - intros [Hm Hs]. assert (He : extends (w, log) (w, if arrived then log ++ [m] else log)%list)
      by (destruct arrived; (split; [done|]); [by apply prefix_app_r|done]).
    split_and!; [done|by apply Hs| |by left]. destruct arrived; [|by left].
    intros m' [?| ->%list_elem_of_singleton]%elem_of_app; [by left|by right].
  - intros Hs. assert (He : extends (w, log) (w', log)).
    { split; [|done]. apply republished_kept. exact (proj2 (Mark_republished _ _ _ _ _ _) _ _ HR). }
    split_and!; [done|by apply Hs|by left|intros id Hm; left; by eapply MarkFailed_marked].
  - intros [Hl Hs]. assert (He : extends (w, log) (w', log)).
    { split; [|done]. apply republished_kept. exact (proj1 (Mark_republished _ _ _ _ _ _) HR). }
    split_and!; [done|by apply Hs|by left|]. intros id [?|(oid & Ho & ->)]%(MarkPublished_marked _ _ _ _ _ _ _ HR); [by left|right].
    eapply logged_extends; [exact He|]. destruct Hl as (m & (oid' & row & dr & E & Hrest) & Hin).
    rewrite E, uuid_scan_text in Ho. injection Ho as ->. exists m. split; [|done]. exists oid, row, dr. by rewrite E in Hrest.
Qed.

Record pool_inv (q : Pool) : Prop := {
  pi_wallet : wallet_inv (committed q.1.1);
  pi_marked id : marked (committed q.1.1) id -> logged q.1 id;
  pi_log m : m ∈ q.1.2 -> exists id, message_for (committed q.1.1) id m;
  pi_safe i p : q.2 !! i = Some p -> safe q.1 p
}.

Lemma call_step p n p' n' : call p n p' n' -> n'.1 = n.1 \/ step n.1 n'.1.
Proof.
  intros [limit lease k random locked s w r w' log HR|m k w log|m k text arrived w log|
    eid token delay text k s w r w' log HR|eid token k s w r w' log HR]; cbn; [right|by left|by left|right|right].
  - by eapply StepClaim.
  - by eapply StepReleased.
  - by eapply StepPublished.
Qed.

Lemma app_step_kept w w' : wallet_inv (committed w) -> app_step w w' -> outbox_kept (committed w) (committed w').
Proof. intros Hinv HS. apply app_step_effect, app_effect_grows in HS as [HG _]; [by apply outbox_kept_grow|done]. Qed.

Lemma pool_step_inv q q' : pool_inv q -> pool_step q q' -> pool_inv q'.
Proof.
  intros [HW HM HL HS] HQ. destruct HQ as [i config n pool|i p p' n n' pool Hi HC|w w' log pool HA]; cbn [fst snd] in *.
  - split; cbn [fst snd]; [done..|]. intros j p [[_ <-]|[_ ?]]%lookup_insert_Some; [apply batch_safe|by eapply HS].
  - destruct (call_safe _ _ _ _ HC) as (He & Hp & Hl & Hm); [by eapply HS|]. split; cbn [fst snd].
    + destruct (call_step _ _ _ _ HC) as [->|Hst]; [done|]. by eapply effect_inv, step_effect.
    + intros id [?|?]%Hm; [|done]. eapply logged_extends; [done|]. by apply HM.
    + intros m [Hin|?]%Hl; [|done]. destruct (HL _ Hin) as (id & ?). exists id. eapply message_for_kept; [apply He|done].
    + intros j q [[_ <-]|[_ ?]]%lookup_insert_Some; [done|]. eapply safe_extends; [done|by eapply HS].
  - pose proof (app_step_kept _ _ HW HA) as Hk. assert (He : extends (w, log) (w', log)) by (split; done).
    split; cbn [fst snd].
    + eapply effect_inv; [exact HW|]. left. by apply app_step_effect.
    + intros id Hm. eapply logged_extends; [done|]. by eapply HM, app_step_marked.
    + intros m (id & ?)%HL. exists id. by eapply message_for_kept.
    + intros i p Hi. eapply safe_extends; [done|by eapply HS].
Qed.

Lemma pool_run_inv q q' : pool_inv q -> rtc pool_step q q' -> pool_inv q'.
Proof. intros Hinv HR. induction HR as [|q1 q2 q3 HS _ IH]; [done|]. apply IH. by eapply pool_step_inv. Qed.

(** Before anything has happened. *)
Definition unstarted (w : World) : Pool := ((w, []), ∅).

Lemma unstarted_inv w : initial (committed w) -> pool_inv (unstarted w).
Proof.
  intros Hi. split; cbn [fst snd unstarted].
  - by apply initial_inv.
  - intros id (oid & row & at_ & _ & Hr & _). by rewrite (in_outbox _ Hi) in Hr.
  - set_solver.
  - done.
Qed.

(** ** The sequential publisher *)

(** What surrounds one publisher: its database service and random bytes, the rows
    others have locked, and the answers of the broker. *)
Record Surroundings := mkSurroundings {
  sur_service : Service;
  sur_random : Net -> Result (list Z);
  sur_locked : Net -> UUID -> bool;
  sur_answer : Net -> Message -> option string;
  sur_arrives : Net -> Message -> bool
}.

Definition pg_store (u : Surroundings) : Store Net := {|
  store_Claim limit lease n :=
    let '(r, w) := Claim (sur_random u n) (sur_locked u n) limit lease (sur_service u) n.1 in (r, (w, n.2));
  store_MarkPublished eid token n := let '(r, w) := MarkPublished eid token (sur_service u) n.1 in (r, (w, n.2));
  store_MarkFailed eid token delay text n :=
    let '(r, w) := MarkFailed eid token delay text (sur_service u) n.1 in (r, (w, n.2))
|}.

Definition broker (u : Surroundings) : Producer Net := {|
  Publish m n :=
    let o := sur_answer u n m in
    let arrived := match o with None => true | Some _ => sur_arrives u n m end in
    (o, (n.1, if arrived then n.2 ++ [m] else n.2)%list)
|}.

(** A program run alone is a run of the pool. *)
Lemma run_prog_pool u p n result r n' i pool :
  @run_prog Net (pg_store u) (broker u) p n = (result, r, n') ->
  rtc pool_step (n, <[i := p]> pool) (n', <[i := Stop result r]> pool).
Proof.
  assert (Hone : forall p p1 n1 n2, call p n1 p1 n2 -> pool_step (n1, <[i := p]> pool) (n2, <[i := p1]> pool)).
  { intros p0 p1 n1 n2 HC. rewrite <- (insert_insert_eq pool i p1 p0). eapply PoolCall; [apply lookup_insert_eq|done]. }
  revert n. induction p as [res r0|limit lease k IH|m k IH|eid token delay text k IH|eid token k IH]; intros [w log];
    cbn [run_prog pg_store broker store_Claim store_MarkPublished store_MarkFailed Publish fst snd].
  - intros [= <- <- <-]. constructor.
  - destruct (Claim _ _ _ _ _ w) as [r1 w1] eqn:E. intros HR%IH. eapply rtc_l; [|exact HR]. apply Hone. by eapply CallClaim.
  - intros HR%IH. eapply rtc_l; [|exact HR]. apply Hone.
    destruct (sur_answer u (w, log) m) as [text|]; [apply CallRefused|apply CallAccepted].
  - destruct (MarkFailed _ _ _ _ _ w) as [r1 w1] eqn:E. intros HR%IH. eapply rtc_l; [|exact HR]. apply Hone. by eapply CallFailed.
  - destruct (MarkPublished _ _ _ w) as [r1 w1] eqn:E. intros HR%IH. eapply rtc_l; [|exact HR]. apply Hone. by eapply CallPublished.
Qed.

Lemma PublishBatch_pool u config n result r n' i pool :
  @PublishBatch Net (pg_store u) (broker u) config n = (result, r, n') ->
  rtc pool_step (n, pool) (n', <[i := Stop result r]> pool).
Proof.
  rewrite <- run_batch. intros HR. eapply rtc_l; [apply (PoolStart i config)|]. by eapply run_prog_pool.
Qed.

(** The laws the publisher is proved against hold of the repository and the broker. *)
#[export] Instance pg_publication u : @PublicationLaws Net (pg_store u) (broker u).
Proof.
  refine {| published n id := marked (committed n.1) id; accepted n m := m ∈ n.2;
            carries n id m := message_for (committed n.1) id m; evolves := extends |}.
  - intros n n' m [_ Hl] Hm. by eapply elem_of_prefix.
  - intros n n' id m [Hk _]. by apply message_for_kept.
  - intros limit lease [w log] r [w' log']. cbn. destruct (Claim _ _ _ _ _ w) as [r1 w1] eqn:E. intros [= <- <- <-].
    split_and!; [split; [by eapply republished_kept, Claim_republished|done]|intros id; by eapply Claim_marked|].
    intros claimed c m. by eapply Claim_messages.
  - intros eid token delay text [w log] r [w' log']. cbn. destruct (MarkFailed _ _ _ _ _ w) as [r1 w1] eqn:E. intros [= <- <- <-].
    split; [|intros id; by eapply MarkFailed_marked]. split; [|done].
    apply republished_kept. exact (proj2 (Mark_republished _ _ _ _ _ _) _ _ E).
  - intros eid token [w log] r [w' log']. cbn. destruct (MarkPublished _ _ _ w) as [r1 w1] eqn:E. intros [= <- <- <-].
    split; [split; [|done]; apply republished_kept; exact (proj1 (Mark_republished _ _ _ _ _ _) E)|].
    intros id m (oid' & row & dr & Eid & _) [?|(oid & Ho & ->)]%(MarkPublished_marked _ _ _ _ _ _ _ E); [by left|right].
    rewrite Eid, uuid_scan_text in Ho. congruence.
  - intros m [w log] o [w' log']. cbn. intros [= <- <- <-]. cbn. split_and!.
    + split; [done|]. cbn. destruct (match _ with Some _ => _ | None => _ end); [by apply prefix_app_r|done].
    + intros ->. set_solver.
    + by left.
Defined.

Lemma unmarked d id :
  forallb (fun x => bool_decide (ob_published_at x.2 = None)) (map_to_list (t_outbox d)) = true -> ~ marked d id.
Proof.
  rewrite forallb_forall. intros Hv (oid & row & at_ & _ & Hr & Hp).
  apply elem_of_map_to_list, list_elem_of_In, Hv, bool_decide_eq_true in Hr. cbn in Hr. congruence.
Qed.

Lemma unmarked_sent u n :
  forallb (fun x => bool_decide (ob_published_at x.2 = None)) (map_to_list (t_outbox (committed n.1))) = true ->
  @all_sent Net _ _ (pg_publication u) n.
Proof. intros Hn id Hm. by destruct (unmarked _ id Hn). Qed.

(** ** Properties *)

(** C8: the outbox delivers: in every state that any number of publishers and the
    application reach from an empty system, in any interleaving, with any faults,
    lost acknowledgements, refusals of the broker and crashed batches, every event
    marked as published has its message in the broker's log; and every message in
    the log is the encoding of a stored event under its aggregate's key, from which
    consumers read back exactly that event whenever its payload is a marshalled
    object. *)
Theorem outbox_delivery (w0 w : World) (log : list Message) (pool : gmap nat Prog) :
  initial (committed w0) -> rtc pool_step (unstarted w0) ((w, log), pool) ->
  (forall oid row at_, t_outbox (committed w) !! oid = Some row -> ob_published_at row = Some at_ ->
     exists m, m ∈ log /\ message_for (committed w) (uuid_text oid) m) /\
  (forall m, m ∈ log -> exists oid row e,
     t_outbox (committed w) !! oid = Some row /\ eventID e = uuid_text oid /\ NewDraft (row_params row) = Ok (draft e) /\
     Key m = ob_aggregate_type row ++ ":" ++ uuid_text (ob_aggregate_id row) /\ encode_envelope e = Ok (Value m) /\
     forall fields, sendable e fields -> ParseEnvelope (Value m) = Ok e).
Proof.
  intros Hi HR. apply pool_run_inv in HR as [_ HM HL _]; [|by apply unstarted_inv]. cbn [fst snd] in *. split.
  - intros oid row at_ Hr Hp. destruct (HM (uuid_text oid)) as (m & ? & ?); [by exists oid, row, at_|by exists m].
  - intros m (id & oid & row & dr & -> & Hr & Hd & Hm)%HL. exists oid, row, (mkEnvelope (uuid_text oid) dr).
    unfold message_of in Hm. destruct (encode_envelope _) as [text|] eqn:Ee; [|done]. injection Hm as <-. cbn [Key Value].
    split_and!; try done.
    + destruct (NewDraft_identity _ _ Hd) as (_ & _ & -> & _ & ->). cbn [row_params param_AggregateType param_AggregateID].
      by rewrite (canonical_normalize _ (uuid_text_canonical _)).
    + intros fields Hs. destruct (encode_parse _ _ Hs) as (text' & Ht & Hp). congruence.
Qed.

End Delivery.

(** ** A concrete batch *)

Definition after_order : World := (TransferRepo.CreatePending small steady opening).2.

Definition friendly : Surroundings :=
  mkSurroundings (clock (10 * Second)) (fun _ => Ok first_bytes) (fun _ _ => false) (fun _ _ => None) (fun _ _ => false).

Definition first_batch : BatchResult * Result unit * Net :=
  @PublishBatch Net (pg_store friendly) (broker friendly) sample_config (after_order, []).

(** The event of the accepted order was sent and marked. *)
Definition delivered (n : Net) : bool :=
  bool_decide (length n.2 = 1%nat) &&
  match map_to_list (t_outbox (committed n.1)) with
  | [(_, row)] => bool_decide (is_Some (ob_published_at row))
  | _ => false
  end.

Lemma first_batch_ran : first_batch = (mkBatchResult 1 1 0, Ok tt, first_batch.2).
Proof.
  destruct first_batch as [[[a b c] [[]|e]] n] eqn:E.
  - assert (Hv : bool_decide ((Claimed first_batch.1.1, Published first_batch.1.1, Failed first_batch.1.1) = (1, 1, 0)) = true)
      by (vm_compute; reflexivity).
    rewrite E in Hv. apply bool_decide_eq_true in Hv. cbn in Hv. injection Hv as -> -> ->. reflexivity.
  - assert (Hv : is_ok first_batch.1.2 = true) by (vm_compute; reflexivity). rewrite E in Hv. discriminate Hv.
Qed.

Lemma order_run : rtc pool_step (unstarted opening) ((after_order, []), ∅).
Proof.
  apply rtc_once, PoolApp, accept_app; [by apply order_typed|reflexivity|reflexivity].
Qed.

Lemma first_batch_run : rtc pool_step (unstarted opening) (first_batch.2, <[0%nat := Stop (mkBatchResult 1 1 0) (Ok tt)]> ∅).
Proof.
  exact (transitivity order_run (PublishBatch_pool friendly sample_config (after_order, []) (mkBatchResult 1 1 0) (Ok tt)
    first_batch.2 0%nat ∅ first_batch_ran)).
Qed.

Lemma outbox_delivery_witness :
  delivered first_batch.2 = true /\
  forall m, m ∈ first_batch.2.2 -> exists oid row, t_outbox (committed first_batch.2.1) !! oid = Some row /\
    Key m = ob_aggregate_type row ++ ":" ++ uuid_text (ob_aggregate_id row).
Proof.
  split; [vm_compute; reflexivity|].
  destruct (outbox_delivery opening first_batch.2.1 first_batch.2.2
    (<[0%nat := Stop (mkBatchResult 1 1 0) (Ok tt)]> ∅)) as [_ HL].
  - exact opening_initial.
  - rewrite <- surjective_pairing. exact first_batch_run.
  - intros m Hm. destruct (HL m Hm) as (oid & row & e & Hr & _ & _ & Hk & _). exists oid, row. split; [exact Hr|exact Hk].
Defined.

Lemma nothing_marked : @all_sent Net _ _ (pg_publication friendly) (after_order, []).
Proof. apply (unmarked_sent friendly (after_order, [])). vm_compute. reflexivity. Qed.

Lemma publisher_sends_first_witness :
  delivered first_batch.2 = true /\ @all_sent Net _ _ (pg_publication friendly) first_batch.2.
Proof.
  split; [vm_compute; reflexivity|].
  exact (proj1 (@publisher_sends_first Net _ _ (pg_publication friendly) sample_config (after_order, []) nothing_marked)
    _ _ _ first_batch_ran).
Defined.

Lemma PublishBatch_counts_witness : Published first_batch.1.1 + Failed first_batch.1.1 = Claimed first_batch.1.1.
Proof.
  pose proof (proj2 (proj2 (@PublishBatch_counts Net (pg_store friendly) (broker friendly) sample_config (after_order, [])
    first_batch.2 (mkBatchResult 1 1 0) (Ok tt) first_batch_ran))) as HC.
  rewrite first_batch_ran. exact HC.
Defined.
