(* ===== verification/Drain.v ===== *)
(** * The outbox drains

    Progress of the publisher: with a database that does not fail, a broker that
    accepts, and rows that can be read, the polling loop publishes every event
    that is due, within as many batches as there are unpublished events. *)

From stdpp Require Import base list gmap strings numbers sorting.
From Stdlib Require Import ZArith Lia.
From S2P Require Import OutboxRepo OutboxTheorems Publisher.
From S2P Require Import Prelude GoText Json GoTime Event EnvelopeJson Database PgInstance Outbox System Scenario Delivery.

Open Scope string_scope.
Open Scope Z_scope.

Section Drain.
Context `{PgLaws}.

(** Surroundings in which nothing stands in the way, with clocks past [t0]. *)
Record cooperative (t0 : Z) (u : Surroundings) : Prop := {
  co_healthy : healthy (sur_service u);
  co_random n : exists bytes, sur_random u n = Ok bytes /\ length bytes = 16%nat /\ Forall is_byte bytes;
  co_unlocked n id : sur_locked u n id = false;
  co_accepts n m : sur_answer u n m = None;
  co_time n : t0 <= instant (now_at (sur_service u) n)
}.

(** A row that can be read and encoded, created before [t0]. *)
Definition row_sendable (t0 : Z) (id : UUID) (r : OutboxRow) : Prop :=
  instant (ob_created_at r) <= t0 /\
  exists dr m, NewDraft (row_params r) = Ok dr /\ message_of (mkEnvelope (uuid_text id) dr) = Ok m.

Definition unpublished (d : DB) : gmap UUID OutboxRow := filter (fun x => ob_published_at x.2 = None) (t_outbox d).

Record drainable (t0 : Z) (d : DB) : Prop := {
  dr_deferred : deferred_ok d = true;
  dr_rows id r : unpublished d !! id = Some r -> row_sendable t0 id r
}.

Lemma unpublished_Some d id r : unpublished d !! id = Some r <-> t_outbox d !! id = Some r /\ ob_published_at r = None.
Proof. unfold unpublished. by rewrite map_lookup_filter_Some. Qed.

Lemma sendable_content t0 id r r' : same_content r r' -> row_sendable t0 id r -> row_sendable t0 id r'.
Proof.
  intros Hc (Ht & dr & m & Hd & Hm). split; [|exists dr, m; by rewrite (content_params _ _ Hc)].
  destruct Hc as (_ & _ & _ & _ & _ & _ & _ & _ & _ & _ & ->). done.
Qed.

Lemma scan_total text row t0 :
  row_sendable t0 row.1 row.2 -> exists c m, scanClaimedEvent text row = Ok c /\ message_of (ce_Envelope c) = Ok m.
Proof.
  destruct row as [id r]. cbn. intros (_ & dr & m & Hd & Hm). unfold scanClaimedEvent. cbn [fst snd]. rewrite Hd. cbn.
  assert (Hv : draft_validate dr = Ok tt).
  { unfold NewDraft in Hd. destruct (normalizePayload _); [|done]. destruct (if bool_decide _ then _ else _); [|done].
    destruct (draft_validate _) as [[]|] eqn:E; [|done]. by injection Hd as <-. }
  unfold NewEnvelope. rewrite (canonical_normalize _ (uuid_text_canonical id)), Hv. cbn. eexists _, m. split; [done|exact Hm].
Qed.

Lemma scan_all_total text rows t0 :
  Forall (fun row => row_sendable t0 row.1 row.2) rows -> exists claimed, scan_claimed text rows = Ok claimed.
Proof.
  induction 1 as [|row rows Hr _ (claimed & IH)]; [by eexists|]. destruct (scan_total text row t0 Hr) as (c & m & Hc & _).
  cbn [scan_claimed]. rewrite Hc. cbn. rewrite IH. by eexists.
Qed.

Lemma eligible_unpublished now r : eligible now r = true -> ob_published_at r = None.
Proof. unfold eligible. rewrite !andb_true_iff. intros [[?%bool_decide_eq_true _] _]. done. Qed.

Lemma deferred_outbox f d : deferred_ok (set_outbox f d) = deferred_ok d.
Proof. done. Qed.

(** A claim succeeds. *)
Lemma Claim_total t0 bytes locked limit lease s w :
  healthy s -> length bytes = 16%nat -> Forall is_byte bytes -> 0 < limit <= maxClaimBatch ->
  minClaimLease <= lease <= maxClaimLease -> Z.rem lease Second = 0 -> drainable t0 (committed w) ->
  exists claimed w', Claim (Ok bytes) locked limit lease s w = (Ok claimed, w').
Proof.
  intros Hs Hl Hb Hlim Hlease Hrem [Hd Hrows]. unfold Claim.
  rewrite (proj2 (Z.leb_gt _ _)), (proj2 (Z.ltb_ge _ _)) by lia. cbn [orb].
  rewrite !(proj2 (Z.ltb_ge _ _)) by lia. rewrite (proj2 (Z.eqb_eq _ _)) by done. cbn [negb orb].
  destruct (newClaimToken_canonical bytes Hl Hb) as (text & -> & Hc). destruct (uuid_scan_canonical text Hc) as (token & Ht & _).
  set (now := now_at s (tick w)). set (rows := candidates locked (Z.to_nat limit) now (committed w)).
  destruct (scan_all_total text rows t0) as (claimed & Hcl).
  { apply Forall_forall. intros [id r] Hin%candidates_free. destruct Hin as (Ho & He & _). apply Hrows, unpublished_Some.
    split; [done|by eapply eligible_unpublished]. }
  destruct (run_tx_ends_healthy true (claim_work locked limit text (Z.quot lease Second))
    (claim_body locked limit text (Z.quot lease Second)) s w (merge_sort sequence_le claimed)
    (advance (begun s w) (set_outbox (map_imap (fun id r => Some (if decide (id ∈ rows.*1) then
      leased token (add_seconds now (Z.quot lease Second)) r else r))) (committed w))) Hs
    (claim_ends _ _ _ _) (quiet_claim_work _ _ _ _)) as (w' & HR & _); [|done|done|by eexists _, w'].
  unfold claim_work. erewrite bind_run; [|apply exec_healthy; [done|done|]].
  2: { unfold claimEventsQuery. rewrite Ht. cbn [begun tx_db tx_now]. reflexivity. }
  unfold mbind, Tx_bind, lift. fold rows. cbn [tx_now begun]. fold now. fold rows. by rewrite Hcl.
Qed.

(** Completing a held event succeeds. *)
Lemma MarkPublished_total s w oid token r :
  healthy s -> t_outbox (committed w) !! oid = Some r -> held token r = true ->
  instant (ob_created_at r) <= instant (now_at s (tick w)) ->
  MarkPublished (uuid_text oid) (uuid_text token) s w =
    (Ok tt, mkWorld (set_outbox (insert oid (completed (now_at s (tick w)) r)) (committed w)) (S (tick w))).
Proof.
  intros Hs Hr Hh Ht. unfold MarkPublished. rewrite (proj2 (parseClaimIdentity_Ok _ _ oid token)) by (split; apply uuid_scan_text).
  erewrite run_stmt_healthy; [|done|].
  2: { unfold markPublishedQuery. rewrite Hr, Hh. cbn [negb]. by rewrite (proj2 (Z.ltb_ge _ _)) by done. }
  done.
Qed.

(** What [publish_each] works on: a claimed event, its row held under its token. *)
Definition holding (t0 : Z) (d : DB) (c : ClaimedEvent) : Prop :=
  exists oid token r m, eventID (ce_Envelope c) = uuid_text oid /\ ce_ClaimToken c = uuid_text token /\
    t_outbox d !! oid = Some r /\ held token r = true /\ instant (ob_created_at r) <= t0 /\ message_of (ce_Envelope c) = Ok m.

(** Only the given events have changed, and they are published. *)
Record marks (d d' : DB) (ids : list string) : Prop := {
  mk_tables : d' = set_outbox (fun _ => t_outbox d') d;
  mk_published oid : uuid_text oid ∈ ids -> exists r, t_outbox d' !! oid = Some r /\ is_Some (ob_published_at r);
  mk_others oid : uuid_text oid ∉ ids -> t_outbox d' !! oid = t_outbox d !! oid
}.

Lemma marks_nil d : marks d d [].
Proof. split; [by destruct d|set_solver|done]. Qed.

Lemma marks_cons oid r now d d' ids :
  uuid_text oid ∉ ids -> marks (set_outbox (insert oid (completed now r)) d) d' ids -> marks d d' (uuid_text oid :: ids).
Proof.
  intros Hn [Ht Hp Ho]. split.
  - rewrite Ht. done.
  - intros oid' [E|Hin]%elem_of_cons; [|by apply Hp]. apply uuid_text_inj in E as ->.
    exists (completed now r). split; [|by eexists]. rewrite Ho by done. apply lookup_insert_eq.
  - intros oid' [Hne Hni]%not_elem_of_cons. rewrite Ho by done. apply lookup_insert_ne. congruence.
Qed.

Section Publishing.
Context (t0 : Z) (u : Surroundings) (Hu : cooperative t0 u).

Lemma publish_each_total config claimed result n :
  (forall c, c ∈ claimed -> holding t0 (committed n.1) c) -> NoDup ((fun c => eventID (ce_Envelope c)) <$> claimed) ->
  exists result' n', @publish_each Net (pg_store u) (broker u) config claimed result n = (result', Ok tt, n') /\
    Claimed result' = Claimed result /\ marks (committed n.1) (committed n'.1) ((fun c => eventID (ce_Envelope c)) <$> claimed).
Proof.
  revert result n. induction claimed as [|c claimed IH]; intros result [w log] Hc Hnd.
  { exists result, (w, log). split_and!; [done|done|apply marks_nil]. }
  destruct (Hc c) as (oid & token & r & m & Eid & Etok & Hr & Hh & Ht & Hm); [by left|].
  cbn [publish_each]. rewrite Hm. cbn [broker Publish fst snd]. rewrite (co_accepts _ _ Hu).
  cbn [pg_store store_MarkPublished fst snd]. rewrite Eid, Etok.
  rewrite (MarkPublished_total _ _ oid token r (co_healthy _ _ Hu)) by (try done; pose proof (co_time _ _ Hu (tick w)); lia).
  apply NoDup_cons in Hnd as [Hni Hnd]. rewrite Eid in Hni.
  set (w1 := mkWorld _ _). set (n1 := (w1, (log ++ [m])%list) : Net). set (result1 := mkBatchResult _ _ _).
  destruct (IH result1 n1) as (result' & n' & HR & HC & HM); [|done|].
  - intros c' Hc'. destruct (Hc c') as (oid' & token' & r' & m' & Eid' & ?); [by right|]. exists oid', token', r', m'.
    split; [done|]. cbn. rewrite lookup_insert_ne; [done|]. intros ->. apply Hni, list_elem_of_fmap. by exists c'.
  - exists result', n'. split; [exact HR|]. split; [done|]. cbn [fmap list_fmap]. rewrite Eid. eapply marks_cons; [exact Hni|exact HM].
Qed.

(** A batch publishes everything it claims. *)
Lemma PublishBatch_total config n :
  validatePublisherConfig config = Ok tt -> drainable t0 (committed n.1) ->
  exists result n' ids, @PublishBatch Net (pg_store u) (broker u) config n = (result, Ok tt, n') /\
    Claimed result = Z.of_nat (length ids) /\ marks (committed n.1) (committed n'.1) ids /\ NoDup ids /\
    (forall id, id ∈ ids -> exists oid, id = uuid_text oid /\ is_Some (unpublished (committed n.1) !! oid)) /\
    (ids = [] -> forall oid r, t_outbox (committed n.1) !! oid = Some r ->
       eligible (now_at (sur_service u) (tick n.1)) r = false).
Proof.
  intros Hv Hd. destruct n as [w log]. cbn [fst] in *. destruct (validate_Ok _ Hv) as (Hb & Hl & Hrem & _).
  destruct (co_random _ _ Hu (w, log)) as (bytes & Hbytes & Hlen & Hbs).
  destruct (Claim_total t0 bytes (sur_locked u (w, log)) (BatchSize config) (ClaimLease config) (sur_service u) w
    (co_healthy _ _ Hu) Hlen Hbs Hb Hl Hrem Hd) as (claimed & w1 & HC).
  unfold PublishBatch. cbn [pg_store store_Claim fst snd]. rewrite Hbytes, HC.
  apply Claim_outcome in HC as (text & token & Htext & HCl). set (now := now_at (sur_service u) (tick w)) in *.
  assert (Hone : forall c, c ∈ claimed -> exists oid r, t_outbox (committed w) !! oid = Some r /\ ob_published_at r = None /\
    eventID (ce_Envelope c) = uuid_text oid /\ holding t0 (committed w1) c).
  { intros c Hc. destruct (cl_leased _ _ _ _ _ _ _ _ _ HCl c Hc) as (oid & r & Ho & He & _ & E1 & E2 & _ & _ & E5 & Hw1).
    pose proof (eligible_unpublished _ _ He) as Hp. exists oid, r. split_and!; [done..|].
    destruct (dr_rows _ _ Hd oid r) as (Hcr & dr & m & Hdr & Hm); [by apply unpublished_Some|].
    exists oid, token, (leased token (lease_end (ClaimLease config) now) r), m. split_and!; try done.
    - rewrite E5. destruct (newClaimToken_canonical bytes Hlen Hbs) as (text' & Ht' & Hcan).
      assert (text' = text) as -> by congruence. destruct (uuid_scan_canonical _ Hcan) as (token' & Hs & <-).
      pose proof (cl_token _ _ _ _ _ _ _ _ _ HCl) as Hs'. congruence.
    - unfold held. cbn. rewrite Hp. by rewrite !bool_decide_eq_true_2.
    - assert (draft (ce_Envelope c) = dr) as Ed by congruence. rewrite <- E1, <- Ed in Hm. by destruct (ce_Envelope c). }
  destruct (publish_each_total config claimed (mkBatchResult (Z.of_nat (length claimed)) 0 0) (w1, log))
    as (result' & n' & HR & HCr & HM).
  - intros c Hc. by destruct (Hone c Hc) as (oid & r & _ & _ & _ & ?).
  - exact (cl_once _ _ _ _ _ _ _ _ _ HCl).
  - exists result', n', ((fun c => eventID (ce_Envelope c)) <$> claimed). split; [exact HR|].
    split; [by rewrite HCr, length_fmap|]. split; [|split; [exact (cl_once _ _ _ _ _ _ _ _ _ HCl)|split]].
    + destruct HM as [Ht Hp Ho]. split; [rewrite Ht; cbn [fst]; by rewrite (cl_tables _ _ _ _ _ _ _ _ _ HCl)|exact Hp|].
      intros oid Hni. rewrite Ho by done. cbn [fst]. apply (cl_others _ _ _ _ _ _ _ _ _ HCl).
      intros c Hc E. apply Hni, list_elem_of_fmap. by exists c.
    + intros id (c & -> & Hc)%list_elem_of_fmap. destruct (Hone c Hc) as (oid & r & Ho & Hp & E & _). exists oid.
      split; [done|]. exists r. by apply unpublished_Some.
    + intros Hnil oid r Ho. apply fmap_nil_inv in Hnil. destruct (eligible now r) eqn:He; [|done].
      destruct (cl_fair _ _ _ _ _ _ _ _ _ HCl oid r Ho He (co_unlocked _ _ Hu _ _)) as [(c & Hc & _)|[Hlim _]];
        rewrite Hnil in *; [set_solver|]. cbn in Hlim. lia.
Qed.

(** ** Towards an empty queue *)

(** Due at [t0], and not under a lease that runs past it. *)
Definition due (r : OutboxRow) : Prop := eligible (mkTime t0 0) r = true.

Definition is_published (d : DB) (oid : UUID) : Prop :=
  exists r, t_outbox d !! oid = Some r /\ is_Some (ob_published_at r).

Lemma due_eligible r now : due r -> t0 <= instant now -> eligible now r = true.
Proof.
  unfold due, eligible. cbn. rewrite !andb_true_iff. intros [[Hp Ha%Z.leb_le] Hc] Hn. split_and!; [done|apply Z.leb_le; lia|].
  destruct (ob_claimed_until r); [|done]. apply Z.leb_le in Hc. apply Z.leb_le. lia.
Qed.

Lemma marks_row d d' ids oid r : marks d d' ids -> t_outbox d' !! oid = Some r ->
  t_outbox d !! oid = Some r \/ is_Some (ob_published_at r).
Proof.
  intros [_ Hp Ho] Hr. destruct (decide (uuid_text oid ∈ ids)) as [Hin|Hin]; [right|left; by rewrite <- Ho].
  destruct (Hp _ Hin) as (r' & Hr' & ?). congruence.
Qed.

Lemma marks_drainable d d' ids : marks d d' ids -> drainable t0 d -> drainable t0 d'.
Proof.
  intros HM [Hd Hr]. split; [by rewrite (mk_tables _ _ _ HM), deferred_outbox|].
  intros oid r [Ho Hp]%unpublished_Some. destruct (marks_row _ _ _ _ _ HM Ho) as [?|[x ?]]; [|congruence].
  apply Hr. by apply unpublished_Some.
Qed.

Lemma marks_published d d' ids oid : marks d d' ids -> is_published d oid -> is_published d' oid.
Proof.
  intros HM (r & Hr & Hp). destruct (decide (uuid_text oid ∈ ids)) as [Hin|Hin]; [by apply (mk_published _ _ _ HM)|].
  exists r. by rewrite (mk_others _ _ _ HM).
Qed.

(** Each event published is one fewer to publish. *)
Lemma marks_fewer d d' ids :
  marks d d' ids -> ids <> [] -> (forall id, id ∈ ids -> exists oid, id = uuid_text oid /\ is_Some (unpublished d !! oid)) ->
  (size (unpublished d') < size (unpublished d))%nat.
Proof.
  intros HM Hne Hids. apply map_subset_size. split.
  - apply map_subseteq_spec. intros oid r [Ho Hp]%unpublished_Some. apply unpublished_Some.
    destruct (marks_row _ _ _ _ _ HM Ho) as [?|[x ?]]; [done|congruence].
  - destruct ids as [|id ids]; [done|]. destruct (Hids id) as (oid & -> & [r Hr]); [by left|].
    intros Hsub. rewrite map_subseteq_spec in Hsub. apply Hsub, unpublished_Some in Hr as [Hr Hp].
    destruct (mk_published _ _ _ HM oid) as (r' & Hr' & [x Hx]); [by left|]. congruence.
Qed.

Lemma run_drains config fuel k n :
  validatePublisherConfig config = Ok tt -> drainable t0 (committed n.1) ->
  (size (unpublished (committed n.1)) <= fuel)%nat \/ (forall oid r, t_outbox (committed n.1) !! oid = Some r -> ~ due r) ->
  exists n', @publisher_Run Net (pg_store u) (broker u) fuel config (fun _ => false) k n = (None, n') /\
    (forall oid r, t_outbox (committed n.1) !! oid = Some r -> due r -> is_published (committed n'.1) oid) /\
    (forall oid, is_published (committed n.1) oid -> is_published (committed n'.1) oid).
Proof.
  intros Hv. revert k n. induction fuel as [|fuel IH]; intros k n Hd Hm.
  { exists n. split_and!; [done| |done]. intros oid r Hr Hdue. exfalso. destruct Hm as [Hm|Hm]; [|by eapply Hm].
    assert (Hz : size (unpublished (committed n.1)) = 0%nat) by lia. apply map_size_empty_inv in Hz.
    assert (Hin : unpublished (committed n.1) !! oid = Some r) by (apply unpublished_Some; split; [done|by eapply eligible_unpublished]).
    by rewrite Hz in Hin. }
  destruct (PublishBatch_total config n Hv Hd) as (result & n1 & ids & HR & HC & HM & Hnd & Hids & Hnil).
  assert (Hd1 : drainable t0 (committed n1.1)) by by eapply marks_drainable.
  assert (Hm1 : (size (unpublished (committed n1.1)) <= fuel)%nat \/
    (forall oid r, t_outbox (committed n1.1) !! oid = Some r -> ~ due r)).
  { destruct Hm as [Hm|Hm].
    - destruct (decide (ids = [])) as [->|Hne]; [right|left; pose proof (marks_fewer _ _ _ HM Hne Hids); lia].
      intros oid r Hr Hdue. rewrite (mk_others _ _ _ HM) in Hr by set_solver. pose proof (co_time _ _ Hu (tick n.1)).
      pose proof (due_eligible r (now_at (sur_service u) (tick n.1)) Hdue ltac:(lia)). by rewrite (Hnil eq_refl oid r Hr) in *.
    - right. intros oid r Hr Hdue. destruct (marks_row _ _ _ _ _ HM Hr) as [Ho|[x Hx]]; [by eapply Hm|].
      apply eligible_unpublished in Hdue. congruence. }
  assert (Hnext : forall k', exists n', @publisher_Run Net (pg_store u) (broker u) fuel config (fun _ => false) k' n1 = (None, n') /\
    (forall oid r, t_outbox (committed n.1) !! oid = Some r -> due r -> is_published (committed n'.1) oid) /\
    (forall oid, is_published (committed n.1) oid -> is_published (committed n'.1) oid)).
  { intros k'. destruct (IH k' n1 Hd1 Hm1) as (n' & HR' & Hdue' & Hpub'). exists n'. split_and!; [done| |].
    - intros oid r Hr Hdue. destruct (decide (uuid_text oid ∈ ids)) as [Hin|Hin].
      + apply Hpub'. by apply (mk_published _ _ _ HM).
      + apply (Hdue' oid r); [|done]. by rewrite (mk_others _ _ _ HM).
    - intros oid Hp. by eapply Hpub', marks_published. }
  cbn [publisher_Run]. rewrite HR. destruct (0 <? Claimed result); apply Hnext.
Qed.

End Publishing.

Definition drainable_check (t0 : Z) (d : DB) : bool :=
  deferred_ok d &&
  forallb (fun x => (instant (ob_created_at x.2) <=? t0) &&
    match NewDraft (row_params x.2) with
    | Ok dr => is_ok (message_of (mkEnvelope (uuid_text x.1) dr))
    | Err _ => false
    end) (map_to_list (unpublished d)).

Lemma drainable_check_sound t0 d : drainable_check t0 d = true -> drainable t0 d.
Proof.
  intros [Hd Hall]%andb_true_iff. split; [done|]. intros id r Hr. rewrite forallb_forall in Hall.
  apply elem_of_map_to_list, list_elem_of_In, Hall in Hr. apply andb_true_iff in Hr as [Ht%Z.leb_le Hm]. cbn [fst snd] in *.
  split; [done|]. destruct (NewDraft (row_params r)) as [dr|]; [|done]. destruct (message_of _) as [m|] eqn:E; [|done]. eauto.
Qed.

(** ** Properties *)

(** C18: the outbox drains: with a validated configuration, a database that does
    not fail, a broker that accepts, rows that can be read and nobody holding
    locks, the polling loop publishes every event that is due within as many
    batches as there are unpublished events; it neither stops nor fails, and
    published events stay published. *)
Theorem outbox_drains (t0 : Z) (u : Surroundings) (config : PublisherConfig) (fuel k : nat) (n : Net) :
  cooperative t0 u -> validatePublisherConfig config = Ok tt -> drainable t0 (committed n.1) ->
  (size (unpublished (committed n.1)) <= fuel)%nat ->
  exists n', @publisher_Run Net (pg_store u) (broker u) fuel config (fun _ => false) k n = (None, n') /\
    (forall oid r, t_outbox (committed n.1) !! oid = Some r -> due t0 r -> is_published (committed n'.1) oid) /\
    (forall oid, is_published (committed n.1) oid -> is_published (committed n'.1) oid).
Proof. intros Hu Hv Hd Hf. apply (run_drains t0 u Hu config fuel k n Hv Hd). by left. Qed.

End Drain.

(** ** A concrete drain *)

Lemma friendly_cooperative : cooperative (10 * Second) friendly.
Proof.
  split; [done| |done|done|reflexivity]. intros n. exists first_bytes. split; [done|]. split; [done|].
  unfold is_byte. repeat constructor; lia.
Qed.

Definition ordered : Net := (after_order, []).

Lemma outbox_drains_witness :
  size (unpublished (committed ordered.1)) = 1%nat /\
  exists n', @publisher_Run Net (pg_store friendly) (broker friendly) 1 sample_config (fun _ => false) 0 ordered = (None, n') /\
    forall oid r, t_outbox (committed ordered.1) !! oid = Some r -> due (10 * Second) r -> is_published (committed n'.1) oid.
Proof.
  assert (Hsize : size (unpublished (committed ordered.1)) = 1%nat) by (vm_compute; reflexivity). split; [exact Hsize|].
  destruct (outbox_drains (10 * Second) friendly sample_config 1 0 ordered friendly_cooperative) as (n' & HR & HD & _).
  - vm_compute. reflexivity.
  - apply drainable_check_sound. vm_compute. reflexivity.
  - exact (Nat.eq_le_incl _ _ Hsize).
  - exists n'. split; [exact HR|exact HD].
Defined.
