(* ===== verification/Pipeline.v ===== *)
(** * From a transfer to its workers

    The composition of the components: the event that a waiting transfer was stored
    with is published by the polling loop, and the message it becomes is one that
    the worker reads, recognizes and acts on. *)

From stdpp Require Import base list gmap strings numbers relations sorting.
From Stdlib Require Import ZArith Lia.
From S2P Require Import OutboxRepo OutboxTheorems Publisher WalletRepo WalletTheorems Quarantine.
From S2P Require Import RiskWorker TransactionWorker ReviewCase.
From S2P Require Import Prelude GoText Money Journal TransferDomain RiskPolicy Json JsonDecode GoTime Event.
From S2P Require Import TransferEvents EventParse EnvelopeJson Documents Database PgInstance LedgerRepo LedgerSpec LedgerCorrect LedgerTheorems.
From S2P Require Import Outbox Inbox TransferRepo TransferSpec TransferStore StoreSpec AuditWriter WorkerSpec System Ready Messages Jsonb.
From S2P Require Import Scenario Delivery Drain Consumer Progress Liveness.

Open Scope string_scope.
Open Scope Z_scope.

Section Pipeline.
Context `{PgLaws} `{!JsonbLaws} `{!JsonbText}.

(** ** Publishing leaves the rest alone *)

Record sent (d d' : DB) : Prop := {
  se_transfers : t_transfers d' = t_transfers d;
  se_reviews : t_reviews d' = t_reviews d;
  se_kept : outbox_kept d d';
  se_none oid : t_outbox d !! oid = None -> t_outbox d' !! oid = None
}.

#[local] Instance sent_preorder : PreOrder sent.
Proof.
  split; [by intros d|]. intros d1 d2 d3 [T1 V1 K1 N1] [T2 V2 K2 N2]. split; [by rewrite T2|by rewrite V2|by etrans|auto].
Qed.

Lemma republished_sent d d' : republished d d' -> sent d d'.
Proof. intros HR. split; [apply (republished_frame _ _ HR)|apply (republished_frame _ _ HR)|by apply republished_kept|apply HR]. Qed.

Lemma run_prog_sent u p n result r n' :
  @run_prog Net (pg_store u) (broker u) p n = (result, r, n') -> sent (committed n.1) (committed n'.1).
Proof.
  revert n. induction p as [res r0|limit lease k IH|m k IH|eid token delay text k IH|eid token k IH]; intros [w log];
    cbn [run_prog pg_store broker store_Claim store_MarkPublished store_MarkFailed Publish fst snd].
  - by intros [= <- <- <-].
  - destruct (Claim _ _ _ _ _ w) as [r1 w1] eqn:E. intros HR%IH. etrans; [|exact HR]. by eapply republished_sent, Claim_republished.
  - by intros HR%IH.
  - destruct (MarkFailed _ _ _ _ _ w) as [r1 w1] eqn:E. intros HR%IH. etrans; [|exact HR].
    apply republished_sent. exact (proj2 (Mark_republished _ _ _ _ _ _) _ _ E).
  - destruct (MarkPublished _ _ _ w) as [r1 w1] eqn:E. intros HR%IH. etrans; [|exact HR].
    apply republished_sent. exact (proj1 (Mark_republished _ _ _ _ _ _) E).
Qed.

Lemma Run_pool u fuel config stop k n o n' pool :
  @publisher_Run Net (pg_store u) (broker u) fuel config stop k n = (o, n') ->
  (exists pool', rtc pool_step (n, pool) (n', pool')) /\ sent (committed n.1) (committed n'.1).
Proof.
  revert k n pool. induction fuel as [|fuel IH]; intros k n pool; cbn [publisher_Run].
  { intros [= <- <-]. split; [by exists pool|done]. }
  destruct (stop k); [intros [= <- <-]; split; [by exists pool|done]|].
  destruct (@PublishBatch Net (pg_store u) (broker u) config n) as [[result r] n1] eqn:EB.
  pose proof EB as HS. rewrite <- run_batch in HS. apply run_prog_sent in HS.
  pose proof (PublishBatch_pool u config n result r n1 0%nat pool EB) as HP.
  assert (Hrest : forall k', @publisher_Run Net (pg_store u) (broker u) fuel config stop k' n1 = (o, n') ->
    (exists pool', rtc pool_step (n, pool) (n', pool')) /\ sent (committed n.1) (committed n'.1)).
  { intros k' HR. destruct (IH _ _ (<[0%nat := Stop result r]> pool) HR) as [[pool' HP'] HS'].
    split; [exists pool'; by etrans|by etrans]. }
  destruct r as [[]|e]; [|intros [= <- <-]; split; [by eexists|done]].
  destruct (0 <? Claimed result); [apply Hrest|].
  destruct (stop (S k)); [intros [= <- <-]; split; [by eexists|done]|apply Hrest].
Qed.

(** ** Reached states *)

Lemma pool_run q q' : rtc pool_step q q' -> run q.1.1 q'.1.1.
Proof.
  induction 1 as [q|q1 q2 q3 HS _ IH]; [constructor|]. etrans; [|exact IH]. destruct HS as [i config n pool|i p p' n n' pool _ HC|w w' log pool HA].
  - constructor.
  - cbn. destruct (call_step _ _ _ _ HC) as [->|Hst]; [constructor|by apply rtc_once].
  - cbn. by apply rtc_once, Application.
Qed.

(** A state of the tables and the log that publishers and application have reached. *)
Definition reached (n : Net) : Prop := exists w0 pool, initial (committed w0) /\ rtc pool_step (unstarted w0) (n, pool).

Lemma reached_facts n : reached n ->
  reachable n.1 /\ told_inv (committed n.1) /\ (forall id, marked (committed n.1) id -> logged n id).
Proof.
  intros (w0 & pool & Hi & HR). assert (Hr : reachable n.1) by (exists w0; split; [done|exact (pool_run _ _ HR)]).
  split_and!; [done|by apply reachable_told|]. apply pool_run_inv in HR as [_ HM _ _]; [exact HM|by apply unstarted_inv].
Qed.

(** Every stored event has been published. *)
Definition drained (d : DB) : Prop := forall oid o, t_outbox d !! oid = Some o -> is_Some (ob_published_at o).

(** The loop publishes everything when nothing has to wait. *)
Lemma Run_drained t0 u config fuel k n :
  reached n -> cooperative t0 u -> validatePublisherConfig config = Ok tt -> drainable t0 (committed n.1) ->
  (forall oid o, unpublished (committed n.1) !! oid = Some o -> due t0 o) ->
  (size (unpublished (committed n.1)) <= fuel)%nat ->
  exists n', @publisher_Run Net (pg_store u) (broker u) fuel config (fun _ => false) k n = (None, n') /\
    reached n' /\ drained (committed n'.1) /\ sent (committed n.1) (committed n'.1).
Proof.
  intros (w0 & pool & Hi & HP) Hu Hv Hd Hdue Hf.
  destruct (run_drains t0 u Hu config fuel k n Hv Hd (or_introl Hf)) as (n' & HR & HD & HK). exists n'. split; [exact HR|].
  destruct (Run_pool u fuel config _ k n None n' pool HR) as [[pool' HP'] HS].
  split_and!; [exists w0, pool'; split; [done|by etrans]| |exact HS]. pose proof (se_none _ _ HS) as HN.
  intros oid o' Ho'. destruct (t_outbox (committed n.1) !! oid) as [o|] eqn:Ho; [|by rewrite HN in Ho'].
  assert (is_published (committed n'.1) oid) as (o2 & Ho2 & Hp); [|by rewrite Ho' in Ho2; injection Ho2 as ->].
  destruct (ob_published_at o) as [at_|] eqn:Hp; [apply HK; exists o; by rewrite Hp|].
  apply (HD _ _ Ho), (Hdue oid). by apply unpublished_Some.
Qed.

(** ** A told event reaches its consumer *)

(** The message of a stored event in the log, and what consumers read in it. *)
Definition carried (n : Net) (oid : UUID) (m : Message) (env : Envelope) : Prop :=
  m ∈ n.2 /\ message_for (committed n.1) (uuid_text oid) m /\ ParseEnvelope (Value m) = Ok env /\ eventID env = uuid_text oid.

Lemma told_carried n e spec :
  reached n -> drained (committed n.1) -> told (committed n.1) e -> draft_wf e -> consumable e spec ->
  eventVersion e <= 32767 -> aggregateVersion e <= MaxInt64 ->
  exists oid m fields v' at_, carried n oid m (mkEnvelope (uuid_text oid) (with_document e v' at_)) /\
    document e fields spec /\ reordered (VObject fields) v'.
Proof.
  intros Hn Hd (oid & o & Ho & Hh) Hw (fields & Hk & Hdist) Hv Hav. destruct (reached_facts _ Hn) as (_ & _ & HM).
  destruct (Hd _ _ Ho) as [at_ Hp]. destruct (HM (uuid_text oid)) as (m & Hm & Hin); [by exists oid, o, at_|].
  pose proof Hm as (oid' & o' & dr & E & Ho' & Hdr & Hmsg). apply (inj uuid_text) in E as <-.
  assert (o' = o) as -> by congruence. unfold message_of in Hmsg. destruct (encode_envelope _) as [text|] eqn:Ee; [|done].
  injection Hmsg as <-. destruct (message_read e fields o dr (uuid_text oid) text) as (HPa & fields' & at' & HR & ->);
    [done|done|done|done|done|done|apply uuid_text_canonical|done|].
  eexists oid, _, fields, (VObject fields'), at'. split; [split_and!; [exact Hin|exact Hm|exact HPa|done]|]. split; [by apply kept_decodable|done].
Qed.

(** ** The workers act on it *)

(** The columns of a row that can be read in a message; the text of its policy is
    visible and written without escapes. *)
Definition plain_policy (r : TransferRow) : Prop := all_bytes kept_byte (nullableValue (tr_policy r)) = true.

Lemma plain_trim s : all_bytes kept_byte s = true -> TrimSpace s = s.
Proof. intros Hs. apply TrimSpace_visible. revert Hs. apply all_bytes_impl. intros c _. unfold kept_byte. rewrite !andb_true_iff. tauto. Qed.

Lemma knownEventType_owned ty : ty = RequestedType \/ ty = RiskAssessedType \/ ty = ReviewDecidedType -> knownEventType ty = true.
Proof. by intros [-> |[-> | ->]]. Qed.

(** What the row says is what its event says. *)
Lemma accepted_agrees d id r l current :
  wallet_inv d -> t_transfers d !! id = Some r -> represents id r current -> accepted_as id r l ->
  tr_status r = "pending_risk" -> instant (requestedAt (lc_transfer l)) mod 1000 = 0 ->
  RiskWorker.conflicts current (observed l) = false.
Proof.
  intros Hinv Hr Hrep Hl Hs Hm. pose proof (stored_wf _ _ _ _ Hinv Hr Hrep) as Hw.
  pose proof (aa_wf _ _ _ Hl) as Hwl. pose proof (lifecycle_policy l Hwl) as Hpol. rewrite (aa_status _ _ _ Hl) in Hpol.
  pose proof Hw as (_ & ((_ & _ & _ & _ & _ & _ & Hc1 & _)%transfer_validate_Ok & _) & _).
  pose proof Hwl as (_ & ((_ & _ & _ & _ & _ & _ & Hc2 & _)%transfer_validate_Ok & _) & _).
  assert (Ham : transfer_amount (lc_transfer current) = transfer_amount (lc_transfer l)).
  { destruct (transfer_amount (lc_transfer current)) as [m1 c1] eqn:E1, (transfer_amount (lc_transfer l)) as [m2 c2] eqn:E2.
    pose proof (rp_currency _ _ _ Hrep) as Ec1. pose proof (aa_currency _ _ _ Hl) as Ec2.
    pose proof (rp_amount _ _ _ Hrep) as Em1. pose proof (aa_amount _ _ _ Hl) as Em2.
    rewrite E1 in Ec1, Em1. rewrite E2 in Ec2, Em2. cbn in *. f_equal; [congruence|].
    apply currency_String_inj; [done|congruence]. }
  assert (Hst : lc_status current = StatusPendingRisk).
  { pose proof (rp_status _ _ _ Hrep) as E. rewrite Hs in E. by destruct (lc_status current). }
  assert (Hti : TimeEqual (requestedAt (lc_transfer current)) (requestedAt (lc_transfer l)) = true).
  { unfold TimeEqual. rewrite (rp_time _ _ _ Hrep), (aa_time _ _ _ Hl). apply Z.eqb_eq. cbn. by apply stored_time_exact. }
  assert (Hp : riskPolicyVersion current = riskPolicyVersion l).
  { rewrite (rp_policy _ _ _ Hrep), (aa_policy _ _ _ Hl). apply policy_trim, Hpol. done. }
  unfold RiskWorker.conflicts, observed. cbn [lc_transfer lc_status riskPolicyVersion transfer_id requesterID sourceAccountID
    destinationAccountID transfer_amount requestedAt].
  rewrite Hst, Ham, Hti, Hp, (rp_id _ _ _ Hrep), (aa_id _ _ _ Hl), (rp_requester _ _ _ Hrep), (aa_requester _ _ _ Hl),
    (rp_source _ _ _ Hrep), (aa_source _ _ _ Hl), (rp_destination _ _ _ Hrep), (aa_destination _ _ _ Hl).
  by rewrite !bool_decide_eq_true_2 by done.
Qed.

(** The risk worker assesses the transfer when it handles the message, in every
    state in which the row is still waiting. *)
Definition assessed_by (id : UUID) (r : TransferRow) (oid : UUID) (text policyVersion : string) : Prop :=
  forall w s h policy current,
    reachable w -> t_transfers (committed w) !! id = Some r -> record_lifecycle (scan_lifecycle id r) = Ok current ->
    t_inbox (committed w) !! (RiskWorker.consumerName, oid) = None ->
    healthy s -> generates_fresh s (committed w) -> handler_wf h -> policies h !! policyVersion = Some policy ->
    exists env w', risk_handleRecord (fun e => RiskWorker.Handle h e s) text w = (Ok (env, true), w') /\
      exists r', t_transfers (committed w') !! id = Some r' /\ moves r r'.

Lemma pending_delivered n id r l :
  reached n -> drained (committed n.1) -> t_transfers (committed n.1) !! id = Some r -> tr_status r = "pending_risk" ->
  accepted_as id r l -> told (committed n.1) (requested_draft l) -> plain_policy r ->
  printable_time (requestedAt (lc_transfer l)) -> instant (requestedAt (lc_transfer l)) mod 1000 = 0 ->
  exists oid m env, carried n oid m env /\ assessed_by id r oid (Value m) (riskPolicyVersion l).
Proof.
  intros Hn Hd Hr Hs Hl Ht Hp Hpr Hmod. pose proof (aa_wf _ _ _ Hl) as Hw.
  unfold plain_policy in Hp. rewrite (aa_policy _ _ _ Hl) in Hp. cbn in Hp.
  destruct (Requested_ok l Hw (aa_status _ _ _ Hl) Hpr) as [_ Hdw].
  destruct (told_carried n (requested_draft l) requested_fields) as (oid & m & fields & v' & at_ & HC & Hdoc & HR); try done.
  { apply requested_consumable; [done|apply Hl|done|done]. }
  { cbn. pose proof Hw as ((_ & _ & Hsh)%lifecycle_validate_Ok & _). unfold status_shape in Hsh. rewrite (aa_status _ _ _ Hl) in Hsh.
    destruct Hsh as [-> _]. done. }
  eexists oid, m, _. split; [exact HC|]. intros w s h policy current Hrw Hrow Hread Hin Hhs Hf Hh Hpol.
  pose proof (ParseRequested_reordered (uuid_text oid) _ _ _ at_ _ Hdoc HR (ParseRequested_Requested _ l Hw (aa_status _ _ _ Hl) Hpr)) as HP.
  destruct HC as (_ & _ & HE & _). destruct (pending_assessed w s id r current h (mkEnvelope (uuid_text oid) (with_document (requested_draft l) v' at_)) oid (observed l)
    policy Hrw Hhs Hf Hh) as (w' & HW & Hmv).
  { split; [exact Hrow|exact Hread|exact HP| |exact Hpol|done|exact Hin].
    eapply accepted_agrees; [by apply reachable_inv|exact Hrow|by apply record_lifecycle_Ok|exact Hl|done|done]. }
  eexists _, w'. split; [|exact Hmv]. unfold risk_handleRecord, handleRecord. rewrite HE. cbn [draft with_document eventType requested_draft].
  change (knownEventType RequestedType) with true. change (risk_owned RequestedType) with true. cbn [negb].
  rewrite HW. done.
Qed.

(** The transaction worker ends the transfer when it handles the message. *)
Definition settled_by (id : UUID) (r : TransferRow) (oid : UUID) (text : string) : Prop :=
  forall w s now current,
    reachable w -> t_transfers (committed w) !! id = Some r -> record_lifecycle (scan_lifecycle id r) = Ok current ->
    t_inbox (committed w) !! (TransactionWorker.consumerName, oid) = None ->
    healthy s -> generates_fresh s (committed w) -> IsZero now = false -> accounts_fit (committed w) id r ->
    printable_time (requestedAt (lc_transfer current)) ->
    exists env w', transaction_handleRecord (fun e => TransactionWorker.Handle now e s) text w =
        (Ok (env, true), w') /\
      exists r', t_transfers (committed w') !! id = Some r' /\ moves r r' /\
        (tr_status r' = "completed" \/ tr_status r' = "failed" /\ source_short (committed w) r).

(** An approval in a message the worker reads. *)
Lemma approval_settles id r oid text env :
  tr_status r = "approved" -> ParseEnvelope text = Ok env -> eventID env = uuid_text oid ->
  (forall current, represents id r current -> approval env id current) -> settled_by id r oid text.
Proof.
  intros Hs HE Hid Happ w s now current Hrw Hrow Hread Hin Hhs Hf Hnow Hfit Hpt.
  pose proof (record_lifecycle_Ok _ _ _ Hread) as Hrep. pose proof (Happ _ Hrep) as Hap.
  destruct (approved_settled w s id r current env oid now) as (w' & HW & Hmv); try done.
  { split; try done. pose proof (rp_status _ _ _ Hrep) as E. rewrite Hs in E. by destruct (lc_status current). }
  exists env, w'. split; [|exact Hmv]. unfold transaction_handleRecord, handleRecord. rewrite HE.
  assert (eventType (draft env) = RiskAssessedType \/ eventType (draft env) = ReviewDecidedType) as Hty.
  { destruct Hap as [_ [(a & Hp & _)|(rd & Hp & _)]]; [left; by eapply assessed_event|right; by eapply decided_event]. }
  rewrite knownEventType_owned by tauto. assert (transaction_owned (eventType (draft env)) = true) as -> by by destruct Hty as [-> | ->].
  cbn [negb]. by rewrite HW.
Qed.

(** Who closed the review of the transfer, written without escapes. *)
Definition plain_decider (d : DB) (id : UUID) : Prop :=
  forall rv subject, t_reviews d !! id = Some rv -> rv_decided_by rv = Some subject -> all_bytes kept_byte subject = true.

Lemma approved_delivered n id r :
  reached n -> drained (committed n.1) -> t_transfers (committed n.1) !! id = Some r -> tr_status r = "approved" ->
  plain_policy r -> plain_decider (committed n.1) id ->
  exists oid m env, carried n oid m env /\ settled_by id r oid (Value m).
Proof.
  intros Hn Hd Hr Hs Hp Hdec. destruct (reached_facts _ Hn) as (_ & Htold & _).
  destruct (proj2 (Htold _ _ Hr) Hs) as (l & e & Hl & He & Hdw & Ht). pose proof (ap_wf _ _ _ Hl) as Hw.
  pose proof (plain_trim _ Hp) as Hpt. pose proof (ap_policy _ _ _ Hl) as Hpol. rewrite Hpt in Hpol.
  assert (Hle : lc_version l <= MaxInt64) by (destruct Hw as (_ & _ & Hv); int64_lia).
  assert (Hnc : lc_status l <> StatusCompleted) by (by rewrite (ap_status _ _ _ Hl)).
  destruct He as [ev at0 ca -> Hver Hev Hcodes Hdc Hpv Hca|subject at0 rv -> Hver Hne Hsa Hsl Hrv Hby].
  - destruct (told_carried n (assessed_draft l ev at0 ca) assessed_fields) as (oid & m & fields & v' & at_ & HC & Hdoc & HR); try done.
    { apply assessed_consumable; try done. rewrite Hpol. exact Hp. }
    eexists oid, m, _. split; [exact HC|]. destruct HC as (_ & _ & HE & _). eapply approval_settles; [done|exact HE|done|].
    intros current Hrep. split; [cbn; by rewrite (ap_version _ _ _ Hl), (rp_version _ _ _ Hrep)|]. left.
    eexists. split; [eapply ParseRiskAssessed_reordered; [exact Hdoc|exact HR|apply ParseRiskAssessed_RiskAssessed; try done]|].
    + by rewrite (ap_status _ _ _ Hl), Hdc.
    + cbn. split_and!; [apply Hl|done|]. by rewrite Hpol, (rp_policy _ _ _ Hrep), Hpt.
  - destruct (told_carried n (decided_draft l subject at0) decided_fields) as (oid & m & fields & v' & at_ & HC & Hdoc & HR); try done.
    { apply decided_consumable; [done|by eapply Hdec|done]. }
    eexists oid, m, _. split; [exact HC|]. destruct HC as (_ & _ & HE & _). eapply approval_settles; [done|exact HE|done|].
    intros current Hrep. split; [cbn; by rewrite (ap_version _ _ _ Hl), (rp_version _ _ _ Hrep)|]. right.
    eexists. split; [eapply ParseReviewDecided_reordered; [exact Hdoc|exact HR|apply ParseReviewDecided_ReviewDecided; try done]|].
    + left. apply Hl.
    + cbn. split; [apply Hl|]. by rewrite (ap_status _ _ _ Hl).
Qed.

End Pipeline.

(** ** Properties *)


(** ** A concrete delivery *)

Lemma reached_ordered : reached ordered.
Proof. exists opening, ∅. split; [exact opening_initial|exact order_run]. Qed.

Lemma reached_order : reachable after_order.
Proof. apply (reachable_step _ _ reached_opening), accept_step; [by apply order_typed|reflexivity..]. Qed.

Definition due_check (t0 : Z) (d : DB) : bool :=
  forallb (fun x => eligible (mkTime t0 0) x.2) (map_to_list (unpublished d)).

Lemma due_check_sound t0 d : due_check t0 d = true -> forall oid o, unpublished d !! oid = Some o -> due t0 o.
Proof.
  intros Hall oid o Ho. unfold due_check in Hall. rewrite forallb_forall in Hall.
  apply elem_of_map_to_list, list_elem_of_In, Hall in Ho. exact Ho.
Qed.

(** A stored event that is the given one. *)
Definition told_check (d : DB) (e : Draft) : bool :=
  match stored_json (payload e) with
  | Some stored =>
      match outbox_row 1 sample_now stored e with
      | Some r0 => existsb (fun x => bool_decide (event_columns x.2 = event_columns r0)) (map_to_list (t_outbox d))
      | None => false
      end
  | None => false
  end.

Lemma told_check_sound d e : told_check d e = true -> told d e.
Proof.
  unfold told_check. destruct (stored_json (payload e)) as [stored|] eqn:Es; [|discriminate].
  destruct (outbox_row 1 sample_now stored e) as [r0|] eqn:Er; [|discriminate].
  intros ([oid o] & Hin & Hc%bool_decide_eq_true)%existsb_exists. exists oid, o.
  split; [by apply elem_of_map_to_list, list_elem_of_In|]. exists 1, sample_now, stored, r0. exact (conj Es (conj Er Hc)).
Qed.

Lemma small_wf : lifecycle_wf small.
Proof.
  assert (Hi : forall z, bool_decide (in_int64 z) = true -> in_int64 z) by (intros z; apply bool_decide_eq_true).
  split; [vm_compute; reflexivity|]. split; [split; [vm_compute; reflexivity|split; [apply Hi; reflexivity|reflexivity]]|apply Hi; reflexivity].
Qed.

Definition small_row_check (r : TransferRow) (l : Lifecycle) : bool :=
  bool_decide (tr_status r = "pending_risk") && bool_decide (tr_policy r = Some "risk-v1") &&
  bool_decide (tr_requester r = id_requester) && bool_decide (uuid_text (tr_source r) = sourceAccountID (lc_transfer small)) &&
  bool_decide (uuid_text (tr_destination r) = destinationAccountID (lc_transfer small)) &&
  bool_decide (tr_currency r = currency_String (currency (transfer_amount (lc_transfer small)))) &&
  bool_decide (tr_amount r = 10) && bool_decide (tr_requested_at r = stored_time sample_now).

Lemma small_row_accepted r l : small_row_check r l = true ->
  tr_status r = "pending_risk" /\ tr_policy r = Some "risk-v1" /\ accepted_as id_small r small.
Proof.
  intros Hc. unfold small_row_check in Hc. rewrite !andb_true_iff, !bool_decide_eq_true in Hc.
  destruct Hc as (((((((H1 & H2) & H3) & H4) & H5) & H6) & H7) & H8). split; [exact H1|]. split; [exact H2|]. split.
  - exact small_wf.
  - reflexivity.
  - reflexivity.
  - rewrite H3. reflexivity.
  - symmetry. exact H4.
  - symmetry. exact H5.
  - symmetry. exact H6.
  - symmetry. exact H7.
  - exact H8.
  - exact H2.
Qed.

Lemma small_ordered : exists r l, t_transfers (committed after_order) !! id_small = Some r /\
  record_lifecycle (scan_lifecycle id_small r) = Ok l /\ small_row_check r l = true.
Proof. apply stored_check_true. vm_compute. reflexivity. Qed.

Lemma small_told : told (committed after_order) (requested_draft small).
Proof. apply told_check_sound. vm_compute. reflexivity. Qed.

Lemma order_unconsumed name oid : t_inbox (committed after_order) !! (name, oid) = None.
Proof.
  assert (He : forall m : gmap (string * UUID) InboxRow, match map_to_list m with [] => true | _ => false end = true -> m !! (name, oid) = None).
  { intros m. destruct (map_to_list m) eqn:E; [|discriminate]. intros _. apply map_to_list_empty_iff in E. rewrite E. apply lookup_empty. }
  apply He. vm_compute. reflexivity.
Qed.

Lemma fresh_order : fresh_other after_order = true.
Proof. vm_compute. reflexivity. Qed.

