(* ===== verification/BankRefinement.v ===== *)
(** * The program refines the bank

    [bank_of] forgets everything of the tables but the amounts, the orders and the
    verdicts.  Every step of the program, under any service, leaves this view alone
    or is exactly one event of Bank.v. *)

From stdpp Require Import base list gmap strings numbers relations sorting.
From Stdlib Require Import ZArith Lia.
From S2P Require Import OutboxRepo OutboxTheorems WalletRepo WalletTheorems Quarantine.
From S2P Require Import RiskWorker TransactionWorker ReviewCase.
From S2P Require Import Prelude GoText Money Journal TransferDomain Bank RiskPolicy Json JsonDecode GoTime Event.
From S2P Require Import TransferEvents EventParse Database PgInstance LedgerRepo LedgerSpec LedgerCorrect LedgerTheorems.
From S2P Require Import Outbox Inbox TransferRepo TransferSpec TransferStore StoreSpec AuditWriter WorkerSpec System Ready Scenario.

Open Scope string_scope.
Open Scope Z_scope.

(** ** The view *)

Section View.
Context `{Pg}.

Definition holding_of (b : BalanceRow) : Holding :=
  mkHolding (bal_currency b) (bool_decide (bal_type b = "customer")) (balance_minor b).

Definition order_of (r : TransferRow) : Order UUID :=
  mkOrder (tr_requester r) (tr_key r) (tr_source r) (tr_destination r) (tr_currency r) (tr_amount r)
    (lifecycleStatus (tr_status r)).1.

Definition verdict_of (rv : ReviewRow) : option (string * string) :=
  if bool_decide (rv_status rv = "open") then None else Some (default "" (rv_decided_by rv), rv_status rv).

Definition bank_of (d : DB) : Bank UUID :=
  mkBank (holding_of <$> t_balances d) (order_of <$> t_transfers d) (omap verdict_of (t_reviews d)).

Definition legs_of (ps : list preparedPosting) : list (Leg UUID) :=
  (fun p => mkLeg (pp_accountID p) (currency_String (pp_currency p)) (pp_amount p)) <$> ps.

End View.

Section Refinement.
Context `{PgLaws}.

Lemma bank_frame d d' :
  t_balances d' = t_balances d -> t_transfers d' = t_transfers d -> t_reviews d' = t_reviews d -> bank_of d' = bank_of d.
Proof. unfold bank_of. by intros -> -> ->. Qed.

(** ** Postings are legs *)

Lemma legs_sum a ps : leg_sum a (legs_of ps) = account_sum a ps.
Proof. unfold leg_sum, account_sum, legs_of. induction ps as [|p ps IH]; cbn; [done|]. by rewrite IH. Qed.

Lemma legs_total cur id i ps : leg_total cur (legs_of ps) = posting_total cur (posting_rows id i ps).
Proof.
  revert i. induction ps as [|p ps IH]; intros i; cbn; [done|]. unfold leg_total, posting_total, legs_of in IH |- *. by rewrite (IH (i + 1)).
Qed.

Lemma takes_of d ps p : account_accepts d ps p ->
  takes_leg (holding_of <$> t_balances d) (legs_of ps) (mkLeg (pp_accountID p) (currency_String (pp_currency p)) (pp_amount p)) = true.
Proof.
  intros (b & Hb & Hc & Hi & Ht & _). unfold takes_leg. cbn [leg_account leg_currency]. rewrite lookup_fmap, Hb, legs_sum. cbn.
  rewrite !bool_decide_eq_true_2 by done. cbn. destruct Ht as [[_ Hp]|Ht].
  - rewrite (proj2 (Z.leb_le _ _) Hp). apply orb_true_r.
  - rewrite Ht. done.
Qed.

Lemma book_posted now prepared d :
  prepared_wf prepared -> postable d prepared ->
  book (legs_of (pe_postings prepared)) (holding_of <$> t_balances d) = Some (holding_of <$> t_balances (posted now prepared d)).
Proof.
  intros Hw [_ Ha _]. rewrite book_Some.
  - f_equal. apply map_eq. intros a. cbn. rewrite map_lookup_imap, !lookup_fmap, map_lookup_imap.
    destruct (t_balances d !! a) as [b|]; [|done]. cbn. unfold holding_of, add_amount. cbn.
    by rewrite settled_currency, settled_type, settled_balance, legs_sum.
  - unfold legs_of. apply list.Forall_fmap. eapply list.Forall_impl; [exact Ha|]. intros p Hp. cbn. by apply takes_of.
  - intros cur. rewrite (legs_total cur (pe_id prepared) 0). apply posting_total_rows; apply Hw.
Qed.

Lemma order_legs_of t source destination r :
  tr_source r = source -> tr_destination r = destination -> tr_currency r = currency_String (currency (transfer_amount t)) ->
  tr_amount r = minorUnits (transfer_amount t) -> order_legs (order_of r) = legs_of (transfer_postings t source destination).
Proof. intros <- <- E1 E2. unfold order_legs, order_of, legs_of, transfer_postings. cbn. by rewrite E1, E2. Qed.

(** ** Orders *)

Lemma status_of st : st <> StatusUnknown -> (lifecycleStatus (status_String st)).1 = st.
Proof. intros Hs. by rewrite lifecycleStatus_inverse. Qed.

Lemma order_of_outcome st version journal failure r :
  st <> StatusUnknown -> order_of (with_outcome (status_String st) version journal failure r) = set_status st (order_of r).
Proof. intros Hs. unfold order_of, set_status, with_outcome. cbn. by rewrite status_of. Qed.

Lemma order_of_status st version r :
  st <> StatusUnknown -> order_of (with_status (status_String st) version r) = set_status st (order_of r).
Proof. intros Hs. unfold order_of, set_status, with_status. cbn. by rewrite status_of. Qed.

Lemma represents_status id r l : represents id r l -> lifecycle_wf l -> or_status (order_of r) = lc_status l.
Proof.
  intros Hrep ((_ & _ & Hsh)%lifecycle_validate_Ok & _). cbn. rewrite <- (rp_status _ _ _ Hrep). apply status_of.
  intros E. unfold status_shape in Hsh. by rewrite E in Hsh.
Qed.

(** A row that is moved along an edge. *)
Lemma advance_stored d id r l op r' :
  wallet_inv d -> t_transfers d !! id = Some r -> represents id r l ->
  allowed (lc_status l) (op_target op) = true -> order_of r' = set_status (op_target op) (order_of r) ->
  advance_order id (lc_status l) (op_target op) (order_of <$> t_transfers d) = Some (order_of <$> <[id := r']> (t_transfers d)).
Proof.
  intros Hinv Hr Hrep Hal Ho. pose proof (stored_wf _ _ _ _ Hinv Hr Hrep) as Hw.
  rewrite fmap_insert, Ho. apply advance_Some; [by rewrite lookup_fmap, Hr|by eapply represents_status|done].
Qed.

(** A row that is added. *)
Lemma place_stored d id r :
  t_transfers d !! id = None -> key_free (tr_requester r) (tr_key r) d -> 0 < tr_amount r -> tr_source r <> tr_destination r ->
  place id (order_of r) (order_of <$> t_transfers d) = Some (order_of <$> <[id := r]> (t_transfers d)).
Proof.
  intros Hn Hk Ha Hs. rewrite fmap_insert. apply place_Some; [by rewrite lookup_fmap, Hn| |done|done].
  intros id1 o1. rewrite lookup_fmap. destruct (t_transfers d !! id1) as [r1|] eqn:E; [|done]. intros [= <-]. cbn.
  intros E1 E2. by apply (Hk _ _ E).
Qed.

(** ** The effects of the operations are events *)

(** Nothing of the bank changes, or one event happens. *)
Definition simulates (d d' : DB) : Prop :=
  bank_of d' = bank_of d \/ exists ev, bank_apply (bank_of d) ev = Some (bank_of d').

Lemma bank_event e d d' : event_added e d d' -> bank_of d' = bank_of d.
Proof.
  intros HE. destruct (event_added_ledger _ _ _ HE) as [_ HB _ _], (event_added_frame _ _ _ HE) as (_ & HT & _ & _ & HV & _).
  by apply bank_frame.
Qed.

Lemma post_booked now prepared d :
  prepared_wf prepared -> postable d prepared ->
  bank_apply (bank_of d) (Booked (legs_of (pe_postings prepared))) = Some (bank_of (posted now prepared d)).
Proof. intros Hw Hp. cbn [bank_apply bank_of holdings]. by rewrite (book_posted now). Qed.

Lemma transfer_legs_of t id requester source destination r at_ prepared :
  transfer_wf t -> ids_of t id requester source destination -> prepareEntry (transfer_entry t at_) = Ok prepared ->
  tr_source r = source -> tr_destination r = destination -> tr_currency r = currency_String (currency (transfer_amount t)) ->
  tr_amount r = minorUnits (transfer_amount t) ->
  prepared_wf prepared /\ order_legs (order_of r) = legs_of (pe_postings prepared).
Proof.
  intros Hw Hids Hp E1 E2 E3 E4. destruct (transfer_prepared _ _ _ _ _ _ _ Hw Hids Hp) as (Hpw & _ & _ & -> & _).
  split; [done|]. by apply order_legs_of.
Qed.

Lemma created_transferred t p d d' :
  transfer_typed t -> prepareTransfer t = Ok p -> created p d d' ->
  bank_apply (bank_of d) (Transferred (pt_id p) (order_of (created_row p))) = Some (bank_of d').
Proof.
  intros Ht Hp [Hkey Hid _ _ (prepared & now & Hpe & Hpost & HE)].
  destruct (prepareTransfer_Ok _ _ Ht Hp) as (_ & Hw & Hids & Hentry & _). rewrite Hentry in Hpe.
  destruct (transfer_legs_of _ _ _ _ _ (created_row p) _ _ Hw Hids Hpe) as [Hpw Hl]; [done..|].
  rewrite (bank_event _ _ _ HE). cbn [bank_apply]. rewrite bool_decide_eq_true_2 by done.
  cbn [bank_of orders]. rewrite place_stored; [|done|done| |by eapply ids_distinct].
  - cbn. rewrite Hl. change (t_balances d) with (t_balances (set_transfers (insert (pt_id p) (created_row p)) d)).
    rewrite (book_posted now); [done|done|]. eapply postable_frame; [apply set_transfers_ledger|exact Hpost].
  - cbn. pose proof Hw as ((_ & _ & _ & _ & _ & _ & _ & Hpos & _)%transfer_validate_Ok & _). done.
Qed.

Lemma accepted_ordered l p d d' :
  transfer_typed (lc_transfer l) -> UTC (requestedAt (lc_transfer l)) = requestedAt (lc_transfer l) -> in_int64 (lc_version l) ->
  preparePendingTransfer l = Ok p -> accepted p d d' ->
  bank_apply (bank_of d) (Ordered (pq_id p) (order_of (pending_row p))) = Some (bank_of d').
Proof.
  intros Ht Hu Hv Hp [Hkey Hid _ _ HE]. destruct (preparePending_Ok _ _ Ht Hu Hv Hp) as ((_ & Hw & _) & Htr & _ & Hids & _).
  rewrite <- Htr in Hids. rewrite (bank_event _ _ _ HE). cbn [bank_apply]. rewrite bool_decide_eq_true_2 by done.
  cbn [bank_of orders]. rewrite place_stored; [done|done|done| |by eapply ids_distinct].
  cbn. pose proof Hw as ((_ & _ & _ & _ & _ & _ & _ & Hpos & _)%transfer_validate_Ok & _). done.
Qed.

Lemma risk_assessed_bank h env requested policy d d' :
  wallet_inv d -> risk_effect h env requested policy d d' -> simulates d d'.
Proof.
  intros Hinv [_ ->|eid id r current ev next row e Hu Hr Hrep Hcf _ Hn _ _ _ Hnone _ HE]; [by left|right].
  pose proof (stored_wf _ _ _ _ Hinv Hr Hrep) as Hw. pose proof (conflicts_pending _ _ Hcf) as Hpend.
  destruct (risk_transition_op _ _ _ Hn) as (op & Hop & _). destruct (apply_op_Ok _ _ _ Hw Hop) as (Hnext & Hal & _).
  exists (Assessed id (op_target op)). rewrite (bank_event _ _ _ HE).
  set (d1 := recorded RiskWorker.consumerName env eid d).
  destruct (assessed_frame id r next row (UTC (RiskWorker.now h)) d1) as (_ & _ & HT & HV).
  destruct (assessed_ledger id r next row (UTC (RiskWorker.now h)) d1) as [_ HB _ _].
  cbn [bank_apply]. change (orders (bank_of d)) with (order_of <$> t_transfers d). rewrite <- Hpend.
  assert (Hst : lc_status next = op_target op) by (by rewrite Hnext).
  erewrite advance_stored; [|done|exact Hr|done|done|apply order_of_status; rewrite <- Hst].
  - cbn. unfold bank_of. rewrite HB, HT, HV. do 2 f_equal; [by rewrite Hst|]. rewrite Hst. clear HV. case_decide as Hc; [|done].
    rewrite omap_insert_None by done. rewrite delete_id; [done|]. rewrite lookup_omap. cbn. by rewrite Hnone by congruence.
  - rewrite Hst. destruct op; done.
Qed.

(** A terminal transition over tables with the books of [dm]. *)
Lemma concluded_bank id r next e dm d' :
  concluded id r next e dm d' -> lc_status next <> StatusUnknown ->
  bank_of d' = mkBank (holding_of <$> t_balances dm) (<[id := set_status (lc_status next) (order_of r)]> (order_of <$> t_transfers dm))
    (omap verdict_of (t_reviews dm)).
Proof.
  intros (journal & _ & _ & HE) Hs. rewrite (bank_event _ _ _ HE). unfold bank_of. cbn. rewrite fmap_insert.
  by rewrite <- (order_of_outcome _ (lc_version next) journal (nullif_empty (failureReason next)) r Hs).
Qed.

Lemma transaction_bank now env d d' : wallet_inv d -> transaction_effect now env d d' -> simulates d d'.
Proof.
  intros Hinv [_ ->|eid id r current _ _ _ _ _ ->|eid id r current _ Hr Hrep _ Happ HP]; [by left|by left|right].
  pose proof (stored_wf _ _ _ _ Hinv Hr Hrep) as Hw. pose proof Hw as (_ & Htw & _). pose proof (represents_ids _ _ _ Hrep) as Hids.
  destruct HP as [entry prepared t next e Hen Hp Hpost Hn _ HC|next e Hshort Hn _ HC].
  - destruct (apply_op_Ok OpComplete _ _ Hw Hn) as (Hnext & Hal & _). exists (Settled id).
    destruct (journalEntry_Ok _ _ _ Hw Hen) as [_ ->].
    destruct (transfer_legs_of _ _ _ _ _ r _ _ Htw Hids Hp) as [Hpw Hl]; [done|done|symmetry; apply Hrep|symmetry; apply Hrep|].
    rewrite (concluded_bank _ _ _ _ _ _ HC) by (by rewrite Hnext). cbn [bank_apply].
    change (orders (bank_of d)) with (order_of <$> t_transfers d). rewrite lookup_fmap, Hr. cbn [fmap option_fmap option_map mbind option_bind].
    rewrite (advance_Some _ _ _ _ (order_of r)); [|by rewrite lookup_fmap, Hr|rewrite <- Happ; by eapply represents_status|done].
    cbn. rewrite Hl. change (t_balances d) with (t_balances (recorded TransactionWorker.consumerName env eid d)).
    rewrite (book_posted t) by done. cbn. by rewrite Hnext.
  - destruct (apply_op_Ok (OpFail TransactionWorker.insufficientFundsReason) _ _ Hw Hn) as (Hnext & Hal & _). exists (Refused id).
    rewrite (concluded_bank _ _ _ _ _ _ HC) by (by rewrite Hnext). cbn [bank_apply].
    change (orders (bank_of d)) with (order_of <$> t_transfers d). rewrite lookup_fmap, Hr. cbn [fmap option_fmap option_map mbind option_bind].
    destruct Hshort as (b & Hb & Hty & Hlt).
    assert (short_of_funds (holdings (bank_of d)) (order_of r) = true) as ->.
    { unfold short_of_funds. cbn. rewrite lookup_fmap. cbn in Hb. rewrite Hb. cbn. rewrite bool_decide_eq_true_2 by done. lia. }
    rewrite (advance_Some _ _ _ _ (order_of r)); [|by rewrite lookup_fmap, Hr|rewrite <- Happ; by eapply represents_status|done].
    cbn. by rewrite Hnext.
Qed.

Lemma review_bank now p transferID decision d d' :
  wallet_inv d -> review_effect now p transferID decision d d' -> simulates d d'.
Proof.
  intros Hinv [id r current next journal rv e Hid Hr Hrep Hrev Hn Hj Hck Hrv Hopen Hdec Hver Hvis He HE]. right.
  pose proof (stored_wf _ _ _ _ Hinv Hr Hrep) as Hw.
  assert (exists op, apply_op op current = Ok next /\ status_String (op_target op) = decision) as (op & Hop & Hto).
  { destruct Hdec as [-> | ->]; [exists OpApprove|exists OpDecline]; done. }
  destruct (apply_op_Ok _ _ _ Hw Hop) as (Hnext & Hal & _). exists (Reviewed id (ReviewCase.Subject p) (op_target op)).
  rewrite (bank_event _ _ _ HE). cbn [bank_apply].
  assert (verdicts (bank_of d) !! id = None) as ->.
  { cbn. rewrite lookup_omap, Hrv. cbn. unfold verdict_of. by rewrite bool_decide_eq_true_2. }
  rewrite bool_decide_eq_true_2 by done. rewrite (bool_decide_eq_false_2 (ReviewCase.Subject p = "")) by (intros E; by rewrite E in Hvis).
  cbn [negb andb]. change (orders (bank_of d)) with (order_of <$> t_transfers d). rewrite <- Hrev.
  erewrite advance_stored; [|done|exact Hr|done|done|].
  - cbn. unfold bank_of. cbn. do 2 f_equal. rewrite (omap_insert_Some _ _ _ _ (ReviewCase.Subject p, decision)); [by rewrite Hto|].
    unfold verdict_of, decided_row. cbn. rewrite bool_decide_eq_false_2; [done|]. by destruct Hdec as [-> | ->].
  - unfold advanced. rewrite Hnext. cbn. apply order_of_outcome. by destruct op.
Qed.

Lemma opened_bank owner codes now id ids d d' : opened owner codes now id ids d d' -> simulates d d'.
Proof.
  intros [_ [Hlen Hnd] Hfresh ->]. right. exists (Opened (list_to_map (zip ids codes))). cbn [bank_apply].
  assert (all_new (list_to_map (zip ids codes)) (holdings (bank_of d)) = true) as ->.
  { apply forallb_forall. intros [a c] Hin%list_elem_of_In%elem_of_map_to_list. apply bool_decide_eq_true. cbn in Hin |- *.
    apply elem_of_list_to_map_2, elem_of_zip_l in Hin. destruct (Hfresh _ Hin) as [_ Hn]. by rewrite lookup_fmap, Hn. }
  f_equal. unfold bank_of. cbn. f_equal. rewrite map_fmap_union. f_equal.
  rewrite <- !list_to_map_fmap. f_equal. clear Hnd Hfresh. revert codes Hlen.
  induction ids as [|a ids IH]; intros [|c codes]; cbn; try done. intros [= Hlen]. by rewrite IH.
Qed.

Lemma effect_simulated d d' : wallet_inv d -> effect d d' -> simulates d d'.
Proof.
  intros Hinv [[->|e prepared now Ht Hp Hpost ->|t p Ht Hp HC|l p Ht Hu Hv Hp HC|h env rq pol HE|now env HE|now p id dec _ HE|
    owner codes now id ids HO|record now HQ]|HR].
  - by left.
  - right. eexists. apply (post_booked now); [|done]. by apply prepareEntry_Ok in Hp as [? _].
  - right. eexists. by eapply created_transferred.
  - right. eexists. by eapply accepted_ordered.
  - by eapply risk_assessed_bank.
  - by eapply transaction_bank.
  - by eapply review_bank.
  - by eapply opened_bank.
  - left. destruct (quarantine_frame _ _ _ _ HQ) as (HT & _ & _ & HV & _ & [_ HB _ _]). by apply bank_frame.
  - left. destruct (republished_frame _ _ HR) as (HT & _ & HV & _ & [_ HB _ _]). by apply bank_frame.
Qed.

Lemma step_simulated w w' : reachable w -> step w w' ->
  exists evs, (length evs <= 1)%nat /\ bank_run (bank_of (committed w)) evs = Some (bank_of (committed w')).
Proof.
  intros Hr HS. pose proof (reachable_inv _ Hr) as Hinv.
  destruct (effect_simulated (committed w) (committed w')) as [E|[ev E]]; [done|by apply step_effect| |].
  - exists []. cbn. split; [lia|by rewrite E].
  - exists [ev]. cbn. rewrite E. split; [lia|done].
Qed.

Lemma run_simulated w w' : reachable w -> run w w' ->
  exists evs, bank_run (bank_of (committed w)) evs = Some (bank_of (committed w')).
Proof.
  intros Hr HR. induction HR as [w|w1 w2 w3 HS _ IH]; [by exists []|].
  destruct (step_simulated _ _ Hr HS) as (evs1 & _ & E1). destruct IH as [evs2 E2]; [by eapply reachable_step|].
  exists (evs1 ++ evs2)%list. by rewrite (bank_run_app _ _ _ _ E1).
Qed.

(** A system on which nothing has happened is a bank without orders. *)
Definition blank (b : Bank UUID) : Prop :=
  orders b = ∅ /\ verdicts b = ∅ /\ map_Forall (fun _ h => h_amount h = 0) (holdings b).

Lemma initial_blank d : initial d -> blank (bank_of d).
Proof.
  intros Hi. split_and!; cbn; [by rewrite (in_transfers _ Hi), fmap_empty|by rewrite (in_reviews _ Hi), omap_empty|].
  intros a h. rewrite lookup_fmap. destruct (t_balances d !! a) as [b|] eqn:E; [|done]. intros [= <-]. cbn.
  by apply (fl_balances _ (in_ledger _ Hi)) in E as [-> _].
Qed.

End Refinement.

(** ** Properties *)

(** C2: the program implements the bank of Bank.v: a system on which nothing has
    happened is a bank without orders, and whatever the services, faults, retries,
    redeliveries and interleavings, every step that is taken in a reachable state
    is one event of the bank or none.  So the tables always are what a sequence
    of such events makes of the empty bank: money moves only by entries that sum
    to zero and that customers can pay, by a direct transfer or by the settlement
    of an approved order, orders are placed once per key and follow the lifecycle,
    they are refused only for want of funds, and a review has one verdict. *)
Theorem system_refines_bank `{PgLaws} (w0 w : World) :
  initial (committed w0) -> run w0 w ->
  blank (bank_of (committed w0)) /\
  (exists evs, bank_run (bank_of (committed w0)) evs = Some (bank_of (committed w))) /\
  forall w', step w w' ->
    exists evs, (length evs <= 1)%nat /\ bank_run (bank_of (committed w)) evs = Some (bank_of (committed w')).
Proof.
  intros Hi HR. split; [by apply initial_blank|]. split; [apply run_simulated; [by exists w0|done]|].
  intros w' HS. apply step_simulated; [by exists w0|done].
Qed.

(** ** The scenario as a run of the bank *)

Definition small_order : Order UUID :=
  mkOrder id_requester "key-small" id_alice id_bob (currency_String sample_currency) 10 StatusPendingRisk.

Definition large_order : Order UUID :=
  mkOrder id_requester "key-large" id_alice id_bob (currency_String sample_currency) 60 StatusPendingRisk.

Definition direct_order : Order UUID :=
  mkOrder id_requester "key-direct" id_alice id_bob (currency_String sample_currency) 5 StatusCompleted.

Definition scenario_events : list (BankEvent UUID) :=
  [Ordered id_small small_order; Ordered id_large large_order; Assessed id_small StatusApproved;
   Assessed id_large StatusReviewRequired; Settled id_small; Reviewed id_large "analyst-1" StatusApproved;
   Refused id_large; Transferred id_direct direct_order].

Definition same_bank (b b' : Bank UUID) : bool :=
  bool_decide (map_to_list (h_amount <$> holdings b) = map_to_list (h_amount <$> holdings b')) &&
  bool_decide (map_to_list (or_status <$> orders b) = map_to_list (or_status <$> orders b')) &&
  bool_decide (map_to_list (verdicts b) = map_to_list (verdicts b')).

(** The tables after the scenario are those of the eight events. *)
Example scenario_is_bank_run :
  match bank_run (bank_of (committed after_funding)) scenario_events with
  | Some b => same_bank b (bank_of (committed after_direct))
  | None => false
  end = true.
Proof. vm_compute. reflexivity. Qed.

Lemma system_refines_bank_witness :
  blank (bank_of (committed opening)) /\
  exists evs, bank_run (bank_of (committed opening)) evs = Some (bank_of (committed after_direct)).
Proof.
  destruct (system_refines_bank opening after_direct opening_initial run_from_opening) as (Hb & He & _). exact (conj Hb He).
Defined.
