(* ===== verification/Recomputed.v ===== *)
(** * The balances, recomputed

    The balance of an account is kept as a snapshot that every posting updates
    under its lock.  Here it is compared with a reference definition that never
    looks at a snapshot: the transfers that are completed, and the entries that
    were posted directly. *)

From stdpp Require Import base list gmap strings numbers relations sorting.
From Stdlib Require Import ZArith Lia.
From S2P Require Import OutboxRepo OutboxTheorems WalletRepo WalletTheorems Quarantine.
From S2P Require Import RiskWorker TransactionWorker ReviewCase.
From S2P Require Import Prelude GoText Money Journal TransferDomain Bank RiskPolicy Json JsonDecode GoTime Event.
From S2P Require Import TransferEvents EventParse Database PgInstance LedgerRepo LedgerSpec LedgerCorrect LedgerTheorems.
From S2P Require Import Outbox Inbox TransferRepo TransferSpec TransferStore StoreSpec AuditWriter WorkerSpec System Ready Scenario BankRefinement.

Open Scope string_scope.
Open Scope Z_scope.

(** ** Sums over a map *)

Section MapSum.
Context {K A : Type} `{Countable K}.

Definition map_sum (f : A -> Z) (m : gmap K A) : Z := map_fold (fun _ x acc => f x + acc) 0 m.

Lemma map_sum_insert f m k x : m !! k = None -> map_sum f (<[k := x]> m) = f x + map_sum f m.
Proof. intros Hk. unfold map_sum. rewrite map_fold_insert_L; [done|intros; lia|done]. Qed.

End MapSum.

Section Recomputed.
Context `{Pg}.

#[export] Instance PostingRow_eq_dec : EqDecision PostingRow.
Proof. solve_decision. Defined.

(** ** The reference *)

Definition completed_transfers (d : DB) : gmap UUID (Order UUID) :=
  order_of <$> filter (fun x => tr_status x.2 = "completed") (t_transfers d).

(** What a completed order moves on an account of a currency. *)
Definition order_net (a : UUID) (cur : string) (o : Order UUID) : Z :=
  (if bool_decide (or_source o = a) && bool_decide (or_currency o = cur) then - or_amount o else 0) +
  (if bool_decide (or_destination o = a) && bool_decide (or_currency o = cur) then or_amount o else 0).

(** The postings of the entries that belong to no completed transfer. *)
Definition direct_postings (d : DB) : list PostingRow :=
  filter (fun p => completed_transfers d !! po_entry p = None) (t_postings d).

Definition recomputed (d : DB) (a : UUID) (cur : string) : Z :=
  map_sum (order_net a cur) (completed_transfers d) + ledger_sum a cur (direct_postings d).

(** ** Sums of postings *)

Lemma ledger_sum_perm a cur ps ps' : ps ≡ₚ ps' -> ledger_sum a cur ps = ledger_sum a cur ps'.
Proof. unfold ledger_sum. induction 1; cbn in *; lia. Qed.

Lemma ledger_sum_split a cur (P : PostingRow -> Prop) `{!forall p, Decision (P p)} ps :
  ledger_sum a cur ps = ledger_sum a cur (filter P ps) + ledger_sum a cur (filter (fun p => ~ P p) ps).
Proof.
  induction ps as [|p ps IH]; [done|]. unfold ledger_sum in IH |- *.
  rewrite (filter_cons P), (filter_cons (fun p => ~ P p)). cbn [foldr]. rewrite IH.
  destruct (decide (P p)); [rewrite decide_False by tauto|rewrite decide_True by done]; cbn [foldr]; lia.
Qed.

(** The postings of the entries of a map, entry by entry. *)
Lemma ledger_sum_by_entry a cur (g : Order UUID -> Z) (os : gmap UUID (Order UUID)) ps :
  (forall id o, os !! id = Some o -> ledger_sum a cur (filter (fun p => po_entry p = id) ps) = g o) ->
  ledger_sum a cur (filter (fun p => is_Some (os !! po_entry p)) ps) = map_sum g os.
Proof.
  induction os as [|id o os Hid IH] using map_ind; intros Hg.
  - unfold map_sum. rewrite map_fold_empty. 
    assert (filter (fun p => is_Some ((∅ : gmap UUID (Order UUID)) !! po_entry p)) ps = []) as ->; [|done].
    apply elem_of_nil_inv. intros p [[o Ho] _]%list_elem_of_filter. by rewrite lookup_empty in Ho.
  - rewrite map_sum_insert by done. rewrite <- IH.
    2:{ intros id1 o1 Ho. apply Hg. rewrite lookup_insert_ne; [done|]. congruence. }
    rewrite <- (Hg id o) by apply lookup_insert_eq. rewrite (ledger_sum_split a cur (fun p => po_entry p = id)). f_equal.
    + rewrite list_filter_filter. f_equal. apply list_filter_iff. intros p.
      split; [tauto|]. intros ->. split; [done|]. rewrite lookup_insert_eq. by eexists.
    + rewrite list_filter_filter. f_equal. apply list_filter_iff. intros p. split.
      * intros [Hne Hs]. by rewrite lookup_insert_ne in Hs by done.
      * intros Hs. assert (po_entry p <> id) by (intros E; rewrite E, Hid in Hs; by destruct Hs).
        split; [done|]. by rewrite lookup_insert_ne.
Qed.

End Recomputed.

Section Books.
Context `{PgLaws}.

Lemma completed_Some d id o :
  completed_transfers d !! id = Some o <-> exists r, t_transfers d !! id = Some r /\ tr_status r = "completed" /\ o = order_of r.
Proof.
  unfold completed_transfers. rewrite lookup_fmap, fmap_Some. setoid_rewrite map_lookup_filter_Some. naive_solver.
Qed.

(** The postings of a completed transfer move what its order says. *)
Lemma completed_net d id o a cur : wallet_inv d -> completed_transfers d !! id = Some o ->
  ledger_sum a cur (filter (fun p => po_entry p = id) (t_postings d)) = order_net a cur o.
Proof.
  intros Hinv (r & Hr & Hs & ->)%completed_Some. destruct (wi_moved _ Hinv _ _ Hr Hs) as [_ ->].
  unfold ledger_sum, order_net. cbn. lia.
Qed.

Lemma balance_recomputed d a b : wallet_inv d -> t_balances d !! a = Some b ->
  balance_minor b = recomputed d a (bal_currency b).
Proof.
  intros Hinv Hb. rewrite (li_snapshot _ (wi_ledger _ Hinv) _ _ Hb). unfold recomputed.
  rewrite (ledger_sum_split a (bal_currency b) (fun p => is_Some (completed_transfers d !! po_entry p))).
  rewrite (ledger_sum_by_entry a (bal_currency b) (order_net a (bal_currency b))) by (intros; by apply completed_net).
  do 2 f_equal. unfold direct_postings. apply list_filter_iff. intros p. by rewrite eq_None_not_Some.
Qed.

End Books.

(** ** Properties *)

(** C13: the balances are equivalent to the books: in every reachable state the
    snapshot of each account, which every posting has updated step by step under
    whatever interleaving, faults and retries, equals what is computed afresh from
    the completed transfers and the entries posted directly.  Hence the way there
    is forgotten: two reachable states, even of different histories, with the same
    completed transfers (however approved, or created directly) and the same
    direct postings in any order have the same balances. *)
Theorem balances_recomputed `{PgLaws} (w : World) (a : UUID) (b : BalanceRow) :
  reachable w -> t_balances (committed w) !! a = Some b ->
  balance_minor b = recomputed (committed w) a (bal_currency b) /\
  forall w' b', reachable w' -> t_balances (committed w') !! a = Some b' -> bal_currency b' = bal_currency b ->
    completed_transfers (committed w') = completed_transfers (committed w) ->
    direct_postings (committed w') ≡ₚ direct_postings (committed w) ->
    balance_minor b' = balance_minor b.
Proof.
  intros Hr Hb. pose proof (reachable_inv _ Hr) as Hinv. split; [by apply balance_recomputed|].
  intros w' b' Hr' Hb' Hc Ho Hp. rewrite (balance_recomputed _ _ _ Hinv Hb), (balance_recomputed _ _ _ (reachable_inv _ Hr') Hb').
  unfold recomputed. by rewrite Hc, Ho, (ledger_sum_perm _ _ _ _ Hp).
Qed.

(** ** Two ways to the same balances *)

(** The small order, transferred directly. *)
Definition after_shortcut : World := (TransferRepo.Create (order id_small "key-small" 10) steady after_funding).2.

Lemma reached_shortcut : reachable after_shortcut.
Proof. apply (reachable_step _ _ reached_funding), create_step. by apply order_typed. Qed.

Lemma same_completed d d' :
  bool_decide (map_to_list (completed_transfers d') = map_to_list (completed_transfers d)) = true ->
  completed_transfers d' = completed_transfers d.
Proof. intros E%bool_decide_eq_true. apply map_to_list_inj. by rewrite E. Qed.

Definition alice_of (w : World) : option (string * Z) :=
  (fun b => (bal_currency b, balance_minor b)) <$> t_balances (committed w) !! id_alice.

Lemma alice_stored w c z : alice_of w = Some (c, z) ->
  exists b, t_balances (committed w) !! id_alice = Some b /\ bal_currency b = c /\ balance_minor b = z.
Proof.
  unfold alice_of. destruct (t_balances (committed w) !! id_alice) as [b|]; [|discriminate]. intros [= <- <-].
  exists b. exact (conj eq_refl (conj eq_refl eq_refl)).
Qed.

Lemma alice_complete : exists z, alice_of after_complete = Some (currency_String sample_currency, z).
Proof. eexists. vm_compute. reflexivity. Qed.

Lemma alice_shortcut : exists z, alice_of after_shortcut = Some (currency_String sample_currency, z).
Proof. eexists. vm_compute. reflexivity. Qed.

Definition same_postings (d d' : DB) : bool := bool_decide (direct_postings d' = direct_postings d).

Lemma same_postings_true d d' : same_postings d d' = true -> direct_postings d' ≡ₚ direct_postings d.
Proof. intros ->%bool_decide_eq_true. reflexivity. Qed.

Lemma same_direct : same_postings (committed after_complete) (committed after_shortcut) = true.
Proof. vm_compute. reflexivity. Qed.

Lemma balances_recomputed_witness :
  exists b b', t_balances (committed after_complete) !! id_alice = Some b /\
    t_balances (committed after_shortcut) !! id_alice = Some b' /\ balance_minor b' = balance_minor b.
Proof.
  destruct alice_complete as [z Ez]. destruct (alice_stored _ _ _ Ez) as (b & Hb & Hc & _).
  destruct alice_shortcut as [z' Ez']. destruct (alice_stored _ _ _ Ez') as (b' & Hb' & Hc' & _).
  exists b, b'. split; [exact Hb|]. split; [exact Hb'|].
  destruct (balances_recomputed after_complete id_alice b reached_complete Hb) as [_ HI].
  apply (HI after_shortcut b' reached_shortcut Hb').
  - rewrite Hc, Hc'. reflexivity.
  - apply same_completed. vm_compute. reflexivity.
  - exact (same_postings_true _ _ same_direct).
Defined.
