(* ===== verification/Statements.v ===== *)
(** * What every statement keeps, the program keeps

    A logic for predicates on the tables: [keeps P m] says that a transaction body
    keeps [P], whatever it returns.  A predicate that each SQL statement of the
    program keeps ([StatementInvariant]) is kept by every operation, under any
    service: faults, retries, aborted transactions and lost commits included. *)

From stdpp Require Import base list gmap strings numbers relations sorting.
From Stdlib Require Import ZArith Lia.
From S2P Require Import OutboxRepo WalletRepo Quarantine.
From S2P Require Import RiskWorker TransactionWorker ReviewCase.
From S2P Require Import Prelude GoText Money Journal TransferDomain RiskPolicy Json GoTime Event.
From S2P Require Import TransferEvents EventParse Database LedgerRepo Outbox Inbox TransferRepo TransferStore AuditWriter System.

Open Scope string_scope.
Open Scope Z_scope.

(** ** The logic *)

Section Keeps.
Context `{Pg} (P : DB -> Prop).

(** The tables a transaction sees, and those it has made permanent. *)
Definition tx_good (st : TxState) : Prop := P (tx_db st) /\ forall d, tx_applied st = Some d -> P d.

Definition keeps {A} (m : Tx A) : Prop := forall s st r st', m s st = (r, st') -> tx_good st -> tx_good st'.

(** A statement keeps [P] where it succeeds. *)
Definition stmt_keeps {A} (f : Service -> nat -> Time -> DB -> Result (A * DB)) : Prop :=
  forall s n now d a d', f s n now d = Ok (a, d') -> P d -> P d'.

Lemma keeps_ret {A} (a : A) : keeps (mret a).
Proof. by intros s st r st' [= <- <-]. Qed.

Lemma keeps_lift {A} (r : Result A) : keeps (lift r).
Proof. by intros s st r' st' [= <- <-]. Qed.

Lemma keeps_bind {A B} (m : Tx A) (f : A -> Tx B) : keeps m -> (forall a, keeps (f a)) -> keeps (m ≫= f).
Proof.
  intros Hm Hf s st r st'. unfold mbind, Tx_bind. destruct (m s st) as [[a|e] st1] eqn:E.
  - intros HR Hg. eapply Hf; [exact HR|]. by eapply Hm.
  - intros [= <- <-] Hg. by eapply Hm.
Qed.

Lemma keeps_stmt {A} (f : Service -> nat -> Time -> DB -> Result (A * DB)) : stmt_keeps f -> keeps (stmt f).
Proof.
  intros Hf s st r st'. unfold stmt. destruct (tx_closed st); [by intros [= <- <-]|].
  destruct (tx_aborted st); [by intros [= <- <-]|]. destruct (faults s (tx_tick st)); [by intros [= <- <-]|].
  destruct (f _ _ _ _) as [[a d]|e] eqn:E; [|by intros [= <- <-]]. intros [= <- <-] [Hd Ha]. split; [|done]. by eapply Hf.
Qed.

Lemma keeps_query {A} (f : DB -> Result A) : keeps (query f).
Proof. apply keeps_stmt. intros s n now d a d'. destruct (f d); [|done]. by intros [= _ <-]. Qed.

Lemma keeps_exec {A} (f : Time -> DB -> Result (A * DB)) :
  (forall now d a d', f now d = Ok (a, d') -> P d -> P d') -> keeps (exec f).
Proof. intros Hf. apply keeps_stmt. intros s n. apply Hf. Qed.

Lemma keeps_wrap {A} leaves (m : Tx A) : keeps m -> keeps (wrap_tx leaves m).
Proof. intros Hm s st r st'. unfold wrap_tx. destruct (m s st) as [r1 st1] eqn:E. intros [= <- <-]. by eapply Hm. Qed.

Lemma keeps_map_err {A} f (m : Tx A) : keeps m -> keeps (map_err f m).
Proof.
  intros Hm s st r st'. unfold map_err. destruct (m s st) as [[a|e] st1] eqn:E; intros [= <- <-]; by eapply Hm.
Qed.

Lemma keeps_catch {A B} (m : Tx A) (f : error -> Tx B) (g : A -> Tx B) :
  keeps m -> (forall e, keeps (f e)) -> (forall a, keeps (g a)) -> keeps (TransactionWorker.catch m f g).
Proof.
  intros Hm Hf Hg s st r st'. unfold TransactionWorker.catch. destruct (m s st) as [[a|e] st1] eqn:E; intros HR Hst.
  - eapply Hg; [exact HR|]. by eapply Hm.
  - eapply Hf; [exact HR|]. by eapply Hm.
Qed.

Lemma keeps_commit : keeps commit.
Proof.
  intros s st r st'. unfold commit. destruct (tx_closed st); [by intros [= <- <-]|].
  destruct (tx_aborted st); [intros [= <- <-] [? _]; by split|]. destruct (negb _); [intros [= <- <-] [? _]; by split|].
  destruct (fates s (tx_tick st)) as [|flt|[]]; intros [= <- <-] [Hd _]; (split; [done|]); cbn; intros d; try done; by intros [= <-].
Qed.

(** An operation that keeps [P] of the committed tables. *)
Definition world_keeps {A} (op : Service -> World -> Result A * World) : Prop :=
  forall s w r w', op s w = (r, w') -> P (committed w) -> P (committed w').

Lemma run_tx_keeps {A} join (body : Tx A) : keeps body -> world_keeps (run_tx join body).
Proof.
  intros Hb s w r w'. unfold run_tx. destruct (faults s (tick w)); [by intros [= <- <-]|].
  destruct (body s (begun s w)) as [r1 st] eqn:E. intros [= _ <-] Hw. cbn.
  destruct (Hb _ _ _ _ E) as [_ Ha]; [by split|]. destruct (tx_applied st); [by apply Ha|done].
Qed.

Lemma run_stmt_keeps {A} (f : Time -> DB -> Result (A * DB)) :
  (forall now d a d', f now d = Ok (a, d') -> P d -> P d') -> world_keeps (run_stmt f).
Proof.
  intros Hf s w r w' HR Hw. apply run_stmt_outcome in HR. destruct r as [a|e].
  - destruct HR as (d & E & ->). by eapply Hf.
  - destruct HR as [->|(_ & a & d & E & ->)]; [done|by eapply Hf].
Qed.

Lemma world_keeps_ret {A} (r : Result A) : world_keeps (fun _ w => (r, w)).
Proof. by intros s w r' w' [= _ <-]. Qed.

End Keeps.

(** Discharge [keeps] goals structurally; the statements are in the database. *)
Create HintDb keeps.
#[export] Hint Resolve keeps_ret keeps_lift keeps_query keeps_commit world_keeps_ret : keeps.

Ltac keeps :=
  repeat match goal with
  | |- keeps _ (mbind _ _) => apply keeps_bind; [|intros ?]
  | |- keeps _ (let '(_, _) := ?p in _) => destruct p
  | |- keeps _ (if ?b then _ else _) => destruct b
  | |- keeps _ (match ?x with _ => _ end) => destruct x
  | |- keeps _ (wrap_tx _ _) => apply keeps_wrap
  | |- keeps _ (map_err _ _) => apply keeps_map_err
  | |- keeps _ (TransactionWorker.catch _ _ _) => apply keeps_catch; intros
  | |- keeps _ _ => solve [eauto with keeps]
  end.

(** ** The statements of the program *)

(** [P] is kept by every statement that writes, with any arguments. *)
Class StatementInvariant `{Pg} (P : DB -> Prop) : Prop := {
  si_wallet owner : stmt_keeps P (insertWalletQuery owner);
  si_account wallet code : stmt_keeps P (insertAccountQuery wallet code);
  si_entry id ty reverses at_ now d a d' : insertJournalEntryQuery id ty reverses at_ now d = Ok (a, d') -> P d -> P d';
  si_posting entry position account currency units now d a d' :
    insertPostingQuery entry position account currency units now d = Ok (a, d') -> P d -> P d';
  si_balance account balance version now d a d' : updateBalanceQuery account balance version now d = Ok (a, d') -> P d -> P d';
  si_transfer id r now d a d' : insert_transfer_row id r now d = Ok (a, d') -> P d -> P d';
  si_status id from version to next now d a d' :
    update_transfer id from version (with_status to next) now d = Ok (a, d') -> P d -> P d';
  si_outcome id from version to next journal failure now d a d' :
    update_transfer id from version (with_outcome to next journal failure) now d = Ok (a, d') -> P d -> P d';
  si_event e : stmt_keeps P (insertEventQuery e);
  si_inbox name id ty version now d a d' : insertInboxQuery name id ty version now d = Ok (a, d') -> P d -> P d';
  si_assessment id version causation policy input score decision signals at_ now d a d' :
    insertRiskAssessmentQuery id version causation policy input score decision signals at_ now d = Ok (a, d') -> P d -> P d';
  si_case id version at_ now d a d' : insertReviewCaseQuery id version at_ now d = Ok (a, d') -> P d -> P d';
  si_verdict id decision subject at_ now d a d' : decideReviewCaseQuery id decision subject at_ now d = Ok (a, d') -> P d -> P d';
  si_audit id version decision subject at_ now d a d' :
    insertReviewDecisionQuery id version decision subject at_ now d = Ok (a, d') -> P d -> P d';
  si_quarantine record excerpt hash size truncated now d a d' :
    insertQuarantineQuery record excerpt hash size truncated now d = Ok (a, d') -> P d -> P d';
  si_claim locked limit token secs now d a d' : claimEventsQuery locked limit token secs now d = Ok (a, d') -> P d -> P d';
  si_published id token now d a d' : markPublishedQuery id token now d = Ok (a, d') -> P d -> P d';
  si_released id token secs diagnostic now d a d' :
    markFailedQuery id token secs diagnostic now d = Ok (a, d') -> P d -> P d'
}.

Section Program.
Context `{PgLaws} (P : DB -> Prop) `{!StatementInvariant P}.

(** *** Transaction bodies *)

Lemma keeps_insert_accounts wallet codes : keeps P (insert_accounts wallet codes).
Proof.
  induction codes as [|code codes IH]; cbn [insert_accounts]; keeps. unfold insertAccount. keeps. apply keeps_stmt, si_account.
Qed.

Lemma keeps_create_wallet owner codes : keeps P (create_wallet_body owner codes).
Proof.
  unfold create_wallet_body, insertWallet. apply keeps_bind; [|intros]; [apply keeps_bind; [apply keeps_stmt, si_wallet|]|].
  - intros [? ?]. keeps.
  - apply keeps_bind; [apply keeps_insert_accounts|]. intros. keeps.
Qed.

Lemma keeps_insert_batch id i ps : keeps P (insert_batch id i ps).
Proof.
  revert i. induction ps as [|p ps IH]; intros i; cbn [insert_batch]; [keeps|]. apply keeps_bind; [|intros; apply IH].
  apply keeps_map_err, keeps_exec, si_posting.
Qed.

Lemma keeps_updateBalances cs : keeps P (updateBalances cs).
Proof.
  induction cs as [|c cs IH]; cbn [updateBalances]; [keeps|]. apply keeps_bind; [apply keeps_exec, si_balance|]. intros. keeps.
Qed.

Lemma keeps_postPrepared prepared : keeps P (postPrepared prepared).
Proof.
  unfold postPrepared, validatePersistedReversal, selectEntry, LedgerRepo.selectPostings, lockAndCalculateBalances. cbv zeta.
  keeps; first [unfold insertEntry; destruct (if bool_decide _ then _ else _); apply keeps_exec, si_entry|
    apply keeps_insert_batch|apply keeps_updateBalances].
Qed.

Lemma keeps_PostTx e : keeps P (PostTx e).
Proof. unfold PostTx. keeps. apply keeps_postPrepared. Qed.

Lemma keeps_AddTx e : keeps P (AddTx e).
Proof. unfold AddTx. keeps. apply keeps_stmt, si_event. Qed.

Lemma keeps_ReserveTx name env : keeps P (ReserveTx name env).
Proof. unfold ReserveTx. keeps. apply keeps_exec, si_inbox. Qed.

Lemma keeps_authorize t source destination : keeps P (authorizeTransferAccounts t source destination).
Proof. unfold authorizeTransferAccounts. cbv zeta. keeps. Qed.

Lemma keeps_create_body p : keeps P (create_body p).
Proof.
  unfold create_body, reserveTransfer, insertTransferQuery, selectTransferByKey, authorizeAccounts.
  keeps; first [apply keeps_exec; intros; by eapply si_transfer|apply keeps_authorize|apply keeps_PostTx|apply keeps_AddTx].
Qed.

Lemma keeps_create_pending_body p : keeps P (create_pending_body p).
Proof.
  unfold create_pending_body, reservePendingTransfer, insertPendingTransferQuery, selectLifecycleByKey, authorizePendingAccounts.
  keeps; first [apply keeps_exec; intros; by eapply si_transfer|apply keeps_authorize|apply keeps_AddTx].
Qed.

Lemma keeps_Load id : keeps P (LoadLifecycleForUpdateTx id).
Proof. unfold LoadLifecycleForUpdateTx. keeps. Qed.

Lemma keeps_transition previous next : keeps P (StoreLifecycleTransitionTx previous next).
Proof.
  unfold StoreLifecycleTransitionTx. keeps. apply keeps_exec. intros now d a d'. destruct (scan_optional _); [|done]. apply si_outcome.
Qed.

Lemma keeps_assessment previous next input ev causation at_ :
  keeps P (StoreRiskAssessmentTx previous next input ev causation at_).
Proof.
  unfold StoreRiskAssessmentTx. keeps; apply keeps_exec; [apply si_status|apply si_assessment|apply si_case].
Qed.

Lemma keeps_decide_case id decision subject at_ : keeps P (DecideReviewCaseTx id decision subject at_).
Proof. unfold DecideReviewCaseTx. keeps. apply keeps_exec, si_verdict. Qed.

Lemma keeps_append record : keeps P (AppendReviewDecisionTx record).
Proof. unfold AppendReviewDecisionTx. keeps. apply keeps_exec, si_audit. Qed.

Lemma keeps_handle_body h env requested policy : keeps P (RiskWorker.handle_body h env requested policy).
Proof.
  unfold RiskWorker.handle_body. cbv zeta.
  keeps; first [apply keeps_ReserveTx|apply keeps_Load|apply keeps_assessment|apply keeps_AddTx].
Qed.

Lemma keeps_post current causation at_ : keeps P (TransactionWorker.post current causation at_).
Proof.
  unfold TransactionWorker.post, TransactionWorker.fail.
  keeps; first [apply keeps_PostTx|apply keeps_transition|apply keeps_AddTx].
Qed.

Lemma keeps_assessment_body now env a : keeps P (assessment_body now env a).
Proof. unfold assessment_body. keeps; first [apply keeps_ReserveTx|apply keeps_Load|apply keeps_post]. Qed.

Lemma keeps_review_body now env d : keeps P (review_body now env d).
Proof. unfold review_body. keeps; first [apply keeps_ReserveTx|apply keeps_Load|apply keeps_post]. Qed.

Lemma keeps_decide_body now p id d : keeps P (decide_body now p id d).
Proof.
  unfold decide_body. cbv zeta.
  keeps; first [apply keeps_Load|apply keeps_transition|apply keeps_decide_case|apply keeps_append|apply keeps_AddTx].
Qed.

(** *** Operations *)

Lemma post_attempts_keeps left prepared e : world_keeps P (post_attempts left prepared e).
Proof.
  revert e. induction left as [|left IH]; intros e s w r w'; cbn [post_attempts]; [by intros [= _ <-]|].
  destruct (cancelled s (tick w)); [by intros [= _ <-]|]. destruct (postOnce prepared s w) as [r1 w1] eqn:E. intros HR Hw.
  assert (Hw1 : P (committed w1)).
  { eapply (run_tx_keeps P); [|exact E|exact Hw]. keeps; apply keeps_postPrepared. }
  destruct r1 as [|e1]; [by injection HR as _ <-|]. destruct (LedgerRepo.isRetryableTransaction e1); [exact (IH _ _ _ _ _ HR Hw1)|by injection HR as _ <-].
Qed.

Lemma create_attempts_keeps {A} left (once : Service -> World -> Result A * World) e :
  world_keeps P once -> world_keeps P (create_attempts left once e).
Proof.
  intros Ho. revert e. induction left as [|left IH]; intros e s w r w'; cbn [create_attempts]; [by intros [= _ <-]|].
  destruct (cancelled s (tick w)); [by intros [= _ <-]|]. destruct (once s w) as [r1 w1] eqn:E. intros HR Hw.
  pose proof (Ho _ _ _ _ E Hw) as Hw1.
  destruct r1 as [|e1]; [by injection HR as _ <-|]. destruct (TransferRepo.isRetryableTransaction e1); [exact (IH _ _ _ _ _ HR Hw1)|by injection HR as _ <-].
Qed.

Lemma Post_keeps e : world_keeps P (Post e).
Proof. intros s w r w'. unfold Post. destruct (prepareEntry e); [apply post_attempts_keeps|by intros [= _ <-]]. Qed.

Lemma Create_keeps t : world_keeps P (TransferRepo.Create t).
Proof.
  intros s w r w'. unfold TransferRepo.Create. destruct (prepareTransfer t); [|by intros [= _ <-]].
  apply create_attempts_keeps. apply run_tx_keeps, keeps_create_body.
Qed.

Lemma CreatePending_keeps l : world_keeps P (CreatePending l).
Proof.
  intros s w r w'. unfold CreatePending. destruct (preparePendingTransfer l); [|by intros [= _ <-]].
  apply create_attempts_keeps. apply run_tx_keeps, keeps_create_pending_body.
Qed.

Lemma risk_Handle_keeps h env : world_keeps P (RiskWorker.Handle h env).
Proof.
  intros s w r w'. unfold RiskWorker.Handle. destruct (ParseRequested env); [|by intros [= _ <-]].
  destruct (policies h !! _); [|by intros [= _ <-]]. apply run_tx_keeps, keeps_handle_body.
Qed.

Lemma transaction_Handle_keeps now env : world_keeps P (TransactionWorker.Handle now env).
Proof.
  intros s w r w'. unfold TransactionWorker.Handle, handleReviewDecision. case_bool_decide.
  - destruct (ParseReviewDecided env); [|by intros [= _ <-]]. apply run_tx_keeps, keeps_review_body.
  - destruct (ParseRiskAssessed env); [|by intros [= _ <-]]. apply run_tx_keeps, keeps_assessment_body.
Qed.

Lemma Decide_keeps now p id d : world_keeps P (ReviewCase.Decide now p id d).
Proof.
  intros s w r w'. unfold ReviewCase.Decide. destruct (_ || _); [by intros [= _ <-]|]. destruct (_ && _); [by intros [= _ <-]|].
  apply run_tx_keeps, keeps_decide_body.
Qed.

Lemma wallet_Create_keeps owner currencies : world_keeps P (WalletRepo.Create owner currencies).
Proof.
  intros s w r w'. unfold WalletRepo.Create. destruct (wrap_err _ _); [|by intros [= _ <-]].
  destruct (normalizeCurrencies _); [|by intros [= _ <-]]. apply run_tx_keeps, keeps_create_wallet.
Qed.

Lemma quarantine_keeps record : world_keeps P (quarantine_Store record).
Proof.
  intros s w r w'. unfold quarantine_Store. destruct (validateRecord record); [|by intros [= _ <-]].
  apply run_stmt_keeps, si_quarantine.
Qed.

Lemma Claim_keeps random locked limit lease : world_keeps P (Claim random locked limit lease).
Proof.
  intros s w r w'. unfold Claim. destruct (_ || _); [by intros [= _ <-]|]. destruct (_ || _); [by intros [= _ <-]|].
  destruct (newClaimToken random); [|by intros [= _ <-]]. apply run_tx_keeps. unfold claim_body. keeps. apply keeps_exec, si_claim.
Qed.

Lemma one_row_keeps (op : Service -> World -> Result Z * World) :
  world_keeps P op -> world_keeps P (fun s w => one_row (op s w)).
Proof.
  intros Ho s w r w'. destruct (op s w) as [r1 w1] eqn:E. intros HR Hw. pose proof (Ho _ _ _ _ E Hw) as Hw1. unfold one_row in HR.
  destruct r1 as [n|e]; [destruct (n =? 1)|]; by injection HR as _ <-.
Qed.

Lemma MarkPublished_keeps id token : world_keeps P (MarkPublished id token).
Proof.
  intros s w r w'. unfold MarkPublished. destruct (parseClaimIdentity id token) as [[? ?]|]; [|by intros [= _ <-]].
  apply (one_row_keeps (run_stmt _)), run_stmt_keeps, si_published.
Qed.

Lemma MarkFailed_keeps id token delay text : world_keeps P (MarkFailed id token delay text).
Proof.
  intros s w r w'. unfold MarkFailed. destruct (parseClaimIdentity id token) as [[? ?]|]; [|by intros [= _ <-]].
  destruct (_ || _); [by intros [= _ <-]|]. apply (one_row_keeps (run_stmt _)), run_stmt_keeps, si_released.
Qed.

(** What every statement keeps, every step keeps, and so every run. *)
Lemma step_keeps w w' : step w w' -> P (committed w) -> P (committed w').
Proof.
  intros [[e s r _ HR|t s r _ HR|l s r _ _ _ HR|h env s r HR|now env s r HR|now p id d s r HR|owner cs s r HR|record s r HR]|
    random locked limit lease s r HR|id token s r HR|id token delay text s r HR].
  - by eapply Post_keeps.
  - by eapply Create_keeps.
  - by eapply CreatePending_keeps.
  - by eapply risk_Handle_keeps.
  - by eapply transaction_Handle_keeps.
  - by eapply Decide_keeps.
  - by eapply wallet_Create_keeps.
  - by eapply quarantine_keeps.
  - by eapply Claim_keeps.
  - by eapply MarkPublished_keeps.
  - by eapply MarkFailed_keeps.
Qed.

Lemma run_keeps w w' : run w w' -> P (committed w) -> P (committed w').
Proof. induction 1 as [|w1 w2 w3 HS _ IH]; [done|]. intros Hw. by eapply IH, step_keeps. Qed.

End Program.
