(* ===== verification/Refusals.v ===== *)
(** * Errors that are not the database's, and a logic for the others

    [pure r]: a computation that talks to no database fails without an error of
    PostgreSQL.  [holds G P m Q]: a transaction body that starts where [P] holds
    keeps the tables [G], leaves [Q] when it succeeds, and reports no violated
    CHECK outside a given set when it fails. *)

From stdpp Require Import base list gmap strings numbers relations sorting.
From Stdlib Require Import ZArith Lia.
From S2P Require Import OutboxRepo WalletRepo Quarantine.
From S2P Require Import RiskWorker TransactionWorker ReviewCase.
From S2P Require Import Prelude GoText Money Journal TransferDomain RiskPolicy Json GoTime Event.
From S2P Require Import TransferEvents EventParse Database LedgerRepo Outbox Inbox TransferRepo TransferStore AuditWriter.

Open Scope string_scope.
Open Scope Z_scope.

(** ** Pure code *)

Definition is_sentinel (l : leaf) : bool := match l with Postgres _ => false | _ => true end.

Definition pure {A} (r : Result A) : Prop := match r with Ok _ => True | Err e => forallb is_sentinel e = true end.

Lemma pure_bind {A B} (m : Result A) (f : A -> Result B) : pure m -> (forall a, pure (f a)) -> pure (m ≫= f).
Proof. destruct m; [intros _ Hf; apply Hf|done]. Qed.

Lemma pure_wrap {A} leaves (m : Result A) : forallb is_sentinel leaves = true -> pure m -> pure (wrap_err leaves m).
Proof. destruct m; [done|]. cbn. intros Hl Hm. by rewrite forallb_app, Hl, Hm. Qed.

Lemma pure_fail_if b e : forallb is_sentinel e = true -> pure (fail_if b e).
Proof. by destruct b. Qed.

Create HintDb pure.

(** Structural; the functions a computation calls are in the database. *)
Ltac pure :=
  repeat match goal with
  | |- pure (mret _) => exact I
  | |- pure (Ok _) => exact I
  | |- pure (Err _) => solve [reflexivity | cbn; assumption]
  | |- pure (mbind _ _) => apply pure_bind; [|intros ?]
  | |- pure (wrap_err _ _) => apply pure_wrap; [reflexivity|]
  | |- pure (fail_if _ _) => apply pure_fail_if; reflexivity
  | |- pure (let '(_, _) := ?p in _) => destruct p
  | |- pure (if ?b then _ else _) => destruct b
  | |- pure (match ?m with Ok _ => _ | Err _ => _ end) =>
      let Hm := fresh "Hm" in assert (pure m) as Hm by pure; destruct m; cbn [pure] in Hm
  | |- pure (match ?x with _ => _ end) => destruct x
  | |- pure _ => solve [eauto with pure]
  end.

Lemma pure_ParseCurrency c : pure (ParseCurrency c).
Proof. unfold ParseCurrency. pure. Qed.
#[export] Hint Resolve pure_ParseCurrency : pure.

Lemma pure_NewMoney u c : pure (NewMoney u c).
Proof. unfold NewMoney. pure. Qed.
#[export] Hint Resolve pure_NewMoney : pure.

Lemma pure_Negate m : pure (Negate m).
Proof. unfold Negate. pure. Qed.

Lemma pure_posting_validate p : pure (posting_validate p).
Proof. unfold posting_validate. pure. Qed.
#[export] Hint Resolve pure_Negate pure_posting_validate : pure.

Lemma pure_NewPosting a m : pure (NewPosting a m).
Proof. unfold NewPosting. pure. Qed.

Lemma pure_validate_postings ps : pure (validate_postings ps).
Proof. induction ps; cbn [validate_postings]; pure. Qed.

Lemma pure_balanced ps : pure (validateBalancedPostings ps).
Proof. unfold validateBalancedPostings. cbv zeta. pure. Qed.
#[export] Hint Resolve pure_NewPosting pure_validate_postings pure_balanced : pure.

Lemma pure_entry_validate e : pure (entry_validate e).
Proof. unfold entry_validate. pure. Qed.
#[export] Hint Resolve pure_entry_validate : pure.

Lemma pure_NewJournalEntry p : pure (NewJournalEntry p).
Proof. unfold NewJournalEntry, newJournalEntry. cbv zeta. pure. Qed.

Lemma pure_transfer_validate t : pure (transfer_validate t).
Proof. unfold transfer_validate. pure. Qed.
#[export] Hint Resolve pure_NewJournalEntry pure_transfer_validate : pure.

Lemma pure_NewTransfer p : pure (NewTransfer p).
Proof. unfold NewTransfer. cbv zeta. pure. Qed.

Lemma pure_JournalEntry t : pure (transfer_JournalEntry t).
Proof. unfold transfer_JournalEntry. pure. Qed.

Lemma pure_lifecycle_validate l : pure (lifecycle_validate l).
Proof. unfold lifecycle_validate. pure. Qed.
#[export] Hint Resolve pure_NewTransfer pure_JournalEntry pure_lifecycle_validate : pure.

Lemma pure_NewLifecycle p : pure (NewLifecycle p).
Proof. unfold NewLifecycle. cbv zeta. pure. Qed.
#[export] Hint Resolve pure_NewLifecycle : pure.

Lemma pure_apply_op op l : pure (apply_op op l).
Proof. destruct op; cbn; unfold Approve, RequireReview, Decline, Complete, lifecycle_Fail, TransferDomain.transition; pure. Qed.

(** The operations by their own names. *)
Lemma pure_operations l reason :
  pure (Approve l) /\ pure (RequireReview l) /\ pure (Decline l) /\ pure (Complete l) /\ pure (lifecycle_Fail l reason).
Proof.
  exact (conj (pure_apply_op OpApprove l) (conj (pure_apply_op OpRequireReview l) (conj (pure_apply_op OpDecline l)
    (conj (pure_apply_op OpComplete l) (pure_apply_op (OpFail reason) l))))).
Qed.

Lemma pure_NewDraft p : pure (NewDraft p).
Proof. unfold NewDraft, normalizePayload, draft_validate. cbv zeta. pure. Qed.

Lemma pure_NewEnvelope id d : pure (NewEnvelope id d).
Proof. unfold NewEnvelope, draft_validate. pure. Qed.
#[export] Hint Resolve pure_NewDraft pure_NewEnvelope : pure.

Lemma pure_Requested l : pure (Requested l).
Proof. unfold Requested. cbv zeta. pure. Qed.

Lemma pure_Completed t : pure (Completed t).
Proof. unfold Completed. cbv zeta. pure. Qed.

Lemma pure_CompletedLifecycle l at_ id : pure (CompletedLifecycle l at_ id).
Proof. unfold CompletedLifecycle. cbv zeta. pure. Qed.

Lemma pure_Failed l at_ id : pure (Failed l at_ id).
Proof. unfold Failed. cbv zeta. pure. Qed.

Lemma pure_RiskAssessed l ev at_ id : pure (RiskAssessed l ev at_ id).
Proof. unfold RiskAssessed. cbv zeta. pure. Qed.

Lemma pure_ReviewDecided l subject at_ : pure (ReviewDecided l subject at_).
Proof. unfold ReviewDecided. cbv zeta. pure. Qed.
#[export] Hint Resolve pure_Requested pure_Completed pure_CompletedLifecycle pure_Failed pure_RiskAssessed pure_ReviewDecided : pure.

Lemma pure_parse env : pure (ParseRequested env) /\ pure (ParseRiskAssessed env) /\ pure (ParseReviewDecided env).
Proof.
  unfold ParseRequested, ParseRiskAssessed, ParseReviewDecided. cbv zeta. repeat match goal with |- _ /\ _ => split end; pure.
Qed.

Lemma pure_Evaluate p i : pure (Evaluate p i).
Proof. unfold Evaluate, policy_validate. cbv zeta. pure. Qed.
#[export] Hint Resolve pure_Evaluate : pure.

Lemma pure_risk_transition l d : pure (RiskWorker.transition l d).
Proof. destruct d; cbn; try apply (pure_operations l ""); done. Qed.

Lemma pure_worker_entry l at_ : pure (TransactionWorker.journalEntry l at_).
Proof. unfold TransactionWorker.journalEntry. cbv zeta. pure. Qed.

Lemma pure_validateRecord r : pure (validateRecord r).
Proof. unfold validateRecord. pure. Qed.
#[export] Hint Resolve pure_risk_transition pure_worker_entry pure_validateRecord : pure.

Section Pure.
Context `{Pg}.

Lemma pure_parseUUID v : pure (parseUUID v).
Proof. unfold parseUUID. pure. Qed.
#[local] Hint Resolve pure_parseUUID : pure.

Lemma pure_accumulate ps m : pure (accumulate ps m).
Proof. revert m. induction ps; intros m; cbn [accumulate]; cbv zeta; pure. Qed.

Lemma pure_collect_changes m keys : pure (collect_changes m keys).
Proof. induction keys; cbn [collect_changes]; pure. Qed.
#[local] Hint Resolve pure_accumulate pure_collect_changes : pure.

Lemma pure_preparePostings ps : pure (preparePostings ps).
Proof. unfold preparePostings. cbv zeta. pure. Qed.
#[local] Hint Resolve pure_preparePostings : pure.

Lemma pure_prepareEntry e : pure (prepareEntry e).
Proof. unfold prepareEntry. cbv zeta. pure. Qed.

Lemma pure_restore_postings rows : pure (restore_postings rows).
Proof. induction rows; cbn [restore_postings]; pure. Qed.

Lemma pure_calculate_row c b : pure (calculate_row c b).
Proof. unfold calculate_row, checkedAdd. pure. Qed.
#[local] Hint Resolve pure_calculate_row : pure.

Lemma pure_calculate_rows m rows cs n : pure (calculate_rows m rows cs n).
Proof. revert cs n. induction rows; intros cs n; cbn [calculate_rows]; pure. Qed.

Lemma pure_record_lifecycle r : pure (record_lifecycle r).
Proof. unfold record_lifecycle. pure. Qed.

Lemma pure_check_account t r : pure (check_account t r).
Proof. unfold check_account. pure. Qed.

Lemma pure_prepareTransfer t : pure (prepareTransfer t).
Proof. unfold prepareTransfer. pure. Qed.

Lemma pure_preparePending l : pure (preparePendingTransfer l).
Proof. unfold preparePendingTransfer. cbv zeta. pure. Qed.

Lemma pure_prepareAssessment previous next input ev id at_ : pure (prepareRiskAssessment previous next input ev id at_).
Proof. unfold prepareRiskAssessment. pure. Qed.

Lemma pure_validateReview r : pure (validateReviewDecision r).
Proof. unfold validateReviewDecision. pure. Qed.

Lemma pure_scan_claimed token rows : pure (scan_claimed token rows).
Proof. induction rows; cbn [scan_claimed]; unfold scanClaimedEvent; pure. Qed.

Lemma pure_restore_wallet id row : pure (restore_wallet id row).
Proof. unfold restore_wallet, ParseStatus. pure. Qed.

Lemma pure_restore_account r : pure (restore_account r).
Proof. unfold restore_account, decodeAccount, ParseStatus. pure. Qed.

Lemma pure_normalizeCurrencies cs : pure (normalizeCurrencies cs).
Proof.
  unfold normalizeCurrencies. pure. 
  assert (Hc : forall codes seen, pure (collect_codes cs codes seen)) by (induction cs; intros codes seen; cbn [collect_codes]; cbv zeta; pure).
  apply Hc.
Qed.

Lemma pure_parseIdentity id token : pure (parseClaimIdentity id token).
Proof. unfold parseClaimIdentity. pure. Qed.

End Pure.

#[export] Hint Resolve pure_parseUUID pure_prepareEntry pure_restore_postings pure_calculate_rows pure_record_lifecycle
  pure_check_account pure_prepareTransfer pure_preparePending pure_prepareAssessment pure_validateReview pure_scan_claimed
  pure_restore_wallet pure_restore_account pure_normalizeCurrencies pure_parseIdentity : pure.

(** ** The logic *)

Section Logic.
Context `{Pg} (G : DB -> Prop) (X : string -> Prop).

(** Every violated CHECK among the leaves is one of [X]. *)
Definition clean (e : error) : Prop := forall c, Postgres (mkPgError "23514" c) ∈ e -> X c.

Definition outcome_ok {A} (r : Result A) (Q : A -> Prop) : Prop := match r with Ok a => Q a | Err e => clean e end.

Definition tables_good (st : TxState) : Prop := G (tx_db st) /\ forall d, tx_applied st = Some d -> G d.

Definition holds {A} (P : DB -> Prop) (m : Tx A) (Q : A -> DB -> Prop) : Prop := forall s st r st',
  m s st = (r, st') -> tables_good st -> P (tx_db st) ->
  tables_good st' /\ outcome_ok r (fun a => Q a (tx_db st')).

(** An operation on the committed tables. *)
Definition op_ok {A} (op : Service -> World -> Result A * World) : Prop := forall s w r w',
  op s w = (r, w') -> G (committed w) -> G (committed w') /\ outcome_ok r (fun _ => True).

Lemma clean_sentinels e : forallb is_sentinel e = true -> clean e.
Proof. rewrite forallb_forall. intros Hs c Hc%list_elem_of_In%Hs. done. Qed.

Lemma clean_app e1 e2 : clean e1 -> clean e2 -> clean (e1 ++ e2)%list.
Proof. intros H1 H2 c [Hc|Hc]%elem_of_app; auto. Qed.

Lemma clean_cons l e : is_sentinel l = true -> clean e -> clean (l :: e).
Proof. intros Hl He. apply (clean_app [l]); [apply clean_sentinels; cbn; by rewrite Hl|done]. Qed.

(** Another class of error. *)
Lemma clean_other code c : code <> "23514" -> clean [Postgres (mkPgError code c)].
Proof. intros Hn c' E%list_elem_of_singleton. congruence. Qed.

Lemma clean_check c : X c -> clean (check_violation c).
Proof. intros Hc c' E%list_elem_of_singleton. by assert (c' = c) as -> by congruence. Qed.

Lemma clean_fault flt : clean (fault_error flt).
Proof. destruct flt; [by apply clean_other..|by apply clean_sentinels]. Qed.

Lemma holds_ret {A} P (a : A) (Q : A -> DB -> Prop) : (forall d, P d -> Q a d) -> holds P (mret a) Q.
Proof. intros HQ s st r st' [= <- <-] Hg HP. split; [done|]. by apply HQ. Qed.

Lemma holds_lift {A} P (m : Result A) (Q : A -> DB -> Prop) :
  pure m -> (forall a d, m = Ok a -> P d -> Q a d) -> holds P (lift m) Q.
Proof.
  intros Hm HQ s st r st' [= <- <-] Hg HP. split; [done|]. destruct m as [a|e]; cbn in *; [by apply HQ|by apply clean_sentinels].
Qed.

Lemma holds_err {A} P e (Q : A -> DB -> Prop) : clean e -> holds P (lift (Err e)) Q.
Proof. intros He s st r st' [= <- <-] Hg HP. done. Qed.

Lemma holds_bind {A B} P (m : Tx A) (f : A -> Tx B) Q R :
  holds P m Q -> (forall a, holds (Q a) (f a) R) -> holds P (m ≫= f) R.
Proof.
  intros Hm Hf s st r st'. unfold mbind, Tx_bind. destruct (m s st) as [[a|e] st1] eqn:E; intros HR Hg HP.
  - destruct (Hm _ _ _ _ E Hg HP) as [Hg1 HQ]. by eapply Hf.
  - injection HR as <- <-. by destruct (Hm _ _ _ _ E Hg HP).
Qed.

Lemma holds_conseq {A} (P P' : DB -> Prop) (m : Tx A) (Q Q' : A -> DB -> Prop) :
  holds P' m Q' -> (forall d, P d -> P' d) -> (forall a d, Q' a d -> Q a d) -> holds P m Q.
Proof.
  intros Hm HP HQ s st r st' HR Hg Hp. destruct (Hm _ _ _ _ HR Hg (HP _ Hp)) as [Hg' Ho]. split; [done|].
  destruct r; cbn in *; auto.
Qed.

(** Binds whose first part is known by its value alone, or is pure code. *)
Lemma holds_then {A B} P (m : Tx A) (F : A -> Prop) (f : A -> Tx B) R :
  holds P m (fun a _ => F a) -> (forall a, F a -> holds (fun _ => True) (f a) R) -> holds P (m ≫= f) R.
Proof.
  intros Hm Hf. eapply holds_bind; [exact Hm|]. intros a s st r st' HR Hg HF. by eapply Hf.
Qed.

Lemma holds_let {A B} P (m : Result A) (f : A -> Tx B) R :
  pure m -> (forall a, m = Ok a -> holds P (f a) R) -> holds P (lift m ≫= f) R.
Proof.
  intros Hm Hf s st r st'. unfold mbind, Tx_bind, lift. destruct m as [a|e]; [by apply Hf|].
  intros [= <- <-] Hg _. split; [done|]. by apply clean_sentinels.
Qed.

Lemma holds_weaken {A} P (m : Tx A) Q : holds (fun _ => True) m Q -> holds P m Q.
Proof. intros Hm. by eapply holds_conseq. Qed.

Lemma holds_stmt {A} P (f : Service -> nat -> Time -> DB -> Result (A * DB)) Q :
  (forall s n now d, G d -> P d ->
     match f s n now d with Ok (a, d') => G d' /\ Q a d' | Err e => clean e end) -> holds P (stmt f) Q.
Proof.
  intros Hf s st r st'. unfold stmt. destruct (tx_closed st); [intros [= <- <-]; split; [done|by apply clean_sentinels]|].
  destruct (tx_aborted st); [intros [= <- <-]; split; [done|by apply clean_other]|].
  destruct (faults s (tx_tick st)); [intros [= <- <-]; split; [done|apply clean_fault]|].
  intros HR [Hd Ha] HP. specialize (Hf s (tx_tick st) (tx_now st) _ Hd HP).
  destruct (f _ _ _ _) as [[a d]|e]; injection HR as <- <-; [|by split]. destruct Hf. by split.
Qed.

Lemma holds_query {A} P (f : DB -> Result A) Q :
  (forall d, G d -> P d -> match f d with Ok a => Q a d | Err e => clean e end) -> holds P (query f) Q.
Proof. intros Hf. apply holds_stmt. intros s n now d Hd HP. specialize (Hf d Hd HP). by destruct (f d). Qed.

Lemma holds_exec {A} P (f : Time -> DB -> Result (A * DB)) Q :
  (forall now d, G d -> P d -> match f now d with Ok (a, d') => G d' /\ Q a d' | Err e => clean e end) -> holds P (exec f) Q.
Proof. intros Hf. apply holds_stmt. intros s n. apply Hf. Qed.

Lemma holds_map_err {A} P f (m : Tx A) Q : (forall e, clean e -> clean (f e)) -> holds P m Q -> holds P (map_err f m) Q.
Proof.
  intros Hf Hm s st r st'. unfold map_err. destruct (m s st) as [[a|e] st1] eqn:E; intros [= <- <-] Hg HP.
  - by apply (Hm _ _ _ _ E).
  - destruct (Hm _ _ _ _ E Hg HP) as [? ?]. split; [done|]. by apply Hf.
Qed.

Lemma holds_catch {A B} P (m : Tx A) (f : error -> Tx B) (g : A -> Tx B) Q R :
  holds P m Q -> (forall e, clean e -> holds (fun _ => True) (f e) R) -> (forall a, holds (Q a) (g a) R) ->
  holds P (TransactionWorker.catch m f g) R.
Proof.
  intros Hm Hf Hg s st r st'. unfold TransactionWorker.catch. destruct (m s st) as [[a|e] st1] eqn:E; intros HR Hst HP.
  - destruct (Hm _ _ _ _ E Hst HP). by eapply Hg.
  - destruct (Hm _ _ _ _ E Hst HP). by eapply Hf.
Qed.

Lemma holds_commit P : holds P commit (fun _ _ => True).
Proof.
  intros s st r st'. unfold commit. destruct (tx_closed st); [intros [= <- <-]; split; [done|by apply clean_sentinels]|].
  destruct (tx_aborted st); [intros [= <- <-] [? _]; by split; [split|apply clean_sentinels]|].
  destruct (negb _); [intros [= <- <-] [? _]; by split; [split|apply clean_other]|].
  destruct (fates s (tx_tick st)) as [|flt|b]; intros [= <- <-] [Hd _] _; (split; [split; [done|]; cbn|]).
  - by intros d [= <-].
  - done.
  - done.
  - apply clean_fault.
  - intros d. destruct b; by intros [= <-].
  - by apply clean_sentinels.
Qed.

Lemma run_tx_ok {A} join (body : Tx A) P : (forall d, G d -> P d) -> holds P body (fun _ _ => True) -> op_ok (run_tx join body).
Proof.
  intros HP Hb s w r w'. unfold run_tx. destruct (faults s (tick w)); [intros [= <- <-] ?; split; [done|apply clean_fault]|].
  destruct (body s (begun s w)) as [r1 st] eqn:E. intros [= <- <-] Hw.
  destruct (Hb _ _ _ _ E) as [[_ Ha] Ho]; [by split|by apply HP|]. split; [cbn; destruct (tx_applied st); [by apply Ha|done]|].
  destruct (tx_closed st); [done|]. destruct (faults s (tx_tick st)); [|done]. destruct join; [|done].
  destruct r1; cbn in *; [apply clean_fault|apply clean_app; [done|apply clean_fault]].
Qed.

Lemma run_stmt_ok {A} (f : Time -> DB -> Result (A * DB)) :
  (forall now d, G d -> match f now d with Ok (a, d') => G d' | Err e => clean e end) -> op_ok (run_stmt f).
Proof.
  intros Hf s w r w'. unfold run_stmt. destruct (faults s (tick w)); [intros [= <- <-] ?; split; [done|apply clean_fault]|].
  intros HR Hw. specialize (Hf (now_at s (tick w)) (committed w) Hw). destruct (f _ _) as [[a d]|e]; [|by injection HR as <- <-].
  destruct (fates s (tick w)) as [|flt|[]]; injection HR as <- <-; split; try done; first [apply clean_fault|by apply clean_sentinels].
Qed.

Lemma op_ok_pure {A} (r : Result A) : pure r -> op_ok (fun _ w => (r, w)).
Proof. intros Hr s w r' w' [= <- <-] Hw. split; [done|]. destruct r; [done|by apply clean_sentinels]. Qed.

Lemma op_ok_match {A B} (r : Result A) (op : A -> Service -> World -> Result B * World) :
  pure r -> (forall a, r = Ok a -> op_ok (op a)) ->
  op_ok (fun s w => match r with Err e => (Err e, w) | Ok a => op a s w end).
Proof. intros Hr Ho. destruct r as [a|e]; [by apply Ho|by apply (op_ok_pure (Err e))]. Qed.

Lemma op_ok_guard {A} (b : bool) e (op : Service -> World -> Result A * World) :
  forallb is_sentinel e = true -> (b = false -> op_ok op) -> op_ok (fun s w => if b then (Err e, w) else op s w).
Proof. intros He Ho. destruct b; [by apply (op_ok_pure (Err e))|by apply Ho]. Qed.

Lemma one_row_ok (op : Service -> World -> Result Z * World) : op_ok op -> op_ok (fun s w => one_row (op s w)).
Proof.
  intros Ho s w r w'. destruct (op s w) as [r1 w1] eqn:E. intros HR Hw. destruct (Ho _ _ _ _ E Hw) as [Hw1 Hr]. unfold one_row in HR.
  destruct r1 as [n|e]; [destruct (n =? 1)|]; injection HR as <- <-; split; try done. by apply clean_sentinels.
Qed.

End Logic.

Arguments outcome_ok X {_} r Q /.
