(* ===== verification/Schema.v ===== *)
(** * The schema: every constraint of the migrations, as one predicate

    [schema_ok] says of the tables what [migrations/] declares: the CHECK
    constraints of each row, the UNIQUE keys (a NULL key equals no other), and the
    immediate foreign keys.  The statements of the repositories are proved to keep
    it ([schema_kept]), so that the tables of every run meet it: the model's
    statements refuse what the schema refuses.

    The primary keys of tables held in a map are the map's keys; the surrogate
    primary keys of [transfer_risk_assessments] and [transfer_review_audit_records],
    [accounts.updated_at] and the column defaults the code never reads are not
    columns of the model, and [jsonb_typeof] is not observed. *)

From stdpp Require Import base list gmap strings numbers relations sorting.
From Stdlib Require Import ZArith Lia.
From S2P Require Import OutboxRepo WalletRepo Quarantine.
From S2P Require Import Prelude GoText Money GoTime Event Database LedgerRepo Outbox Inbox TransferRepo TransferSpec TransferStore AuditWriter.
From S2P Require Import Statements.

Open Scope string_scope.
Open Scope Z_scope.

(** ** Keys *)

(** No two rows share a key; rows without a key are free. *)
Definition unique_by `{Countable K} {A B} (key : A -> option B) (t : gmap K A) : Prop :=
  map_Forall (fun i r => map_Forall (fun j r' => key r <> None -> key r = key r' -> i = j) t) t.

#[export] Instance unique_by_dec `{Countable K, EqDecision B} {A} (key : A -> option B) (t : gmap K A) :
  Decision (unique_by key t).
Proof. unfold unique_by. apply _. Defined.

Section Keys.
Context `{Countable K} {A B : Type} (key : A -> option B).
Implicit Types t : gmap K A.

(** The row at [i] clashes with no other. *)
Definition fresh_key t i r : Prop := forall j r', t !! j = Some r' -> key r <> None -> key r = key r' -> i = j.

Lemma unique_by_insert t i r : unique_by key t -> fresh_key t i r -> unique_by key (<[i := r]> t).
Proof.
  intros Hu Hf j rj Hj k rk Hk Hn E.
  apply lookup_insert_Some in Hj as [[<- <-]|[Hij Hj]], Hk as [[<- <-]|[Hik Hk]]; [done|by eapply Hf|..].
  - symmetry. eapply Hf; [done|by rewrite <- E|by rewrite <- E].
  - by eapply (Hu j rj Hj k rk).
Qed.

Lemma unique_by_update t i r0 r : unique_by key t -> t !! i = Some r0 -> key r = key r0 -> unique_by key (<[i := r]> t).
Proof. intros Hu Hi E. apply unique_by_insert; [done|]. intros j r' Hj. rewrite E. by apply (Hu i r0 Hi). Qed.

Lemma unique_by_map (f : K -> A -> A) t :
  (forall i r, key (f i r) = key r) -> unique_by key t -> unique_by key (map_imap (fun i r => Some (f i r)) t).
Proof.
  intros Hf Hu i r Hi j r' Hj. rewrite map_lookup_imap in Hi, Hj.
  apply bind_Some in Hi as (ri & Hi & [= <-]), Hj as (rj & Hj & [= <-]). rewrite !Hf. by apply (Hu i ri Hi).
Qed.

End Keys.

Lemma map_Forall_map {A} `{Countable K} (P : K -> A -> Prop) (f : K -> A -> A) (t : gmap K A) :
  (forall i r, t !! i = Some r -> P i r -> P i (f i r)) -> map_Forall P t -> map_Forall P (map_imap (fun i r => Some (f i r)) t).
Proof. intros Hf Ht i r Hi. rewrite map_lookup_imap in Hi. apply bind_Some in Hi as (ri & Hi & [= <-]). by apply Hf, Ht. Qed.

(** A query that found no row with a property. *)
Lemma no_row `{Countable K} {A} (p : K * A -> bool) (t : gmap K A) i r :
  existsb p (map_to_list t) = false -> t !! i = Some r -> p (i, r) = false.
Proof.
  intros E Hi. apply not_true_iff_false. intros Hp. apply not_true_iff_false in E. apply E, existsb_exists.
  exists (i, r). split; [by apply list_elem_of_In, elem_of_map_to_list|done].
Qed.

Lemma no_member {A} (p : A -> bool) (l : list A) r : existsb p l = false -> r ∈ l -> p r = false.
Proof.
  intros E Hi. apply not_true_iff_false. intros Hp. apply not_true_iff_false in E. apply E, existsb_exists.
  exists r. split; [by apply list_elem_of_In|done].
Qed.

Lemma nodup_snoc {A B} (f : A -> B) l x : NoDup (f <$> l) -> (forall y, y ∈ l -> f y <> f x) -> NoDup (f <$> l ++ [x])%list.
Proof.
  intros Hl Hx. rewrite fmap_app. apply NoDup_app. split_and!; [done| |apply NoDup_singleton].
  intros z (y & -> & Hy)%list_elem_of_fmap Hz%list_elem_of_singleton. by apply (Hx y).
Qed.

Lemma Forall_snoc {A} (P : A -> Prop) l x : Forall P l -> P x -> Forall P (l ++ [x])%list.
Proof. intros. apply Forall_app. split; [done|by apply Forall_singleton]. Qed.

(** ** Tables *)

(** A CHECK on a nullable column passes on NULL. *)
Definition nullable {A} (P : A -> Prop) (o : option A) : Prop := match o with Some x => P x | None => True end.

#[export] Instance nullable_dec {A} (P : A -> Prop) `{forall x, Decision (P x)} o : Decision (nullable P o).
Proof. destruct o; cbn; apply _. Defined.

Section Tables.
Context `{Pg}.

(** Migration 1. *)
Definition wallets_ok (t : gmap UUID WalletRow) : Prop :=
  map_Forall (fun _ r =>
    wal_status r ∈ ["active"; "frozen"; "closed"] /\ instant (wal_created_at r) <= instant (wal_updated_at r)) t.

(** Migrations 1 and 2. *)
Definition accounts_ok (wallets : gmap UUID WalletRow) (t : gmap UUID AccountRow) : Prop :=
  map_Forall (fun _ r =>
    currency_check (acc_currency r) = true /\ acc_status r ∈ ["active"; "frozen"; "closed"] /\
    acc_type r ∈ ["customer"; "system"] /\ is_Some (wallets !! acc_wallet r)) t /\
  unique_by (fun r => Some (acc_wallet r, acc_currency r)) t.

Definition balances_ok (accounts : gmap UUID AccountRow) (t : gmap UUID BalanceRow) : Prop :=
  map_Forall (fun a r =>
    currency_check (bal_currency r) = true /\ bal_type r ∈ ["customer"; "system"] /\ 0 <= bal_version r /\
    (bal_type r = "system" \/ 0 <= balance_minor r) /\
    (fun x => (acc_currency x, acc_type x)) <$> accounts !! a = Some (bal_currency r, bal_type r)) t.

(** Migration 2. *)
Definition entries_ok (t : gmap UUID EntryRow) : Prop :=
  map_Forall (fun id r =>
    (ent_type r = "standard" /\ ent_reverses r = None \/
     ent_type r = "reversal" /\ ent_reverses r <> None /\ ent_reverses r <> Some id) /\
    nullable (fun source => is_Some (t !! source)) (ent_reverses r)) t /\
  unique_by ent_reverses t.

Definition postings_ok (entries : gmap UUID EntryRow) (accounts : gmap UUID AccountRow) (l : list PostingRow) : Prop :=
  Forall (fun p =>
    (0 <= po_position p /\ po_position p <= 1023) /\ currency_check (po_currency p) = true /\
    po_amount p <> 0 /\ po_amount p <> MinInt64 /\ is_Some (entries !! po_entry p) /\
    acc_currency <$> accounts !! po_account p = Some (po_currency p)) l /\
  NoDup ((fun p => (po_entry p, po_position p)) <$> l).

(** Migrations 3 and 5. *)
Definition transfers_ok (t : gmap UUID TransferRow) : Prop :=
  map_Forall (fun id r => is_ok (transfer_checks id r) = true) t /\ unique_by (fun r => Some (tr_requester r, tr_key r)) t.

(** Migrations 4 and 6. *)
Definition outbox_checks (r : OutboxRow) : Prop :=
  validEventType (ob_type r) = true /\ 0 < ob_version r /\
  validAggregateType (ob_aggregate_type r) = true /\ 0 < ob_aggregate_version r /\
  len (ob_payload r) <= 65536 /\ 0 <= ob_attempts r /\
  (ob_claimed_by r = None <-> ob_claimed_until r = None) /\
  (ob_published_at r = None \/ ob_claimed_by r = None /\ ob_claimed_until r = None) /\
  nullable (fun e => 1 <= len e /\ len e <= 1024) (ob_last_error r) /\
  instant (ob_created_at r) <= instant (ob_available_at r) /\
  nullable (fun t => instant (ob_created_at r) <= instant t) (ob_published_at r).

Definition outbox_ok (sequence : Z) (t : gmap UUID OutboxRow) : Prop :=
  map_Forall (fun _ r => outbox_checks r /\ ob_sequence r <= sequence) t /\
  unique_by (fun r => Some (ob_sequence r)) t /\
  unique_by (fun r => Some (ob_aggregate_type r, ob_aggregate_id r, ob_aggregate_version r, ob_type r, ob_version r)) t.

Definition inbox_ok (t : gmap (string * UUID) InboxRow) : Prop :=
  map_Forall (fun k r => validConsumerName k.1 = true /\ validEventType (ib_type r) = true /\ 0 < ib_version r) t.

(** Migration 7. *)
Definition assessment_key (r : AssessmentRow) : UUID * Z := (as_transfer r, as_version r).

Definition assessments_ok (transfers : gmap UUID TransferRow) (l : list AssessmentRow) : Prop :=
  Forall (fun r =>
    2 <= as_version r /\ visible_check 64 (as_policy r) = true /\ len (as_input r) <= 65536 /\
    (0 <= as_score r /\ as_score r <= 1000) /\ as_decision r ∈ ["approve"; "review"; "decline"] /\
    len (as_signals r) <= 65536 /\ is_Some (transfers !! as_transfer r)) l /\
  NoDup (as_causation <$> l) /\ NoDup (assessment_key <$> l).

(** Migration 9's CHECK in SQL's three-valued logic: [None] is NULL, and a row is
    refused only on FALSE. *)
Definition and3 (a b : option bool) : option bool :=
  match a, b with
  | Some false, _ | _, Some false => Some false
  | Some true, Some true => Some true
  | _, _ => None
  end.

Definition or3 (a b : option bool) : option bool := negb <$> and3 (negb <$> a) (negb <$> b).

Definition transfer_review_cases_decision_check (r : ReviewRow) : option bool :=
  or3
    (Some (bool_decide (rv_status r = "open") && bool_decide (rv_decision r = None) &&
           bool_decide (rv_decided_by r = None) && bool_decide (rv_decided_at r = None)))
    (and3 (Some (bool_decide (rv_status r ∈ ["approved"; "declined"])))
       (and3 ((fun d => bool_decide (d = rv_status r)) <$> rv_decision r)
          (and3 (visible_check 128 <$> rv_decided_by r) (Some (negb (bool_decide (rv_decided_at r = None))))))).

(** Migrations 8 and 9.  The decision and the subject of a decided case are stated
    to be there, which the CHECK alone does not enforce ([null_decision_admitted]). *)
Definition reviews_ok (transfers : gmap UUID TransferRow) (assessments : list AssessmentRow) (t : gmap UUID ReviewRow) : Prop :=
  map_Forall (fun id r =>
    2 <= rv_version r /\
    (rv_status r = "open" /\ rv_decision r = None /\ rv_decided_by r = None /\ rv_decided_at r = None \/
     rv_status r ∈ ["approved"; "declined"] /\ rv_decision r = Some (rv_status r) /\ rv_decided_by r <> None /\
     nullable (fun s => visible_check 128 s = true) (rv_decided_by r) /\ rv_decided_at r <> None) /\
    is_Some (transfers !! id) /\ (id, rv_version r) ∈ assessment_key <$> assessments) t.

(** Migration 10. *)
Definition audit_ok (transfers : gmap UUID TransferRow) (l : list AuditRow) : Prop :=
  Forall (fun r =>
    3 <= au_version r /\ au_decision r ∈ ["approved"; "declined"] /\ visible_check 128 (au_subject r) = true /\
    is_Some (transfers !! au_transfer r)) l /\
  NoDup ((fun r => (au_transfer r, au_version r)) <$> l).

(** Migration 11. *)
Definition quarantine_ok (t : gmap (string * string * Z * Z) QuarantineRow) : Prop :=
  map_Forall (fun '(name, topic, partition, offset) r =>
    quarantine_validConsumerName name = true /\ (1 <= len topic /\ len topic <= 249) /\ 0 <= partition /\ 0 <= offset /\
    qu_reason r ∈ ["invalid_envelope"; "unsupported_event_type"] /\ len (qu_excerpt r) <= 65536 /\
    length (qu_sha256 r) = 32%nat /\ 0 <= qu_size r /\ qu_truncated r = (len (qu_excerpt r) <? qu_size r)) t.

Definition schema_ok (d : DB) : Prop :=
  wallets_ok (t_wallets d) /\ accounts_ok (t_wallets d) (t_accounts d) /\ balances_ok (t_accounts d) (t_balances d) /\
  entries_ok (t_entries d) /\ postings_ok (t_entries d) (t_accounts d) (t_postings d) /\ transfers_ok (t_transfers d) /\
  outbox_ok (t_outbox_sequence d) (t_outbox d) /\ inbox_ok (t_inbox d) /\
  assessments_ok (t_transfers d) (t_assessments d) /\ reviews_ok (t_transfers d) (t_assessments d) (t_reviews d) /\
  audit_ok (t_transfers d) (t_audit d) /\ quarantine_ok (t_quarantine d).

(** The rows of [reviews_ok] satisfy the CHECK. *)
Lemma decided_check_true transfers assessments t id r :
  reviews_ok transfers assessments t -> t !! id = Some r -> transfer_review_cases_decision_check r = Some true.
Proof.
  intros Ht Hi. destruct (Ht id r Hi) as (_ & [(E1 & E2 & E3 & E4)|(E1 & E2 & E3 & E4 & E5)] & _).
  - unfold transfer_review_cases_decision_check. rewrite E1, E2, E3, E4. reflexivity.
  - unfold transfer_review_cases_decision_check. destruct (rv_decided_by r) as [s|]; [|done]. cbn in E4.
    rewrite E2. cbn [fmap option_fmap option_map]. rewrite E4, (bool_decide_true (rv_status r ∈ _)),
      (bool_decide_true (rv_status r = rv_status r)), (bool_decide_false (rv_decided_at r = None)) by done.
    by destruct (_ && _).
Qed.

(** But the CHECK passes as well for a case decided by nobody, with no decision:
    the comparisons with NULL are not FALSE. *)
Lemma null_decision_admitted version status opened at_ :
  status ∈ ["approved"; "declined"] ->
  transfer_review_cases_decision_check (mkReviewRow version status opened None None (Some at_)) <> Some false.
Proof.
  intros Hs. unfold transfer_review_cases_decision_check. cbn. rewrite (bool_decide_true (status ∈ _)) by done.
  by destruct (_ && _).
Qed.

#[export] Instance quarantine_ok_dec t : Decision (quarantine_ok t).
Proof. apply map_Forall_dec. intros [[[name topic] partition] offset] r. apply _. Defined.

#[export] Instance schema_ok_dec d : Decision (schema_ok d).
Proof.
  unfold schema_ok, wallets_ok, accounts_ok, balances_ok, entries_ok, postings_ok, transfers_ok, outbox_ok, outbox_checks,
    inbox_ok, assessments_ok, reviews_ok, audit_ok. apply _.
Defined.

End Tables.

(** ** Every statement keeps the schema *)

Section Kept.
Context `{PgLaws}.

(** The refusals of a statement that succeeded, read as what they exclude. *)
Ltac guards E :=
  repeat match type of E with
  | (if ?b then _ else _) = Ok _ => destruct b eqn:?; [done|]
  end.

(** A lookup that found nothing excludes the row. *)
Ltac absent Hj :=
  match goal with
  | HE : existsb _ _ = false |- _ =>
      let Hx := fresh "Hx" in first [pose proof (no_row _ _ _ _ HE Hj) as Hx|pose proof (no_member _ _ _ HE Hj) as Hx];
      cbn in *; try (apply andb_false_iff in Hx as [Hx|Hx]); bool_simpl; solve [congruence]
  end.

(** The tables before the statement, one hypothesis each. *)
Ltac tables H := destruct H as (Hwal & Hacc & Hbal & Hent & Hpos & Htra & Hout & Hinb & Hass & Hrev & Haud & Hqua).

(** The tables the statement does not touch. *)
Ltac others :=
  unfold schema_ok; cbn;
  repeat match goal with |- _ /\ _ => split; [try assumption|] end; try assumption.

(** *** Rows added keep the references into their table *)

Definition grows {A} (t t' : gmap UUID A) : Prop := forall i, is_Some (t !! i) -> is_Some (t' !! i).

Lemma grows_insert {A} (t : gmap UUID A) i r : grows t (<[i := r]> t).
Proof. intros j Hj. apply lookup_insert_is_Some'. by right. Qed.

Lemma extends_insert {A B} (f : A -> B) (t : gmap UUID A) i r j b :
  t !! i = None -> f <$> t !! j = Some b -> f <$> <[i := r]> t !! j = Some b.
Proof. intros Hi Hj. rewrite lookup_insert_ne; [done|]. intros ->. by rewrite Hi in Hj. Qed.

Lemma accounts_grow w w' t : grows w w' -> accounts_ok w t -> accounts_ok w' t.
Proof. intros Hg [Ha Hu]. split; [|done]. intros i r Hi. destruct (Ha i r Hi) as (? & ? & ? & ?). split_and!; eauto. Qed.

Lemma balances_grow accounts i r t : accounts !! i = None -> balances_ok accounts t -> balances_ok (<[i := r]> accounts) t.
Proof.
  intros Hi Hb a b Ha. destruct (Hb a b Ha) as (? & ? & ? & ? & ?). split_and!; [done..|]. by apply extends_insert.
Qed.

Lemma postings_grow_accounts entries accounts i r l :
  accounts !! i = None -> postings_ok entries accounts l -> postings_ok entries (<[i := r]> accounts) l.
Proof.
  intros Hi [Hp Hn]. split; [|done]. eapply list.Forall_impl; [exact Hp|]. intros p Hrow. destruct_and! Hrow.
  split_and!; try assumption; by apply extends_insert.
Qed.

Lemma postings_grow_entries e e' accounts l : grows e e' -> postings_ok e accounts l -> postings_ok e' accounts l.
Proof.
  intros Hg [Hp Hn]. split; [|done]. eapply list.Forall_impl; [exact Hp|]. intros p Hrow. destruct_and! Hrow.
  split_and!; try assumption; by apply Hg.
Qed.

Lemma assessments_grow t t' l : grows t t' -> assessments_ok t l -> assessments_ok t' l.
Proof.
  intros Hg [Hp Hn]. split; [|done]. eapply list.Forall_impl; [exact Hp|]. intros p Hrow. destruct_and! Hrow.
  split_and!; try assumption; by apply Hg.
Qed.

Lemma reviews_grow t t' l l' rs :
  grows t t' -> (forall k, k ∈ assessment_key <$> l -> k ∈ assessment_key <$> l') -> reviews_ok t l rs -> reviews_ok t' l' rs.
Proof. intros Hg Hl Hr i r Hi. destruct (Hr i r Hi) as (? & ? & ? & ?). split_and!; auto. Qed.

Lemma audit_grow t t' l : grows t t' -> audit_ok t l -> audit_ok t' l.
Proof.
  intros Hg [Hp Hn]. split; [|done]. eapply list.Forall_impl; [exact Hp|]. intros p Hrow. destruct_and! Hrow. split_and!; try assumption; by apply Hg.
Qed.

(** *** Wallets and accounts *)

Lemma wallet_kept owner : stmt_keeps schema_ok (insertWalletQuery owner).
Proof.
  intros s n now d a d' E Hs. tables Hs. unfold insertWalletQuery in E. guards E. injection E as _ <-. others.
  - apply map_Forall_insert_2; [|done]. cbn. split; [set_solver|lia].
  - eapply accounts_grow, Hacc; apply grows_insert.
Qed.

Lemma account_kept wallet code : stmt_keeps schema_ok (insertAccountQuery wallet code).
Proof.
  intros s n now d a d' E Hs. tables Hs. unfold insertAccountQuery in E. destruct (uuid_scan wallet) as [w|]; [|done].
  guards E. injection E as _ <-. bool_simpl. others.
  - destruct Hacc as [Ha Hu]. split.
    + apply map_Forall_insert_2; [|done]. cbn. split_and!; [done|set_solver..|done].
    + apply unique_by_insert; [done|]. intros j r Hj _ [= E1 E2]. cbn in E1, E2.
      absent Hj.
  - apply map_Forall_insert_2; [|by apply balances_grow]. cbn. rewrite lookup_insert_eq. split_and!; [done|set_solver|lia|by right; lia|done].
  - by apply postings_grow_accounts.
Qed.

(** *** The ledger *)

Lemma entry_kept id ty reverses at_ now d a d' :
  insertJournalEntryQuery id ty reverses at_ now d = Ok (a, d') -> schema_ok d -> schema_ok d'.
Proof.
  intros E Hs. tables Hs. unfold insertJournalEntryQuery in E. cbv zeta in E. guards E. injection E as _ <-. bool_simpl. others.
  - destruct Hent as [Hr Hu]. split.
    + apply map_Forall_insert_2.
      * cbn. split.
        { match goal with HS : _ || _ = true |- _ => apply orb_true_iff in HS as [HS|HS] end; bool_simpl; [by left|].
          right. destruct reverses; [|done]. bool_simpl. split_and!; [done|done|congruence]. }
        destruct reverses as [source|]; [|done]. cbn. bool_simpl. apply grows_insert. by apply not_eq_None_Some.
      * intros i r Hi. destruct (Hr i r Hi) as [? Hf]. split; [done|].
        destruct (ent_reverses r); [|done]. cbn in *. by apply grows_insert.
    + apply unique_by_insert; [done|]. intros j r Hj Hn Er. cbn in Er, Hn.
      destruct reverses as [source|]; [|done]. cbv iota in *. absent Hj.
  - eapply postings_grow_entries, Hpos. apply grows_insert.
Qed.

Lemma posting_kept entry position account currency units now d a d' :
  insertPostingQuery entry position account currency units now d = Ok (a, d') -> schema_ok d -> schema_ok d'.
Proof.
  intros E Hs. tables Hs. unfold insertPostingQuery in E. guards E. injection E as _ <-. bool_simpl. others.
  destruct Hpos as [Hr Hn]. split.
  - apply Forall_snoc; [done|]. cbn. destruct (t_accounts d !! account) as [acc|]; [|done]. bool_simpl.
    split_and!; try done. + by apply not_eq_None_Some. + cbn. by f_equal.
  - apply nodup_snoc; [done|]. intros y Hy [= E1 E2]. absent Hy.
Qed.

Lemma balance_kept account balance version now d a d' :
  updateBalanceQuery account balance version now d = Ok (a, d') -> schema_ok d -> schema_ok d'.
Proof.
  intros E Hs. unfold updateBalanceQuery in E. destruct (t_balances d !! account) as [row|] eqn:Hrow; [|by injection E as _ <-].
  tables Hs. guards E. injection E as _ <-. others. destruct (Hbal _ _ Hrow) as (? & ? & ? & ? & ?).
  apply map_Forall_insert_2; [|done]. cbn. split_and!; try done; [by bool_simpl|].
  destruct (bool_decide (bal_type row = "system")) eqn:Ht; bool_simpl; [by left|right; cbn in *; bool_simpl; done].
Qed.

(** *** Transfers *)

(** A transfer added or changed in place. *)
Lemma transfer_put_kept id r d :
  is_ok (transfer_checks id r) = true -> unique_by (fun r => Some (tr_requester r, tr_key r)) (<[id := r]> (t_transfers d)) ->
  schema_ok d -> schema_ok (set_transfers (insert id r) d).
Proof.
  intros Hc Hu Hs. tables Hs. others.
  - split; [|done]. apply map_Forall_insert_2; [done|]. apply Htra.
  - eapply assessments_grow, Hass. apply grows_insert.
  - eapply reviews_grow, Hrev; [apply grows_insert|done].
  - eapply audit_grow, Haud. apply grows_insert.
Qed.

Lemma transfer_kept id r now d a d' : insert_transfer_row id r now d = Ok (a, d') -> schema_ok d -> schema_ok d'.
Proof.
  intros E Hs. unfold insert_transfer_row in E. destruct (transfer_checks id r) as [u|] eqn:Hc; [|done].
  destruct (transfer_by_key _ _ _) eqn:Hk; [by injection E as _ <-|]. guards E. injection E as _ <-.
  apply transfer_put_kept; [by rewrite Hc| |done]. apply unique_by_insert; [apply Hs|].
  intros j r' Hj _ [= E1 E2]. apply transfer_by_key_None in Hk. by destruct (Hk j r' Hj).
Qed.

(** An UPDATE that keeps the requester and the key. *)
Lemma update_kept id from version change now d a d' :
  (forall r, tr_requester (change r) = tr_requester r /\ tr_key (change r) = tr_key r) ->
  update_transfer id from version change now d = Ok (a, d') -> schema_ok d -> schema_ok d'.
Proof.
  intros Hkey E Hs. unfold update_transfer in E. destruct (uuid_scan id) as [i|]; [|done].
  destruct (t_transfers d !! i) as [r|] eqn:Hr; [|by injection E as _ <-]. destruct (negb _); [by injection E as _ <-|].
  destruct (transfer_checks i (change r)) as [u|] eqn:Hc; [|done]. injection E as _ <-.
  apply transfer_put_kept; [by rewrite Hc| |done]. destruct (Hkey r) as [E1 E2].
  eapply unique_by_update; [apply Hs|exact Hr|by rewrite E1, E2].
Qed.

Lemma assessment_kept id version causation policy input score decision signals at_ now d a d' :
  insertRiskAssessmentQuery id version causation policy input score decision signals at_ now d = Ok (a, d') ->
  schema_ok d -> schema_ok d'.
Proof.
  intros E Hs. tables Hs. unfold insertRiskAssessmentQuery in E. destruct (uuid_scan id) as [i|]; [|done].
  destruct (stored_json input) as [input'|]; [|done]. destruct (stored_json signals) as [signals'|]; [|done].
  guards E. injection E as _ <-. bool_simpl. others.
  - destruct Hass as (Hr & Hn1 & Hn2). split_and!.
    + apply Forall_snoc; [done|]. cbn. split_and!; try done. by apply not_eq_None_Some.
    + apply nodup_snoc; [done|]. intros y Hy Ey. absent Hy.
    + apply nodup_snoc; [done|]. intros y Hy [= E1 E2]. absent Hy.
  - eapply reviews_grow, Hrev; [by intros ? ?|]. intros k Hk. rewrite fmap_app. apply elem_of_app. by left.
Qed.

Lemma case_kept id version at_ now d a d' : insertReviewCaseQuery id version at_ now d = Ok (a, d') -> schema_ok d -> schema_ok d'.
Proof.
  intros E Hs. tables Hs. unfold insertReviewCaseQuery in E. destruct (uuid_scan id) as [i|]; [|done].
  guards E. injection E as _ <-. bool_simpl. others. apply map_Forall_insert_2; [|done]. cbn.
  match goal with HE : existsb _ _ = true |- _ => apply existsb_exists in HE as (x & Hx%list_elem_of_In & ?) end. bool_simpl.
  split_and!; [done|by left| |].
  - destruct Hass as [Hr _]. rewrite list.Forall_forall in Hr. destruct (Hr x Hx) as (_ & _ & _ & _ & _ & _ & Ht). by subst.
  - apply list_elem_of_fmap. exists x. split; [|done]. unfold assessment_key. by subst.
Qed.

Lemma verdict_kept id decision subject at_ now d a d' :
  decideReviewCaseQuery id decision subject at_ now d = Ok (a, d') -> schema_ok d -> schema_ok d'.
Proof.
  intros E Hs. unfold decideReviewCaseQuery in E. destruct (uuid_scan id) as [i|]; [|done].
  destruct (t_reviews d !! i) as [r|] eqn:Hr; [|by injection E as _ <-]. destruct (negb (bool_decide _)); [by injection E as _ <-|].
  tables Hs. guards E. injection E as _ <-. bool_simpl. others. destruct (Hrev _ _ Hr) as (? & _ & ? & ?).
  apply map_Forall_insert_2; [|done]. cbn. split_and!; try done. right. split_and!; try done.
  match goal with HD : _ || _ = true |- _ => apply orb_true_iff in HD as [HD|HD] end; bool_simpl; set_solver.
Qed.

Lemma audit_kept id version decision subject at_ now d a d' :
  insertReviewDecisionQuery id version decision subject at_ now d = Ok (a, d') -> schema_ok d -> schema_ok d'.
Proof.
  intros E Hs. tables Hs. unfold insertReviewDecisionQuery in E. destruct (uuid_scan id) as [i|]; [|done].
  guards E. injection E as _ <-. bool_simpl. others. destruct Haud as [Hr Hn]. split.
  - apply Forall_snoc; [done|]. cbn. split_and!; try done. by apply not_eq_None_Some.
  - apply nodup_snoc; [done|]. intros y Hy [= E1 E2]. absent Hy.
Qed.

(** *** Events *)

Lemma event_kept e : stmt_keeps schema_ok (insertEventQuery e).
Proof.
  intros s n now d a d' E Hs. tables Hs. unfold insertEventQuery in E. destruct (stored_json _) as [stored|]; [|done].
  destruct (outbox_row _ _ _ _) as [row|] eqn:Hrow; [|done]. cbv zeta in E. guards E. injection E as _ <-. bool_simpl. others.
  unfold outbox_row in Hrow. destruct (uuid_scan (aggregateID e)), (uuid_scan (correlationID e)), (scan_optional (nullableString (causationID e))); try done.
  injection Hrow as <-. destruct Hout as (Hr & Hu1 & Hu2). split_and!.
  - apply map_Forall_insert_2.
    + unfold outbox_checks. cbn. split; [|lia]. unfold maxPayloadBytes in *. split_and!; try done; try lia. by left.
    + intros i r Hi. destruct (Hr i r Hi). split; [done|lia].
  - apply unique_by_insert; [done|]. intros j r Hj _ [= Eq]. destruct (Hr j r Hj). cbn in Eq. lia.
  - apply unique_by_insert; [done|]. intros j r Hj _ [= E1 E2 E3 E4 E5]. cbn in *. exfalso.
    match goal with HE : existsb _ _ = false |- _ => pose proof (no_row _ _ _ _ HE Hj) as Hx end. cbn in Hx.
    unfold same_event in Hx. cbn in Hx. rewrite <- E1, <- E2, <- E3, <- E4, <- E5 in Hx.
    by rewrite !bool_decide_true, !Z.eqb_refl in Hx.
Qed.

(** A stored event changed in place, its identity kept. *)
Lemma outbox_change_kept (f : UUID -> OutboxRow -> OutboxRow) sequence t :
  (forall i r, t !! i = Some r -> outbox_checks r -> outbox_checks (f i r)) ->
  (forall i r, ob_sequence (f i r) = ob_sequence r /\ ob_aggregate_type (f i r) = ob_aggregate_type r /\
     ob_aggregate_id (f i r) = ob_aggregate_id r /\ ob_aggregate_version (f i r) = ob_aggregate_version r /\
     ob_type (f i r) = ob_type r /\ ob_version (f i r) = ob_version r) ->
  outbox_ok sequence t -> outbox_ok sequence (map_imap (fun i r => Some (f i r)) t).
Proof.
  intros Hc Hf (Hr & Hu1 & Hu2). split_and!.
  - apply map_Forall_map; [|exact Hr]. intros i r Hi [? ?]. destruct (Hf i r) as (E & _). rewrite E. split; [by apply Hc|done].
  - apply unique_by_map; [|done]. intros i r. by destruct (Hf i r) as (-> & _).
  - apply unique_by_map; [|done]. intros i r. by destruct (Hf i r) as (_ & -> & -> & -> & -> & ->).
Qed.

Lemma outbox_put_kept id r0 r sequence t :
  t !! id = Some r0 -> outbox_checks r -> ob_sequence r = ob_sequence r0 ->
  (ob_aggregate_type r, ob_aggregate_id r, ob_aggregate_version r, ob_type r, ob_version r) =
  (ob_aggregate_type r0, ob_aggregate_id r0, ob_aggregate_version r0, ob_type r0, ob_version r0) ->
  outbox_ok sequence t -> outbox_ok sequence (<[id := r]> t).
Proof.
  intros Hi Hc Hs Hk (Hr & Hu1 & Hu2). split_and!.
  - apply map_Forall_insert_2; [|done]. split; [done|]. rewrite Hs. by destruct (Hr id r0 Hi).
  - eapply unique_by_update; [done|exact Hi|by rewrite Hs].
  - eapply unique_by_update; [done|exact Hi|by rewrite Hk].
Qed.

Lemma claim_kept locked limit token secs now d a d' :
  claimEventsQuery locked limit token secs now d = Ok (a, d') -> schema_ok d -> schema_ok d'.
Proof.
  intros E Hs. tables Hs. unfold claimEventsQuery in E. destruct (uuid_scan token) as [u|]; [|done].
  cbv zeta in E. injection E as _ <-. others. apply outbox_change_kept; [| |done].
  - intros i r Hi Hc. case_decide as Hin; [|done].
    assert (Hp : ob_published_at r = None).
    { apply list_elem_of_fmap in Hin as ([j r'] & -> & Hin). unfold candidates in Hin. cbn in Hi.
      apply elem_of_take in Hin as (n & Hn%list_elem_of_lookup_2 & _). rewrite merge_sort_Permutation in Hn.
      apply list_elem_of_filter in Hn as [[Hel _] Hj%elem_of_map_to_list]. rewrite Hi in Hj. injection Hj as ->.
      unfold eligible in Hel. bool_simpl. done. }
    destruct Hc as (? & ? & ? & ? & ? & ? & ? & ? & ? & ? & ?). unfold outbox_checks. cbn. rewrite Hp. split_and!; try done. by left.
  - intros i r. by case_decide.
Qed.

Lemma published_kept id token now d a d' : markPublishedQuery id token now d = Ok (a, d') -> schema_ok d -> schema_ok d'.
Proof.
  intros E Hs. unfold markPublishedQuery in E. destruct (t_outbox d !! id) as [r|] eqn:Hr; [|by injection E as _ <-].
  destruct (negb (held token r)); [by injection E as _ <-|]. tables Hs. guards E. injection E as _ <-. bool_simpl. others.
  eapply outbox_put_kept; [exact Hr| |done|done|done].
  destruct Hout as [Hc _]. destruct (Hc id r Hr) as [(? & ? & ? & ? & ? & ? & ? & ? & ? & ? & ?) _].
  unfold outbox_checks. cbn. split_and!; try done. by right.
Qed.

Lemma released_kept id token secs diagnostic now d a d' :
  markFailedQuery id token secs diagnostic now d = Ok (a, d') -> schema_ok d -> schema_ok d'.
Proof.
  intros E Hs. unfold markFailedQuery in E. destruct (t_outbox d !! id) as [r|] eqn:Hr; [|by injection E as _ <-].
  destruct (negb (held token r)); [by injection E as _ <-|]. tables Hs. guards E. injection E as _ <-. bool_simpl. others.
  eapply outbox_put_kept; [exact Hr| |done|done|done].
  destruct Hout as [Hc _]. destruct (Hc id r Hr) as [(? & ? & ? & ? & ? & ? & ? & ? & ? & ? & ?) _].
  unfold outbox_checks. cbn in *. unfold MaxInt32. split_and!; try done; try lia. by right.
Qed.

Lemma inbox_kept name id ty version now d a d' :
  insertInboxQuery name id ty version now d = Ok (a, d') -> schema_ok d -> schema_ok d'.
Proof.
  intros E Hs. unfold insertInboxQuery in E. destruct (uuid_scan id) as [i|]; [|done]. guards E.
  destruct (t_inbox d !! (name, i)); injection E as _ <-; [done|]. tables Hs. bool_simpl. others.
  apply map_Forall_insert_2; [|done]. by split_and!.
Qed.

Lemma quarantine_kept record excerpt hash size truncated now d a d' :
  insertQuarantineQuery record excerpt hash size truncated now d = Ok (a, d') -> schema_ok d -> schema_ok d'.
Proof.
  intros E Hs. unfold insertQuarantineQuery in E. destruct excerpt as [excerpt|]; [|done]. guards E. destruct (t_quarantine d !! _); injection E as _ <-; [done|].
  tables Hs. bool_simpl. others. apply map_Forall_insert_2; [|done]. cbn.
  match goal with HR : _ || _ = true |- _ => apply orb_true_iff in HR end.
  match goal with HT : Bool.eqb _ _ = true |- _ => apply Bool.eqb_prop in HT end.
  split_and!; try done. destruct_or!; bool_simpl; set_solver.
Qed.

#[export] Instance schema_kept : StatementInvariant schema_ok.
Proof.
  split.
  - apply wallet_kept.
  - apply account_kept.
  - apply entry_kept.
  - apply posting_kept.
  - apply balance_kept.
  - apply transfer_kept.
  - intros id from version to next now d a d'. by apply update_kept.
  - intros id from version to next journal failure now d a d'. by apply update_kept.
  - apply event_kept.
  - apply inbox_kept.
  - apply assessment_kept.
  - apply case_kept.
  - apply verdict_kept.
  - apply audit_kept.
  - apply quarantine_kept.
  - apply claim_kept.
  - apply published_kept.
  - apply released_kept.
Qed.

End Kept.
