(* ===== verification/SchemaTheorems.v ===== *)
(** * The schema is respected

    The tables of every run satisfy every constraint of the migrations, immediate
    and deferred: the composition of [Schema.schema_kept] (each statement),
    [Statements.run_keeps] (each step of the system) and [Ready.deferred_sound]
    (the constraints checked at commit). *)

From stdpp Require Import base list gmap strings numbers relations sorting.
From Stdlib Require Import ZArith Lia.
From S2P Require Import Prelude GoText Money Journal TransferDomain Database PgInstance LedgerRepo LedgerTheorems.
From S2P Require Import System Ready Scenario Statements Schema.

Open Scope string_scope.
Open Scope Z_scope.

(** From tables that meet the schema of the migrations, every run of the system
    (posting, transfers, acceptance, assessment, completion, review decisions,
    wallets, quarantine and outbox claims in any order, under any faults, retries
    and lost commits) leaves tables that meet it: every CHECK, UNIQUE and FOREIGN
    KEY constraint of migrations 1 to 11, the deferred ones included.  The checks
    the code makes before a statement and those the statements make keep the
    schema together; no path of the program writes a row it forbids. *)
Theorem schema_respected `{PgLaws} w0 w : initial (committed w0) -> schema_ok (committed w0) -> run w0 w ->
  schema_ok (committed w) /\ deferred_ok (committed w) = true.
Proof.
  intros Hi Hs HR. split; [by eapply (run_keeps schema_ok)|].
  assert (Hr : reachable w) by by exists w0. apply deferred_sound; [by apply reachable_inv|by apply reachable_ready].
Qed.

(** The opening tables of the scenario meet the schema. *)
Lemma opening_schema : bool_decide (schema_ok openingDB) = true.
Proof. vm_compute. reflexivity. Qed.

Lemma schema_respected_witness :
  schema_ok (committed after_direct) /\ deferred_ok (committed after_direct) = true.
Proof.
  exact (schema_respected opening after_direct opening_initial (proj1 (bool_decide_eq_true _) opening_schema) run_from_opening).
Defined.
