(* ===== verification/Guards.v ===== *)
(** * The checks of the code are those of the schema

    Every repository and worker validates what it writes before the database
    checks it again with the CHECK constraints of the migrations.  This file shows
    that the validation is enough: whatever an operation reports, it never reports
    a violated CHECK, except where the code leaves the matter to the server (its
    clock) and in one case that it overlooks. *)

From stdpp Require Import base list gmap strings numbers relations sorting.
From Stdlib Require Import ZArith Lia.
From S2P Require Import OutboxRepo OutboxTheorems WalletRepo WalletTheorems Quarantine.
From S2P Require Import RiskWorker TransactionWorker ReviewCase.
From S2P Require Import Prelude GoText Sha256 Money Journal TransferDomain RiskPolicy Json JsonDecode GoTime Event.
From S2P Require Import TransferEvents EventParse Database PgInstance LedgerRepo LedgerSpec LedgerCorrect LedgerTheorems.
From S2P Require Import Outbox Inbox TransferRepo TransferSpec TransferStore StoreSpec AuditWriter WorkerSpec System Ready Jsonb.
From S2P Require Import Progress Liveness Scenario Statements Refusals Schema SchemaTheorems.

Open Scope string_scope.
Open Scope Z_scope.

(** ** The statements *)

Section Guards.
Context `{PgLaws} `{!JsonbLaws} (X : string -> Prop).

(** Tables that meet the schema, with numbers in the range of their columns. *)
Record sound_tables (d : DB) : Prop := {
  st_schema : schema_ok d;
  st_balances : balances_typed d;
  st_transfers id r : t_transfers d !! id = Some r -> in_int64 (tr_amount r) /\ in_int64 (tr_version r)
}.

Lemma sound_frame d d' : sound_tables d -> schema_ok d' -> t_balances d' = t_balances d -> t_transfers d' = t_transfers d -> sound_tables d'.
Proof.
  intros [_ Hb Ht] Hs Eb Et. split; [done|by unfold balances_typed; rewrite Eb|]. intros id r. rewrite Et. apply Ht.
Qed.

Lemma sound_put d d' id r : sound_tables d -> schema_ok d' -> t_balances d' = t_balances d ->
  t_transfers d' = <[id := r]> (t_transfers d) -> in_int64 (tr_amount r) -> in_int64 (tr_version r) -> sound_tables d'.
Proof.
  intros [_ Hb Ht] Hs Eb Et Ha Hv. split; [done|by unfold balances_typed; rewrite Eb|]. intros id' r'. rewrite Et.
  intros [[_ <-]|[_ Hr]]%lookup_insert_Some; [done|by eapply Ht].
Qed.

Abbreviation holds := (holds sound_tables X).
Abbreviation clean := (clean X).
Abbreviation any := (fun _ _ => True).
Abbreviation always := (fun _ => True).

(** A predicate of the balances alone. *)
Definition of_balances (P : DB -> Prop) : Prop := forall d d', t_balances d' = t_balances d -> P d -> P d'.

(** The refusals of a failed statement: those that are no CHECK, and the others,
    each to be excluded. *)
Ltac refusals E :=
  lazymatch type of E with
  | (if ?b then Err _ else _) = Err _ =>
      let Hb := fresh "Hb" in destruct b eqn:Hb; [injection E as <-; first [by apply clean_other|exfalso]|refusals E]
  | (match ?x with Some _ => _ | None => Err _ end) = Err _ =>
      let Hx := fresh "Hx" in destruct x eqn:Hx; [refusals E|injection E as <-; by apply clean_other]
  | (match ?x with Some _ => Ok _ | None => _ end) = Err _ => destruct x; [discriminate E|refusals E]
  | Ok _ = Err _ => discriminate E
  | _ => idtac
  end.

(** What a successful statement leaves of the other tables. *)
Ltac untouched E :=
  repeat match type of E with
  | (if ?b then _ else _) = Ok _ => destruct b eqn:?; try done
  | (match ?x with _ => _ end) = Ok _ => destruct x eqn:?; try done
  end; injection E; intros; subst; repeat split.

(** The refusals that a successful statement has passed. *)
Ltac passed E := repeat match type of E with (if ?b then Err _ else _) = Ok _ => destruct b eqn:?; [done|] end.

Lemma wallet_guarded owner P : holds P (stmt (insertWalletQuery owner)) any.
Proof.
  apply holds_stmt. intros s n now d Hd _. destruct (insertWalletQuery owner s n now d) as [[a d']|e] eqn:E.
  - split; [|done]. eapply sound_frame; [done|eapply wallet_kept; [exact E|apply Hd]|..]; unfold insertWalletQuery in E; untouched E.
  - unfold insertWalletQuery in E. refusals E.
Qed.

Lemma account_guarded wallet code P : currency_check code = true -> holds P (stmt (insertAccountQuery wallet code)) any.
Proof.
  intros Hc. apply holds_stmt. intros s n now d Hd _. destruct (insertAccountQuery wallet code s n now d) as [[a d']|e] eqn:E.
  - split; [|done]. pose proof (account_kept _ _ _ _ _ _ _ _ E (st_schema _ Hd)) as Hs.
    unfold insertAccountQuery in E. destruct (uuid_scan wallet); [|done]. passed E. injection E as _ <-.
    split; [done| |apply Hd]. apply map_Forall_insert_2; [cbn; split; [int64_lia|unfold MaxInt64; lia]|apply Hd].
  - unfold insertAccountQuery in E. refusals E. by rewrite Hc in *.
Qed.

Lemma entry_guarded prepared P : prepared_wf prepared -> of_balances P -> holds P (insertEntry prepared) (fun _ => P).
Proof.
  intros Hw HP. rewrite insertEntry_eq by done. apply holds_exec. intros now d Hd Hp. pose proof (pw_shape _ Hw) as Hshape.
  destruct (insertJournalEntryQuery _ _ _ _ now d) as [[a d']|e] eqn:E.
  - assert (Hf : t_balances d' = t_balances d /\ t_transfers d' = t_transfers d).
    { unfold insertJournalEntryQuery in E. cbv zeta in E. untouched E. }
    split; [|exact (HP d d' (proj1 Hf) Hp)]. eapply sound_frame; [done|eapply entry_kept; [exact E|apply Hd]|apply Hf..].
  - unfold insertJournalEntryQuery in E. cbv zeta in E. refusals E. destruct (reversesID prepared) as [source|]; [|done].
    destruct Hshape as [_ Hne]. by rewrite (bool_decide_eq_false_2 (source = _)) in Hb.
Qed.

Lemma posting_guarded id index p P :
  pp_wf p -> 0 <= index <= 1023 -> of_balances P ->
  holds P (exec (insertPostingQuery id index (pp_accountID p) (currency_String (pp_currency p)) (pp_amount p))) (fun _ => P).
Proof.
  intros (Hc & _ & Hz & Hm) Hi HP. apply holds_exec. intros now d Hd Hp.
  destruct (insertPostingQuery _ _ _ _ _ now d) as [[a d']|e] eqn:E.
  - assert (Hf : t_balances d' = t_balances d /\ t_transfers d' = t_transfers d) by (unfold insertPostingQuery in E; untouched E).
    split; [|exact (HP d d' (proj1 Hf) Hp)]. eapply sound_frame; [done|eapply posting_kept; [exact E|apply Hd]|apply Hf..].
  - unfold insertPostingQuery in E. refusals E; bool_simpl; try lia.
    unfold currency_check in *. by rewrite ParseCurrency_String in *.
Qed.

Lemma batch_guarded id ps index P :
  Forall pp_wf ps -> 0 <= index -> index + Z.of_nat (length ps) <= 1024 -> of_balances P ->
  holds P (insert_batch id index ps) (fun _ => P).
Proof.
  intros Hw. revert index. induction Hw as [|p ps Hp _ IH]; intros index Hlo Hhi HP; cbn [insert_batch length] in *; [by apply holds_ret|].
  eapply holds_bind; [|intros u; apply IH; [lia|lia|done]]. apply holds_map_err; [by intros; apply clean_app|].
  apply posting_guarded; [done|lia|done].
Qed.

(** A new balance that its account admits. *)
Definition admitted (d : DB) (c : accountChange) : Prop :=
  in_int64 (newBalance c) /\ 0 <= newVersion c <= MaxInt64 /\
  forall b, t_balances d !! ch_accountID c = Some b -> bal_type b = "system" \/ 0 <= newBalance c.

Lemma balance_guarded c cs :
  holds (fun d => admitted d c /\ Forall (admitted d) cs)
    (exec (updateBalanceQuery (ch_accountID c) (newBalance c) (newVersion c))) (fun _ d => Forall (admitted d) cs).
Proof.
  apply holds_exec. intros now d Hd [(Hb & Hv & Hc) Hcs]. destruct (updateBalanceQuery _ _ _ now d) as [[a d']|e] eqn:E.
  - pose proof (balance_kept _ _ _ _ _ _ _ E (st_schema _ Hd)) as Hs. unfold updateBalanceQuery in E.
    destruct (t_balances d !! ch_accountID c) as [b|] eqn:Eb; [|injection E as _ <-; done]. passed E. injection E as _ <-.
    split.
    + split; [done| |apply Hd]. apply map_Forall_insert_2; [done|apply Hd].
    + eapply Forall_impl; [exact Hcs|]. intros c' (Hb1 & Hv1 & Hc'). split; [done|]. split; [done|].
      cbn. intros b' [[E <-]|[_ Hb']]%lookup_insert_Some; [cbn|by apply Hc']. apply Hc'. by rewrite <- E.
  - unfold updateBalanceQuery in E. destruct (t_balances d !! ch_accountID c) as [b|]; [|done]. specialize (Hc b eq_refl).
    refusals E; [|bool_simpl; lia]. destruct Hc as [Hc|Hc]; [by rewrite (bool_decide_eq_true_2 _ Hc) in Hb0|].
    rewrite (proj2 (Z.leb_le 0 (newBalance c)) Hc), orb_true_r in Hb0. done.
Qed.

Lemma admitted_of_balances cs : of_balances (fun d => Forall (admitted d) cs).
Proof.
  intros d d' E Ha. eapply Forall_impl; [exact Ha|]. intros c (? & ? & Hc). split; [done|]. split; [done|].
  intros b. rewrite E. apply Hc.
Qed.

Lemma lock_guarded prepared P : prepared_wf prepared ->
  holds P (lockAndCalculateBalances (changes prepared)) (fun cs d => Forall (admitted d) cs).
Proof.
  intros [Ha _ _ _ _] s st r st' HR Hg HP.
  assert (Hany : holds P (lockAndCalculateBalances (changes prepared)) any).
  { unfold lockAndCalculateBalances. cbv zeta. apply (holds_then _ _ _ _ always); [by apply holds_query|intros rows _].
    apply holds_let; [auto with pure|]. intros [cs locked] _. apply holds_lift; [pure|done]. }
  destruct (Hany _ _ _ _ HR Hg HP) as [Hg' Ho]. split; [done|]. destruct r as [cs|e]; [|done]. cbn.
  apply lock_Ok in HR as [-> HF]; [|apply Ha|by eapply aggregates_typed|exact (st_balances _ (proj1 Hg))]. cbn.
  apply Forall_forall. intros c' Hc'. apply list_elem_of_lookup in Hc' as [i Hi].
  destruct (Forall2_lookup_r _ _ _ _ _ HF Hi) as (c & _ & b & Hb & (_ & Hin & Hty & Hver) & ->).
  destruct (st_balances _ (proj1 Hg) _ _ Hb) as [_ ?]. split; [done|]. split; [cbn; lia|]. cbn.
  rewrite Hb. intros ? [= <-]. destruct Hty as [[_ ?]|?]; [by right|by left].
Qed.

Lemma balances_guarded cs : holds (fun d => Forall (admitted d) cs) (updateBalances cs) any.
Proof.
  induction cs as [|c cs IH]; cbn [updateBalances]; [by apply holds_ret|].
  eapply holds_bind; [eapply holds_conseq; [apply (balance_guarded c cs)| |done]; by intros d Ha%Forall_cons|].
  intros n. apply holds_let; [pure|]. intros _ _. exact IH.
Qed.

Lemma select_guarded source P : holds P (selectEntry source) any.
Proof.
  unfold selectEntry. apply (holds_then _ _ _ _ always); [by apply holds_query|]. intros record _. apply holds_lift; [pure|done].
Qed.

Lemma source_guarded prepared source P : holds P (validatePersistedReversal prepared source) any.
Proof.
  unfold validatePersistedReversal, LedgerRepo.selectPostings.
  apply (holds_then _ _ _ _ always); [apply select_guarded|intros _ _]. apply (holds_then _ _ _ _ always).
  - apply (holds_then _ _ _ _ always); [by apply holds_query|]. intros rows _. apply holds_lift; [auto with pure|done].
  - intros ps _. apply (holds_then _ _ _ _ always); [by apply holds_query|]. intros b _. apply holds_lift; [pure|done].
Qed.

Lemma prepared_guarded prepared P : prepared_wf prepared -> holds P (postPrepared prepared) any.
Proof.
  intros Hw. unfold postPrepared. apply (holds_then _ _ _ _ always).
  { destruct (reversesID prepared) as [source|]; [apply source_guarded|by apply holds_ret]. }
  intros _ _. eapply holds_bind; [by apply lock_guarded|]. intros cs.
  eapply holds_bind; [apply entry_guarded; [done|apply admitted_of_balances]|]. intros ?.
  eapply holds_bind; [apply batch_guarded; [apply Hw|lia|pose proof (pw_count _ Hw); lia|apply admitted_of_balances]|].
  intros ?. apply balances_guarded.
Qed.

Lemma classify_post_clean e : clean e -> clean (classifyPostError e).
Proof. unfold classifyPostError. repeat case_match; try done; by apply clean_cons. Qed.

Lemma PostTx_guarded e P : entry_typed e -> holds P (PostTx e) any.
Proof.
  intros Ht. unfold PostTx. apply holds_let; [auto with pure|]. intros p [Hw _]%prepareEntry_Ok; [|done].
  apply holds_map_err; [apply classify_post_clean|by apply prepared_guarded].
Qed.

(** *** Transfers *)

Lemma row_guarded id r P :
  transfer_checks id r = Ok tt -> in_int64 (tr_amount r) -> in_int64 (tr_version r) -> holds P (exec (insert_transfer_row id r)) any.
Proof.
  intros Hc Ha Hv. apply holds_exec. intros now d Hd _. destruct (insert_transfer_row id r now d) as [[b d']|e] eqn:E.
  - pose proof (transfer_kept _ _ _ _ _ _ E (st_schema _ Hd)) as Hs. split; [|done].
    apply insert_transfer_row_Ok in E as [_ E]. destruct b; [|by destruct E as [_ ->]]. destruct E as (_ & _ & ->).
    by eapply sound_put.
  - unfold insert_transfer_row in E. rewrite Hc in E. refusals E.
Qed.

(** What a valid transfer gives of the checks on its row. *)
Lemma order_guarded t id requester source destination r :
  transfer_wf t -> ids_of t id requester source destination -> tr_source r = source -> tr_destination r = destination ->
  tr_amount r = minorUnits (transfer_amount t) -> tr_currency r = currency_String (currency (transfer_amount t)) ->
  tr_key r = idempotencyKey t -> match tr_policy r with Some v => visible_check 64 v = true | None => True end -> order_checks r.
Proof.
  intros Hw Hids <- <- Ea Ec Ek Hp. pose proof (ids_distinct _ _ _ _ _ Hw Hids) as Hne.
  destruct Hw as ((_ & Hkey & _ & _ & _ & _ & Hcur & Hpos & _)%transfer_validate_Ok & _).
  split; [by rewrite Ea|]. split; [unfold currency_check; by rewrite Ec, ParseCurrency_String|]. split; [done|]. split; [|done].
  rewrite Ek. pose proof (validIdempotencyKey_visible _ Hkey) as Hvis. unfold validIdempotencyKey, maxIdempotencyKeyBytes in Hkey.
  destruct (_ || _) eqn:E in Hkey; [done|]. rewrite !orb_false_iff in E. destruct E as [[E1 E2] _]. bool_simpl.
  unfold visible_check. rewrite Hvis. pose proof (len_nonneg (idempotencyKey t)). rewrite <- len_0 in E1. lia.
Qed.

Lemma created_guarded p P :
  transfer_wf (pt_transfer p) -> ids_of (pt_transfer p) (pt_id p) (pt_requesterID p) (pt_sourceID p) (pt_destinationID p) ->
  holds P (reserveTransfer p) any.
Proof.
  intros Hw Hids. apply (row_guarded (pt_id p) (created_row p)); [|apply Hw|done]. apply transfer_checks_Ok. split_and!; try done.
  - by eapply order_guarded.
  - right. right. left. cbn. auto.
Qed.

Lemma pending_guarded p P :
  let l := pq_lifecycle p in
  lifecycle_wf l -> lc_status l = StatusPendingRisk ->
  ids_of (lc_transfer l) (pq_id p) (pq_requesterID p) (pq_sourceID p) (pq_destinationID p) -> holds P (reservePendingTransfer p) any.
Proof.
  intros l Hw Hst Hids. apply (row_guarded (pq_id p) (pending_row p)); [|apply Hw|done]. apply transfer_checks_Ok. split_and!; try done.
  - eapply order_guarded; try done; [apply Hw|]. apply policy_checked, (lifecycle_policy l); [done|]. by rewrite Hst.
  - left. cbn. eauto.
Qed.

(** *** Events and the inbox *)

Lemma NewDraft_sized p d :
  NewDraft p = Ok d -> draft_validate d = Ok tt /\ exists n, postgresJSONBTextSize (payload d) = (n, true) /\ n <= maxPayloadBytes.
Proof.
  unfold NewDraft. destruct (normalizePayload _) as [text|] eqn:En; [|done]. cbv zeta.
  destruct (if bool_decide _ then _ else _); [|done]. destruct (draft_validate _) as [[]|] eqn:Ev; [|done]. intros [= <-].
  split; [done|]. cbn. revert En. unfold normalizePayload. cbv zeta. destruct (_ || _); [done|].
  destruct (json_Compact _) as [compact|]; [|done]. destruct (postgresJSONBTextSize compact) as [n ok] eqn:Es.
  destruct (negb ok || _) eqn:Eg; [done|]. intros [= ->]. apply orb_false_iff in Eg as [Hok Hn].
  destruct ok; [|done]. apply Z.ltb_ge in Hn. by exists n.
Qed.

Lemma AddTx_guarded e P : holds P (AddTx e) any.
Proof.
  unfold AddTx. apply holds_let; [unfold validateDraft; pure|]. intros v Hv. 
  assert (Hd : validateDraft e = Ok v) by by destruct (validateDraft e).
  apply NewDraft_sized in Hd as ((Hty & Hev & Hag & _ & Hver & _)%draft_validate_Ok & n & Hn & Hmax).
  apply (holds_then _ _ _ _ always); [|intros id _; apply holds_lift; [pure|done]].
  apply holds_map_err; [unfold classifyWriteError; intros ? ?; repeat case_match; try done; by apply clean_cons|].
  apply holds_stmt. intros s k now d Hd _. destruct (insertEventQuery v s k now d) as [[a d']|err] eqn:E.
  - split; [|done]. eapply sound_frame; [done|eapply event_kept; [exact E|apply Hd]|..]; unfold insertEventQuery in E; cbv zeta in E; untouched E.
  - unfold insertEventQuery in E. cbv zeta in E. refusals E; try lia; [by rewrite Hag in Hb0|by rewrite Hty in Hb1|].
    pose proof (stored_json_size _ _ _ Hx Hn). lia.
Qed.

Lemma ReserveTx_guarded name env P : validEventType (eventType (draft env)) = true -> holds P (ReserveTx name env) any.
Proof.
  intros Hty. unfold ReserveTx. destruct (validConsumerName name) eqn:En; cbn [negb]; [|apply holds_err; by apply clean_sentinels].
  destruct (_ || _) eqn:Ev; [apply holds_err; by apply clean_sentinels|]. rewrite !orb_false_iff in Ev. destruct Ev as [_ Ev].
  apply (holds_then _ _ _ _ always); [|by intros; apply holds_ret]. apply holds_exec. intros now d Hd _.
  destruct (insertInboxQuery _ _ _ _ now d) as [[a d']|err] eqn:E.
  - split; [|done]. eapply sound_frame; [done|eapply inbox_kept; [exact E|apply Hd]|..]; unfold insertInboxQuery in E; untouched E.
  - unfold insertInboxQuery in E. rewrite En, Hty, Ev in E. refusals E.
Qed.

(** *** Transitions *)

Lemma load_guarded id P : holds P (LoadLifecycleForUpdateTx id) (fun l _ => lifecycle_wf l).
Proof.
  intros s st r st' HR Hg HP.
  assert (Hany : holds P (LoadLifecycleForUpdateTx id) any).
  { unfold LoadLifecycleForUpdateTx. apply holds_let; [pure|intros u _]. apply (holds_then _ _ _ _ always).
    - apply holds_query. intros d _ _. unfold select_by_id. destruct (uuid_scan id); [done|by apply clean_other].
    - intros found _. apply holds_lift; [pure|done]. }
  destruct (Hany _ _ _ _ HR Hg HP) as [Hg' Ho]. split; [done|]. destruct r as [l|e]; [|done]. cbn.
  apply LoadLifecycle_Ok in HR as (i & r & _ & Hr & Hrep & _). destruct (st_transfers _ (proj1 Hg) _ _ Hr). by eapply represents_wf.
Qed.

(** The UPDATE of a transfer whose changed row passes the checks. *)
Lemma update_guarded id from version (change : TransferRow -> TransferRow) P :
  (forall r, tr_requester (change r) = tr_requester r /\ tr_key (change r) = tr_key r /\ tr_amount (change r) = tr_amount r) ->
  (forall r, in_int64 (tr_version (change r))) ->
  (forall i r, uuid_scan id = Some i -> transfer_checks i r = Ok tt -> tr_status r = from -> tr_version r = version ->
     transfer_checks i (change r) = Ok tt) ->
  forall now d, sound_tables d -> P d ->
    match update_transfer id from version change now d with Ok (_, d') => sound_tables d' /\ True | Err e => clean e end.
Proof.
  intros Hkeep Hver Hck now d Hd _. destruct (update_transfer _ _ _ _ now d) as [[n d']|e] eqn:E.
  - assert (Hs : schema_ok d') by (eapply update_kept; [intros r; by destruct (Hkeep r) as (? & ? & _)|exact E|apply Hd]).
    split; [|done]. unfold update_transfer in E. destruct (uuid_scan id) as [i|]; [|done].
    destruct (t_transfers d !! i) as [r|] eqn:Er; [|by injection E as _ <-]. destruct (negb _); [by injection E as _ <-|].
    destruct (transfer_checks i (change r)); [|done]. injection E as _ <-. destruct (st_transfers _ Hd _ _ Er) as [Ha _].
    destruct (Hkeep r) as (_ & _ & Hk). apply (sound_put d _ i (change r)); [done|done|done|done|by rewrite Hk|apply Hver].
  - unfold update_transfer in E. destruct (uuid_scan id) as [i|] eqn:Ei; [|injection E as <-; by apply clean_other].
    destruct (t_transfers d !! i) as [r|] eqn:Er; [|done]. destruct (negb _) eqn:Eg; [done|]. bool_simpl.
    assert (Hr : transfer_checks i r = Ok tt).
    { destruct (st_schema _ Hd) as (_ & _ & _ & _ & _ & [Ht _] & _). specialize (Ht i r Er). cbn in Ht.
      by destruct (transfer_checks i r) as [[]|]. }
    by rewrite (Hck i r) in E.
Qed.

(** A step of the lifecycle, as far as the checks on its row are concerned. *)
Definition follows (current next : Lifecycle) : Prop := exists op,
  lifecycle_wf current /\ allowed (lc_status current) (op_target op) = true /\ op_argument_ok op = true /\
  next = successor op current /\ lifecycle_wf next.

Lemma follows_op current op next : lifecycle_wf current -> apply_op op current = Ok next -> follows current next.
Proof.
  intros Hw Hop. exists op. destruct (apply_op_Ok _ _ _ Hw Hop) as (Hn & Ha & Hnw).
  pose proof (apply_op_argument _ _ _ Hw Hop). exact (conj Hw (conj Ha (conj H2 (conj Hn Hnw)))).
Qed.

Lemma canonical_scan (t : Transfer) i : transfer_wf t -> uuid_scan (transfer_id t) = Some i -> transfer_id t = uuid_text i.
Proof.
  intros ((Hid & _)%transfer_validate_Ok & _) Hi. destruct (uuid_scan_canonical _ Hid) as (u & Hu & Ht). congruence.
Qed.

Lemma transition_guarded current next P : follows current next -> holds P (StoreLifecycleTransitionTx current next) any.
Proof.
  intros (op & Hw & Hal & Harg & -> & Hnw). unfold StoreLifecycleTransitionTx.
  apply (holds_then _ _ _ _ always); [|intros n _; apply holds_lift; [pure|done]].
  apply holds_exec. intros now d Hd Hp. fold (journal_of (successor op current)).
  destruct (journal_of (successor op current)) as [journal|] eqn:Ej; [|by apply clean_other].
  apply (update_guarded _ _ _ _ always); [done|intros r; apply Hnw| |done|done].
  intros i r Hi Hck Hst Hver. pose proof (canonical_scan _ _ (proj1 (proj2 Hw)) Hi) as Hid.
  destruct (successor_checks i r current op) as [Hj Hc]; [done..|].
  rewrite Ej in Hj. injection Hj as ->. exact Hc.
Qed.

(** *** Assessments *)

Lemma Evaluate_verdict policy input ev : Evaluate policy input = Ok ev ->
  input_ok input /\ evaluation_wf ev /\ visible_signals ev /\ decision ev <> DecisionUnknown /\
  visible_check 64 (eval_policyVersion ev) = true.
Proof.
  intros HE. assert (Hp : policy_wf policy).
  { apply policy_validate_Ok. unfold Evaluate in HE. by destruct (policy_validate policy) as [[]|]. }
  assert (Hi : input_ok input).
  { apply dec_stable. intros Hn. unfold Evaluate in HE. rewrite (proj2 (policy_validate_Ok policy) Hp), (input_refused _ Hn) in HE. done. }
  destruct (Evaluate_runs policy input Hp Hi) as (ev' & E & ? & ? & Hv & ?). assert (ev' = ev) as -> by congruence.
  rewrite Hv. split_and!; try done; try apply Hi; try apply policy_checked, Hp; apply H2.
Qed.

(** A pending row with a new status, as the lifecycle writes it. *)
Lemma status_checks id r current op :
  lifecycle_wf current -> transfer_checks id r = Ok tt -> tr_status r = status_String (lc_status current) ->
  lc_status current = StatusPendingRisk -> transfer_id (lc_transfer current) = uuid_text id ->
  allowed (lc_status current) (op_target op) = true -> op_argument_ok op = true ->
  transfer_checks id (with_status (status_String (op_target op)) (lc_version current + 1) r) = Ok tt.
Proof.
  intros Hw Hck Hst Hp Hid Hal Harg. destruct (successor_checks id r current op) as [_ Hc]; [done..|].
  pose proof Hck as (_ & Hsh & _)%transfer_checks_Ok. unfold row_shape in Hsh. rewrite Hst, Hp in Hsh.
  destruct Hsh as [(_ & _ & _ & Ej & Ef)|[[[?|[?|?]] _]|[[? _]|[? _]]]]; [|done..]. rewrite Hp in Hal.
  replace (with_status _ _ r) with (advanced (successor op current) (if decide (op_target op = StatusCompleted) then Some id else None) r); [done|].
  unfold advanced, with_outcome, with_status. rewrite Ej, Ef. by destruct op.
Qed.

Lemma inserted_guarded t version cause policy input score dec sg at_ P :
  (exists v, input = marshal v /\ visible_value v = true /\ depth_of v <= maxNestingDepth /\ len (marshal v) <= 32768) ->
  (exists v, sg = marshal v /\ visible_value v = true /\ depth_of v <= maxNestingDepth /\ len (marshal v) <= 32768) ->
  dec <> DecisionUnknown -> 2 <= version -> visible_check 64 policy = true -> 0 <= score <= 1000 ->
  holds P (exec (insertRiskAssessmentQuery t version cause policy input score (decision_String dec) sg at_)) any.
Proof.
  intros (vi & -> & Hvi & Hdi & Hli) (vs & -> & Hvs & Hds & Hls) Hdec Hver Hpol Hsc. apply holds_exec. intros now d Hd _.
  destruct (document_stored vi) as (si & Esi & Hsi); [done..|]. destruct (document_stored vs) as (ss & Ess & Hss); [done..|].
  unfold maxPayloadBytes in *.
  destruct (insertRiskAssessmentQuery _ _ _ _ _ _ _ _ _ now d) as [[a d']|e] eqn:E.
  - split; [|done]. eapply sound_frame; [done|eapply assessment_kept; [exact E|apply Hd]|..]; unfold insertRiskAssessmentQuery in E; untouched E.
  - unfold insertRiskAssessmentQuery in E. rewrite Esi, Ess in E. destruct (uuid_scan t); [|injection E as <-; by apply clean_other].
    refusals E; try lia; [|by rewrite Hpol in *]. apply negb_true_iff, bool_decide_eq_false in Hb. destruct dec; set_solver.
Qed.

Lemma assessment_guarded policy input ev current next id at_ P :
  lifecycle_wf current -> Evaluate policy input = Ok ev -> RiskWorker.transition current (decision ev) = Ok next ->
  in_Amount input = transfer_amount (lc_transfer current) -> in_int64 (VelocityTransferCount input) ->
  holds P (StoreRiskAssessmentTx current next input ev id at_) any.
Proof.
  intros Hw HE Hn Ham Hvel. destruct (Evaluate_verdict _ _ _ HE) as ((Hcur & _ & _) & Hev & Hvis & Hdec & Hpol).
  rewrite transition_decision in Hn by done. destruct (follows_op _ _ _ Hw Hn) as (op & _ & _ & _ & _ & Hnw).
  destruct (apply_op_Ok _ _ _ Hw Hn) as (-> & Hal & _). pose proof (apply_op_argument _ _ _ Hw Hn) as Harg.
  pose proof Hw as ((_ & Hpos & _)%lifecycle_validate_Ok & (_ & Hamt & _) & _).
  unfold StoreRiskAssessmentTx. apply holds_let; [auto with pure|]. intros [[enc sg] cause] Hp. unfold prepareRiskAssessment in Hp.
  destruct (parseUUID id) as [cause'|]; [|done]. destruct (_ || _) eqn:Eg in Hp; [done|]. injection Hp as <- <- <-.
  rewrite !orb_false_iff in Eg. destruct Eg as ((((((((_ & Hst) & _) & _) & _) & _) & _) & _) & _). bool_simpl.
  set (next := successor (decision_op (decision ev)) current) in *. cbv zeta.
  assert (Hver : 2 <= lc_version next) by (cbn; lia).
  apply (holds_then _ _ _ _ always).
  { apply holds_exec, (update_guarded _ _ _ _ P); [done|intros r; apply Hnw|]. intros i r Hi Hck Hs Hv.
    apply status_checks; try done. exact (canonical_scan _ _ (proj1 (proj2 Hw)) Hi). }
  intros n _. apply holds_let; [pure|intros u _]. apply (holds_then _ _ _ _ always).
  { apply inserted_guarded; [apply input_stored; [by rewrite Ham|done|done]|by apply signals_stored|done|done|done|apply Hev]. }
  intros u' _. destruct (bool_decide _); [|by apply holds_ret]. apply holds_exec. intros now d Hd _.
  destruct (insertReviewCaseQuery _ _ _ now d) as [[a d']|e] eqn:E.
  - split; [|done]. eapply sound_frame; [done|eapply case_kept; [exact E|apply Hd]|..]; unfold insertReviewCaseQuery in E; untouched E.
  - unfold insertReviewCaseQuery in E. destruct (uuid_scan _); [|injection E as <-; by apply clean_other]. refusals E. lia.
Qed.

(** *** Review decisions *)

Lemma verdict_guarded id dec subject at_ P :
  visible_check 128 subject = true \/ X "transfer_review_cases_decision_check" -> holds P (DecideReviewCaseTx id dec subject at_) any.
Proof.
  intros Hsub. unfold DecideReviewCaseTx. apply holds_let; [pure|intros u _]. apply holds_let; [pure|intros [] Hd].
  apply (holds_then _ _ _ _ always); [|intros n _; apply holds_lift; [pure|done]]. apply fail_if_Ok, orb_false_iff in Hd as [Hd _].
  apply holds_exec. intros now d HG _. destruct (decideReviewCaseQuery _ _ _ _ now d) as [[n d']|e] eqn:E.
  - split; [|done]. eapply sound_frame; [done|eapply verdict_kept; [exact E|apply HG]|..]; unfold decideReviewCaseQuery in E; untouched E.
  - unfold decideReviewCaseQuery in E. destruct (uuid_scan id) as [i|]; [|injection E as <-; by apply clean_other].
    destruct (t_reviews d !! i) as [r|]; [|done]. destruct (bool_decide (rv_status r = "open")); cbn [negb] in E; [|done].
    match type of E with (if ?b then _ else _) = _ => destruct b eqn:Eg end; [|done]. apply negb_true_iff in Eg.
    injection E as <-. destruct Hsub as [Hv|Hx]; [|by apply clean_check]. exfalso. rewrite Hv, andb_true_r in Eg.
    apply andb_false_iff in Hd. destruct Hd; bool_simpl; done.
Qed.

Lemma append_guarded record P : holds P (AppendReviewDecisionTx record) any.
Proof.
  unfold AppendReviewDecisionTx. apply holds_let; [auto with pure|]. intros [] Hv. unfold validateReviewDecision in Hv.
  destruct (parseUUID _); [|done]. cbn [wrap_err mbind Result_bind] in Hv. rewrite !fail_if_bind in Hv.
  destruct Hv as (Hver & Hdec & Hsub & _). apply negb_false_iff in Hsub.
  assert (Hvis : visible_check 128 (ActorSubject record) = true) by by apply valid_subject_checked.
  apply holds_exec. intros now d HG _. destruct (insertReviewDecisionQuery _ _ _ _ _ now d) as [[u d']|e] eqn:E.
  - split; [|done]. eapply sound_frame; [done|eapply audit_kept; [exact E|apply HG]|..]; unfold insertReviewDecisionQuery in E; untouched E.
  - unfold insertReviewDecisionQuery in E. destruct (uuid_scan _); [|injection E as <-; by apply clean_other]. rewrite Hvis in E.
    refusals E. apply andb_false_iff in Hdec. destruct Hdec; bool_simpl; set_solver.
Qed.

(** ** The transactions *)

Lemma authorize_guarded t source destination P : holds P (authorizeTransferAccounts t source destination) any.
Proof.
  unfold authorizeTransferAccounts. apply (holds_then _ _ _ _ always); [by apply holds_query|]. intros rows _. cbv zeta.
  apply holds_lift; [pure|done].
Qed.

Lemma map_ledger_clean e : clean e -> clean (mapLedgerError e).
Proof. unfold mapLedgerError. repeat case_match; try done; by apply clean_cons. Qed.

Lemma create_guarded p P :
  transfer_wf (pt_transfer p) -> ids_of (pt_transfer p) (pt_id p) (pt_requesterID p) (pt_sourceID p) (pt_destinationID p) ->
  pt_entry p = transfer_entry (pt_transfer p) (requestedAt (pt_transfer p)) -> holds P (create_body p) any.
Proof.
  intros Hw Hids He. unfold create_body. apply (holds_then _ _ _ _ always); [by apply created_guarded|]. intros b _.
  destruct (negb b).
  - apply (holds_then _ _ _ _ always).
    { unfold selectTransferByKey. apply (holds_then _ _ _ _ always); [by apply holds_query|]. intros found _. apply holds_lift; [pure|done]. }
    intros stored _. apply holds_let; [pure|intros _ _]. apply (holds_then _ _ _ _ always); [apply holds_commit|]. intros; by apply holds_ret.
  - apply (holds_then _ _ _ _ always); [apply authorize_guarded|intros _ _]. apply (holds_then _ _ _ _ always).
    { apply holds_map_err; [apply map_ledger_clean|]. apply PostTx_guarded. rewrite He. by apply transfer_entry_typed. }
    intros _ _. apply (holds_then _ _ _ _ always); [apply AddTx_guarded|intros _ _].
    apply (holds_then _ _ _ _ always); [apply holds_commit|]. intros; by apply holds_ret.
Qed.

Lemma create_pending_guarded p P :
  let l := pq_lifecycle p in
  lifecycle_wf l -> lc_status l = StatusPendingRisk ->
  ids_of (lc_transfer l) (pq_id p) (pq_requesterID p) (pq_sourceID p) (pq_destinationID p) -> holds P (create_pending_body p) any.
Proof.
  intros l Hw Hst Hids. unfold create_pending_body. apply (holds_then _ _ _ _ always); [by apply pending_guarded|]. intros b _.
  destruct (negb b).
  - apply (holds_then _ _ _ _ always).
    { unfold selectLifecycleByKey. apply (holds_then _ _ _ _ always); [by apply holds_query|]. intros found _.
      apply holds_lift; [destruct found as [[]|]; pure|done]. }
    intros stored _. apply holds_let; [pure|intros _ _]. apply (holds_then _ _ _ _ always); [apply holds_commit|]. intros; by apply holds_ret.
  - apply (holds_then _ _ _ _ always); [apply authorize_guarded|intros _ _].
    apply (holds_then _ _ _ _ always); [apply AddTx_guarded|intros _ _].
    apply (holds_then _ _ _ _ always); [apply holds_commit|]. intros; by apply holds_ret.
Qed.

Lemma captured h current at_ :
  (forall account transfer at_ n, velocity h account transfer at_ = Ok n -> in_int64 n) ->
  in_Amount (captureInput h current at_) = transfer_amount (lc_transfer current) /\
  in_int64 (VelocityTransferCount (captureInput h current at_)).
Proof.
  intros Hv. unfold captureInput. destruct (velocity h _ _ _) eqn:E; [split; [done|by eapply Hv]|split; [done|cbn; int64_lia]].
Qed.

Lemma risk_guarded h env requested policy P :
  (forall account transfer at_ n, velocity h account transfer at_ = Ok n -> in_int64 n) ->
  ParseRequested env = Ok requested -> holds P (RiskWorker.handle_body h env requested policy) any.
Proof.
  intros Hvel Hp. destruct (requested_event _ _ Hp) as [Hty _]. unfold RiskWorker.handle_body.
  apply (holds_then _ _ _ _ always); [apply ReserveTx_guarded; by rewrite Hty|]. intros b _. destruct (negb b); [apply holds_commit|].
  apply (holds_then _ _ _ _ lifecycle_wf); [apply load_guarded|]. intros current Hw.
  destruct (conflicts current requested); [apply holds_err; by apply clean_sentinels|]. cbv zeta.
  destruct (captured h current (UTC (RiskWorker.now h)) Hvel) as [Ham Hn].
  apply holds_let; [auto with pure|intros ev HE]. apply holds_let; [auto with pure|intros next Hnext].
  apply (holds_then _ _ _ _ always); [by eapply assessment_guarded|intros _ _].
  apply holds_let; [auto with pure|intros e _].
  apply (holds_then _ _ _ _ always); [apply AddTx_guarded|intros _ _; apply holds_commit].
Qed.

(** The transition, its event and the commit that end a settlement. *)
Lemma concluded_guarded current rnext announce op P :
  lifecycle_wf current -> rnext = apply_op op current -> (forall next, pure (announce next)) ->
  holds P (next ← lift rnext; _ ← StoreLifecycleTransitionTx current next; draft ← lift (announce next); _ ← AddTx draft; commit) any.
Proof.
  intros Hw -> Ha. apply holds_let; [apply pure_apply_op|intros next Hn].
  apply (holds_then _ _ _ _ always); [by eapply transition_guarded, follows_op|intros _ _].
  apply holds_let; [apply Ha|intros e _]. apply (holds_then _ _ _ _ always); [apply AddTx_guarded|intros _ _; apply holds_commit].
Qed.

Lemma post_guarded current causation at_ P : lifecycle_wf current -> holds P (TransactionWorker.post current causation at_) any.
Proof.
  intros Hw. unfold TransactionWorker.post. apply holds_let; [auto with pure|]. intros e [_ ->]%journalEntry_Ok; [|done].
  apply (holds_catch _ _ _ _ _ _ any); [apply PostTx_guarded; by apply transfer_entry_typed, Hw| |].
  - intros err He. destruct (negb _); [by apply holds_err|]. unfold TransactionWorker.fail.
    apply (concluded_guarded current _ (fun next => Failed next at_ causation) (OpFail TransactionWorker.insufficientFundsReason)); [done|done|auto with pure].
  - intros u. apply (concluded_guarded current _ (fun next => CompletedLifecycle next at_ causation) OpComplete); [done|done|auto with pure].
Qed.

Lemma assessed_guarded now env a P : validEventType (eventType (draft env)) = true -> holds P (assessment_body now env a) any.
Proof.
  intros Hty. unfold assessment_body. apply (holds_then _ _ _ _ always); [by apply ReserveTx_guarded|]. intros b _.
  destruct (negb b); [apply holds_commit|]. apply (holds_then _ _ _ _ lifecycle_wf); [apply load_guarded|]. intros current Hw.
  destruct (_ || _); [apply holds_err; by apply clean_sentinels|]. destruct (negb _); [apply holds_commit|by apply post_guarded].
Qed.

Lemma reviewed_guarded now env d P : validEventType (eventType (draft env)) = true -> holds P (review_body now env d) any.
Proof.
  intros Hty. unfold review_body. apply (holds_then _ _ _ _ always); [by apply ReserveTx_guarded|]. intros b _.
  destruct (negb b); [apply holds_commit|]. apply (holds_then _ _ _ _ lifecycle_wf); [apply load_guarded|]. intros current Hw.
  destruct (_ || _); [apply holds_err; by apply clean_sentinels|]. destruct (bool_decide _); [apply holds_commit|by apply post_guarded].
Qed.

Lemma decide_guarded now p id d P :
  visible_check 128 (Subject p) = true \/ X "transfer_review_cases_decision_check" -> holds P (decide_body now p id d) any.
Proof.
  intros Hsub. unfold decide_body. apply (holds_then _ _ _ _ lifecycle_wf); [apply load_guarded|]. intros current Hw.
  destruct (negb _); [apply holds_err; by apply clean_sentinels|]. cbv zeta.
  apply holds_let; [destruct (bool_decide _); [apply (pure_apply_op OpApprove)|apply (pure_apply_op OpDecline)]|]. intros next Hn.
  apply (holds_then _ _ _ _ always).
  { apply transition_guarded. destruct (bool_decide _); [by apply (follows_op _ OpApprove)|by apply (follows_op _ OpDecline)]. }
  intros _ _. apply (holds_then _ _ _ _ always); [by apply verdict_guarded|intros _ _].
  apply (holds_then _ _ _ _ always); [apply append_guarded|intros _ _].
  apply holds_let; [auto with pure|intros e _].
  apply (holds_then _ _ _ _ always); [apply AddTx_guarded|intros _ _; apply holds_commit].
Qed.

Lemma wallet_body_guarded owner codes P :
  Forall (fun code => currency_check code = true) codes -> holds P (create_wallet_body owner codes) any.
Proof.
  intros Hc. unfold create_wallet_body, insertWallet. apply (holds_then _ _ _ _ always).
  { apply (holds_then _ _ _ _ always); [apply wallet_guarded|]. intros [id row] _. apply holds_lift; [pure|done]. }
  intros created _. apply (holds_then _ _ _ _ always).
  { induction Hc as [|code codes Hcode _ IH]; cbn [insert_accounts]; [by apply holds_ret|]. unfold insertAccount.
    apply (holds_then _ _ _ _ always).
    - apply (holds_then _ _ _ _ always); [by apply account_guarded|]. intros r _. apply holds_lift; [pure|done].
    - intros account _. apply (holds_then _ _ _ _ always); [exact IH|]. intros; by apply holds_ret. }
  intros accounts _. apply (holds_then _ _ _ _ always); [apply holds_commit|]. intros; by apply holds_ret.
Qed.

Lemma claim_guarded locked limit token secs P : holds P (claim_body locked limit token secs) any.
Proof.
  unfold claim_body. apply (holds_then _ _ _ _ always).
  { apply holds_exec. intros now d HG _. destruct (claimEventsQuery _ _ _ _ now d) as [[rows d']|e] eqn:E.
    - split; [|done]. eapply sound_frame; [done|eapply claim_kept; [exact E|apply HG]|..]; unfold claimEventsQuery in E; cbv zeta in E; untouched E.
    - unfold claimEventsQuery in E. destruct (uuid_scan token); [done|]. injection E as <-. by apply clean_other. }
  intros rows _. apply holds_let; [auto with pure|]. intros claimed _.
  apply (holds_then _ _ _ _ always); [apply holds_commit|]. intros; by apply holds_ret.
Qed.

(** ** The operations *)

Abbreviation op_ok := (op_ok sound_tables X).

Lemma post_attempts_guarded left prepared e : prepared_wf prepared -> clean e -> op_ok (post_attempts left prepared e).
Proof.
  intros Hw. revert e. induction left as [|left IH]; intros e He s w r w'; cbn [post_attempts].
  { intros [= <- <-] HG. split; [done|by apply clean_cons]. }
  destruct (cancelled s (tick w)); [intros [= <- <-] HG; split; [done|by apply clean_sentinels]|].
  destruct (postOnce prepared s w) as [r1 w1] eqn:E. intros HR HG.
  assert (Ho : op_ok (postOnce prepared)).
  { apply (run_tx_ok _ _ _ _ always); [done|]. apply (holds_then _ _ _ _ always); [by apply prepared_guarded|intros u _].
    apply (holds_then _ _ _ _ always); [apply holds_commit|]. intros; by apply holds_ret. }
  destruct (Ho _ _ _ _ E HG) as [HG1 Hr]. destruct r1 as [u|e1]; [by injection HR as <- <-|].
  destruct (LedgerRepo.isRetryableTransaction e1); [exact (IH _ Hr _ _ _ _ HR HG1)|]. injection HR as <- <-.
  split; [done|by apply classify_post_clean].
Qed.

Lemma create_attempts_guarded {A} left (once : Service -> World -> Result A * World) e :
  op_ok once -> clean e -> op_ok (create_attempts left once e).
Proof.
  intros Ho. revert e. induction left as [|left IH]; intros e He s w r w'; cbn [create_attempts].
  { intros [= <- <-] HG. split; [done|by apply clean_cons]. }
  destruct (cancelled s (tick w)); [intros [= <- <-] HG; split; [done|by apply clean_sentinels]|].
  destruct (once s w) as [r1 w1] eqn:E. intros HR HG.
  destruct (Ho _ _ _ _ E HG) as [HG1 Hr]. destruct r1 as [u|e1]; [by injection HR as <- <-|].
  destruct (TransferRepo.isRetryableTransaction e1); [exact (IH _ Hr _ _ _ _ HR HG1)|]. injection HR as <- <-.
  split; [done|]. cbn. unfold classifyCreateError. repeat case_match; try done. by apply clean_cons.
Qed.

Lemma quarantine_guarded record : op_ok (quarantine_Store record).
Proof.
  intros s w r w'. unfold quarantine_Store. destruct (validateRecord record) as [[]|e] eqn:Ev.
  2:{ intros [= <- <-] HG. pose proof (pure_validateRecord record) as Hp. rewrite Ev in Hp. split; [done|by apply clean_sentinels]. }
  apply validateRecord_Ok in Ev as (Hn & Ht & Hp & Ho & Hr). cbv zeta. apply run_stmt_ok. intros now d HG.
  destruct (insertQuarantineQuery _ _ _ _ _ now d) as [[a d']|e] eqn:E.
  - eapply sound_frame; [done|eapply quarantine_kept; [exact E|apply HG]|..]; unfold insertQuarantineQuery in E; untouched E.
  - unfold insertQuarantineQuery in E. destruct (RecordValue record) as [v|]; [|injection E as <-; by apply clean_other].
    cbn [value_excerpt fmap option_fmap option_map slice_bytes default] in E. unfold maxTopicBytes in Ht.
    rewrite Hn, Bool.eqb_reflx, len_excerpt, length_Sum256 in E. pose proof (len_nonneg v).
    assert (Hreason : bool_decide (ReasonCode record = "invalid_envelope") || bool_decide (ReasonCode record = "unsupported_event_type") = true)
      by (apply orb_true_iff; rewrite !bool_decide_eq_true; exact Hr).
    rewrite Hreason in E. refusals E; unfold maxValueExcerptBytes, id in *; lia.
Qed.

Lemma published_guarded id token : X "outbox_events_publication_time_check" -> op_ok (MarkPublished id token).
Proof.
  intros Hx s w r w'. unfold MarkPublished. pose proof (pure_parseIdentity id token) as Hp.
  destruct (parseClaimIdentity id token) as [[i t]|]; [|intros [= <- <-] HG; split; [done|by apply clean_sentinels]].
  apply (one_row_ok _ _ (run_stmt _)), run_stmt_ok. intros now d HG. destruct (markPublishedQuery i t now d) as [[n d']|e] eqn:E.
  - eapply sound_frame; [done|eapply published_kept; [exact E|apply HG]|..]; unfold markPublishedQuery in E; untouched E.
  - unfold markPublishedQuery in E. destruct (t_outbox d !! i); [|done]. destruct (held t _); cbn [negb] in E; [|done].
    destruct (_ <? _); [|done]. injection E as <-. by apply clean_check.
Qed.

Lemma failed_guarded id token delay text : X "outbox_events_availability_check" -> op_ok (MarkFailed id token delay text).
Proof.
  intros Hx s w r w'. unfold MarkFailed. pose proof (pure_parseIdentity id token) as Hp.
  destruct (parseClaimIdentity id token) as [[i t]|]; [|intros [= <- <-] HG; split; [done|by apply clean_sentinels]].
  destruct (_ || _); [intros [= <- <-] HG; split; [done|by apply clean_sentinels]|].
  apply (one_row_ok _ _ (run_stmt _)), run_stmt_ok. intros now d HG.
  destruct (markFailedQuery i t _ _ now d) as [[n d']|e] eqn:E.
  - eapply sound_frame; [done|eapply released_kept; [exact E|apply HG]|..]; unfold markFailedQuery in E; cbv zeta in E; untouched E.
  - unfold markFailedQuery in E. cbv zeta in E. destruct (t_outbox d !! i); [|done]. destruct (held t _); cbn [negb] in E; [|done].
    destruct (_ <? _); [injection E as <-; by apply clean_check|]. destruct (sanitizeDiagnostic_bounds text) as [[Hl Hu] _].
    unfold maxDiagnosticBytes in Hu. destruct (_ || _) eqn:Eb in E; [|done]. lia.
Qed.

Lemma Post_guarded e : entry_typed e -> op_ok (Post e).
Proof.
  intros Ht. apply (op_ok_match _ _ (prepareEntry e)); [auto with pure|]. intros p [Hw _]%prepareEntry_Ok; [|done].
  apply post_attempts_guarded; [done|by apply clean_sentinels].
Qed.

Lemma Create_guarded t : transfer_typed t -> op_ok (TransferRepo.Create t).
Proof.
  intros Ht. apply (op_ok_match _ _ (prepareTransfer t)); [auto with pure|]. intros p (_ & Hw & Hids & He & _)%prepareTransfer_Ok; [|done].
  apply create_attempts_guarded; [|by apply clean_sentinels]. apply (run_tx_ok _ _ _ _ always); [done|by apply create_guarded].
Qed.

Lemma CreatePending_guarded l :
  transfer_typed (lc_transfer l) -> UTC (requestedAt (lc_transfer l)) = requestedAt (lc_transfer l) -> in_int64 (lc_version l) ->
  op_ok (CreatePending l).
Proof.
  intros Ht Hu Hv. apply (op_ok_match _ _ (preparePendingTransfer l)); [auto with pure|].
  intros p (Hw & Htr & Hst & Hids & _)%preparePending_Ok; [|done..].
  apply create_attempts_guarded; [|by apply clean_sentinels]. apply (run_tx_ok _ _ _ _ always); [done|].
  apply create_pending_guarded; [done|done|by rewrite Htr].
Qed.

Lemma Assess_guarded h env :
  (forall account transfer at_ n, velocity h account transfer at_ = Ok n -> in_int64 n) -> op_ok (RiskWorker.Handle h env).
Proof.
  intros Hv. apply (op_ok_match _ _ (ParseRequested env)); [apply pure_parse|]. intros requested Hp.
  destruct (policies h !! riskPolicyVersion requested) as [policy|]; [|by apply (op_ok_pure _ _ (Err [ErrUnknownPolicy]))].
  apply (run_tx_ok _ _ _ _ always); [done|by apply risk_guarded].
Qed.

Lemma Transact_guarded now env : op_ok (TransactionWorker.Handle now env).
Proof.
  intros s w r w'. unfold TransactionWorker.Handle. case_bool_decide as Ety.
  - revert s w r w'. apply (op_ok_match _ _ (ParseReviewDecided env)); [apply pure_parse|]. intros d _.
    apply (run_tx_ok _ _ _ _ always); [done|apply reviewed_guarded; by rewrite Ety].
  - revert s w r w'. apply (op_ok_match _ _ (ParseRiskAssessed env)); [apply pure_parse|]. intros a Hp.
    apply (run_tx_ok _ _ _ _ always); [done|apply assessed_guarded]. unfold ParseRiskAssessed in Hp.
    destruct (_ || _) eqn:E in Hp; [done|]. rewrite !orb_false_iff in E. destruct E as ((((E & _) & _) & _) & _). bool_simpl. by rewrite E.
Qed.

Lemma Decide_guarded now p id d :
  (ReviewCase.validSubject (Subject p) = true -> visible_check 128 (Subject p) = true \/ X "transfer_review_cases_decision_check") ->
  op_ok (ReviewCase.Decide now p id d).
Proof.
  intros Hsub. unfold ReviewCase.Decide. apply op_ok_guard; [done|]. intros Hg. apply op_ok_guard; [done|intros _].
  apply orb_false_iff in Hg as [_ Hg%negb_false_iff]. apply (run_tx_ok _ _ _ _ always); [done|by apply decide_guarded, Hsub].
Qed.

Lemma CreateWallet_guarded owner cs : op_ok (WalletRepo.Create owner cs).
Proof.
  apply (op_ok_match _ _ (wrap_err _ (parseUUID owner)) (fun u s w => match normalizeCurrencies cs with
    | Err e => (Err e, w) | Ok codes => run_tx true (create_wallet_body u codes) s w end)); [pure|]. intros u _.
  apply (op_ok_match _ _ (normalizeCurrencies cs)); [auto with pure|]. intros codes (_ & _ & _ & Hc)%normalizeCurrencies_Ok.
  apply (run_tx_ok _ _ _ _ always); [done|by apply wallet_body_guarded].
Qed.

Lemma Claim_guarded random locked limit lease : pure random -> op_ok (Claim random locked limit lease).
Proof.
  intros Hr. unfold Claim. apply op_ok_guard; [done|intros _]. apply op_ok_guard; [done|intros _].
  apply (op_ok_match _ _ (newClaimToken random)); [by destruct random|]. intros token _.
  apply (run_tx_ok _ _ _ _ always); [done|apply claim_guarded].
Qed.

End Guards.

(** ** Calls *)

Section Calls.
Context `{Pg}.

(** The operations that write, with their arguments. *)
Inductive Call :=
| CallPost (e : JournalEntry)
| CallCreate (t : Transfer)
| CallCreatePending (l : Lifecycle)
| CallAssess (h : Handler) (env : Envelope)
| CallTransact (now : Time) (env : Envelope)
| CallDecide (now : Time) (p : TrustedPrincipal) (transferID decision : string)
| CallCreateWallet (ownerID : string) (currencies : list Currency)
| CallQuarantine (record : PoisonRecord)
| CallClaim (random : Result (list Z)) (locked : UUID -> bool) (limit lease : Z)
| CallMarkPublished (eventID token : string)
| CallMarkFailed (eventID token : string) (delay : Z) (diagnostic : string).

(** Whether a call succeeded, and the tables it left. *)
Definition void {A} (p : Result A * World) : Result unit * World :=
  (match p.1 with Ok _ => Ok tt | Err e => Err e end, p.2).

Definition perform (c : Call) (s : Service) (w : World) : Result unit * World :=
  match c with
  | CallPost e => Post e s w
  | CallCreate t => void (TransferRepo.Create t s w)
  | CallCreatePending l => void (CreatePending l s w)
  | CallAssess h env => RiskWorker.Handle h env s w
  | CallTransact now env => TransactionWorker.Handle now env s w
  | CallDecide now p id d => ReviewCase.Decide now p id d s w
  | CallCreateWallet owner cs => void (WalletRepo.Create owner cs s w)
  | CallQuarantine record => quarantine_Store record s w
  | CallClaim random locked limit lease => void (Claim random locked limit lease s w)
  | CallMarkPublished id token => MarkPublished id token s w
  | CallMarkFailed id token delay diagnostic => MarkFailed id token delay diagnostic s w
  end.

(** The arguments are values of their Go types: amounts, versions and counts are
    [int64], and a lifecycle holds a transfer as [NewTransfer] makes it, in UTC.
    The random source's failure is not the database's. *)
Definition typed (c : Call) : Prop :=
  match c with
  | CallPost e => entry_typed e
  | CallCreate t => transfer_typed t
  | CallCreatePending l =>
      transfer_typed (lc_transfer l) /\ UTC (requestedAt (lc_transfer l)) = requestedAt (lc_transfer l) /\ in_int64 (lc_version l)
  | CallAssess h _ => forall account transfer at_ n, velocity h account transfer at_ = Ok n -> in_int64 n
  | CallClaim random _ _ _ => pure random
  | _ => True
  end.

(** The CHECK constraints the code leaves to the server: those on its clock, and
    the one on the deciding subject, whose surrounding white space the code does
    not refuse. *)
Definition left_to_server (c : Call) (constraint : string) : Prop :=
  match c with
  | CallMarkPublished _ _ => constraint = "outbox_events_publication_time_check"
  | CallMarkFailed _ _ _ _ => constraint = "outbox_events_availability_check"
  | CallDecide _ p _ _ => constraint = "transfer_review_cases_decision_check" /\ TrimSpace (Subject p) <> Subject p
  | _ => False
  end.

Lemma void_ok G X {A} (op : Service -> World -> Result A * World) : op_ok G X op -> op_ok G X (fun s w => void (op s w)).
Proof.
  intros Ho s w r w' [= <- <-] HG. destruct (op s w) as [r1 w1] eqn:E. destruct (Ho _ _ _ _ E HG) as [? Hr]. by destruct r1.
Qed.

End Calls.

Section Performed.
Context `{PgLaws} `{!JsonbLaws}.

(** A subject that passes the handler's check is one the schema admits, unless
    white space surrounds it. *)
Lemma subject_admitted p : ReviewCase.validSubject (Subject p) = true ->
  visible_check 128 (Subject p) = true \/ TrimSpace (Subject p) <> Subject p.
Proof.
  intros Hv. destruct (decide (TrimSpace (Subject p) = Subject p)) as [E|]; [left|by right].
  apply valid_subject_checked. unfold ReviewCase.validSubject in Hv. rewrite E in Hv. exact Hv.
Qed.

Lemma perform_guarded c : typed c -> op_ok sound_tables (left_to_server c) (perform c).
Proof.
  destruct c as [e|t|l|h env|now env|now p id d|owner cs|record|random locked limit lease|id token|id token delay text]; intros Ht.
  - by apply Post_guarded.
  - by apply void_ok, Create_guarded.
  - destruct Ht as (? & ? & ?). by apply void_ok, CreatePending_guarded.
  - by apply Assess_guarded.
  - apply Transact_guarded.
  - apply Decide_guarded. intros [Hv|Hs]%subject_admitted; [by left|by right].
  - apply void_ok, CreateWallet_guarded.
  - apply quarantine_guarded.
  - by apply void_ok, Claim_guarded.
  - by apply published_guarded.
  - by apply failed_guarded.
Qed.

Lemma run_sound w0 w : initial (committed w0) -> schema_ok (committed w0) -> run w0 w -> sound_tables (committed w).
Proof.
  intros Hi Hs HR. assert (Hinv : wallet_inv (committed w)) by (apply reachable_inv; by exists w0).
  split; [by eapply (run_keeps schema_ok)| |intros id r Hr; apply (wi_row _ Hinv _ _ Hr)]. apply (wi_ledger _ Hinv).
Qed.

End Performed.


Definition padded_decision : Call :=
  CallDecide sample_now (mkPrincipal " analyst-1" RoleAnalyst) (uuid_text id_large) "approved".

Lemma run_to_complete : run opening after_complete.
Proof.
  exact (run_step opening after_funding after_complete (post_step funding opening funding_typed)
    (run_step after_funding after_accept after_complete (accepted_step id_small "key-small" 10 after_funding eq_refl)
      (run_step after_accept after_accepts after_complete (accepted_step id_large "key-large" 60 after_accept eq_refl)
        (run_step after_accepts after_assess after_complete (assess_step assessor small_requested after_accepts)
          (run_step after_assess after_refer after_complete (assess_step assessor large_requested after_assess)
            (rtc_once _ _ (transact_step small_assessed after_refer))))))).
Qed.

